(* ===== verification/_CoqProject ===== *)
-Q . S2P
Prelude.v
Errors.v
Strconv.v
Text.v
Crypto.v
Json.v
Time.v
Domain.v
Effects.v
Postgres.v
World.v
Server.v
Logic.v
Concurrency.v
Ports.v
Repos.v
RedisStores.v
Rules.v
Solo.v
Gin.v
Response.v
Dto.v
AuthService.v
MerchantService.v
ReportingService.v
WebhookService.v
AuditService.v
EncryptionService.v
HashService.v
SignatureService.v
TokenService.v
PaymentService.v
Middleware.v
Handlers.v
Router.v
Config.v
Startup.v
Ledger.v
LedgerInv.v
Aside.v
Pieces.v
PaymentSpec.v
Beside.v
Payments.v
Money.v
Tidy.v
Accounts.v
AccountTheorems.v
Authentication.v
Requests.v
AuditTrail.v
StartupTheorems.v
RateLimits.v
Delivery.v
Reports.v
HttpMoney.v
Codecs.v
Instances.v
Columns.v
PaymentTheorems.v
HttpTheorems.v
RefundTheorems.v
PaymentConcurrency.v
LockOrder.v
Orderly.v
Drain.v
Shutdown.v
Bank.v
Demo.v
PaymentWitnesses.v
AccountWitnesses.v
RequestWitnesses.v
ServiceWitnesses.v
StartupWitnesses.v
