(* ===== verification/Prelude.v ===== *)
(** * Secure Payment Gateway: verification development

    The repository is a payment gateway: merchants register, get an access key and a secret
    key, and call an HTTP API to charge, refund and top up an encrypted wallet balance; the
    gateway keeps transactions in PostgreSQL, caches answers, nonces and request counters in
    Redis, and notifies the merchant's server by signed webhooks.  This library translates the
    program's own code and proves what it promises, from single functions to HTTP requests
    that interleave while operations fail.  Paths below are under src/.

    ** How a program is modelled

    A Go function without effects is a Rocq function; Go's (value, error) is [result]
    (Prelude), errors with their wrapped causes are [Errors.error].  A function with effects
    is a [prog] (Effects): a tree of operations - SQL statements, Redis commands, clock,
    entropy, outgoing posts, sleeping, and [go] statements - written with the notations
    [do], [try] (return on error) and [check].  The outside world is a parameter: a [Backend]
    executes operations on its states, [BackendLaws] (World) state PostgreSQL's documented
    behaviour at READ COMMITTED (row locks, unique and foreign keys, column types, uncommitted
    writes, text that is no UTF-8 or holds a NUL and instants past its calendar, which it
    refuses in queries as well as in writes), the pool of at least one connection, which a transaction keeps until its end,
    Redis with expiring keys, and that any operation may fail, a COMMIT also after it
    took effect.  Postgres gives the meaning of each statement the adapter sends.  [Server] is
    a concrete backend that satisfies the laws and executes, so that the witnesses run.  What a
    run did beside its effects - drawn identifiers and random bytes, goroutines started, posts,
    sleeps - is its list of [World.event]s.

    A program is run alone with [World.run], or in a pool with others in any order
    ([Concurrency.pool_step]).  [Logic] and [Rules] are a program logic for both: [wp D flt p Q]
    says what a goroutine may conclude while others keep the discipline D, flt telling whether
    operations may fail; [Solo] is the logic for a request that runs alone.  Loops of the
    program have a bound of their own (the webhook's six attempts are the [fuel] of
    [WebhookService.attempts]); fuel of the library functions (decimal digits, JSON, chunks) is
    the length of the input or a bound on it, with lemmas that it is enough ([format_fuel],
    [chunks_fuel_enough], [json_parse_print]).  Integers are [Z] with [wrap64] wherever Go's
    int64 arithmetic can overflow.

    ** The parts, in the order of the files

    - Go's standard library as far as used: Strconv, Text, Json, Time, Crypto (AES-256-GCM,
      SHA-256, HMAC, executable, with published test vectors).
    - pkg/apperror and pkg/response: Errors, Response.
    - internal/core/domain and internal/core/ports: Domain, Ports (the service interfaces as
      classes with laws; EncryptionService, HashService, SignatureService and TokenService
      are proved to meet them in [aes_laws], [argon2_laws], [HMACSignatureLaws], [jwt_laws]).
    - internal/adapter/storage: Repos (postgres), RedisStores (redis).
    - internal/service: AuthService, MerchantService, ReportingService, WebhookService,
      AuditService, EncryptionService, HashService, SignatureService, TokenService,
      PaymentService, one file each.
    - internal/adapter/http: Gin (what is used of the framework), Dto, Middleware, Handlers,
      Router.  A request is [Router.ServeHTTP].
    - config, pkg/logger and cmd/api: Config, Startup ([Startup.main], [Startup.app_ServeHTTP]).

    ** What is proved

    - The abstract specification of the money is Ledger (steps on tables) with its invariants
      in LedgerInv, and Bank (accounts and a book, no tables or ciphers).  PaymentSpec proves
      that ProcessPayment, ProcessRefund and ProcessTopup perform ledger steps or nothing;
      Aside, Pieces and Beside that everything else a request does keeps out of the ledger's
      way.  PaymentConcurrency and Bank draw the conclusions for every interleaving:
      conservation of money, one payment per reference, one refund per payment, no overdraft,
      refinement of the bank.  A reachable state ([PaymentConcurrency.reachable]) may lie
      behind any number of stops of the process, at any moment, and restarts.
    - LockOrder, Orderly and Drain: requests take their row locks in one order (wallet, new
      transaction, original, idempotency key) and never ask for a second connection, so no
      interleaving deadlocks, and all end.
    - Shutdown: the life of the process after its start ([Shutdown.life]): it listens; at the
      signal it drains, until its requests are answered or ten seconds have passed; it closes
      the pool, which waits for every connection; it exits.  Every shutdown completes, and no
      earlier than that.
    - PaymentTheorems and RefundTheorems: the contract of a call that runs alone, on every
      branch: effects, atomicity of errors, idempotency, overflow of top-ups, and what decides
      the answer when nothing fails.  Columns says which requests the database can store.
    - AuditTrail: every route that is not a GET is one of the seven that mapPathToAction names,
      and whichever of them answers with success, the goroutine that it starts last records it.
    - Money: the three calls that move money as one ([Money.Movement]), atomicity of errors.
    - Authentication, HttpMoney, HttpTheorems: whole requests to the routes that
      move money: every way such a request can end and why ([HttpMoney.verdict]), what 201 and
      other statuses mean, that requests in order are carried out and their merchant's webhook
      told, that nothing happens without a signature or token, replays.
    - RateLimits: requests of one client that pass the limiter at the same time, in any
      interleaving ([RateLimits.crowd_step]), draw tickets from the counter of the window.
    - Tidy, Requests, StartupTheorems: every request leaves the world ready and no transaction
      open, and every sequence of requests to the server that main starts ends; where each
      field of the configuration comes from, and when loading it fails.
    - Accounts, AccountTheorems: registration and what its errors leave behind, login, key
      rotation with keys of freshly drawn bytes, webhook URL.
    - Delivery: the plan of a webhook delivery, its log, when one starts.
    - Reports: balance, lists and statistics against what the tables hold.
    - Codecs: cached answers, ciphers, canonical strings, idempotency keys.
    - Demo and the files named Witnesses instantiate every parameter (Instances) and every
      theorem with hypotheses at concrete inputs; [RequestWitnesses.replay_window] and
      [Codecs.canonical_ambiguous] show that conditions of two theorems are needed.

    ** Third-party code, as parameters with laws

    UUIDs ([UUIDLib]), the rendering of JSONB and timestamps by the server ([PgLib]), Argon2id
    ([Argon2]), golang-jwt ([JWT]), the validator ([Validator]), URL parsing ([URLParser],
    [RequestURI]), gin's answers to unknown paths ([GinFallback]), viper ([ViperLib]), pgxpool
    ([PgxPool]).

    ** Not modelled

    The share locks of foreign-key checks, which conflict with none that the program holds
    across statements, and the order in which one statement locks several rows; log lines; panics
    (the Recovery middleware just passes on); cancelled contexts and timeouts, other than as
    operations that fail; the local time zone (UTC is assumed); the sockets and connections
    of the HTTP server; the limit of encoding/json on nesting; the texts of standard-library
    errors where they reach no caller; the constructors that only store their arguments;
    generated mocks and the in-memory repositories of the integration tests; the page of the
    Swagger UI. *)

From stdpp Require Export base tactics list option strings gmap.
From Stdlib Require Export ZArith Lia.
From Stdlib Require Import Ascii.

#[global] Open Scope Z_scope.

(** ** Results: Go's [(value, error)] pairs *)

(** A Go call returning [(T, error)] either has a nil error and a value, or a
    non-nil error and a value nobody may look at. *)
Inductive result (E A : Type) : Type :=
| Ok (a : A)
| Err (e : E).
Arguments Ok {E A} a.
Arguments Err {E A} e.

Definition is_ok {E A} (r : result E A) : bool :=
  match r with Ok _ => true | Err _ => false end.

Definition result_map {E A B} (f : A -> B) (r : result E A) : result E B :=
  match r with Ok a => Ok (f a) | Err e => Err e end.

Definition result_bind {E A B} (r : result E A) (f : A -> result E B) : result E B :=
  match r with Ok a => f a | Err e => Err e end.

Declare Scope go_scope.
Delimit Scope go_scope with go.
#[global] Open Scope go_scope.

Notation "'let!' x := r 'in' k" := (result_bind r (fun x => k))
  (at level 10, x pattern, r at level 100, k at level 200) : go_scope.

Lemma result_bind_Ok {E A B} (r : result E A) (f : A -> result E B) b :
  result_bind r f = Ok b -> exists a, r = Ok a /\ f a = Ok b.
Proof. destruct r; simpl; [eauto|done]. Qed.

Lemma result_bind_Err {E A B} (r : result E A) (f : A -> result E B) e :
  result_bind r f = Err e -> r = Err e \/ exists a, r = Ok a /\ f a = Err e.
Proof. destruct r; simpl; [eauto|intros [= ->]; by left]. Qed.

(** ** 64-bit signed integers *)

Definition min_int64 : Z := - 2 ^ 63.
Definition max_int64 : Z := 2 ^ 63 - 1.

(** Go's wrap-around on [int64]. *)
Definition wrap64 (z : Z) : Z := (z + 2 ^ 63) mod 2 ^ 64 - 2 ^ 63.

Definition in_int64 (z : Z) : Prop := min_int64 <= z <= max_int64.
Definition in_int64b (z : Z) : bool := (min_int64 <=? z) && (z <=? max_int64).

(** The [int64] operators the code uses. *)
Definition add64 (a b : Z) : Z := wrap64 (a + b).
Definition sub64 (a b : Z) : Z := wrap64 (a - b).
Definition mul64 (a b : Z) : Z := wrap64 (a * b).

(** ** Strings as byte sequences *)

Fixpoint string_forallb (f : ascii -> bool) (s : string) : bool :=
  match s with
  | EmptyString => true
  | String c s' => f c && string_forallb f s'
  end.

Fixpoint string_existsb (f : ascii -> bool) (s : string) : bool :=
  match s with
  | EmptyString => false
  | String c s' => f c || string_existsb f s'
  end.

(** [strings.Join] and [strings.HasPrefix]-like helpers the code uses. *)
Fixpoint strings_join (sep : string) (l : list string) : string :=
  match l with
  | [] => EmptyString
  | [x] => x
  | x :: l' => x +:+ sep +:+ strings_join sep l'
  end.

(** Go's [s[:n]] and [s[n:]] for [n <= len s]. *)
Fixpoint str_take (n : nat) (s : string) : string :=
  match n, s with
  | S n', String c s' => String c (str_take n' s')
  | _, _ => EmptyString
  end.

Fixpoint str_drop (n : nat) (s : string) : string :=
  match n, s with
  | S n', String _ s' => str_drop n' s'
  | _, _ => s
  end.

Definition byte_val (c : ascii) : Z := Z.of_N (N_of_ascii c).
Definition byte_of (z : Z) : ascii := ascii_of_N (Z.to_N (z mod 256)).

(** ** Lemmas *)

Lemma wrap64_range z : in_int64 (wrap64 z).
Proof.
  unfold in_int64, wrap64, min_int64, max_int64.
  pose proof (Z.mod_pos_bound (z + 2 ^ 63) (2 ^ 64) ltac:(lia)). lia.
Qed.

Lemma wrap64_id z : in_int64 z -> wrap64 z = z.
Proof.
  unfold in_int64, wrap64, min_int64, max_int64. intros H.
  rewrite Z.mod_small by lia. lia.
Qed.

Lemma wrap64_idem z : wrap64 (wrap64 z) = wrap64 z.
Proof. apply wrap64_id, wrap64_range. Qed.

Lemma wrap64_congr a b : a mod 2 ^ 64 = b mod 2 ^ 64 -> wrap64 a = wrap64 b.
Proof.
  intros H. unfold wrap64. f_equal.
  rewrite (Zplus_mod a), (Zplus_mod b), H. reflexivity.
Qed.

(** One wrap past the largest integer. *)
Lemma wrap64_over z : max_int64 < z < max_int64 + 2 ^ 64 -> wrap64 z = z - 2 ^ 64.
Proof.
  intros H. rewrite <- (wrap64_id (z - 2 ^ 64)).
  - apply wrap64_congr. rewrite Zminus_mod, Z_mod_same_full, Z.sub_0_r, Zmod_mod. done.
  - unfold in_int64, min_int64, max_int64 in *. lia.
Qed.

Lemma wrap64_mod z : wrap64 z mod 2 ^ 64 = z mod 2 ^ 64.
Proof.
  unfold wrap64. rewrite Zminus_mod_idemp_l. f_equal. lia.
Qed.

Lemma wrap64_add_l a b : wrap64 (wrap64 a + b) = wrap64 (a + b).
Proof.
  apply wrap64_congr.
  rewrite Zplus_mod, wrap64_mod, <- Zplus_mod. reflexivity.
Qed.

Lemma wrap64_sub_l a b : wrap64 (wrap64 a - b) = wrap64 (a - b).
Proof. unfold Z.sub. apply wrap64_add_l. Qed.

Lemma in_int64b_spec z : in_int64b z = true <-> in_int64 z.
Proof. unfold in_int64b, in_int64. rewrite andb_true_iff, !Z.leb_le. done. Qed.

#[export] Instance in_int64_dec z : Decision (in_int64 z).
Proof. unfold in_int64. apply _. Defined.

(** *** Strings *)

#[local] Arguments String.append !_ _ / : simpl nomatch.

Lemma str_app_cons c a b : String.append (String c a) b = String c (String.append a b).
Proof. done. Qed.

Lemma str_app_nil_r s : String.append s EmptyString = s.
Proof. induction s; simpl; congruence. Qed.

Lemma str_app_assoc a b c :
  String.append (String.append a b) c = String.append a (String.append b c).
Proof. induction a; simpl; congruence. Qed.

Lemma str_length_app a b :
  String.length (String.append a b) = (String.length a + String.length b)%nat.
Proof. induction a; simpl; lia. Qed.

Lemma str_app_inj_l a b c : String.append a b = String.append a c -> b = c.
Proof. induction a; simpl; intros H; [done | injection H; auto]. Qed.

(** Two concatenations with equally long heads agree piecewise. *)
Lemma str_app_inj a b c d :
  String.length a = String.length c ->
  String.append a b = String.append c d -> a = c /\ b = d.
Proof.
  revert c. induction a as [|x a IH]; intros [|y c]; simpl; intros Hl H; try lia; [done|].
  injection H as -> H. destruct (IH c) as [-> ->]; [lia | done | done].
Qed.

Lemma string_forallb_app f a b :
  string_forallb f (String.append a b) = string_forallb f a && string_forallb f b.
Proof. induction a as [|x a IH]; simpl; [done | rewrite IH; apply andb_assoc]. Qed.

Lemma string_existsb_app f a b :
  string_existsb f (String.append a b) = string_existsb f a || string_existsb f b.
Proof. induction a as [|x a IH]; simpl; [done | rewrite IH; apply orb_assoc]. Qed.

Lemma string_forallb_impl (f g : ascii -> bool) s :
  (forall c, f c = true -> g c = true) -> string_forallb f s = true -> string_forallb g s = true.
Proof.
  intros Hfg. induction s as [|c s IH]; simpl; [done|].
  rewrite !andb_true_iff. intros [? ?]; auto.
Qed.

Lemma str_take_app a b : str_take (String.length a) (String.append a b) = a.
Proof. induction a as [|x a IH]; simpl; [by destruct b | by rewrite IH]. Qed.

Lemma str_drop_app a b : str_drop (String.length a) (String.append a b) = b.
Proof. induction a as [|x a IH]; simpl; [by destruct b | done]. Qed.

Lemma str_take_drop n s : String.append (str_take n s) (str_drop n s) = s.
Proof. revert s. induction n as [|n IH]; intros [|c s]; simpl; [done..|by rewrite IH]. Qed.

Lemma str_length_take n s :
  String.length (str_take n s) = Nat.min n (String.length s).
Proof. revert s. induction n as [|n IH]; intros [|c s]; simpl; [done..|by rewrite IH]. Qed.

Lemma byte_val_range c : 0 <= byte_val c < 256.
Proof.
  unfold byte_val. pose proof (N_ascii_bounded c). lia.
Qed.

Lemma byte_of_val c : byte_of (byte_val c) = c.
Proof.
  unfold byte_of. rewrite Z.mod_small by apply byte_val_range.
  unfold byte_val. rewrite N2Z.id. apply ascii_N_embedding.
Qed.

Lemma byte_val_of z : byte_val (byte_of z) = z mod 256.
Proof.
  unfold byte_val, byte_of. pose proof (Z.mod_pos_bound z 256 ltac:(lia)).
  rewrite N_ascii_embedding; lia.
Qed.

Lemma byte_val_inj a b : byte_val a = byte_val b -> a = b.
Proof. intros H. rewrite <- (byte_of_val a), H. apply byte_of_val. Qed.

(** ** Automation *)

Create HintDb go discriminated.
Create Rewrite HintDb go.
#[export] Hint Rewrite str_app_nil_r str_app_assoc str_length_app : go.
#[export] Hint Resolve wrap64_range : go.

(** Case analysis on the scrutinee of a match, in the goal or a hypothesis. *)
Ltac case_head :=
  match goal with
  | |- context [match ?x with _ => _ end] => destruct x eqn:?
  | H : context [match ?x with _ => _ end] |- _ => destruct x eqn:?
  end.

(** All conjunctions, disjunctions and existentials of the context. *)
Ltac des :=
  repeat match goal with
         | H : _ /\ _ |- _ => destruct H
         | H : _ \/ _ |- _ => destruct H
         | H : exists _, _ |- _ => destruct H
         end.

(** Split boolean conjunctions and turn boolean comparisons into [Prop]. *)
Ltac bool_prop :=
  repeat match goal with
  | H : (_ && _)%bool = true |- _ => apply andb_true_iff in H; destruct H
  | H : (_ && _)%bool = false |- _ => apply andb_false_iff in H
  | H : (_ || _)%bool = false |- _ => apply orb_false_iff in H; destruct H
  | H : negb _ = true |- _ => apply negb_true_iff in H
  | H : negb _ = false |- _ => apply negb_false_iff in H
  | H : (_ <=? _)%Z = true |- _ => apply Z.leb_le in H
  | H : (_ <=? _)%Z = false |- _ => apply Z.leb_gt in H
  | H : (_ <? _)%Z = true |- _ => apply Z.ltb_lt in H
  | H : (_ <? _)%Z = false |- _ => apply Z.ltb_ge in H
  | H : (_ =? _)%Z = true |- _ => apply Z.eqb_eq in H
  | H : (_ =? _)%Z = false |- _ => apply Z.eqb_neq in H
  | H : (_ =? _)%string = true |- _ => apply String.eqb_eq in H
  | H : (_ =? _)%string = false |- _ => apply String.eqb_neq in H
  end.

(** Linear arithmetic with division and remainder by constants. *)
Ltac dlia := intros; Z.to_euclidean_division_equations; lia.
