(* ===== verification/Errors.v ===== *)
(** Package [apperror] (pkg/apperror/errors.go) and the error half of package
    [response] (pkg/response/response.go): Go error values, their wrapping chain,
    the application error codes and the HTTP answer an error becomes. *)

From S2P Require Export Prelude.

(** ** Error values *)

(** A Go [error]. [ErrLeaf] is an error value of the standard library or of a
    third-party package, identified by its text; [ErrNoRows] and [RedisNil] are the
    sentinels [pgx.ErrNoRows] and [goredis.Nil] the storage adapters compare against;
    [ErrWrap] is [fmt.Errorf("prefix: %w", err)]; [AppErr] is [*apperror.AppError]. *)
#[warnings="-register-all"]
Inductive error : Type :=
| ErrLeaf (msg : string)
| ErrNoRows
| RedisNil
| ErrWrap (prefix : string) (inner : error)
| AppErr (Code Message : string) (HTTPStatus : Z) (Err : option error).

Abbreviation res := (result error).

(** [fmt.Errorf("prefix: %w", err)] *)
Definition Errorf (prefix : string) (err : error) : error := ErrWrap prefix err.

(** [err.Error()]: [ErrWrap] prints prefix and cause; [AppError.Error] prints
    [[code] message: cause] or [[code] message]. *)
Fixpoint error_text (e : error) : string :=
  match e with
  | ErrLeaf m => m
  | ErrNoRows => "no rows in result set"
  | RedisNil => "redis: nil"
  | ErrWrap p i => p +:+ ": " +:+ error_text i
  | AppErr c m _ (Some i) => "[" +:+ c +:+ "] " +:+ m +:+ ": " +:+ error_text i
  | AppErr c m _ None => "[" +:+ c +:+ "] " +:+ m
  end.

(** [Unwrap], as [errors.Is] and [errors.As] follow it. *)
Definition Unwrap (e : error) : option error :=
  match e with
  | ErrWrap _ i => Some i
  | AppErr _ _ _ i => i
  | _ => None
  end.

(** [errors.Is(err, pgx.ErrNoRows)] *)
Fixpoint is_ErrNoRows (e : error) : bool :=
  match e with
  | ErrNoRows => true
  | ErrWrap _ i => is_ErrNoRows i
  | AppErr _ _ _ (Some i) => is_ErrNoRows i
  | _ => false
  end.

(** The fields [errors.As(err, &appErr)] finds: the outermost [*AppError] of the chain. *)
Fixpoint errors_As (e : error) : option (string * string * Z) :=
  match e with
  | AppErr c m s _ => Some (c, m, s)
  | ErrWrap _ i => errors_As i
  | _ => None
  end.

(** ** Constructors of package [apperror] *)

Definition New (code message : string) (httpStatus : Z) : error :=
  AppErr code message httpStatus None.

Definition Wrap (code message : string) (httpStatus : Z) (err : error) : error :=
  AppErr code message httpStatus (Some err).

Definition StatusOK : Z := 200.
Definition StatusCreated : Z := 201.
Definition StatusBadRequest : Z := 400.
Definition StatusUnauthorized : Z := 401.
Definition StatusPaymentRequired : Z := 402.
Definition StatusForbidden : Z := 403.
Definition StatusNotFound : Z := 404.
Definition StatusConflict : Z := 409.
Definition StatusUnprocessableEntity : Z := 422.
Definition StatusTooManyRequests : Z := 429.
Definition StatusInternalServerError : Z := 500.
Definition StatusServiceUnavailable : Z := 503.

Definition ErrInvalidAccessKey : error := New "SEC_001" "Invalid access key" StatusUnauthorized.
Definition ErrInvalidSignature : error := New "SEC_002" "Invalid signature" StatusUnauthorized.
Definition ErrTimestampExpired : error := New "SEC_003" "Request timestamp expired" StatusForbidden.
Definition ErrNonceUsed : error := New "SEC_004" "Nonce has already been used" StatusForbidden.

Definition ErrInsufficientFunds : error :=
  New "PAY_001" "Insufficient balance in wallet" StatusPaymentRequired.
Definition ErrInvalidAmount : error := New "PAY_002" "Invalid amount" StatusBadRequest.
Definition ErrDuplicateTransaction : error :=
  New "PAY_003" "Duplicate transaction" StatusConflict.
Definition ErrNotFound (entity : string) : error :=
  New "PAY_004" (entity +:+ " not found") StatusNotFound.
Definition ErrTransactionLimitExceeded : error :=
  New "PAY_005" "Transaction limit exceeded" StatusUnprocessableEntity.
Definition ErrInvalidRefund : error :=
  New "PAY_006" "Original transaction not eligible for refund" StatusBadRequest.
Definition ErrRefundAmountExceedsOriginal : error :=
  New "PAY_007" "Refund amount exceeds original transaction amount" StatusBadRequest.

Definition ErrInvalidCredentials : error := New "AUTH_001" "Invalid credentials" StatusUnauthorized.
Definition ErrUsernameExists : error := New "AUTH_002" "Username already exists" StatusConflict.
Definition ErrInvalidToken : error := New "AUTH_003" "Invalid or expired token" StatusUnauthorized.
Definition ErrMerchantSuspended : error :=
  New "AUTH_004" "Merchant account is suspended" StatusForbidden.

Definition ErrRateLimitExceeded : error :=
  New "RATE_001" "Rate limit exceeded" StatusTooManyRequests.

Definition ErrDatabaseError (err : error) : error :=
  Wrap "SYS_001" "Internal database error" StatusInternalServerError err.
Definition ErrLockTimeout (err : error) : error :=
  Wrap "SYS_002" "Lock acquisition timeout" StatusServiceUnavailable err.
Definition ErrEncryptionFailure (err : error) : error :=
  Wrap "SYS_003" "Encryption service failure" StatusInternalServerError err.
Definition InternalError (err : error) : error :=
  Wrap "SYS_001" "Internal server error" StatusInternalServerError err.
Definition Validation (message : string) : error := New "PAY_002" message StatusBadRequest.

(** ** [response.Error] *)

(** The status, [error_code] and [message] of the body [response.Error] sends; the
    request id and timestamp of the envelope are left out. *)
Definition response_Error (err : error) : Z * string * string :=
  match errors_As err with
  | Some (code, message, httpStatus) => (httpStatus, code, message)
  | None => (StatusInternalServerError, "SYS_000", "Internal server error")
  end.

(** The errors the package's constructors build: the registry of docs/api/ERROR_CODES.md. *)
Inductive registered : error -> Prop :=
| reg_plain e :
    e ∈ [ErrInvalidAccessKey; ErrInvalidSignature; ErrTimestampExpired; ErrNonceUsed;
         ErrInsufficientFunds; ErrInvalidAmount; ErrDuplicateTransaction;
         ErrTransactionLimitExceeded; ErrInvalidRefund; ErrRefundAmountExceedsOriginal;
         ErrInvalidCredentials; ErrUsernameExists; ErrInvalidToken; ErrMerchantSuspended;
         ErrRateLimitExceeded] -> registered e
| reg_not_found x : registered (ErrNotFound x)
| reg_validation m : registered (Validation m)
| reg_database e : registered (ErrDatabaseError e)
| reg_lock e : registered (ErrLockTimeout e)
| reg_encryption e : registered (ErrEncryptionFailure e)
| reg_internal e : registered (InternalError e).

(** ** Lemmas *)

Lemma registered_plain_In e l : e ∈ l -> Forall registered l -> registered e.
Proof. intros H HF. by eapply Forall_forall in HF. Qed.

#[export] Hint Constructors registered : go.
