(* ===== verification/Strconv.v ===== *)
(** The parts of Go's [strconv], [fmt] and [encoding/hex] the program uses: decimal
    printing and parsing of 64-bit integers, [Sscanf("%d")], hexadecimal encoding. *)

From S2P Require Export Errors.
From Stdlib Require Import Ascii.

(** ** Decimal digits *)

Definition digit_char (d : Z) : ascii := ascii_of_N (48 + Z.to_N d).

Definition digit_val (c : ascii) : option Z :=
  let n := byte_val c in
  if (48 <=? n) && (n <=? 57) then Some (n - 48) else None.

Definition is_digit (c : ascii) : bool := match digit_val c with Some _ => true | None => false end.

(** Digits of [n >= 0], least significant last, in front of [acc]. *)
Fixpoint dec_digits (fuel : nat) (n : Z) (acc : string) : string :=
  match fuel with
  | O => acc
  | S f =>
    let acc' := String (digit_char (n mod 10)) acc in
    if n / 10 =? 0 then acc' else dec_digits f (n / 10) acc'
  end.

Definition format_uint (n : Z) : string := dec_digits (S (Z.to_nat (Z.log2 n))) n "".

(** [strconv.FormatInt(z, 10)], also [fmt]'s [%d]. *)
Definition FormatInt (z : Z) : string :=
  if z <? 0 then String "-" (format_uint (- z)) else format_uint z.

Definition ErrSyntax : error := ErrLeaf "strconv: invalid syntax".
Definition ErrRange : error := ErrLeaf "strconv: value out of range".

(** The digit loop of [strconv.ParseUint(s, 10, 64)]: it stops at the first byte that is
    not a digit or as soon as the value passes the largest [uint64]. *)
Fixpoint parse_digits (s : string) (acc : Z) : res Z :=
  match s with
  | EmptyString => Ok acc
  | String c s' =>
    match digit_val c with
    | None => Err ErrSyntax
    | Some d =>
      let n := acc * 10 + d in
      if 2 ^ 64 - 1 <? n then Err ErrRange else parse_digits s' n
    end
  end.

Definition ParseUint (s : string) : res Z :=
  match s with
  | EmptyString => Err ErrSyntax
  | _ => parse_digits s 0
  end.

(** [strconv.ParseInt(s, 10, 64)] *)
Definition ParseInt (s : string) : res Z :=
  let '(neg, body) :=
    match s with
    | String c s' =>
      if (c =? "+")%char then (false, s')
      else if (c =? "-")%char then (true, s') else (false, s)
    | EmptyString => (false, s)
    end in
  let! un := ParseUint body in
  if negb neg && (2 ^ 63 <=? un) then Err ErrRange
  else if neg && (2 ^ 63 <? un) then Err ErrRange
  else Ok (if neg then - un else un).

(** [strconv.Atoi] on a 64-bit platform. *)
Definition Atoi (s : string) : res Z := ParseInt s.

(** The longest prefix of decimal digits, and what follows it. *)
Fixpoint span_digits (s : string) : string * string :=
  match s with
  | String c s' =>
    if is_digit c then let '(a, b) := span_digits s' in (String c a, b) else (EmptyString, s)
  | EmptyString => (EmptyString, EmptyString)
  end.

(** The one-byte blanks [fmt.Sscanf] skips before an operand (a newline is an error there;
    the non-ASCII blanks of Unicode are not skipped here). *)
Definition is_scan_space (c : ascii) : bool :=
  let n := byte_val c in (n =? 32) || (n =? 9) || (n =? 11) || (n =? 12) || (n =? 13).

Fixpoint skip_space (s : string) : string :=
  match s with
  | String c s' => if is_scan_space c then skip_space s' else s
  | EmptyString => EmptyString
  end.

(** [fmt.Sscanf(s, "%d", &v)] for an [int64] [v]: blanks, an optional sign, at least one
    digit; what follows the digits is left unread and is no error. *)
Definition Sscanf_d (s : string) : res Z :=
  let s := skip_space s in
  let '(sgn, body) :=
    match s with
    | String c s' => if (c =? "+")%char || (c =? "-")%char then (String c "", s') else ("", s)
    | EmptyString => ("", s)
    end in
  match s with
  | EmptyString => Err (ErrLeaf "unexpected EOF")
  | _ =>
    match span_digits body with
    | (EmptyString, _) => Err (ErrLeaf "expected integer")
    | (ds, _) => ParseInt (sgn +:+ ds)
    end
  end.

(** ** Hexadecimal *)

Definition hex_char (d : Z) : ascii :=
  if d <? 10 then ascii_of_N (48 + Z.to_N d) else ascii_of_N (87 + Z.to_N d).

Definition hex_val (c : ascii) : option Z :=
  let n := byte_val c in
  if (48 <=? n) && (n <=? 57) then Some (n - 48)
  else if (97 <=? n) && (n <=? 102) then Some (n - 87)
  else if (65 <=? n) && (n <=? 70) then Some (n - 55)
  else None.

Definition is_lower_hex (c : ascii) : bool :=
  let n := byte_val c in ((48 <=? n) && (n <=? 57)) || ((97 <=? n) && (n <=? 102)).

(** [hex.EncodeToString] *)
Fixpoint hex_encode (s : string) : string :=
  match s with
  | EmptyString => EmptyString
  | String c s' =>
    String (hex_char (byte_val c / 16)) (String (hex_char (byte_val c mod 16)) (hex_encode s'))
  end.

Definition InvalidByteError : error := ErrLeaf "encoding/hex: invalid byte".
Definition ErrLength : error := ErrLeaf "encoding/hex: odd length hex string".

(** [hex.DecodeString] *)
Fixpoint hex_decode (s : string) : res string :=
  match s with
  | EmptyString => Ok EmptyString
  | String p EmptyString =>
    match hex_val p with None => Err InvalidByteError | Some _ => Err ErrLength end
  | String p (String q s') =>
    match hex_val p, hex_val q with
    | Some a, Some b => result_map (String (byte_of (a * 16 + b))) (hex_decode s')
    | _, _ => Err InvalidByteError
    end
  end.

(** ** Decimal lemmas *)

Lemma byte_val_ascii n : (n < 256)%N -> byte_val (ascii_of_N n) = Z.of_N n.
Proof. intros H. unfold byte_val. by rewrite N_ascii_embedding. Qed.

Lemma digit_val_char d : 0 <= d < 10 -> digit_val (digit_char d) = Some d.
Proof.
  intros H. unfold digit_val, digit_char. rewrite byte_val_ascii by lia.
  case_match; bool_prop; [f_equal; lia|]. exfalso.
  match goal with H : _ \/ _ |- _ => destruct H; bool_prop; lia end.
Qed.

Lemma is_digit_char d : 0 <= d < 10 -> is_digit (digit_char d) = true.
Proof. intros H. unfold is_digit. by rewrite digit_val_char. Qed.

Lemma digit_char_not_sign d (c : ascii) :
  0 <= d < 10 -> byte_val c < 48 -> (digit_char d =? c)%char = false.
Proof.
  intros Hd Hc. apply Ascii.eqb_neq. intros <-.
  unfold digit_char in Hc. rewrite byte_val_ascii in Hc; lia.
Qed.

Lemma dec_digits_shape f n acc :
  0 <= n -> string_forallb is_digit acc = true ->
  string_forallb is_digit (dec_digits f n acc) = true.
Proof.
  revert n acc. induction f as [|f IH]; intros n acc Hn Hacc; simpl; [done|].
  assert (Hd : string_forallb is_digit (String (digit_char (n mod 10)) acc) = true).
  { simpl. rewrite is_digit_char by (apply Z.mod_pos_bound; lia). done. }
  case_match; [done|]. apply IH; [apply Z.div_pos; lia | done].
Qed.

(** The first byte of a printed number is a digit. *)
Lemma dec_digits_head f n acc :
  0 <= n -> exists d s, 0 <= d < 10 /\ dec_digits (S f) n acc = String (digit_char d) s.
Proof.
  revert n acc. induction f as [|f IH]; intros n acc Hn.
  - simpl. pose proof (Z.mod_pos_bound n 10 ltac:(lia)). case_match; eauto.
  - cbn [dec_digits]. case_match.
    + pose proof (Z.mod_pos_bound n 10 ltac:(lia)). eauto.
    + apply IH. apply Z.div_pos; lia.
Qed.

Lemma parse_dec_digits f n acc :
  0 <= n < 2 ^ Z.of_nat f -> n <= 2 ^ 64 - 1 ->
  parse_digits (dec_digits f n acc) 0 = parse_digits acc n.
Proof.
  revert n acc. induction f as [|f IH]; intros n acc Hn Hmax.
  - simpl in *. by replace n with 0 by lia.
  - pose proof (Z.mod_pos_bound n 10 ltac:(lia)) as Hm.
    pose proof (Z.div_mod n 10 ltac:(lia)) as Hdm.
    rewrite Nat2Z.inj_succ, Z.pow_succ_r in Hn by lia.
    cbn [dec_digits]. case_match; bool_prop.
    + cbn [parse_digits]. rewrite digit_val_char by done. cbv zeta.
      replace (0 * 10 + n mod 10) with n by lia.
      rewrite (proj2 (Z.ltb_ge _ _)) by lia. done.
    + rewrite IH by lia. cbn [parse_digits]. rewrite digit_val_char by done. cbv zeta.
      replace (n / 10 * 10 + n mod 10) with n by lia.
      rewrite (proj2 (Z.ltb_ge _ _)) by lia. done.
Qed.

Lemma format_fuel n : 0 <= n -> n < 2 ^ Z.of_nat (S (Z.to_nat (Z.log2 n))).
Proof.
  intros Hn. rewrite Nat2Z.inj_succ, Z2Nat.id by apply Z.log2_nonneg.
  destruct (decide (n = 0)) as [->|]; [done|]. apply Z.log2_spec. lia.
Qed.

Lemma format_uint_digits n : 0 <= n -> string_forallb is_digit (format_uint n) = true.
Proof. intros. by apply dec_digits_shape. Qed.

Lemma format_uint_head n :
  0 <= n -> exists d s, 0 <= d < 10 /\ format_uint n = String (digit_char d) s.
Proof. apply dec_digits_head. Qed.

Lemma parse_format_uint n :
  0 <= n <= 2 ^ 64 - 1 -> ParseUint (format_uint n) = Ok n.
Proof.
  intros Hn. destruct (format_uint_head n) as (d & s & Hd & E); [lia|].
  unfold ParseUint. rewrite E. cbv match. rewrite <- E. unfold format_uint.
  rewrite parse_dec_digits; [done | | lia].
  split; [lia | apply format_fuel; lia].
Qed.

(** The digits of a printed number, followed by anything that is not a digit. *)
Lemma parse_int_format z : in_int64 z -> ParseInt (FormatInt z) = Ok z.
Proof.
  unfold in_int64, min_int64, max_int64. intros Hz. unfold FormatInt.
  destruct (z <? 0) eqn:Hneg; bool_prop.
  - unfold ParseInt. simpl. rewrite parse_format_uint by lia. simpl.
    rewrite (proj2 (Z.ltb_ge _ _)) by lia. f_equal. lia.
  - destruct (format_uint_head z) as (d & s & Hd & E); [lia|].
    unfold ParseInt. rewrite E.
    rewrite !digit_char_not_sign by (done || vm_compute; done).
    rewrite <- E, parse_format_uint by lia. simpl.
    rewrite (proj2 (Z.leb_gt _ _)) by lia. done.
Qed.

Lemma FormatInt_inj a b : in_int64 a -> in_int64 b -> FormatInt a = FormatInt b -> a = b.
Proof.
  intros Ha Hb E. apply parse_int_format in Ha, Hb. rewrite E in Ha. congruence.
Qed.

Lemma ParseInt_range s z : ParseInt s = Ok z -> in_int64 z.
Proof.
  assert (Hpd : forall s acc n, 0 <= acc -> parse_digits s acc = Ok n -> 0 <= n).
  { clear. induction s as [|c s IH]; intros acc n Hacc; simpl; [by intros [= ->]|].
    destruct (digit_val c) as [d|] eqn:Hd; [|done]. case_match; [done|].
    apply IH. unfold digit_val in Hd. case_match; bool_prop; simplify_eq. lia. }
  assert (Hpu : forall s n, ParseUint s = Ok n -> 0 <= n).
  { intros [|c s'] n; simpl; [done|]. apply (Hpd (String c s') 0). lia. }
  unfold ParseInt, in_int64, min_int64, max_int64.
  destruct (match s with EmptyString => _ | String c s' => _ end) as [neg body].
  destruct (ParseUint _) as [un|] eqn:Hu; simpl; [|done].
  apply Hpu in Hu. destruct neg; simpl; case_match; bool_prop; intros; simplify_eq; lia.
Qed.

(** A printed integer parses as itself or not at all. *)
Fixpoint digits_value (s : string) (acc : Z) : Z :=
  match s with
  | EmptyString => acc
  | String c s' => digits_value s' (acc * 10 + default 0 (digit_val c))
  end.

Lemma parse_digits_value s acc n : parse_digits s acc = Ok n -> digits_value s acc = n.
Proof.
  revert acc. induction s as [|c s IH]; intros acc; simpl; [by intros [= ->]|].
  destruct (digit_val c) as [d|]; [|done]. case_match; [done|]. apply IH.
Qed.

Lemma digits_value_format f n acc :
  0 <= n < 2 ^ Z.of_nat f -> digits_value (dec_digits f n acc) 0 = digits_value acc n.
Proof.
  revert n acc. induction f as [|f IH]; intros n acc Hn.
  - simpl in *. by replace n with 0 by lia.
  - pose proof (Z.mod_pos_bound n 10 ltac:(lia)) as Hm.
    pose proof (Z.div_mod n 10 ltac:(lia)) as Hdm.
    rewrite Nat2Z.inj_succ, Z.pow_succ_r in Hn by lia.
    cbn [dec_digits]. case_match; bool_prop; [|rewrite IH by lia];
      cbn [digits_value]; rewrite digit_val_char by done; simpl; f_equal; lia.
Qed.

Lemma parse_format_exact n m : 0 <= n -> ParseUint (format_uint n) = Ok m -> m = n.
Proof.
  intros Hn H. destruct (format_uint_head n Hn) as (d & s & _ & E). unfold ParseUint in H.
  rewrite E in H. cbv match in H. rewrite <- E in H. apply parse_digits_value in H.
  unfold format_uint in H. rewrite digits_value_format in H; [done|]. split; [done|]. by apply format_fuel.
Qed.

Lemma parse_int_exact z m : ParseInt (FormatInt z) = Ok m -> m = z.
Proof.
  unfold FormatInt. destruct (z <? 0) eqn:Hneg; bool_prop.
  - unfold ParseInt. simpl. destruct (ParseUint _) as [un|] eqn:E; simpl; [|done].
    apply parse_format_exact in E; [|lia]. case_match; [done|]. intros [= <-]. lia.
  - destruct (format_uint_head z) as (d & s & Hd & E); [lia|]. unfold ParseInt. rewrite E.
    rewrite !digit_char_not_sign by (done || vm_compute; done). rewrite <- E.
    destruct (ParseUint _) as [un|] eqn:Eu; simpl; [|done].
    apply parse_format_exact in Eu; [|lia]. case_match; [done|]. intros [= <-]. done.
Qed.

(** [Sscanf("%d")] reads what [FormatInt] printed, whatever follows a non-digit. *)
Lemma span_digits_all s : string_forallb is_digit s = true -> span_digits s = (s, EmptyString).
Proof.
  induction s as [|c s IH]; simpl; [done|]. intros [Hc Hs]%andb_true_iff.
  rewrite Hc, IH by done. done.
Qed.

Lemma is_digit_range c : is_digit c = true -> 48 <= byte_val c <= 57.
Proof. unfold is_digit, digit_val. repeat case_match; try done. bool_prop. lia. Qed.

Lemma is_digit_not_space c : is_digit c = true -> is_scan_space c = false.
Proof.
  intros H%is_digit_range. unfold is_scan_space.
  repeat rewrite (proj2 (Z.eqb_neq _ _)) by lia. done.
Qed.

Lemma sscanf_format z : in_int64 z -> Sscanf_d (FormatInt z) = Ok z.
Proof.
  intros Hz. pose proof (parse_int_format z Hz) as HP.
  unfold Sscanf_d, FormatInt in *. destruct (z <? 0) eqn:Hneg; bool_prop.
  - simpl in *. destruct (format_uint_head (- z)) as (d & s & Hd & E); [lia|].
    rewrite span_digits_all by (apply format_uint_digits; lia).
    rewrite E in *. exact HP.
  - destruct (format_uint_head z) as (d & s & Hd & E); [lia|].
    pose proof (format_uint_digits z ltac:(lia)) as Hall. rewrite E in *.
    simpl in Hall. apply andb_true_iff in Hall as [Hc Hs]. simpl skip_space.
    rewrite is_digit_not_space by done.
    rewrite !digit_char_not_sign by (done || vm_compute; done). simpl.
    rewrite Hc, span_digits_all by done. exact HP.
Qed.

(** ** Hexadecimal lemmas *)

Lemma hex_val_char d : 0 <= d < 16 -> hex_val (hex_char d) = Some d.
Proof.
  intros Hd. unfold hex_val, hex_char.
  destruct (d <? 10) eqn:?; bool_prop; rewrite byte_val_ascii by lia;
    repeat case_match; bool_prop; try (f_equal; lia);
    repeat match goal with H : _ \/ _ |- _ => destruct H end; bool_prop; lia.
Qed.

Lemma is_lower_hex_char d : 0 <= d < 16 -> is_lower_hex (hex_char d) = true.
Proof.
  intros Hd. unfold is_lower_hex, hex_char. apply orb_true_iff.
  destruct (d <? 10) eqn:?; bool_prop; rewrite byte_val_ascii by lia; [left|right];
    apply andb_true_iff; rewrite !Z.leb_le; lia.
Qed.

Lemma nibbles c :
  0 <= byte_val c / 16 < 16 /\ 0 <= byte_val c mod 16 < 16 /\
  byte_val c / 16 * 16 + byte_val c mod 16 = byte_val c.
Proof.
  pose proof (byte_val_range c). pose proof (Z.mod_pos_bound (byte_val c) 16 ltac:(lia)).
  pose proof (Z.div_mod (byte_val c) 16 ltac:(lia)). lia.
Qed.

Lemma hex_decode_encode s : hex_decode (hex_encode s) = Ok s.
Proof.
  induction s as [|c s IH]; simpl; [done|].
  destruct (nibbles c) as (? & ? & E).
  rewrite !hex_val_char, IH, E by done. simpl. by rewrite byte_of_val.
Qed.

Lemma hex_encode_length s : String.length (hex_encode s) = (2 * String.length s)%nat.
Proof. induction s; simpl in *; lia. Qed.

Lemma hex_encode_lower s : string_forallb is_lower_hex (hex_encode s) = true.
Proof.
  induction s as [|c s IH]; simpl; [done|]. destruct (nibbles c) as (? & ? & _).
  by rewrite !is_lower_hex_char, IH by done.
Qed.

Lemma hex_encode_inj a b : hex_encode a = hex_encode b -> a = b.
Proof.
  intros E. pose proof (hex_decode_encode a) as Ha. rewrite E, hex_decode_encode in Ha.
  congruence.
Qed.

#[export] Hint Rewrite hex_decode_encode hex_encode_length : go.
#[export] Hint Resolve parse_int_format sscanf_format : go.
