(* ===== verification/Text.v ===== *)
(** More of Go's text packages: [encoding/base64] without padding, [strings.Split] and
    [strings.TrimSpace], [html.EscapeString], and the [fmt.Sscanf] formats of the hash service. *)

From S2P Require Export Strconv.
From Stdlib Require Import Ascii.

(** ** [base64.RawStdEncoding] *)

Definition b64_char (d : Z) : ascii :=
  byte_of (if d <? 26 then 65 + d
           else if d <? 52 then 97 + (d - 26)
           else if d <? 62 then 48 + (d - 52)
           else if d =? 62 then 43 else 47).

Definition b64_val (c : ascii) : option Z :=
  let n := byte_val c in
  if (65 <=? n) && (n <=? 90) then Some (n - 65)
  else if (97 <=? n) && (n <=? 122) then Some (n - 97 + 26)
  else if (48 <=? n) && (n <=? 57) then Some (n - 48 + 52)
  else if n =? 43 then Some 62
  else if n =? 47 then Some 63
  else None.

Fixpoint b64_encode (s : string) : string :=
  match s with
  | "" => ""
  | String a "" =>
    let n := byte_val a * 65536 in
    String (b64_char (n / 262144)) (String (b64_char (n / 4096 mod 64)) "")
  | String a (String b "") =>
    let n := byte_val a * 65536 + byte_val b * 256 in
    String (b64_char (n / 262144)) (String (b64_char (n / 4096 mod 64)) (String (b64_char (n / 64 mod 64)) ""))
  | String a (String b (String c s')) =>
    let n := byte_val a * 65536 + byte_val b * 256 + byte_val c in
    String (b64_char (n / 262144)) (String (b64_char (n / 4096 mod 64))
      (String (b64_char (n / 64 mod 64)) (String (b64_char (n mod 64)) (b64_encode s'))))
  end.

Definition CorruptInputError : error := ErrLeaf "illegal base64 data".

(** The decoder passes over line ends. *)
Fixpoint b64_digits (s : string) : res (list Z) :=
  match s with
  | "" => Ok []
  | String c s' =>
    if (byte_val c =? 10) || (byte_val c =? 13) then b64_digits s'
    else match b64_val c with
         | Some d => let! ds := b64_digits s' in Ok (d :: ds)
         | None => Err CorruptInputError
         end
  end.

(** Groups of four digits; a rest of two or three is a shorter group whose spare bits are
    dropped, a rest of one an error. *)
Fixpoint b64_bytes (ds : list Z) : res string :=
  match ds with
  | [] => Ok ""
  | [_] => Err CorruptInputError
  | [a; b] => Ok (String (byte_of ((a * 64 + b) / 16)) "")
  | [a; b; c] =>
    let n := (a * 64 + b) * 64 + c in
    Ok (String (byte_of (n / 1024)) (String (byte_of (n / 4 mod 256)) ""))
  | a :: b :: c :: d :: ds' =>
    let n := ((a * 64 + b) * 64 + c) * 64 + d in
    let! s := b64_bytes ds' in
    Ok (String (byte_of (n / 65536)) (String (byte_of (n / 256 mod 256)) (String (byte_of (n mod 256)) s)))
  end.

Definition b64_decode (s : string) : res string :=
  let! ds := b64_digits s in b64_bytes ds.

(** *** Round trip *)

Definition is_b64 (c : ascii) : bool := match b64_val c with Some _ => true | None => false end.

Definition b64_faithful (d : Z) : bool :=
  match b64_val (b64_char d) with Some d' => d' =? d | None => false end
  && negb ((byte_val (b64_char d) =? 10) || (byte_val (b64_char d) =? 13)).

Lemma b64_alphabet d : 0 <= d < 64 -> b64_faithful d = true.
Proof.
  intros H. assert (Hall : forallb b64_faithful (map Z.of_nat (seq 0 64)) = true) by reflexivity.
  rewrite forallb_forall in Hall. apply Hall, in_map_iff. exists (Z.to_nat d).
  split; [lia|]. apply in_seq. lia.
Qed.

Lemma b64_val_char d : 0 <= d < 64 -> b64_val (b64_char d) = Some d.
Proof.
  intros H%b64_alphabet. unfold b64_faithful in H. apply andb_true_iff in H as [H _].
  destruct (b64_val _); [|done]. apply Z.eqb_eq in H. by subst.
Qed.

Lemma b64_char_not_eol d : 0 <= d < 64 -> (byte_val (b64_char d) =? 10) || (byte_val (b64_char d) =? 13) = false.
Proof. intros H%b64_alphabet. unfold b64_faithful in H. by apply andb_true_iff in H as [_ H%negb_true_iff]. Qed.

Lemma b64_digits_char d s :
  0 <= d < 64 -> b64_digits (String (b64_char d) s) = (let! ds := b64_digits s in Ok (d :: ds)).
Proof. intros H. cbn [b64_digits]. by rewrite b64_char_not_eol, b64_val_char by done. Qed.

(** The digits of a 24-bit number. *)
Lemma b64_split n :
  0 <= n < 16777216 ->
  0 <= n / 262144 < 64 /\ 0 <= n / 4096 mod 64 < 64 /\ 0 <= n / 64 mod 64 < 64 /\ 0 <= n mod 64 < 64 /\
  ((n / 262144 * 64 + n / 4096 mod 64) * 64 + n / 64 mod 64) * 64 + n mod 64 = n.
Proof. intros H. Z.to_euclidean_division_equations. lia. Qed.

Lemma b64_joined a b c :
  0 <= a < 256 -> 0 <= b < 256 -> 0 <= c < 256 ->
  let n := a * 65536 + b * 256 + c in
  0 <= n < 16777216 /\ n / 65536 = a /\ n / 256 mod 256 = b /\ n mod 256 = c.
Proof. intros Ha Hb Hc. simpl. Z.to_euclidean_division_equations. lia. Qed.

Lemma string_ind3 (P : string -> Prop) :
  P "" -> (forall a, P (String a "")) -> (forall a b, P (String a (String b ""))) ->
  (forall a b c s, P s -> P (String a (String b (String c s)))) -> forall s, P s.
Proof.
  intros H0 H1 H2 H3. fix IH 1. intros [|a [|b [|c s]]]; [apply H0|apply H1|apply H2|apply H3, IH].
Qed.

Lemma b64_decode_encode s : b64_decode (b64_encode s) = Ok s.
Proof.
  unfold b64_decode. induction s as [|a|a b|a b c s IH] using string_ind3; [done|..];
    pose proof (byte_val_range a) as Ha; cbn [b64_encode].
  - destruct (b64_joined (byte_val a) 0 0) as (Hn & E & _); [lia..|].
    rewrite !Z.add_0_r in *. set (n := byte_val a * 65536) in *.
    destruct (b64_split n Hn) as (H1 & H2 & _ & _ & _).
    rewrite !b64_digits_char by done. simpl. do 2 f_equal.
    replace ((n / 262144 * 64 + n / 4096 mod 64) / 16) with (n / 65536)
      by (Z.to_euclidean_division_equations; lia).
    by rewrite E, byte_of_val.
  - pose proof (byte_val_range b) as Hb.
    destruct (b64_joined (byte_val a) (byte_val b) 0) as (Hn & E1 & E2 & _); [lia..|].
    rewrite !Z.add_0_r in *. set (n := byte_val a * 65536 + byte_val b * 256) in *.
    destruct (b64_split n Hn) as (H1 & H2 & H3 & _ & _).
    rewrite !b64_digits_char by done. simpl.
    replace (((n / 262144 * 64 + n / 4096 mod 64) * 64 + n / 64 mod 64) / 1024) with (n / 65536)
      by (Z.to_euclidean_division_equations; lia).
    replace (((n / 262144 * 64 + n / 4096 mod 64) * 64 + n / 64 mod 64) / 4 mod 256) with (n / 256 mod 256)
      by (Z.to_euclidean_division_equations; lia).
    by rewrite E1, E2, !byte_of_val.
  - pose proof (byte_val_range b) as Hb. pose proof (byte_val_range c) as Hc.
    destruct (b64_joined (byte_val a) (byte_val b) (byte_val c)) as (Hn & E1 & E2 & E3); [lia..|].
    set (n := byte_val a * 65536 + byte_val b * 256 + byte_val c) in *.
    destruct (b64_split n Hn) as (H1 & H2 & H3 & H4 & E).
    rewrite !b64_digits_char by done.
    destruct (b64_digits (b64_encode s)) as [ds|] eqn:Hs; simpl in *; [|done].
    rewrite IH. simpl. by rewrite E, E1, E2, E3, !byte_of_val.
Qed.

Lemma is_b64_char d : 0 <= d < 64 -> is_b64 (b64_char d) = true.
Proof. intros H. unfold is_b64. by rewrite b64_val_char. Qed.

Lemma b64_encode_chars s : string_forallb is_b64 (b64_encode s) = true.
Proof.
  induction s as [|a|a b|a b c s IH] using string_ind3; [done|..];
    pose proof (byte_val_range a) as Ha; try pose proof (byte_val_range b) as Hb; try pose proof (byte_val_range c) as Hc;
    cbn [b64_encode string_forallb]; rewrite !is_b64_char by (Z.to_euclidean_division_equations; lia); done.
Qed.

(** ** Package [strings] *)

(** [strings.Split] at a separator of one byte. *)
Fixpoint split_at (sep : ascii) (s : string) : list string :=
  match s with
  | "" => [""]
  | String c s' =>
    if (c =? sep)%char then "" :: split_at sep s'
    else match split_at sep s' with
         | part :: parts => String c part :: parts
         | [] => [String c ""]
         end
  end.

Definition has_char (sep : ascii) (s : string) : bool := string_existsb (Ascii.eqb sep) s.

Lemma split_at_part sep p s :
  has_char sep p = false -> split_at sep (p +:+ String sep s) = p :: split_at sep s.
Proof.
  unfold has_char. induction p as [|c p IH]; intros Hp.
  - change (split_at sep (String sep s) = "" :: split_at sep s). cbn [split_at]. by rewrite Ascii.eqb_refl.
  - rewrite str_app_cons. cbn [split_at string_existsb] in *. apply orb_false_iff in Hp as [Hc Hp].
    rewrite Ascii.eqb_sym in Hc. by rewrite Hc, IH.
Qed.

Lemma split_at_last sep p : has_char sep p = false -> split_at sep p = [p].
Proof.
  unfold has_char. induction p as [|c p IH]; [done|]. cbn [split_at string_existsb]. intros [Hc Hp]%orb_false_iff.
  rewrite Ascii.eqb_sym in Hc. by rewrite Hc, IH.
Qed.

(** Splitting undoes joining, when no part holds the separator. *)
Lemma split_at_join sep p ps :
  Forall (fun p => has_char sep p = false) (p :: ps) ->
  split_at sep (strings_join (String sep "") (p :: ps)) = p :: ps.
Proof.
  revert p. induction ps as [|q ps IH]; intros p Hps; inversion_clear Hps as [|? ? Hp Hrest].
  - by apply split_at_last.
  - change (strings_join (String sep "") (p :: q :: ps)) with
      (p +:+ String sep (strings_join (String sep "") (q :: ps))).
    by rewrite split_at_part, IH.
Qed.

(** ** [fmt.Sscanf] on formats of literal characters and [%d] *)

Inductive directive :=
| DLit (c : ascii)
| DInt (bits : Z)        (* %d into a signed integer of that width *)
| DUint (bits : Z).      (* %d into an unsigned one *)

Definition scan_sign (s : string) : string * string :=
  match s with
  | String c s' => if (c =? "+")%char || (c =? "-")%char then (String c "", s') else ("", s)
  | "" => ("", "")
  end.

#[global] Arguments DLit c%_char_scope.

(** The longest run of digits, at least one, and what follows. *)
Definition scan_number (s : string) : res (string * string) :=
  match span_digits s with
  | ("", _) => Err (ErrLeaf "expected integer")
  | (ds, rest) => Ok (ds, rest)
  end.

Definition skip_to_operand (s : string) : res string :=
  match skip_space s with "" => Err (ErrLeaf "unexpected EOF") | s => Ok s end.

Fixpoint Sscanf (fmt : list directive) (s : string) : res (list Z) :=
  match fmt with
  | [] => Ok []
  | DLit c :: fmt =>
    match s with
    | "" => Err (ErrLeaf "unexpected EOF")
    | String c' s' =>
      if (c =? c')%char then Sscanf fmt s' else Err (ErrLeaf "input does not match format")
    end
  | DInt bits :: fmt =>
    let! s := skip_to_operand s in
    let '(sgn, body) := scan_sign s in
    let! number := scan_number body in
    let! i := ParseInt (sgn +:+ fst number) in
    if (- 2 ^ (bits - 1) <=? i) && (i <? 2 ^ (bits - 1)) then
      let! vs := Sscanf fmt (snd number) in Ok (i :: vs)
    else Err (ErrLeaf "integer overflow on token")
  | DUint bits :: fmt =>
    let! s := skip_to_operand s in
    let! number := scan_number s in
    let! i := ParseUint (fst number) in
    if i <? 2 ^ bits then
      let! vs := Sscanf fmt (snd number) in Ok (i :: vs)
    else Err (ErrLeaf "unsigned integer overflow on token")
  end.

(** ** [strings.TrimSpace]: the white space of Unicode, in UTF-8 *)

Definition white_space : list string :=
  map (fun l => fold_right (fun n => String (byte_of n)) "" l)
    ([[9]; [10]; [11]; [12]; [13]; [32]; [194; 133]; [194; 160]; [225; 154; 128]]
     ++ map (fun n => [226; 128; 128 + Z.of_nat n]) (seq 0 11)
     ++ [[226; 128; 168]; [226; 128; 169]; [226; 128; 175]; [226; 129; 159]; [227; 128; 128]]).

Fixpoint strip_prefix_any (ps : list string) (s : string) : option string :=
  match ps with
  | [] => None
  | p :: ps =>
    if String.prefix p s then Some (str_drop (String.length p) s) else strip_prefix_any ps s
  end.

Fixpoint trim_fuel (ps : list string) (fuel : nat) (s : string) : string :=
  match fuel with
  | O => s
  | S f => match strip_prefix_any ps s with Some s' => trim_fuel ps f s' | None => s end
  end.

Definition trim_left (ps : list string) (s : string) : string := trim_fuel ps (String.length s) s.

Fixpoint str_rev_onto (s acc : string) : string :=
  match s with "" => acc | String c s' => str_rev_onto s' (String c acc) end.
Definition str_rev (s : string) : string := str_rev_onto s "".

Definition TrimSpace (s : string) : string :=
  str_rev (trim_left (map str_rev white_space) (str_rev (trim_left white_space s))).

(** ** [html.EscapeString] *)

Definition html_escape_char (c : ascii) : string :=
  let n := byte_val c in
  if n =? 38 then "&amp;" else if n =? 39 then "&#39;" else if n =? 60 then "&lt;"
  else if n =? 62 then "&gt;" else if n =? 34 then "&#34;" else String c "".

Fixpoint EscapeString (s : string) : string :=
  match s with "" => "" | String c s' => html_escape_char c +:+ EscapeString s' end.
