(* ===== verification/Crypto.v ===== *)
(** The cryptography of the Go standard library that the services call: AES-256 in GCM mode
    (crypto/aes, crypto/cipher), SHA-256 (crypto/sha256) and HMAC (crypto/hmac), written out
    from FIPS 197, SP 800-38D, FIPS 180-4 and RFC 2104 on byte strings, with the published
    test vectors as checks. *)

From S2P Require Export Strconv.

(** ** Bytes and words *)

Fixpoint bytes_of (s : string) : list Z :=
  match s with EmptyString => [] | String c t => byte_val c :: bytes_of t end.

Fixpoint string_of (l : list Z) : string :=
  match l with [] => EmptyString | z :: l => String (byte_of z) (string_of l) end.

(** [n] big-endian bytes of [z]. *)
Fixpoint be_bytes (n : nat) (z : Z) : list Z :=
  match n with O => [] | S n' => Z.shiftr z (8 * Z.of_nat n') mod 256 :: be_bytes n' z end.

Definition be_value (l : list Z) : Z := fold_left (fun acc b => 256 * acc + b) l 0.

Fixpoint chunks_fuel {A} (fuel n : nat) (l : list A) : list (list A) :=
  match fuel, l with
  | S fuel, _ :: _ => take n l :: chunks_fuel fuel n (drop n l)
  | _, _ => []
  end.
Definition chunks {A} (n : nat) (l : list A) : list (list A) := chunks_fuel (length l) n l.

Fixpoint xor_bytes (a b : list Z) : list Z :=
  match a, b with x :: a, y :: b => Z.lxor x y :: xor_bytes a b | _, _ => [] end.

Definition zeros (n : nat) : list Z := repeat 0 n.

(** ** AES *)

Definition sbox : list Z :=
  [99; 124; 119; 123; 242; 107; 111; 197; 48; 1; 103; 43; 254; 215; 171; 118;
   202; 130; 201; 125; 250; 89; 71; 240; 173; 212; 162; 175; 156; 164; 114; 192;
   183; 253; 147; 38; 54; 63; 247; 204; 52; 165; 229; 241; 113; 216; 49; 21;
   4; 199; 35; 195; 24; 150; 5; 154; 7; 18; 128; 226; 235; 39; 178; 117;
   9; 131; 44; 26; 27; 110; 90; 160; 82; 59; 214; 179; 41; 227; 47; 132;
   83; 209; 0; 237; 32; 252; 177; 91; 106; 203; 190; 57; 74; 76; 88; 207;
   208; 239; 170; 251; 67; 77; 51; 133; 69; 249; 2; 127; 80; 60; 159; 168;
   81; 163; 64; 143; 146; 157; 56; 245; 188; 182; 218; 33; 16; 255; 243; 210;
   205; 12; 19; 236; 95; 151; 68; 23; 196; 167; 126; 61; 100; 93; 25; 115;
   96; 129; 79; 220; 34; 42; 144; 136; 70; 238; 184; 20; 222; 94; 11; 219;
   224; 50; 58; 10; 73; 6; 36; 92; 194; 211; 172; 98; 145; 149; 228; 121;
   231; 200; 55; 109; 141; 213; 78; 169; 108; 86; 244; 234; 101; 122; 174; 8;
   186; 120; 37; 46; 28; 166; 180; 198; 232; 221; 116; 31; 75; 189; 139; 138;
   112; 62; 181; 102; 72; 3; 246; 14; 97; 53; 87; 185; 134; 193; 29; 158;
   225; 248; 152; 17; 105; 217; 142; 148; 155; 30; 135; 233; 206; 85; 40; 223;
   140; 161; 137; 13; 191; 230; 66; 104; 65; 153; 45; 15; 176; 84; 187; 22].

Definition sub_byte (b : Z) : Z := nth (Z.to_nat b) sbox 0.

(** Multiplication by [x] in GF(2^8). *)
Definition xtime (b : Z) : Z :=
  let d := Z.shiftl b 1 in if d <? 256 then d else Z.lxor (d - 256) 27.

Definition shift_rows (s : list Z) : list Z :=
  map (fun i => nth i s 0) [0; 5; 10; 15; 4; 9; 14; 3; 8; 13; 2; 7; 12; 1; 6; 11]%nat.

Definition mix_column (c : list Z) : list Z :=
  match c with
  | [a; b; c; d] =>
    let m2 := xtime in
    let m3 x := Z.lxor (xtime x) x in
    [Z.lxor (Z.lxor (m2 a) (m3 b)) (Z.lxor c d);
     Z.lxor (Z.lxor a (m2 b)) (Z.lxor (m3 c) d);
     Z.lxor (Z.lxor a b) (Z.lxor (m2 c) (m3 d));
     Z.lxor (Z.lxor (m3 a) b) (Z.lxor c (m2 d))]
  | _ => c
  end.

Definition mix_columns (s : list Z) : list Z := concat (map mix_column (chunks 4 s)).

(** The key schedule: words in reverse order, the newest first. *)
Definition rot_word (w : list Z) : list Z := match w with a :: l => l ++ [a] | [] => [] end.

Definition next_word (nk i : nat) (rcon : Z) (ws : list (list Z)) : list Z :=
  let temp := hd [] ws in
  let temp :=
    if (i mod nk =? 0)%nat then xor_bytes (map sub_byte (rot_word temp)) [rcon; 0; 0; 0]
    else if (6 <? nk)%nat && (i mod nk =? 4)%nat then map sub_byte temp
    else temp in
  xor_bytes (nth (nk - 1) ws []) temp.

Fixpoint expand (fuel nk i : nat) (rcon : Z) (ws : list (list Z)) : list (list Z) :=
  match fuel with
  | O => ws
  | S fuel =>
    expand fuel nk (S i) (if (i mod nk =? 0)%nat then xtime rcon else rcon)
      (next_word nk i rcon ws :: ws)
  end.

(** The round keys of a key of 16, 24 or 32 bytes. *)
Definition round_keys (key : list Z) : list (list Z) :=
  let nk := (length key / 4)%nat in
  let words := (4 * (nk + 7))%nat in
  chunks 16 (concat (rev (expand (words - nk)%nat nk nk 1 (rev (chunks 4 key))))).

Definition aes_round (s k : list Z) : list Z := xor_bytes (mix_columns (shift_rows (map sub_byte s))) k.

Fixpoint aes_rounds (ks : list (list Z)) (s : list Z) : list Z :=
  match ks with
  | [] => s
  | [k] => xor_bytes (shift_rows (map sub_byte s)) k
  | k :: ks => aes_rounds ks (aes_round s k)
  end.

(** [block.Encrypt] with precomputed round keys. *)
Definition aes_encrypt (ks : list (list Z)) (block : list Z) : list Z :=
  match ks with [] => block | k :: ks => aes_rounds ks (xor_bytes block k) end.

(** ** GCM *)

(** Multiplication in GF(2^128) on 128-bit integers, most significant bit first. *)
Fixpoint gf_mul_loop (n : nat) (x v acc : Z) : Z :=
  match n with
  | O => acc
  | S n' =>
    let acc := if Z.testbit x (Z.of_nat n') then Z.lxor acc v else acc in
    let v := if Z.testbit v 0 then Z.lxor (Z.shiftr v 1) (Z.shiftl 225 120) else Z.shiftr v 1 in
    gf_mul_loop n' x v acc
  end.
Definition gf_mul (x y : Z) : Z := gf_mul_loop 128 x y 0.

Definition ghash (h : Z) (blocks : list (list Z)) : Z :=
  fold_left (fun y b => gf_mul (Z.lxor y (be_value b)) h) blocks 0.

Definition pad16 (l : list Z) : list Z := l ++ zeros ((16 - length l mod 16) mod 16).

(** Block [i] of the key stream of a 12-byte nonce, a 128-bit integer; block 1 masks the tag. *)
Definition gcm_stream (ks : list (list Z)) (nonce : list Z) (i : Z) : Z :=
  be_value (aes_encrypt ks (nonce ++ be_bytes 4 (i mod 2 ^ 32))).

Fixpoint gcm_ctr (ks : list (list Z)) (nonce : list Z) (i : Z) (blocks : list (list Z)) : list Z :=
  match blocks with
  | [] => []
  | b :: bs => xor_bytes b (be_bytes 16 (gcm_stream ks nonce i)) ++ gcm_ctr ks nonce (i + 1) bs
  end.

Definition gcm_tag (ks : list (list Z)) (nonce ciphertext : list Z) : list Z :=
  let h := be_value (aes_encrypt ks (zeros 16)) in
  let len := be_bytes 8 0 ++ be_bytes 8 (8 * Z.of_nat (length ciphertext)) in
  let s := ghash h (chunks 16 (pad16 ciphertext) ++ [len]) in
  be_bytes 16 (Z.lxor s (gcm_stream ks nonce 1)).

(** [aesGCM.Seal(nonce, nonce, plaintext, nil)]: nonce, ciphertext, tag. *)
Definition gcm_seal (key nonce plaintext : string) : string :=
  let ks := round_keys (bytes_of key) in
  let n := bytes_of nonce in
  let c := gcm_ctr ks n 2 (chunks 16 (bytes_of plaintext)) in
  nonce +:+ string_of c +:+ string_of (gcm_tag ks n c).

(** [aesGCM.Open(nil, nonce, ciphertext, nil)] *)
Definition gcm_open (key nonce ciphertext : string) : res string :=
  let failed := ErrLeaf "cipher: message authentication failed" in
  let ks := round_keys (bytes_of key) in
  let n := bytes_of nonce in
  if (String.length ciphertext <? 16)%nat then Err failed else
  let len := (String.length ciphertext - 16)%nat in
  let c := bytes_of (str_take len ciphertext) in
  if (str_drop len ciphertext =? string_of (gcm_tag ks n c))%string
  then Ok (string_of (gcm_ctr ks n 2 (chunks 16 c)))
  else Err failed.

(** ** SHA-256 and HMAC *)

Definition sha_k : list Z :=
  [1116352408; 1899447441; 3049323471; 3921009573; 961987163; 1508970993; 2453635748; 2870763221;
   3624381080; 310598401; 607225278; 1426881987; 1925078388; 2162078206; 2614888103; 3248222580;
   3835390401; 4022224774; 264347078; 604807628; 770255983; 1249150122; 1555081692; 1996064986;
   2554220882; 2821834349; 2952996808; 3210313671; 3336571891; 3584528711; 113926993; 338241895;
   666307205; 773529912; 1294757372; 1396182291; 1695183700; 1986661051; 2177026350; 2456956037;
   2730485921; 2820302411; 3259730800; 3345764771; 3516065817; 3600352804; 4094571909; 275423344;
   430227734; 506948616; 659060556; 883997877; 958139571; 1322822218; 1537002063; 1747873779;
   1955562222; 2024104815; 2227730452; 2361852424; 2428436474; 2756734187; 3204031479; 3329325298].

Definition sha_h0 : list Z :=
  [1779033703; 3144134277; 1013904242; 2773480762; 1359893119; 2600822924; 528734635; 1541459225].

Definition w32 (z : Z) : Z := z mod 2 ^ 32.
Definition rotr (n x : Z) : Z := Z.lor (Z.shiftr x n) (w32 (Z.shiftl x (32 - n))).

Definition lxor3 (a b c : Z) : Z := Z.lxor (Z.lxor a b) c.
Definition sigma0 (x : Z) : Z := lxor3 (rotr 7 x) (rotr 18 x) (Z.shiftr x 3).
Definition sigma1 (x : Z) : Z := lxor3 (rotr 17 x) (rotr 19 x) (Z.shiftr x 10).
Definition Sigma0 (x : Z) : Z := lxor3 (rotr 2 x) (rotr 13 x) (rotr 22 x).
Definition Sigma1 (x : Z) : Z := lxor3 (rotr 6 x) (rotr 11 x) (rotr 25 x).
Definition sha_ch (x y z : Z) : Z := Z.lxor (Z.land x y) (Z.land (Z.lxor x (2 ^ 32 - 1)) z).
Definition sha_maj (x y z : Z) : Z := lxor3 (Z.land x y) (Z.land x z) (Z.land y z).

(** The message schedule, newest word first. *)
Fixpoint sha_schedule (n : nat) (ws : list Z) : list Z :=
  match n with
  | O => ws
  | S n =>
    let w i := nth i ws 0 in
    sha_schedule n (w32 (sigma1 (w 1%nat) + w 6%nat + sigma0 (w 14%nat) + w 15%nat) :: ws)
  end.

Definition sha_round (s : list Z) (kw : Z * Z) : list Z :=
  match s with
  | [a; b; c; d; e; f; g; h] =>
    let t1 := h + Sigma1 e + sha_ch e f g + kw.1 + kw.2 in
    let t2 := Sigma0 a + sha_maj a b c in
    [w32 (t1 + t2); a; b; c; w32 (d + t1); e; f; g]
  | _ => s
  end.

Definition sha_block (h : list Z) (block : list Z) : list Z :=
  let ws := rev (sha_schedule 48 (rev (map be_value (chunks 4 block)))) in
  map (fun p => w32 (p.1 + p.2)) (combine h (fold_left sha_round (combine sha_k ws) h)).

Definition sha_pad (l : list Z) : list Z :=
  let n := length l in
  l ++ [128] ++ zeros ((119 - n mod 64) mod 64)%nat ++ be_bytes 8 (8 * Z.of_nat n).

Definition sha256_bytes (l : list Z) : list Z :=
  concat (map (be_bytes 4) (fold_left sha_block (chunks 64 (sha_pad l)) sha_h0)).

(** [sha256.Sum256] *)
Definition sha256 (s : string) : string := string_of (sha256_bytes (bytes_of s)).

(** [hmac.New(sha256.New, key)] on one message. *)
Definition hmac_sha256 (key msg : string) : string :=
  let k := bytes_of key in
  let k := if (64 <? length k)%nat then sha256_bytes k else k in
  let k := k ++ zeros (64 - length k) in
  let inner := sha256_bytes (map (Z.lxor 54) k ++ bytes_of msg) in
  string_of (sha256_bytes (map (Z.lxor 92) k ++ inner)).

(** ** Published test vectors *)

Definition unhex (s : string) : string := match hex_decode s with Ok b => b | Err _ => "" end.

(** FIPS 197, C.3 *)
Example aes256_vector :
  hex_encode (string_of (aes_encrypt
    (round_keys (bytes_of (unhex "000102030405060708090a0b0c0d0e0f101112131415161718191a1b1c1d1e1f")))
    (bytes_of (unhex "00112233445566778899aabbccddeeff"))))
  = "8ea2b7ca516745bfeafc49904b496089".
Proof. vm_compute. reflexivity. Qed.

(** The GCM specification's test case 14. *)
Example gcm_vector_14 :
  hex_encode (gcm_seal (string_of (zeros 32)) (string_of (zeros 12)) (string_of (zeros 16)))
  = "000000000000000000000000cea7403d4d606b6e074ec5d3baf39d18d0d1c8a799996bf0265b98b5d48ab919".
Proof. vm_compute. reflexivity. Qed.

(** FIPS 180-4: "abc". *)
Example sha256_vector :
  hex_encode (sha256 "abc") = "ba7816bf8f01cfea414140de5dae2223b00361a396177a9cb410ff61f20015ad".
Proof. vm_compute. reflexivity. Qed.

(** RFC 4231, test case 2. *)
Example hmac_vector :
  hex_encode (hmac_sha256 "Jefe" "what do ya want for nothing?")
  = "5bdcc146bf60754e6a042426089575c75a003f089d2739839dec58b964ec3843".
Proof. vm_compute. reflexivity. Qed.

(** ** Opening what was sealed *)

Definition is_byte (z : Z) : Prop := 0 <= z < 256.

Lemma bytes_of_bytes s : Forall is_byte (bytes_of s).
Proof. induction s; simpl; constructor; [apply byte_val_range|done]. Qed.

Lemma bytes_of_string_of l : Forall is_byte l -> bytes_of (string_of l) = l.
Proof.
  induction 1 as [|z l Hz Hl IH]; simpl; [done|]. rewrite byte_val_of, IH, Z.mod_small by done. done.
Qed.

Lemma string_of_bytes_of s : string_of (bytes_of s) = s.
Proof. induction s as [|c s IH]; simpl; [done|]. by rewrite byte_of_val, IH. Qed.

Lemma length_bytes_of s : length (bytes_of s) = String.length s.
Proof. induction s; simpl; congruence. Qed.

Lemma length_string_of l : String.length (string_of l) = length l.
Proof. induction l; simpl; congruence. Qed.

Lemma length_be_bytes n z : length (be_bytes n z) = n.
Proof. induction n; simpl; congruence. Qed.

Lemma be_bytes_range n z : Forall is_byte (be_bytes n z).
Proof. induction n; simpl; constructor; [apply Z.mod_pos_bound; lia|done]. Qed.

Lemma lxor_byte a b : is_byte a -> is_byte b -> is_byte (Z.lxor a b).
Proof.
  intros Ha Hb. assert (H0 : 0 <= Z.lxor a b) by (apply Z.lxor_nonneg; unfold is_byte in *; lia).
  split; [done|]. change 256 with (2 ^ 8).
  destruct (decide (Z.lxor a b = 0)) as [->|Hne]; [lia|]. apply Z.log2_lt_pow2; [lia|].
  assert (Hl : forall x, is_byte x -> Z.log2 x < 8).
  { intros x Hx. destruct (decide (x = 0)) as [->|]; [done|]. apply Z.log2_lt_pow2; unfold is_byte in *; lia. }
  pose proof (Z.log2_lxor a b ltac:(unfold is_byte in *; lia) ltac:(unfold is_byte in *; lia)).
  pose proof (Hl a Ha). pose proof (Hl b Hb). lia.
Qed.

Lemma xor_bytes_range a b : Forall is_byte a -> Forall is_byte b -> Forall is_byte (xor_bytes a b).
Proof.
  intros Ha. revert b. induction Ha as [|x a Hx Ha IH]; intros b Hb; simpl; [constructor|].
  destruct Hb; constructor; [by apply lxor_byte|by apply IH].
Qed.

Lemma xor_bytes_length a b : (length a <= length b)%nat -> length (xor_bytes a b) = length a.
Proof. revert b. induction a as [|x a IH]; intros [|y b] H; simpl in *; try lia. rewrite IH; lia. Qed.

Lemma xor_bytes_twice a b : (length a <= length b)%nat -> xor_bytes (xor_bytes a b) b = a.
Proof.
  revert b. induction a as [|x a IH]; intros [|y b] H; simpl in *; try done; try lia.
  rewrite IH by lia. by rewrite Z.lxor_assoc, Z.lxor_nilpotent, Z.lxor_0_r.
Qed.

Lemma chunks_fuel_enough {A} f g n (l : list A) :
  (0 < n)%nat -> (length l <= f)%nat -> (length l <= g)%nat -> chunks_fuel f n l = chunks_fuel g n l.
Proof.
  intros Hn. revert g l. induction f as [|f IH]; intros g l Hf Hg.
  - destruct l; simpl in *; [|lia]. by destruct g.
  - destruct l as [|a l]; [by destruct g|]. destruct g as [|g]; [simpl in *; lia|].
    cbn [chunks_fuel]. f_equal. apply IH; rewrite length_drop; simpl in *; lia.
Qed.

Lemma chunks_cons {A} n (l : list A) :
  (0 < n)%nat -> l <> [] -> chunks n l = take n l :: chunks n (drop n l).
Proof.
  intros Hn Hl. unfold chunks. destruct l as [|a l]; [done|]. cbn [length chunks_fuel]. f_equal.
  apply chunks_fuel_enough; [done|rewrite length_drop; simpl; lia|done].
Qed.

(** The key stream applied block by block keeps the length and is its own inverse. *)
Lemma gcm_ctr_step ks nonce i l :
  l <> [] ->
  gcm_ctr ks nonce i (chunks 16 l)
  = xor_bytes (take 16 l) (be_bytes 16 (gcm_stream ks nonce i)) ++ gcm_ctr ks nonce (i + 1) (chunks 16 (drop 16 l)).
Proof. intros Hl. by rewrite chunks_cons by (done || lia). Qed.

Lemma gcm_ctr_length ks nonce i l : length (gcm_ctr ks nonce i (chunks 16 l)) = length l.
Proof.
  remember (length l) as n eqn:Hn. revert i l Hn.
  induction n as [n IH] using lt_wf_ind; intros i l ->. destruct l as [|a l]; [done|].
  rewrite gcm_ctr_step by done.
  rewrite length_app, xor_bytes_length by (rewrite length_be_bytes, length_take; lia).
  rewrite (IH (length (drop 16 (a :: l)))); [|rewrite length_drop; simpl; lia|done].
  rewrite length_take, length_drop. simpl length. lia.
Qed.

Lemma gcm_ctr_twice ks nonce i l : gcm_ctr ks nonce i (chunks 16 (gcm_ctr ks nonce i (chunks 16 l))) = l.
Proof.
  remember (length l) as n eqn:Hn. revert i l Hn.
  induction n as [n IH] using lt_wf_ind; intros i l ->. destruct l as [|a l]; [done|].
  set (m := a :: l). assert (Hm : m <> []) by done.
  pose proof (gcm_ctr_length ks nonce i m) as Hlen.
  rewrite gcm_ctr_step; [|intros Hz; by rewrite Hz in Hlen].
  rewrite (gcm_ctr_step _ _ _ m Hm).
  set (x := xor_bytes (take 16 m) (be_bytes 16 (gcm_stream ks nonce i))).
  assert (Hx : length x = length (take 16 m)) by (apply xor_bytes_length; rewrite length_be_bytes, length_take; lia).
  set (y := gcm_ctr ks nonce (i + 1) (chunks 16 (drop 16 m))).
  assert (Hy : length y = length (drop 16 m)) by apply gcm_ctr_length.
  assert (Hsplit : take 16 (x ++ y) = x /\ drop 16 (x ++ y) = y).
  { rewrite length_take in Hx. rewrite length_drop in Hy. destruct (decide (16 <= length m)%nat).
    - rewrite take_app_length', drop_app_length' by lia. done.
    - assert (y = []) as -> by (apply nil_length_inv; lia). rewrite app_nil_r.
      rewrite take_ge, drop_ge by lia. done. }
  destruct Hsplit as [-> ->]. unfold y.
  rewrite (IH (length (drop 16 m))); [|rewrite length_drop; subst m; simpl; lia|done].
  unfold x. rewrite xor_bytes_twice by (rewrite length_be_bytes, length_take; lia). apply take_drop.
Qed.

Lemma gcm_ctr_range ks nonce i blocks : Forall (Forall is_byte) blocks -> Forall is_byte (gcm_ctr ks nonce i blocks).
Proof.
  intros H. revert i. induction H as [|b bs Hb Hbs IH]; intros i; cbn [gcm_ctr]; [constructor|].
  apply Forall_app. split; [apply xor_bytes_range; [done|apply be_bytes_range]|apply IH].
Qed.

Lemma chunks_range l : Forall is_byte l -> Forall (Forall is_byte) (chunks 16 l).
Proof.
  unfold chunks. generalize (length l) as f. intros f. revert l. induction f as [|f IH]; intros l Hl; simpl; [constructor|].
  destruct l as [|a l]; [constructor|]. constructor; [by apply Forall_take|]. by apply IH, Forall_drop.
Qed.

Lemma gcm_tag_length ks nonce c : length (gcm_tag ks nonce c) = 16%nat.
Proof. apply length_be_bytes. Qed.

Lemma gcm_open_seal key nonce plaintext :
  exists sealed, gcm_seal key nonce plaintext = nonce +:+ sealed /\ gcm_open key nonce sealed = Ok plaintext.
Proof.
  unfold gcm_seal. set (ks := round_keys (bytes_of key)). set (n := bytes_of nonce).
  set (c := gcm_ctr ks n 2 (chunks 16 (bytes_of plaintext))). set (tag := string_of (gcm_tag ks n c)).
  exists (string_of c +:+ tag). split; [done|]. unfold gcm_open. fold ks n.
  assert (Htag : String.length tag = 16%nat) by (unfold tag; rewrite length_string_of; apply gcm_tag_length).
  rewrite str_length_app, Htag.
  destruct (Nat.ltb_spec (String.length (string_of c) + 16) 16); [lia|].
  replace (String.length (string_of c) + 16 - 16)%nat with (String.length (string_of c)) by lia.
  rewrite str_take_app, str_drop_app, bytes_of_string_of.
  2:{ apply gcm_ctr_range, chunks_range, bytes_of_bytes. }
  unfold tag. rewrite String.eqb_refl. unfold c. by rewrite gcm_ctr_twice, string_of_bytes_of.
Qed.
