(* ===== verification/Json.v ===== *)
(** The parts of [unicode/utf8] and [encoding/json] the program uses: UTF-8 validity, JSON
    values, [Marshal]'s compact output with its HTML-safe string escaping, and the
    parser behind [Unmarshal].  [json_parse_print] is the round trip the services rely on. *)

From S2P Require Export Strconv.
From Stdlib Require Import Ascii.

(** ** UTF-8 *)

Definition in_range (lo hi : Z) (c : ascii) : bool :=
  (lo <=? byte_val c) && (byte_val c <=? hi).

(** Length of a multi-byte sequence by its first byte, with the range of the second byte. *)
Definition utf8_lead (v : Z) : option (nat * Z * Z) :=
  if (194 <=? v) && (v <=? 223) then Some (2%nat, 128, 191)
  else if v =? 224 then Some (3%nat, 160, 191)
  else if v =? 237 then Some (3%nat, 128, 159)
  else if (225 <=? v) && (v <=? 239) then Some (3%nat, 128, 191)
  else if v =? 240 then Some (4%nat, 144, 191)
  else if (241 <=? v) && (v <=? 243) then Some (4%nat, 128, 191)
  else if v =? 244 then Some (4%nat, 128, 143)
  else None.

Fixpoint conts (n : nat) (s : string) : bool :=
  match n, s with
  | O, _ => true
  | S n', String c s' => in_range 128 191 c && conts n' s'
  | S _, EmptyString => false
  end.

(** [utf8.DecodeRuneInString]'s size for the sequence at the head of [s]; [None] where it
    answers [(RuneError, 1)] (or [(RuneError, 0)] on the empty string). *)
Definition utf8_size (s : string) : option nat :=
  match s with
  | EmptyString => None
  | String a t =>
    if byte_val a <? 128 then Some 1%nat
    else match utf8_lead (byte_val a) with
         | None => None
         | Some (n, lo, hi) =>
           match t with
           | String b u => if in_range lo hi b && conts (n - 2) u then Some n else None
           | EmptyString => None
           end
         end
  end.

Fixpoint utf8_valid_fuel (fuel : nat) (s : string) : bool :=
  match fuel with
  | O => match s with EmptyString => true | _ => false end
  | S f =>
    match s with
    | EmptyString => true
    | _ => match utf8_size s with None => false | Some n => utf8_valid_fuel f (str_drop n s) end
    end
  end.

Definition utf8_valid (s : string) : bool := utf8_valid_fuel (String.length s) s.

(** Number of characters: bytes that do not continue a sequence. *)
Fixpoint rune_count (s : string) : nat :=
  match s with
  | EmptyString => O
  | String c s' => ((if in_range 128 191 c then 0 else 1) + rune_count s')%nat
  end.

(** [utf8.EncodeRune] below U+10000, enough for one [\uXXXX] escape. *)
Definition utf8_encode_bmp (r : Z) : string :=
  if r <? 128 then String (byte_of r) ""
  else if r <? 2048 then String (byte_of (192 + r / 64)) (String (byte_of (128 + r mod 64)) "")
  else String (byte_of (224 + r / 4096))
         (String (byte_of (128 + (r / 64) mod 64)) (String (byte_of (128 + r mod 64)) "")).

Definition utf8_encode_sup (r : Z) : string :=
  String (byte_of (240 + r / 262144))
    (String (byte_of (128 + (r / 4096) mod 64))
       (String (byte_of (128 + (r / 64) mod 64)) (String (byte_of (128 + r mod 64)) ""))).

Definition rune_error : string := utf8_encode_bmp 65533.

(** ** Values and printing *)

(** Numbers keep their literal text, which the decoder hands to [strconv]. *)
#[warnings="-register-all"]
Inductive json : Type :=
| JNull
| JBool (b : bool)
| JNum (lit : string)
| JStr (s : string)
| JArr (l : list json)
| JObj (l : list (string * json)).

Definition dquote : ascii := "034"%char.
Definition backslash : ascii := "\"%char.

Definition hex2 (v : Z) : string := String (hex_char (v / 16)) (String (hex_char (v mod 16)) "").

(** [htmlSafeSet]: ASCII from space to DEL without the quote, ampersand, angle brackets
    and backslash. *)
Definition html_safe (v : Z) : bool :=
  (32 <=? v) && (v <=? 127) && negb (v =? 34) && negb (v =? 38) && negb (v =? 60)
  && negb (v =? 62) && negb (v =? 92).

Definition escape_ascii (c : ascii) : string :=
  let v := byte_val c in
  if html_safe v then String c ""
  else if (v =? 92) || (v =? 34) then String backslash (String c "")
  else if v =? 8 then String backslash "b"
  else if v =? 12 then String backslash "f"
  else if v =? 10 then String backslash "n"
  else if v =? 13 then String backslash "r"
  else if v =? 9 then String backslash "t"
  else String backslash ("u00" +:+ hex2 v).

(** U+2028 and U+2029, which [Marshal] escapes. *)
Definition line_sep (s : string) : option string :=
  match s with
  | String a (String b (String c _)) =>
    if (byte_val a =? 226) && (byte_val b =? 128) then
      if byte_val c =? 168 then Some (String backslash "u2028")
      else if byte_val c =? 169 then Some (String backslash "u2029") else None
    else None
  | _ => None
  end.

Fixpoint quote_body (fuel : nat) (s : string) : string :=
  match fuel with
  | O => EmptyString
  | S f =>
    match s with
    | EmptyString => EmptyString
    | String c t =>
      if byte_val c <? 128 then escape_ascii c +:+ quote_body f t
      else match utf8_size s with
           | None => String backslash "ufffd" +:+ quote_body f t
           | Some n =>
             match line_sep s with
             | Some e => e +:+ quote_body f (str_drop n s)
             | None => str_take n s +:+ quote_body f (str_drop n s)
             end
           end
    end
  end.

Definition json_quote (s : string) : string :=
  String dquote (quote_body (String.length s) s) +:+ String dquote "".

(** [json.Marshal]'s text of a value. *)
Fixpoint json_print (v : json) : string :=
  match v with
  | JNull => "null"
  | JBool true => "true"
  | JBool false => "false"
  | JNum lit => lit
  | JStr s => json_quote s
  | JArr l => "[" +:+ strings_join "," (map json_print l) +:+ "]"
  | JObj l =>
    "{" +:+ strings_join "," (map (fun kv => json_quote kv.1 +:+ ":" +:+ json_print kv.2) l) +:+ "}"
  end.

(** ** Parsing *)

Definition is_json_ws (c : ascii) : bool :=
  let v := byte_val c in (v =? 32) || (v =? 9) || (v =? 10) || (v =? 13).

Fixpoint skip_ws (s : string) : string :=
  match s with
  | String c t => if is_json_ws c then skip_ws t else s
  | EmptyString => EmptyString
  end.

Definition simple_escape (c : ascii) : option ascii :=
  let v := byte_val c in
  if (v =? 34) || (v =? 92) || (v =? 47) then Some c
  else if v =? 98 then Some (byte_of 8)
  else if v =? 102 then Some (byte_of 12)
  else if v =? 110 then Some (byte_of 10)
  else if v =? 114 then Some (byte_of 13)
  else if v =? 116 then Some (byte_of 9)
  else None.

(** [getu4]: four hexadecimal digits. *)
Definition get_u4 (s : string) : option (Z * string) :=
  match s with
  | String a (String b (String c (String d t))) =>
    match hex_val a, hex_val b, hex_val c, hex_val d with
    | Some w, Some x, Some y, Some z => Some (((w * 16 + x) * 16 + y) * 16 + z, t)
    | _, _, _, _ => None
    end
  | _ => None
  end.

Definition is_high_surrogate (r : Z) : bool := (55296 <=? r) && (r <? 56320).
Definition is_low_surrogate (r : Z) : bool := (56320 <=? r) && (r <? 57344).

(** A [\uXXXX] escape whose value is a surrogate: a pair gives one character, a lone half
    gives U+FFFD and consumes only itself. *)
Definition surrogate (r : Z) (w : string) : string * string :=
  match w with
  | String b (String u t) =>
    if (byte_val b =? 92) && (byte_val u =? 117) then
      match get_u4 t with
      | Some (r2, t2) =>
        if is_high_surrogate r && is_low_surrogate r2
        then (utf8_encode_sup ((r - 55296) * 1024 + (r2 - 56320) + 65536), t2)
        else (rune_error, w)
      | None => (rune_error, w)
      end
    else (rune_error, w)
  | _ => (rune_error, w)
  end.

Definition cons_str (x : string) (r : option (string * string)) : option (string * string) :=
  match r with Some (y, t) => Some (x +:+ y, t) | None => None end.

(** The body of a string literal, from after the opening quote to after the closing one. *)
Fixpoint parse_str (fuel : nat) (s : string) : option (string * string) :=
  match fuel with
  | O => None
  | S f =>
    match s with
    | EmptyString => None
    | String c t =>
      let v := byte_val c in
      if v =? 34 then Some (EmptyString, t)
      else if v =? 92 then
        match t with
        | EmptyString => None
        | String e u =>
          match simple_escape e with
          | Some x => cons_str (String x "") (parse_str f u)
          | None =>
            if byte_val e =? 117 then
              match get_u4 u with
              | None => None
              | Some (r, w) =>
                if is_high_surrogate r || is_low_surrogate r then
                  let '(x, w') := surrogate r w in cons_str x (parse_str f w')
                else cons_str (utf8_encode_bmp r) (parse_str f w)
              end
            else None
          end
        end
      else if v <? 32 then None
      else if v <? 128 then cons_str (String c "") (parse_str f t)
      else match utf8_size s with
           | None => cons_str rune_error (parse_str f t)
           | Some n => cons_str (str_take n s) (parse_str f (str_drop n s))
           end
    end
  end.

(** A number literal: sign, integer part, fraction, exponent. *)
Definition scan_int (s : string) : option (string * string) :=
  match s with
  | String c t =>
    if byte_val c =? 48 then Some (String c "", t)
    else match span_digits s with (EmptyString, _) => None | r => Some r end
  | EmptyString => None
  end.

Definition scan_frac (s : string) : option (string * string) :=
  match s with
  | String c t =>
    if byte_val c =? 46 then
      match span_digits t with (EmptyString, _) => None | (d, u) => Some (String c d, u) end
    else Some (EmptyString, s)
  | EmptyString => Some (EmptyString, s)
  end.

Definition scan_exp (s : string) : option (string * string) :=
  match s with
  | String c t =>
    if (byte_val c =? 101) || (byte_val c =? 69) then
      let '(sg, u) :=
        match t with
        | String d u => if (byte_val d =? 43) || (byte_val d =? 45) then (String d "", u) else ("", t)
        | EmptyString => ("", t)
        end in
      match span_digits u with
      | (EmptyString, _) => None
      | (d, w) => Some (String c (sg +:+ d), w)
      end
    else Some (EmptyString, s)
  | EmptyString => Some (EmptyString, s)
  end.

Definition scan_number (s : string) : option (string * string) :=
  let '(sg, s1) :=
    match s with
    | String c t => if byte_val c =? 45 then (String c "", t) else ("", s)
    | EmptyString => ("", s)
    end in
  match scan_int s1 with
  | None => None
  | Some (i, s2) =>
    match scan_frac s2 with
    | None => None
    | Some (fr, s3) =>
      match scan_exp s3 with
      | None => None
      | Some (e, s4) => Some (sg +:+ i +:+ fr +:+ e, s4)
      end
    end
  end.

Fixpoint strip_prefix (p s : string) : option string :=
  match p, s with
  | EmptyString, _ => Some s
  | String a p', String b s' => if (a =? b)%char then strip_prefix p' s' else None
  | String _ _, EmptyString => None
  end.

(** Values, object members and array elements; the fuel bounds the input's length. *)
Fixpoint parse_value (fuel : nat) (s : string) : option (json * string) :=
  match fuel with
  | O => None
  | S f =>
    let s := skip_ws s in
    match s with
    | EmptyString => None
    | String c t =>
      let v := byte_val c in
      if v =? 34 then
        match parse_str f t with Some (x, u) => Some (JStr x, u) | None => None end
      else if v =? 123 then
        match skip_ws t with
        | String d u =>
          if byte_val d =? 125 then Some (JObj [], u)
          else match parse_members f t with Some (l, w) => Some (JObj l, w) | None => None end
        | EmptyString => None
        end
      else if v =? 91 then
        match skip_ws t with
        | String d u =>
          if byte_val d =? 93 then Some (JArr [], u)
          else match parse_elems f t with Some (l, w) => Some (JArr l, w) | None => None end
        | EmptyString => None
        end
      else if v =? 110 then option_map (pair JNull) (strip_prefix "null" s)
      else if v =? 116 then option_map (pair (JBool true)) (strip_prefix "true" s)
      else if v =? 102 then option_map (pair (JBool false)) (strip_prefix "false" s)
      else match scan_number s with Some (l, u) => Some (JNum l, u) | None => None end
    end
  end
with parse_members (fuel : nat) (s : string) : option (list (string * json) * string) :=
  match fuel with
  | O => None
  | S f =>
    match skip_ws s with
    | String q t =>
      if byte_val q =? 34 then
        match parse_str f t with
        | None => None
        | Some (k, u) =>
          match skip_ws u with
          | String c w =>
            if byte_val c =? 58 then
              match parse_value f w with
              | None => None
              | Some (v, x) =>
                match skip_ws x with
                | String d y =>
                  if byte_val d =? 125 then Some ([(k, v)], y)
                  else if byte_val d =? 44 then
                    match parse_members f y with
                    | Some (l, z) => Some ((k, v) :: l, z)
                    | None => None
                    end
                  else None
                | EmptyString => None
                end
              end
            else None
          | EmptyString => None
          end
        end
      else None
    | EmptyString => None
    end
  end
with parse_elems (fuel : nat) (s : string) : option (list json * string) :=
  match fuel with
  | O => None
  | S f =>
    match parse_value f s with
    | None => None
    | Some (v, x) =>
      match skip_ws x with
      | String d y =>
        if byte_val d =? 93 then Some ([v], y)
        else if byte_val d =? 44 then
          match parse_elems f y with Some (l, z) => Some (v :: l, z) | None => None end
        else None
      | EmptyString => None
      end
    end
  end.

(** The value of a whole document, as [json.Unmarshal] requires it: one value and blanks. *)
Definition json_parse (s : string) : option json :=
  match parse_value (S (String.length s)) s with
  | Some (v, r) => match skip_ws r with EmptyString => Some v | _ => None end
  | None => None
  end.

(** ** Values the program marshals: UTF-8 strings and 64-bit integers *)

Definition int_lit (lit : string) : bool :=
  match ParseInt lit with Ok z => (FormatInt z =? lit)%string | Err _ => false end.

Fixpoint json_ok (v : json) : bool :=
  match v with
  | JNull | JBool _ => true
  | JNum lit => int_lit lit
  | JStr s => utf8_valid s
  | JArr l => forallb json_ok l
  | JObj l => forallb (fun kv => utf8_valid kv.1 && json_ok kv.2) l
  end.

(** ** Lemmas on UTF-8 *)

Lemma conts_take n s X : conts n s = true -> conts n (str_take n s +:+ X) = true /\ (n <= String.length s)%nat.
Proof.
  revert s. induction n as [|n IH]; intros [|c s]; simpl; try done; [split; [done|lia]..|].
  rewrite ?str_app_cons. simpl. intros [-> Hc]%andb_true_iff.
  destruct (IH s Hc) as [-> ?]. split; [done | lia].
Qed.

Lemma utf8_lead_len v n lo hi : utf8_lead v = Some (n, lo, hi) -> (2 <= n)%nat.
Proof. unfold utf8_lead. intros. repeat case_match; simplify_eq; lia. Qed.

(** A sequence's size does not depend on what follows it. *)
Lemma utf8_size_take s n X :
  utf8_size s = Some n ->
  utf8_size (str_take n s +:+ X) = Some n /\ (1 <= n <= String.length s)%nat.
Proof.
  destruct s as [|a t]; simpl; [done|]. case_match.
  - intros [= <-]. rewrite ?str_app_cons. simpl. split; [by case_match | lia].
  - destruct (utf8_lead (byte_val a)) as [[[m lo] hi]|] eqn:Hl; [|done].
    destruct t as [|b u]; [done|]. case_match; [|done]. intros [= <-].
    apply utf8_lead_len in Hl as Hm.
    match goal with H : _ && _ = true |- _ => apply andb_true_iff in H as [Hb Hc] end.
    destruct m as [|[|m]]; [lia..|]. simpl in Hc. rewrite Nat.sub_0_r in Hc.
    destruct (conts_take _ _ X Hc) as [Hc' Hlen]. simpl str_take. rewrite ?str_app_cons.
    simpl. rewrite Hl. simpl. rewrite Nat.sub_0_r, Hb, Hc'. simpl.
    split; [by case_match | lia].
Qed.

Lemma str_take_take_app n s X :
  (n <= String.length s)%nat ->
  str_take n (str_take n s +:+ X) = str_take n s /\ str_drop n (str_take n s +:+ X) = X.
Proof.
  intros Hn. pose proof (str_length_take n s) as Hl. rewrite Nat.min_l in Hl by done.
  pose proof (str_take_app (str_take n s) X) as Ht.
  pose proof (str_drop_app (str_take n s) X) as Hd.
  rewrite Hl in Ht, Hd. done.
Qed.

(** ** The string round trip *)

(** One escaped ASCII byte is read back in one step, whatever follows. *)
Lemma parse_str_escape g c X :
  byte_val c < 128 ->
  parse_str (S g) (escape_ascii c +:+ X) = cons_str (String c "") (parse_str g X).
Proof.
  destruct c as [[] [] [] [] [] [] [] []]; first [reflexivity | intros H; exfalso; revert H; vm_compute; discriminate].
Qed.

Lemma line_sep_inv s e :
  line_sep s = Some e ->
  exists a u, (a = byte_of 168 /\ e = String backslash "u2028" \/ a = byte_of 169 /\ e = String backslash "u2029")
    /\ s = String (byte_of 226) (String (byte_of 128) (String a u)).
Proof.
  destruct s as [|a [|b [|c u]]]; simpl; try done. intros H.
  destruct (_ && _) eqn:Hab in H; [|done]. bool_prop.
  rewrite <- (byte_of_val a), <- (byte_of_val b), <- (byte_of_val c).
  repeat case_match; bool_prop; simplify_eq;
    repeat match goal with H : byte_val _ = _ |- _ => rewrite H; clear H end; eauto 10.
Qed.

Lemma cons_str_parse g f s X x rest :
  parse_str g (quote_body f s +:+ X) = Some (s, rest) ->
  cons_str x (parse_str g (quote_body f s +:+ X)) = Some (x +:+ s, rest).
Proof. by intros ->. Qed.

Lemma parse_str_lead g c t n X :
  128 <= byte_val c -> utf8_size (String c t) = Some n ->
  parse_str (S g) (str_take n (String c t) +:+ X)
  = cons_str (str_take n (String c t)) (parse_str g X).
Proof.
  intros Hc Hn. destruct (utf8_size_take _ _ X Hn) as [Hn' Hlen].
  destruct (str_take_take_app n (String c t) X) as [Ht Hd]; [lia|].
  destruct n as [|n]; [lia|]. remember (str_take (S n) (String c t)) as p eqn:Hp.
  simpl in Hp. subst p. rewrite str_app_cons in *. cbn [parse_str].
  rewrite (proj2 (Z.eqb_neq _ 34)), (proj2 (Z.eqb_neq _ 92)),
    (proj2 (Z.ltb_ge _ 32)), (proj2 (Z.ltb_ge _ 128)), Hn', Ht, Hd by lia. done.
Qed.

Lemma escape_ascii_nonempty c : (1 <= String.length (escape_ascii c))%nat.
Proof. unfold escape_ascii. repeat case_match; simpl; lia. Qed.

Lemma parse_quote f s g rest :
  utf8_valid_fuel f s = true -> (String.length (quote_body f s) < g)%nat ->
  parse_str g (quote_body f s +:+ String dquote rest) = Some (s, rest).
Proof.
  revert s g. induction f as [|f IH]; intros [|c t] g Hv Hg; simpl in Hv;
    try done; (destruct g as [|g]; [simpl in Hg; lia|]); [reflexivity..|].
  cbn [quote_body] in *. destruct (byte_val c <? 128) eqn:Hc; bool_prop.
  - rewrite str_length_app in Hg. pose proof (escape_ascii_nonempty c).
    rewrite str_app_assoc, parse_str_escape by done.
    erewrite cons_str_parse; [reflexivity|]. apply IH; [done|lia].
  - destruct (utf8_size (String c t)) as [n|] eqn:Hn; simpl in Hn; rewrite (proj2 (Z.ltb_ge _ _) Hc) in Hn;
      rewrite Hn in Hv; [|done].
    assert (Hsz : utf8_size (String c t) = Some n)
      by (simpl; by rewrite (proj2 (Z.ltb_ge _ _) Hc)).
    destruct (line_sep (String c t)) as [e|] eqn:Hls.
    + destruct (line_sep_inv _ _ Hls) as (a & u & Ha & Hs). injection Hs as -> ->.
      assert (n = 3%nat) as ->.
      { destruct Ha as [[-> _]|[-> _]]; vm_compute in Hsz; congruence. }
      rewrite str_length_app in Hg. rewrite str_app_assoc.
      assert (He : parse_str (S g) (e +:+ quote_body f u +:+ String dquote rest)
        = cons_str (String (byte_of 226) (String (byte_of 128) (String a "")))
            (parse_str g (quote_body f u +:+ String dquote rest))).
      { destruct Ha as [[-> ->]|[-> ->]]; reflexivity. }
      simpl str_drop in *. rewrite He. erewrite cons_str_parse; [reflexivity|].
      apply IH; [done|]. destruct Ha as [[_ ->]|[_ ->]]; simpl in Hg; lia.
    + rewrite str_length_app in Hg. rewrite str_app_assoc, parse_str_lead by done.
      pose proof (utf8_size_take _ _ "" Hsz) as [_ Hlen].
      rewrite str_length_take in Hg. erewrite cons_str_parse; [by rewrite str_take_drop|].
      apply IH; [done|lia].
Qed.

(** ** The number round trip *)

(** What may follow a value: the end of input, a comma, a closing bracket or brace. *)
Definition delim (s : string) : bool :=
  match s with
  | EmptyString => true
  | String c _ => (byte_val c =? 44) || (byte_val c =? 93) || (byte_val c =? 125)
  end.

Lemma delim_inv c t : delim (String c t) = true -> byte_val c = 44 \/ byte_val c = 93 \/ byte_val c = 125.
Proof. simpl. rewrite !orb_true_iff, !Z.eqb_eq. tauto. Qed.

Lemma is_digit_false c : ~ (48 <= byte_val c <= 57) -> is_digit c = false.
Proof.
  intros H. destruct (is_digit c) eqn:E; [|done]. by apply is_digit_range in E.
Qed.

Lemma delim_not_digit rest :
  delim rest = true -> span_digits rest = (EmptyString, rest).
Proof.
  destruct rest as [|c t]; [done|]. intros H%delim_inv. simpl.
  rewrite is_digit_false by lia. done.
Qed.

Lemma span_digits_delim s rest :
  string_forallb is_digit s = true -> delim rest = true ->
  span_digits (s +:+ rest) = (s, rest).
Proof.
  intros Hs Hr. induction s as [|c s IH]; [by apply delim_not_digit|].
  simpl in Hs. apply andb_true_iff in Hs as [Hc Hs].
  rewrite str_app_cons. simpl. by rewrite Hc, IH.
Qed.

Lemma scan_frac_exp_delim rest :
  delim rest = true -> scan_frac rest = Some (EmptyString, rest) /\ scan_exp rest = Some (EmptyString, rest).
Proof.
  destruct rest as [|c t]; [done|]. intros H%delim_inv. simpl.
  rewrite (proj2 (Z.eqb_neq _ 46)), (proj2 (Z.eqb_neq _ 101)), (proj2 (Z.eqb_neq _ 69)) by lia. done.
Qed.

(** No leading zero: the first digit of a positive number is positive. *)
Lemma dec_digits_head_pos f n acc :
  0 < n < 2 ^ Z.of_nat (S f) ->
  exists d s, 0 < d < 10 /\ dec_digits (S f) n acc = String (digit_char d) s.
Proof.
  revert n acc. induction f as [|f IH]; intros n acc Hn;
    pose proof (Z.mod_pos_bound n 10 ltac:(lia)); pose proof (Z.div_mod n 10 ltac:(lia));
    rewrite Nat2Z.inj_succ, Z.pow_succ_r in Hn by lia; cbn [dec_digits].
  - change (2 ^ Z.of_nat 0) with 1 in Hn. assert (n = 1) as -> by lia. by exists 1, acc.
  - case_match; bool_prop; [exists (n mod 10), acc; split; [lia | done]|].
    apply IH. lia.
Qed.

Lemma digit_char_val d : 0 <= d < 10 -> byte_val (digit_char d) = 48 + d.
Proof. intros H. unfold digit_char. rewrite byte_val_ascii by lia. lia. Qed.

Lemma scan_int_format n rest :
  0 <= n -> delim rest = true -> scan_int (format_uint n +:+ rest) = Some (format_uint n, rest).
Proof.
  intros Hn Hr. destruct (decide (n = 0)) as [->|Hnz].
  - reflexivity.
  - destruct (dec_digits_head_pos (Z.to_nat (Z.log2 n)) n "") as (d & s & Hd & E).
    { split; [lia|]. apply format_fuel. lia. }
    pose proof (format_uint_digits n ltac:(lia)) as Hall.
    pose proof (span_digits_delim _ rest Hall Hr) as Hspan.
    unfold format_uint in *. rewrite E in *. rewrite str_app_cons in *. cbn [scan_int].
    rewrite digit_char_val, (proj2 (Z.eqb_neq _ _)), Hspan by lia. done.
Qed.

Lemma scan_number_format z rest :
  delim rest = true -> scan_number (FormatInt z +:+ rest) = Some (FormatInt z, rest).
Proof.
  intros Hr. destruct (scan_frac_exp_delim rest Hr) as [Hf He].
  unfold FormatInt. destruct (z <? 0) eqn:Hz; bool_prop.
  - rewrite str_app_cons. unfold scan_number. simpl.
    rewrite scan_int_format, Hf, He, !str_app_nil_r by (done || lia). done.
  - unfold scan_number. destruct (format_uint_head z) as (d & s & Hd & E); [lia|].
    pose proof (scan_int_format z rest ltac:(lia) Hr) as Hi. rewrite E in *.
    rewrite str_app_cons in *. rewrite digit_char_val, (proj2 (Z.eqb_neq _ _)) by lia.
    rewrite Hi, Hf, He, !str_app_nil_r. done.
Qed.

Lemma int_lit_inv lit : int_lit lit = true -> exists z, in_int64 z /\ lit = FormatInt z.
Proof.
  unfold int_lit. destruct (ParseInt lit) as [z|] eqn:E; [|done].
  intros H. bool_prop. apply ParseInt_range in E. eauto.
Qed.

Lemma int_lit_format z : in_int64 z -> int_lit (FormatInt z) = true.
Proof. intros H. unfold int_lit. rewrite parse_int_format by done. apply String.eqb_refl. Qed.

(** The first byte of a printed number selects the parser's number branch. *)
Lemma FormatInt_head z :
  exists c s, FormatInt z = String c s /\ (byte_val c = 45 \/ 48 <= byte_val c <= 57).
Proof.
  unfold FormatInt. destruct (z <? 0) eqn:Hz; bool_prop.
  - eexists _, _. split; [done|]. left. reflexivity.
  - destruct (format_uint_head z) as (d & s & Hd & E); [lia|].
    eexists _, _. split; [exact E|]. right. rewrite digit_char_val; lia.
Qed.

(** ** The value round trip *)

Lemma json_quote_app s X :
  json_quote s +:+ X
  = String dquote (quote_body (String.length s) s +:+ String dquote X).
Proof. unfold json_quote. by rewrite str_app_assoc, str_app_cons. Qed.

Lemma parse_quote_lit s g X :
  utf8_valid s = true -> (String.length (json_quote s) <= g)%nat ->
  parse_str g (quote_body (String.length s) s +:+ String dquote X) = Some (s, X).
Proof.
  intros Hs Hg. apply parse_quote; [done|].
  unfold json_quote in Hg. rewrite str_length_app in Hg. simpl in Hg. lia.
Qed.

Definition print_member (kv : string * json) : string :=
  json_quote kv.1 +:+ ":" +:+ json_print kv.2.

Lemma json_print_obj l : json_print (JObj l) = "{" +:+ strings_join "," (map print_member l) +:+ "}".
Proof. reflexivity. Qed.

Lemma strings_join_cons sep x l :
  strings_join sep (x :: l) = match l with [] => x | _ => x +:+ sep +:+ strings_join sep l end.
Proof. by destruct l. Qed.

(** The three statements proved together by induction on the fuel. *)
Definition value_rt (g : nat) : Prop := forall v rest,
  json_ok v = true -> delim rest = true -> (String.length (json_print v) < g)%nat ->
  parse_value g (json_print v +:+ rest) = Some (v, rest).

Definition members_rt (g : nat) : Prop := forall kv l rest,
  json_ok (JObj (kv :: l)) = true ->
  (String.length (strings_join "," (map print_member (kv :: l))) < g)%nat ->
  parse_members g (strings_join "," (map print_member (kv :: l)) +:+ "}" +:+ rest)
  = Some (kv :: l, rest).

Definition elems_rt (g : nat) : Prop := forall v l rest,
  json_ok (JArr (v :: l)) = true ->
  (S (String.length (strings_join "," (map json_print (v :: l)))) < g)%nat ->
  parse_elems g (strings_join "," (map json_print (v :: l)) +:+ "]" +:+ rest)
  = Some (v :: l, rest).

Lemma json_quote_length s : (2 <= String.length (json_quote s))%nat.
Proof. unfold json_quote. rewrite str_length_app. simpl. lia. Qed.

Lemma elems_rt_step g : value_rt g -> elems_rt g -> elems_rt (S g).
Proof.
  intros HV HE v l rest Hok Hg. simpl in Hok. apply andb_true_iff in Hok as [Hv Hl].
  rewrite map_cons, strings_join_cons in *. cbn [parse_elems]. destruct l as [|w l].
  - simpl map. cbn iota. rewrite HV by (done || (simpl in Hg; lia)). reflexivity.
  - specialize (HE w l rest). rewrite !map_cons in *.
    set (L := strings_join _ (_ :: map _ l)) in *. clearbody L.
    rewrite !str_length_app in Hg. rewrite !str_app_assoc.
    rewrite HV by (done || lia).
    transitivity (match parse_elems g (L +:+ "]" +:+ rest) with
      Some (l0, z) => Some (v :: l0, z) | None => None end); [reflexivity|].
    rewrite HE by (done || (simpl in *; lia)). reflexivity.
Qed.

(** A printed key, its colon and what follows are consumed in one step. *)
Lemma parse_members_key g k X :
  utf8_valid k = true -> (String.length (json_quote k) <= g)%nat ->
  parse_members (S g) (json_quote k +:+ ":" +:+ X)
  = match parse_value g X with
    | None => None
    | Some (v, x) =>
      match skip_ws x with
      | String d y =>
        if byte_val d =? 125 then Some ([(k, v)], y)
        else if byte_val d =? 44 then
          match parse_members g y with
          | Some (l, z) => Some ((k, v) :: l, z)
          | None => None
          end
        else None
      | EmptyString => None
      end
    end.
Proof.
  intros Hk Hg. rewrite json_quote_app. cbn [parse_members].
  set (B := quote_body _ _ +:+ _).
  transitivity (match parse_str g B with
    | None => None
    | Some (k, u) =>
      match skip_ws u with
      | String c w =>
        if byte_val c =? 58 then
          match parse_value g w with
          | None => None
          | Some (v, x) =>
            match skip_ws x with
            | String d y =>
              if byte_val d =? 125 then Some ([(k, v)], y)
              else if byte_val d =? 44 then
                match parse_members g y with
                | Some (l, z) => Some ((k, v) :: l, z)
                | None => None
                end
              else None
            | EmptyString => None
            end
          end
        else None
      | EmptyString => None
      end
    end); [reflexivity|].
  unfold B. rewrite parse_quote_lit by done. reflexivity.
Qed.

Lemma members_rt_step g : value_rt g -> members_rt g -> members_rt (S g).
Proof.
  intros HV HM [k v] l rest Hok Hg. simpl in Hok. apply andb_true_iff in Hok as [Hkv Hl].
  apply andb_true_iff in Hkv as [Hk Hv]. pose proof (json_quote_length k).
  rewrite map_cons, strings_join_cons in *. destruct l as [|w l].
  - simpl map in *. cbn iota in *. unfold print_member in *. simpl fst in *. simpl snd in *.
    rewrite !str_length_app in Hg. rewrite !str_app_assoc.
    rewrite parse_members_key by (done || lia).
    rewrite HV by (done || (simpl in Hg; lia)). reflexivity.
  - specialize (HM w l rest). rewrite !map_cons in *.
    set (L := strings_join _ (_ :: map _ l)) in *. clearbody L.
    unfold print_member in *. simpl fst in *. simpl snd in *.
    rewrite !str_length_app in Hg. rewrite !str_app_assoc.
    rewrite parse_members_key by (done || lia).
    rewrite HV by (done || (simpl in Hg; lia)).
    transitivity (match parse_members g (L +:+ "}" +:+ rest) with
      Some (l0, z) => Some ((k, v) :: l0, z) | None => None end); [reflexivity|].
    rewrite HM by (done || (simpl in *; lia)). reflexivity.
Qed.

Lemma value_rt_num g z rest :
  delim rest = true -> parse_value (S g) (FormatInt z +:+ rest) = Some (JNum (FormatInt z), rest).
Proof.
  intros Hr. pose proof (scan_number_format z rest Hr) as Hs.
  destruct (FormatInt_head z) as (c & s & E & Hc). rewrite E in *. rewrite str_app_cons in *.
  cbn [parse_value skip_ws]. assert (is_json_ws c = false) as ->.
  { unfold is_json_ws. repeat rewrite (proj2 (Z.eqb_neq _ _)) by lia. done. }
  repeat rewrite (proj2 (Z.eqb_neq (byte_val c) _)) by lia. by rewrite Hs.
Qed.

Lemma json_print_head v :
  json_ok v = true ->
  exists c s, json_print v = String c s /\ is_json_ws c = false /\ byte_val c <> 93.
Proof.
  intros Hok. destruct v as [|[]|lit|s|l|l]; simpl in *.
  1-3: eexists _, _; split; [reflexivity|]; split; [reflexivity | by vm_compute].
  - destruct (int_lit_inv _ Hok) as (z & _ & ->).
    destruct (FormatInt_head z) as (c & s & -> & Hc). exists c, s. split; [done|].
    unfold is_json_ws. repeat rewrite (proj2 (Z.eqb_neq _ _)) by lia. split; [done | lia].
  - eexists _, _; split; [unfold json_quote; by rewrite str_app_cons|]; by vm_compute.
  - eexists _, _; split; [by rewrite str_app_cons|]; by vm_compute.
  - eexists _, _; split; [by rewrite str_app_cons|]; by vm_compute.
Qed.

Lemma value_rt_step g : members_rt g -> elems_rt g -> value_rt (S g).
Proof.
  intros HM HE v rest Hok Hr Hg. destruct v as [|b|lit|s|l|l].
  - reflexivity.
  - by destruct b.
  - simpl in Hok. destruct (int_lit_inv _ Hok) as (z & Hz & ->). by apply value_rt_num.
  - simpl json_print in *. rewrite json_quote_app.
    transitivity (match parse_str g (quote_body (String.length s) s +:+ String dquote rest) with
      Some (x, u) => Some (JStr x, u) | None => None end); [reflexivity|].
    rewrite parse_quote_lit by (exact Hok || lia). done.
  - destruct l as [|w l]; [reflexivity|].
    change (json_print (JArr (w :: l)))
      with ("[" +:+ strings_join "," (map json_print (w :: l)) +:+ "]") in *.
    specialize (HE w l rest Hok). rewrite !str_length_app in Hg. rewrite !str_app_assoc.
    transitivity (match parse_elems g (strings_join "," (map json_print (w :: l)) +:+ "]" +:+ rest) with
      Some (x, u) => Some (JArr x, u) | None => None end);
      [|rewrite HE by (cbn [String.length] in Hg; lia); done].
    simpl in Hok. apply andb_true_iff in Hok as [Hw _].
    destruct (json_print_head w Hw) as (c & s & E & Hws & H93).
    assert (exists y, strings_join "," (map json_print (w :: l)) +:+ "]" +:+ rest = String c y) as [y ->].
    { rewrite map_cons, strings_join_cons, E. case_match; rewrite ?str_app_cons; eauto. }
    transitivity (match (if is_json_ws c then skip_ws y else String c y) with
      | String d u => if byte_val d =? 93 then Some (JArr [], u)
        else match parse_elems g (String c y) with Some (l, w) => Some (JArr l, w) | None => None end
      | EmptyString => None end); [reflexivity|].
    by rewrite Hws, (proj2 (Z.eqb_neq _ _) H93).
  - destruct l as [|[k w] l]; [reflexivity|].
    rewrite json_print_obj in *. specialize (HM (k, w) l rest Hok).
    rewrite !str_length_app in Hg. rewrite !str_app_assoc.
    transitivity (match parse_members g (strings_join "," (map print_member ((k, w) :: l)) +:+ "}" +:+ rest) with
      Some (x, u) => Some (JObj x, u) | None => None end);
      [|rewrite HM by (cbn [String.length] in Hg; lia); done].
    assert (exists y, strings_join "," (map print_member ((k, w) :: l)) +:+ "}" +:+ rest = String dquote y) as [y ->].
    { rewrite map_cons, strings_join_cons. unfold print_member at 1 3, json_quote.
      case_match; rewrite ?str_app_cons; eauto. }
    reflexivity.
Qed.

Lemma json_rt g : value_rt g /\ members_rt g /\ elems_rt g.
Proof.
  induction g as [|g (HV & HM & HE)].
  - repeat split; intros ? *; lia.
  - split_and!; [by apply value_rt_step | by apply members_rt_step | by apply elems_rt_step].
Qed.

(** What [Marshal] prints, [Unmarshal] reads back as the same value. *)
Lemma json_parse_print v : json_ok v = true -> json_parse (json_print v) = Some v.
Proof.
  intros Hok. unfold json_parse. destruct (json_rt (S (String.length (json_print v)))) as [HV _].
  specialize (HV v EmptyString Hok eq_refl). rewrite str_app_nil_r in HV.
  rewrite HV by lia. done.
Qed.

#[export] Hint Rewrite json_parse_print using done : go.
