(* ===== verification/Time.v ===== *)
(** The parts of Go's [time] the program uses: instants and durations in nanoseconds,
    [Unix]/[UnixMilli], the Gregorian calendar, and the RFC 3339 texts that
    [Format(time.RFC3339)] and [Time.MarshalJSON]/[UnmarshalJSON] produce and read.
    An instant is a [Z] number of nanoseconds since 1970-01-01T00:00:00Z; texts are for UTC. *)

From S2P Require Export Json.
From Stdlib Require Import Ascii.

Abbreviation time := Z (only parsing).
Abbreviation duration := Z (only parsing).

Definition Nanosecond : duration := 1.
Definition Millisecond : duration := 1000000.
Definition Second : duration := 1000000000.
Definition Minute : duration := 60 * Second.
Definition Hour : duration := 60 * Minute.

(** [t.Unix()] and [t.UnixMilli()] round towards minus infinity. *)
Definition Unix (t : time) : Z := t / Second.
Definition UnixMilli (t : time) : Z := t / Millisecond.

(** ** The calendar *)

Definition is_leap (y : Z) : bool :=
  ((y mod 4 =? 0) && negb (y mod 100 =? 0)) || (y mod 400 =? 0).

Definition days_in (m y : Z) : Z :=
  if m =? 2 then (if is_leap y then 29 else 28)
  else if (m =? 4) || (m =? 6) || (m =? 9) || (m =? 11) then 30 else 31.

(** Years are counted from March 1 of year 0 inside 400-year cycles of 146097 days, so that
    a leap day is the last day of its year; day 0 of the era is 719468 days before 1970. *)
Definition year_day (doe : Z) : Z * Z :=
  let c := Z.min 3 (doe / 36524) in
  let d1 := doe - 36524 * c in
  let q := d1 / 1461 in
  let d2 := d1 - 1461 * q in
  let r := Z.min 3 (d2 / 365) in
  (100 * c + 4 * q + r, d2 - 365 * r).

Definition month_day (doy : Z) : Z * Z :=
  let mp := (5 * doy + 2) / 153 in
  (mp, doy - (153 * mp + 2) / 5 + 1).

(** Days since the epoch to (year, month, day). *)
Definition civil (days : Z) : Z * Z * Z :=
  let z := days + 719468 in
  let era := z / 146097 in
  let '(yoe, doy) := year_day (z mod 146097) in
  let '(mp, d) := month_day doy in
  let m := if mp <? 10 then mp + 3 else mp - 9 in
  (yoe + 400 * era + (if m <=? 2 then 1 else 0), m, d).

Definition days_of_civil (y m d : Z) : Z :=
  let y' := if m <=? 2 then y - 1 else y in
  let era := y' / 400 in
  let yoe := y' mod 400 in
  let mp := if m <=? 2 then m + 9 else m - 3 in
  let doy := (153 * mp + 2) / 5 + d - 1 in
  365 * yoe + yoe / 4 - yoe / 100 + doy + 146097 * era - 719468.

(** [t.AddDate(years, months, days)] in UTC: the date is normalised, the time of day kept. *)
Definition AddDate (t : time) (years months days : Z) : time :=
  let '(y, m, d) := civil (t / (24 * Hour)) in
  let m0 := m - 1 + months in
  (days_of_civil (y + years + m0 / 12) (m0 mod 12 + 1) 1 + (d + days - 1)) * (24 * Hour) + t mod (24 * Hour).

(** ** Fixed-width decimal fields *)

Fixpoint fixed (w : nat) (n : Z) : string :=
  match w with
  | O => EmptyString
  | S w' => String (digit_char (n / 10 ^ Z.of_nat w' mod 10)) (fixed w' n)
  end.

Fixpoint parse_fixed (w : nat) (s : string) : option (Z * string) :=
  match w with
  | O => Some (0, s)
  | S w' =>
    match s with
    | EmptyString => None
    | String c t =>
      match digit_val c, parse_fixed w' t with
      | Some d, Some (v, r) => Some (d * 10 ^ Z.of_nat w' + v, r)
      | _, _ => None
      end
    end
  end.

Fixpoint trim_zeros (s : string) : string :=
  match s with
  | EmptyString => EmptyString
  | String c t =>
    match trim_zeros t with
    | EmptyString => if digit_val c is Some 0 then EmptyString else String c EmptyString
    | t' => String c t'
    end
  end.

(** The value of fractional digits, of which [w] count. *)
Fixpoint frac_value (w : nat) (s : string) : Z :=
  match w, s with
  | S w', String c t =>
    match digit_val c with Some d => d * 10 ^ Z.of_nat w' + frac_value w' t | None => 0 end
  | _, _ => 0
  end.

(** A year as [time] prints it: four digits at least. *)
Definition year_text (y : Z) : string :=
  if (0 <=? y) && (y <=? 9999) then fixed 4 y
  else if y <? 0 then
    (if y <? -9999 then FormatInt y else String "-" (fixed 4 (- y)))
  else FormatInt y.

Definition date_text (t : time) : string :=
  let '(y, m, d) := civil (t / (24 * Hour)) in
  let s := (t / Second) mod 86400 in
  year_text y +:+ "-" +:+ fixed 2 m +:+ "-" +:+ fixed 2 d +:+ "T"
  +:+ fixed 2 (s / 3600) +:+ ":" +:+ fixed 2 (s / 60 mod 60) +:+ ":" +:+ fixed 2 (s mod 60).

Definition frac_text (t : time) : string :=
  let ns := t mod Second in
  if ns =? 0 then EmptyString else String "." (trim_zeros (fixed 9 ns)).

(** [t.UTC().Format(time.RFC3339)] *)
Definition Format_RFC3339 (t : time) : string := date_text t +:+ "Z".

(** [t.UTC().Format(time.RFC3339Nano)] *)
Definition Format_RFC3339Nano (t : time) : string := date_text t +:+ frac_text t +:+ "Z".

Definition expect (c : ascii) (s : string) : option string :=
  match s with
  | String d t => if (c =? d)%char then Some t else None
  | EmptyString => None
  end.

Definition between (lo hi v : Z) : bool := (lo <=? v) && (v <=? hi).

(** The zone suffix: [Z] or a signed [hh:mm]; the offset in seconds. *)
Definition parse_zone (s : string) : option Z :=
  match s with
  | String c t =>
    if (c =? "Z")%char then match t with EmptyString => Some 0 | _ => None end
    else if (c =? "+")%char || (c =? "-")%char then
      match parse_fixed 2 t with
      | Some (hh, u) =>
        match expect ":" u with
        | Some w =>
          match parse_fixed 2 w with
          | Some (mm, EmptyString) =>
            if between 0 23 hh && between 0 59 mm then
              let off := (hh * 60 + mm) * 60 in Some (if (c =? "-")%char then - off else off)
            else None
          | _ => None
          end
        | None => None
        end
      | None => None
      end
    else None
  | EmptyString => None
  end.

Definition parse_frac (s : string) : Z * string :=
  match s with
  | String c t =>
    if (c =? ".")%char then
      match span_digits t with
      | (EmptyString, _) => (0, s)
      | (ds, u) => (frac_value 9 ds, u)
      end
    else (0, s)
  | EmptyString => (0, s)
  end.

Notation "'let?' x := o 'in' k" := (match o with Some x => k | None => None end)
  (at level 10, x pattern, o at level 100, k at level 200) : go_scope.

(** The strict RFC 3339 reader behind [Time.UnmarshalJSON]. *)
Definition parse_rfc3339 (s : string) : option time :=
  let? (y, s) := parse_fixed 4 s in
  let? s := expect "-" s in
  let? (m, s) := parse_fixed 2 s in
  let? s := expect "-" s in
  let? (d, s) := parse_fixed 2 s in
  let? s := expect "T" s in
  let? (hh, s) := parse_fixed 2 s in
  let? s := expect ":" s in
  let? (mm, s) := parse_fixed 2 s in
  let? s := expect ":" s in
  let? (ss, s) := parse_fixed 2 s in
  if between 1 12 m && between 1 (days_in m y) d && between 0 23 hh && between 0 59 mm
     && between 0 59 ss then
    let '(ns, s) := parse_frac s in
    let? off := parse_zone s in
    Some ((days_of_civil y m d * 86400 + hh * 3600 + mm * 60 + ss - off) * Second + ns)
  else None.

(** ** [encoding/json] of times *)

(** The years [MarshalJSON] accepts. *)
Definition json_year (t : time) : bool :=
  let '(y, _, _) := civil (t / (24 * Hour)) in between 0 9999 y.

Definition time_to_json (t : time) : res json :=
  if json_year t then Ok (JStr (Format_RFC3339Nano t))
  else Err (ErrLeaf "Time.MarshalJSON: year outside of range [0,9999]").

(** ** Calendar lemmas *)

Lemma year_day_spec doe yoe doy :
  0 <= doe < 146097 -> year_day doe = (yoe, doy) ->
  0 <= yoe < 400 /\ 0 <= doy <= 365 /\ doe = 365 * yoe + yoe / 4 - yoe / 100 + doy /\
  (doy = 365 -> is_leap (yoe + 1) = true).
Proof.
  intros Hd. unfold year_day. set (c := Z.min 3 (doe / 36524)).
  set (d1 := doe - 36524 * c). set (q := d1 / 1461). set (d2 := d1 - 1461 * q).
  set (r := Z.min 3 (d2 / 365)). intros [= <- <-].
  assert (Hc : 0 <= c <= 3 /\ 0 <= d1 <= 36524 /\ (c < 3 -> d1 < 36524)).
  { subst c d1. clear -Hd. destruct (Z.min_spec 3 (doe / 36524)) as [[? ->]|[? ->]];
      split_and!; dlia. }
  assert (Hq : 0 <= q <= 24 /\ 0 <= d2 <= 1460 /\ d1 = 1461 * q + d2) by (subst q d2; clearbody d1; clear -Hc; split_and!; dlia).
  assert (Hr : 0 <= r <= 3 /\ 0 <= d2 - 365 * r <= 365 /\ (r < 3 -> d2 - 365 * r < 365)).
  { subst r. clearbody d2. clear -Hq. destruct (Z.min_spec 3 (d2 / 365)) as [[? ->]|[? ->]];
      split_and!; dlia. }
  assert (Hz : doe = 36524 * c + 1461 * q + d2) by (subst d2 d1; lia).
  clearbody d1 c q r d2.
  assert (H4 : (100 * c + 4 * q + r) / 4 = 25 * c + q) by dlia.
  assert (H100 : (100 * c + 4 * q + r) / 100 = c) by dlia.
  rewrite H4, H100. repeat split; try lia. intros H365.
  assert (r = 3) as Hr3 by lia. assert (d2 = 1460) by lia.
  unfold is_leap. apply orb_true_iff.
  destruct (decide (q = 24)) as [->|Hq24].
  - right. apply Z.eqb_eq. assert (c = 3) by lia. dlia.
  - left. apply andb_true_iff. rewrite negb_true_iff, Z.eqb_eq, Z.eqb_neq. split; dlia.
Qed.

(** Days of each month counted from March. *)
Definition march_len (mp : Z) (leap : bool) : Z :=
  if mp =? 11 then (if leap then 29 else 28)
  else if (mp =? 1) || (mp =? 3) || (mp =? 6) || (mp =? 8) then 30 else 31.

Lemma month_day_spec doy mp d leap :
  0 <= doy <= 365 -> (doy = 365 -> leap = true) -> month_day doy = (mp, d) ->
  0 <= mp <= 11 /\ 1 <= d <= march_len mp leap /\ (153 * mp + 2) / 5 + d - 1 = doy.
Proof.
  intros Hd Hleap. unfold month_day. set (p := (5 * doy + 2) / 153). intros [= <- <-].
  assert (Hp : 0 <= p <= 11 /\ 153 * p <= 5 * doy + 2 < 153 * p + 153) by (subst p; split_and!; dlia).
  clearbody p. destruct Hp as [Hp Hb]. split; [done|]. split; [|lia].
  assert (Hcase : p = 0 \/ p = 1 \/ p = 2 \/ p = 3 \/ p = 4 \/ p = 5 \/ p = 6 \/ p = 7 \/ p = 8
    \/ p = 9 \/ p = 10 \/ p = 11) by lia.
  assert (Hnl : leap = false -> doy <> 365) by (intros -> E; by apply Hleap in E).
  clear Hleap. repeat destruct Hcase as [Hcase|Hcase]; subst p; unfold march_len; simpl;
    try (clear Hnl; dlia).
  destruct leap; [|specialize (Hnl eq_refl)]; dlia.
Qed.

Lemma is_leap_era y k : is_leap (y + 400 * k) = is_leap y.
Proof.
  unfold is_leap.
  replace ((y + 400 * k) mod 4) with (y mod 4) by dlia.
  replace ((y + 400 * k) mod 100) with (y mod 100) by dlia.
  by replace ((y + 400 * k) mod 400) with (y mod 400) by dlia.
Qed.

Lemma civil_spec days y m d :
  civil days = (y, m, d) ->
  1 <= m <= 12 /\ 1 <= d <= days_in m y /\ days_of_civil y m d = days.
Proof.
  unfold civil. set (z := days + 719468). set (era := z / 146097).
  pose proof (Z.mod_pos_bound z 146097 ltac:(lia)) as Hdoe.
  destruct (year_day (z mod 146097)) as [yoe doy] eqn:Hyd.
  apply year_day_spec in Hyd as (Hyoe & Hdoy & Hz & Hleap); [|done].
  destruct (month_day doy) as [mp d'] eqn:Hmd.
  apply (month_day_spec doy mp d' (is_leap (yoe + 1))) in Hmd as (Hmp & Hd & Hdoyeq); [|done..].
  intros [= <- <- <-].
  assert (Hz' : z = 146097 * era + z mod 146097) by (subst era; apply Z.div_mod; lia).
  rewrite Hz in Hz'. clear Hdoe. clearbody era. unfold days_of_civil, days_in.
  destruct (mp <? 10) eqn:H10; bool_prop.
  - rewrite (proj2 (Z.leb_gt (mp + 3) 2)) by lia. split; [lia|].
    replace ((yoe + 400 * era + 0) / 400) with era by dlia.
    replace ((yoe + 400 * era + 0) mod 400) with yoe by dlia.
    replace (mp + 3 - 3) with mp by lia. split; [|subst z; lia].
    rewrite (proj2 (Z.eqb_neq (mp + 3) 2)) by lia. unfold march_len in Hd.
    rewrite (proj2 (Z.eqb_neq mp 11)) in Hd by lia.
    replace (mp + 3 =? 4) with (mp =? 1) by lia. replace (mp + 3 =? 6) with (mp =? 3) by lia.
    replace (mp + 3 =? 9) with (mp =? 6) by lia. replace (mp + 3 =? 11) with (mp =? 8) by lia.
    done.
  - rewrite (proj2 (Z.leb_le (mp - 9) 2)) by lia. split; [lia|].
    replace (yoe + 400 * era + 1 - 1) with (yoe + 400 * era) by lia.
    replace ((yoe + 400 * era) / 400) with era by dlia.
    replace ((yoe + 400 * era) mod 400) with yoe by dlia.
    replace (mp - 9 + 9) with mp by lia.
    split; [|subst z; lia].
    replace (yoe + 400 * era + 1) with (yoe + 1 + 400 * era) by lia. rewrite is_leap_era.
    unfold march_len in Hd. assert (mp = 10 \/ mp = 11) as [-> | ->] by lia; simpl in *; lia.
Qed.

(** ** The RFC 3339 round trip *)

Lemma parse_fixed_fixed w n rest :
  parse_fixed w (fixed w n +:+ rest) = Some (n mod 10 ^ Z.of_nat w, rest).
Proof.
  induction w as [|w IH]; cbn [fixed parse_fixed].
  - by rewrite Z.mod_1_r.
  - rewrite str_app_cons, digit_val_char, IH by (apply Z.mod_pos_bound; lia).
    do 2 f_equal. rewrite Nat2Z.inj_succ, Z.pow_succ_r by lia.
    rewrite (Z.mul_comm 10), Z.rem_mul_r by lia. lia.
Qed.

Lemma parse_fixed_small w n rest :
  0 <= n < 10 ^ Z.of_nat w -> parse_fixed w (fixed w n +:+ rest) = Some (n, rest).
Proof. intros H. by rewrite parse_fixed_fixed, Z.mod_small. Qed.

Lemma fixed_digits w n : string_forallb is_digit (fixed w n) = true.
Proof.
  induction w as [|w IH]; simpl; [done|].
  by rewrite is_digit_char, IH by (apply Z.mod_pos_bound; lia).
Qed.

Lemma frac_value_fixed w n : frac_value w (fixed w n) = n mod 10 ^ Z.of_nat w.
Proof.
  induction w as [|w IH]; cbn [fixed frac_value].
  - by rewrite Z.mod_1_r.
  - rewrite digit_val_char, IH by (apply Z.mod_pos_bound; lia).
    rewrite Nat2Z.inj_succ, Z.pow_succ_r by lia.
    rewrite (Z.mul_comm 10), Z.rem_mul_r by lia. lia.
Qed.

Lemma trim_zeros_spec w s :
  string_forallb is_digit s = true ->
  string_forallb is_digit (trim_zeros s) = true /\ frac_value w (trim_zeros s) = frac_value w s.
Proof.
  revert w. induction s as [|c s IH]; intros w; cbn [string_forallb trim_zeros]; [done|].
  intros [Hc Hs]%andb_true_iff. destruct w as [|w].
  { split; [|by destruct (match trim_zeros s with _ => _ end)].
    destruct (IH O Hs) as [Ht _].
    destruct (trim_zeros s) as [|d t]; [|cbn [string_forallb]; by rewrite Hc].
    unfold is_digit in Hc. destruct (digit_val c) as [[]|] eqn:Hd; cbn [string_forallb]; try done;
      unfold is_digit; by rewrite Hd. }
  destruct (IH w Hs) as [Ht Hv]. destruct (trim_zeros s) as [|d t] eqn:Htz.
  - unfold is_digit in Hc. cbn [frac_value]. rewrite <- Hv. clear Hv.
    destruct (digit_val c) as [[|p|p]|] eqn:Hd; try done.
    + split; [done|]. by destruct w.
    + split; [cbn [string_forallb]; unfold is_digit; by rewrite Hd|].
      cbn [frac_value]. rewrite Hd. by destruct w.
    + split; [cbn [string_forallb]; unfold is_digit; by rewrite Hd|].
      cbn [frac_value]. rewrite Hd. by destruct w.
  - split; [cbn [string_forallb]; by rewrite Hc|]. cbn [frac_value] in *. by rewrite <- Hv.
Qed.

Lemma parse_frac_text t :
  parse_frac (frac_text t +:+ "Z") = (t mod Second, "Z").
Proof.
  unfold frac_text. pose proof (Z.mod_pos_bound t Second ltac:(done)) as Hns.
  unfold Second in *. set (ns := t mod 1000000000) in *. destruct (ns =? 0) eqn:H0; bool_prop.
  - by rewrite H0.
  - destruct (trim_zeros_spec 9 (fixed 9 ns) (fixed_digits 9 ns)) as [Hd Hv].
    rewrite frac_value_fixed in Hv. change (10 ^ Z.of_nat 9) with 1000000000 in Hv.
    rewrite Z.mod_small in Hv by done.
    rewrite str_app_cons. cbn [parse_frac]. simpl (_ =? _)%char. cbn iota.
    assert (Hspan : span_digits (trim_zeros (fixed 9 ns) +:+ "Z") = (trim_zeros (fixed 9 ns), "Z")).
    { revert Hd. generalize (trim_zeros (fixed 9 ns)) as x. induction x as [|c x IHx]; [done|].
      cbn [string_forallb]. intros [Hc Hx]%andb_true_iff. rewrite str_app_cons. simpl.
      by rewrite Hc, IHx. }
    rewrite Hspan. destruct (trim_zeros (fixed 9 ns)) eqn:E; [simpl in Hv; lia|]. by rewrite Hv.
Qed.

Lemma parse_fixed_2 n rest : 0 <= n < 100 -> parse_fixed 2 (fixed 2 n +:+ rest) = Some (n, rest).
Proof. intros. apply parse_fixed_small. by change (10 ^ Z.of_nat 2) with 100. Qed.

Lemma parse_fixed_4 n rest : 0 <= n <= 9999 -> parse_fixed 4 (fixed 4 n +:+ rest) = Some (n, rest).
Proof. intros. apply parse_fixed_small. change (10 ^ Z.of_nat 4) with 10000. lia. Qed.

Lemma expect_app c d rest : (c =? d)%char = true -> expect c (String d "" +:+ rest) = Some rest.
Proof. intros H. rewrite str_app_cons. simpl. by rewrite H. Qed.

Lemma days_in_bound m y : 28 <= days_in m y <= 31.
Proof. unfold days_in. repeat case_match; lia. Qed.

Lemma between_true lo hi v : lo <= v <= hi -> between lo hi v = true.
Proof. intros. unfold between. apply andb_true_iff. rewrite !Z.leb_le. done. Qed.

Lemma seconds_split t :
  t = (t / (24 * Hour) * 86400 + ((t / Second) mod 86400) / 3600 * 3600
       + ((t / Second) mod 86400) / 60 mod 60 * 60 + ((t / Second) mod 86400) mod 60) * Second
      + t mod Second.
Proof.
  unfold Hour, Minute, Second. replace (24 * (60 * (60 * 1000000000))) with (1000000000 * 86400) by lia.
  rewrite <- Z.div_div by lia. pose proof (Z.div_mod t 1000000000 ltac:(lia)) as H1.
  set (q := t / 1000000000) in *. clearbody q.
  set (s := q mod 86400). assert (q = q / 86400 * 86400 + s) by (subst s; dlia).
  assert (s = s / 3600 * 3600 + s / 60 mod 60 * 60 + s mod 60) by (clearbody s; dlia). lia.
Qed.

Lemma parse_rfc3339_format t :
  json_year t = true -> parse_rfc3339 (Format_RFC3339Nano t) = Some t.
Proof.
  unfold json_year, Format_RFC3339Nano, date_text.
  destruct (civil (t / (24 * Hour))) as [[y m] d] eqn:Hc.
  apply civil_spec in Hc as (Hm & Hd & Hdays). pose proof (days_in_bound m y) as Hdim.
  set (s := (t / Second) mod 86400).
  assert (Hs : 0 <= s < 86400) by (apply Z.mod_pos_bound; lia).
  assert (0 <= s / 3600 <= 23 /\ 0 <= s / 60 mod 60 <= 59 /\ 0 <= s mod 60 <= 59) as (Hh & Hmi & Hse)
    by (clearbody s; split_and!; dlia).
  intros Hy. unfold year_text. unfold between in Hy. rewrite Hy. bool_prop.
  rewrite !str_app_assoc. unfold parse_rfc3339.
  rewrite parse_fixed_4 by lia. cbn iota. rewrite expect_app by done.
  rewrite parse_fixed_2 by lia. rewrite expect_app by done.
  rewrite parse_fixed_2 by lia. rewrite expect_app by done.
  rewrite parse_fixed_2 by lia. rewrite expect_app by done.
  rewrite parse_fixed_2 by lia. rewrite expect_app by done.
  rewrite parse_fixed_2 by lia.
  rewrite !between_true by lia. cbn [andb]. rewrite parse_frac_text. simpl parse_zone. cbn iota.
  f_equal. rewrite Hdays. subst s. rewrite (seconds_split t) at 6. lia.
Qed.

(** RFC 3339 texts are plain ASCII, hence valid JSON and SQL strings. *)
Definition is_plain (c : ascii) : bool := (0 <? byte_val c) && (byte_val c <? 128).

Lemma utf8_valid_plain s : string_forallb is_plain s = true -> utf8_valid s = true.
Proof.
  unfold utf8_valid. induction s as [|c s IH]; [done|].
  cbn [string_forallb String.length utf8_valid_fuel utf8_size]. intros [Hc Hs]%andb_true_iff.
  unfold is_plain in Hc. apply andb_true_iff in Hc as [_ ->]. by apply IH.
Qed.

Lemma utf8_valid_plain_app p s :
  string_forallb is_plain p = true -> utf8_valid (String.append p s) = utf8_valid s.
Proof.
  unfold utf8_valid. induction p as [|c p IH]; [done|].
  change (String.append (String c p) s) with (String c (String.append p s)).
  cbn [string_forallb String.length utf8_valid_fuel utf8_size]. intros [Hc Hp]%andb_true_iff.
  unfold is_plain in Hc. apply andb_true_iff in Hc as [_ ->]. by apply IH.
Qed.

Lemma digit_is_plain c : is_digit c = true -> is_plain c = true.
Proof. intros H%is_digit_range. unfold is_plain. apply andb_true_iff. rewrite !Z.ltb_lt. lia. Qed.

Lemma fixed_plain w n : string_forallb is_plain (fixed w n) = true.
Proof. eapply string_forallb_impl; [apply digit_is_plain|apply fixed_digits]. Qed.

Lemma format_nano_plain t : json_year t = true -> string_forallb is_plain (Format_RFC3339Nano t) = true.
Proof.
  intros Hy. unfold json_year, Format_RFC3339Nano, date_text, frac_text in *.
  destruct (civil _) as [[y m] d]. unfold between in Hy. unfold year_text. rewrite Hy.
  pose proof (proj1 (trim_zeros_spec 9 _ (fixed_digits 9 (t mod Second)))) as Htz.
  apply (string_forallb_impl _ _ _ digit_is_plain) in Htz.
  rewrite !string_forallb_app, !fixed_plain. case_match; [done|].
  cbn [string_forallb]. by rewrite Htz.
Qed.

Lemma format_nano_utf8 t : json_year t = true -> utf8_valid (Format_RFC3339Nano t) = true.
Proof. intros Hy. by apply utf8_valid_plain, format_nano_plain. Qed.
