(* ===== verification/Domain.v ===== *)
(** Package [domain] (internal/core/domain): the entities, their predicates, the idempotency
    keys, and the JSON form of a transaction that the idempotency layers store.

    [google/uuid] is third-party: its type and functions are the class [UUIDLib], and what
    the program relies on is the class [UUIDLaws]. *)

From S2P Require Export Time.
From Stdlib Require Import Ascii Permutation.

(** ** UUIDs *)

Class UUIDLib : Type := {
  uuid : Type;
  uuid_eq_dec :: EqDecision uuid;
  uuid_countable :: Countable uuid;
  uuid_Nil : uuid;
  uuid_String : uuid -> string;
  uuid_Parse : string -> res uuid
}.

Definition is_uuid_char (c : ascii) : bool := is_lower_hex c || (byte_val c =? 45).

Class UUIDLaws `{UUIDLib} : Prop := {
  uuid_Parse_String u : uuid_Parse (uuid_String u) = Ok u;
  uuid_String_length u : String.length (uuid_String u) = 36%nat;
  uuid_String_chars u : string_forallb is_uuid_char (uuid_String u) = true
}.

(** ** Enumerations: Go string types with named constants *)

Abbreviation TransactionType := string (only parsing).
Definition TransactionTypePayment : TransactionType := "PAYMENT".
Definition TransactionTypeRefund : TransactionType := "REFUND".
Definition TransactionTypeTopup : TransactionType := "TOPUP".

Abbreviation TransactionStatus := string (only parsing).
Definition TransactionStatusPending : TransactionStatus := "PENDING".
Definition TransactionStatusSuccess : TransactionStatus := "SUCCESS".
Definition TransactionStatusFailed : TransactionStatus := "FAILED".
Definition TransactionStatusReversed : TransactionStatus := "REVERSED".

Abbreviation MerchantStatus := string (only parsing).
Definition MerchantStatusActive : MerchantStatus := "ACTIVE".
Definition MerchantStatusSuspended : MerchantStatus := "SUSPENDED".
Definition MerchantStatusDeactivated : MerchantStatus := "DEACTIVATED".

Abbreviation WebhookStatus := string (only parsing).
Definition WebhookStatusPending : WebhookStatus := "PENDING".
Definition WebhookStatusDelivered : WebhookStatus := "DELIVERED".
Definition WebhookStatusFailed : WebhookStatus := "FAILED".

Abbreviation AuditAction := string (only parsing).
Definition AuditActionPayment : AuditAction := "PAYMENT".
Definition AuditActionRefund : AuditAction := "REFUND".
Definition AuditActionTopup : AuditAction := "TOPUP".
Definition AuditActionRegister : AuditAction := "REGISTER".
Definition AuditActionLogin : AuditAction := "LOGIN".
Definition AuditActionRotateKeys : AuditAction := "ROTATE_KEYS".
Definition AuditActionUpdateWebhook : AuditAction := "UPDATE_WEBHOOK".

(** ** Entities *)

Section Entities.
Context `{U : UUIDLib}.

Record Merchant := mkMerchant {
m_ID : uuid;
m_Username : string;
m_PasswordHash : string;
m_MerchantName : string;
m_AccessKey : string;
m_SecretKeyEnc : string;
m_WebhookURL : option string;
m_Status : MerchantStatus;
m_CreatedAt : time;
m_UpdatedAt : time
}.

Record Wallet := mkWallet {
w_ID : uuid;
w_MerchantID : uuid;
w_Currency : string;
w_EncryptedBalance : string;
w_LastAuditHash : option string;
w_CreatedAt : time;
w_UpdatedAt : time
}.

Record Transaction := mkTransaction {
tx_ID : uuid;
tx_ReferenceID : string;
tx_MerchantID : uuid;
tx_WalletID : uuid;
tx_Amount : Z;
tx_AmountEncrypted : string;
tx_TransactionType : TransactionType;
tx_Status : TransactionStatus;
tx_Signature : string;
tx_ClientIP : string;
tx_ExtraData : option string;
tx_OriginalTransactionID : option uuid;
tx_CreatedAt : time;
tx_ProcessedAt : option time
}.

Record IdempotencyLog := mkIdempotencyLog {
il_Key : string;
il_TransactionID : uuid;
il_ResponseJSON : string;
il_CreatedAt : time
}.

Record WebhookDeliveryLog := mkWebhookDeliveryLog {
wl_ID : uuid;
wl_TransactionID : uuid;
wl_MerchantID : uuid;
wl_WebhookURL : string;
wl_Payload : string;
wl_HTTPStatus : option Z;
wl_Attempt : Z;
wl_Status : WebhookStatus;
wl_NextRetryAt : option time;
wl_LastError : option string;
wl_CreatedAt : time;
wl_UpdatedAt : time
}.

Record AuditLog := mkAuditLog {
al_ID : uuid;
al_MerchantID : option uuid;
al_Action : AuditAction;
al_ResourceType : string;
al_ResourceID : string;
al_Details : string;
al_IPAddress : string;
al_CreatedAt : time
}.

End Entities.

Section Domain.
Context `{U : UUIDLib}.

(** [Merchant.IsActive], [Transaction.IsTerminal], [Transaction.IsRefundable] *)
Definition IsActive (m : Merchant) : bool := (m_Status m =? MerchantStatusActive)%string.

Definition IsTerminal (t : Transaction) : bool :=
  (tx_Status t =? TransactionStatusSuccess)%string
  || (tx_Status t =? TransactionStatusFailed)%string
  || (tx_Status t =? TransactionStatusReversed)%string.

Definition IsRefundable (t : Transaction) : bool :=
  (tx_TransactionType t =? TransactionTypePayment)%string
  && (tx_Status t =? TransactionStatusSuccess)%string.

(** [BuildIdempotencyKey] and [BuildRefundIdempotencyKey] *)
Definition BuildIdempotencyKey (merchantID : uuid) (referenceID : string) : string :=
  uuid_String merchantID +:+ ":" +:+ referenceID.

Definition BuildRefundIdempotencyKey (merchantID : uuid) (originalReferenceID : string) : string :=
  uuid_String merchantID +:+ ":refund:" +:+ originalReferenceID.

(** [time.Time{}] and the zero [Transaction] that [Unmarshal] fills. *)
Definition zero_time : time := -62135596800 * Second.

Definition zero_Transaction : Transaction :=
  mkTransaction uuid_Nil "" uuid_Nil uuid_Nil 0 "" "" "" "" "" None None zero_time None.

(** *** Marshalling: the struct's fields in order, by their [json] tags.  [AmountEncrypted]
    and [Signature] carry the tag ["-"] and are left out. *)

Definition opt_field {A} (name : string) (enc : A -> json) (o : option A) : list (string * json) :=
  match o with Some a => [(name, enc a)] | None => [] end.

Definition uuid_json (u : uuid) : json := JStr (uuid_String u).
Definition int_json (z : Z) : json := JNum (FormatInt z).
Definition time_json (t : time) : json := JStr (Format_RFC3339Nano t).

Definition transaction_fields (t : Transaction) : list (string * json) :=
  [("id", uuid_json (tx_ID t)); ("reference_id", JStr (tx_ReferenceID t));
   ("merchant_id", uuid_json (tx_MerchantID t)); ("wallet_id", uuid_json (tx_WalletID t));
   ("amount", int_json (tx_Amount t)); ("transaction_type", JStr (tx_TransactionType t));
   ("status", JStr (tx_Status t))]
  ++ (if (tx_ClientIP t =? "")%string then [] else [("client_ip", JStr (tx_ClientIP t))])
  ++ opt_field "extra_data" JStr (tx_ExtraData t)
  ++ opt_field "original_transaction_id" uuid_json (tx_OriginalTransactionID t)
  ++ [("created_at", time_json (tx_CreatedAt t))]
  ++ opt_field "processed_at" time_json (tx_ProcessedAt t).

(** [json.Marshal(txn)]: it fails on a year that RFC 3339 cannot show. *)
Definition Marshal_Transaction (t : Transaction) : res string :=
  let! _ := time_to_json (tx_CreatedAt t) in
  let! _ := match tx_ProcessedAt t with Some p => time_to_json p | None => Ok JNull end in
  Ok (json_print (JObj (transaction_fields t))).

(** *** Unmarshalling *)

Definition ascii_upper (c : ascii) : ascii :=
  let v := byte_val c in if (97 <=? v) && (v <=? 122) then byte_of (v - 32) else c.

Fixpoint fold_key (s : string) : string :=
  match s with EmptyString => EmptyString | String c t => String (ascii_upper c) (fold_key t) end.

(** Keys match their field up to ASCII case. *)
Definition key_matches (name key : string) : bool := (fold_key name =? fold_key key)%string.

Definition UnmarshalTypeError : error := ErrLeaf "json: cannot unmarshal value into Go struct field".

(** One decoder per field type, from the value present and the field's current value:
    [null] leaves a plain field alone and clears a pointer. *)
Definition dec_string (v : json) (old : string) : res string :=
  match v with JStr s => Ok s | JNull => Ok old | _ => Err UnmarshalTypeError end.
Definition dec_int64 (v : json) (old : Z) : res Z :=
  match v with
  | JNum lit => match ParseInt lit with Ok z => Ok z | Err _ => Err UnmarshalTypeError end
  | JNull => Ok old
  | _ => Err UnmarshalTypeError
  end.
Definition dec_uuid (v : json) (old : uuid) : res uuid :=
  match v with JStr s => uuid_Parse s | JNull => Ok old | _ => Err UnmarshalTypeError end.
Definition dec_time (v : json) (old : time) : res time :=
  match v with
  | JStr s => match parse_rfc3339 s with Some t => Ok t | None => Err (ErrLeaf "parsing time") end
  | JNull => Ok old
  | _ => Err (ErrLeaf "Time.UnmarshalJSON: input is not a JSON string")
  end.
Definition dec_ptr {A} (dec : json -> A -> res A) (zero : A) (v : json) (old : option A) : res (option A) :=
  match v with
  | JNull => Ok None
  | _ => result_map Some (dec v (default zero old))
  end.

(** Every member whose key matches is decoded into the field, in order. *)
Fixpoint decode_field {A} (name : string) (dec : json -> A -> res A)
    (members : list (string * json)) (a : A) : res A :=
  match members with
  | [] => Ok a
  | (k, v) :: l =>
    let! a' := (if key_matches name k then dec v a else Ok a) in decode_field name dec l a'
  end.

Definition decode_transaction (l : list (string * json)) (z : Transaction) : res Transaction :=
  let! id := decode_field "id" dec_uuid l (tx_ID z) in
  let! ref := decode_field "reference_id" dec_string l (tx_ReferenceID z) in
  let! mid := decode_field "merchant_id" dec_uuid l (tx_MerchantID z) in
  let! wid := decode_field "wallet_id" dec_uuid l (tx_WalletID z) in
  let! amt := decode_field "amount" dec_int64 l (tx_Amount z) in
  let! typ := decode_field "transaction_type" dec_string l (tx_TransactionType z) in
  let! sta := decode_field "status" dec_string l (tx_Status z) in
  let! ip := decode_field "client_ip" dec_string l (tx_ClientIP z) in
  let! ext := decode_field "extra_data" (dec_ptr dec_string "") l (tx_ExtraData z) in
  let! orig := decode_field "original_transaction_id" (dec_ptr dec_uuid uuid_Nil) l
                 (tx_OriginalTransactionID z) in
  let! cre := decode_field "created_at" dec_time l (tx_CreatedAt z) in
  let! pro := decode_field "processed_at" (dec_ptr dec_time zero_time) l (tx_ProcessedAt z) in
  Ok (mkTransaction id ref mid wid amt (tx_AmountEncrypted z) typ sta (tx_Signature z) ip ext
        orig cre pro).

(** [json.Unmarshal(data, &domain.Transaction{})] *)
Definition Unmarshal_Transaction (data : string) : res Transaction :=
  match json_parse data with
  | None => Err (ErrLeaf "json: syntax error")
  | Some (JObj l) => decode_transaction l zero_Transaction
  | Some JNull => Ok zero_Transaction
  | Some _ => Err UnmarshalTypeError
  end.

(** What a cached response still shows of a transaction. *)
Definition visible (t : Transaction) : Transaction :=
  mkTransaction (tx_ID t) (tx_ReferenceID t) (tx_MerchantID t) (tx_WalletID t) (tx_Amount t) ""
    (tx_TransactionType t) (tx_Status t) "" (tx_ClientIP t) (tx_ExtraData t)
    (tx_OriginalTransactionID t) (tx_CreatedAt t) (tx_ProcessedAt t).

(** A transaction whose JSON text is faithful: UTF-8 strings, a 64-bit amount, years that
    RFC 3339 can show. *)
Definition json_safe (t : Transaction) : bool :=
  utf8_valid (tx_ReferenceID t) && in_int64b (tx_Amount t) && utf8_valid (tx_TransactionType t)
  && utf8_valid (tx_Status t) && utf8_valid (tx_ClientIP t)
  && utf8_valid (default "" (tx_ExtraData t)) && json_year (tx_CreatedAt t)
  && json_year (default 0 (tx_ProcessedAt t)).
End Domain.

(** ** Decoding does not depend on the order of distinct members *)

Section Decode.
Context `{U : UUIDLib}.

Definition folded_keys (l : list (string * json)) : list string := map (fun kv => fold_key kv.1) l.

Lemma decode_field_perm {A} name (dec : json -> A -> res A) l l' a :
  Permutation l l' -> NoDup (folded_keys l) -> decode_field name dec l a = decode_field name dec l' a.
Proof.
  intros HP. revert a. induction HP as [|[k v] l l' HP IH|[k v] [k' v'] l|l1 l2 l3 H12 IH12 H23 IH23];
    intros a Hnd; simpl in *.
  - done.
  - apply NoDup_cons in Hnd as [_ Hnd]. destruct (key_matches name k); simpl; [|auto].
    destruct (dec v a); simpl; auto.
  - apply NoDup_cons in Hnd as [Hk _].
    destruct (key_matches name k) eqn:E, (key_matches name k') eqn:E'; simpl; try done.
    unfold key_matches in *. bool_prop. exfalso. apply Hk. rewrite <- E, E'. left.
  - rewrite IH12 by done. apply IH23. unfold folded_keys in *.
    eapply NoDup_Permutation_proper; [|exact Hnd].
    symmetry. by apply Permutation_map.
Qed.

Lemma decode_transaction_perm l l' z :
  Permutation l l' -> NoDup (folded_keys l) -> decode_transaction l z = decode_transaction l' z.
Proof.
  intros HP Hnd. unfold decode_transaction.
  rewrite !(fun A name dec a => @decode_field_perm A name dec l l' a HP Hnd).
  repeat (destruct (decode_field _ _ _ _); simpl; [|done]). done.
Qed.
End Decode.

Section RoundTrip.
Context {U : UUIDLib} {UL : UUIDLaws}.

Lemma uuid_char_plain c : is_uuid_char c = true -> is_plain c = true.
Proof.
  unfold is_uuid_char, is_lower_hex, is_plain. rewrite andb_true_iff, !Z.ltb_lt.
  intros H. repeat (apply orb_true_iff in H as [H|H]); bool_prop; lia.
Qed.

Lemma uuid_plain u : string_forallb is_plain (uuid_String u) = true.
Proof. eapply string_forallb_impl; [apply uuid_char_plain|apply uuid_String_chars]. Qed.

Lemma uuid_utf8 u : utf8_valid (uuid_String u) = true.
Proof. apply utf8_valid_plain, uuid_plain. Qed.

Lemma uuid_String_inj u v : uuid_String u = uuid_String v -> u = v.
Proof.
  intros E. pose proof (uuid_Parse_String u) as H. rewrite E, uuid_Parse_String in H. congruence.
Qed.

Lemma json_safe_spec t :
  json_safe t = true <->
  utf8_valid (tx_ReferenceID t) = true /\ in_int64 (tx_Amount t) /\
  utf8_valid (tx_TransactionType t) = true /\ utf8_valid (tx_Status t) = true /\
  utf8_valid (tx_ClientIP t) = true /\ utf8_valid (default "" (tx_ExtraData t)) = true /\
  json_year (tx_CreatedAt t) = true /\ json_year (default 0 (tx_ProcessedAt t)) = true.
Proof. unfold json_safe. rewrite !andb_true_iff, in_int64b_spec. tauto. Qed.

Lemma transaction_fields_nodup t : NoDup (folded_keys (transaction_fields t)).
Proof.
  unfold transaction_fields, opt_field, folded_keys.
  destruct (_ =? _)%string, (tx_ExtraData t), (tx_OriginalTransactionID t), (tx_ProcessedAt t);
    (apply (bool_decide_unpack _); vm_compute; exact I).
Qed.

Lemma transaction_fields_ok t : json_safe t = true -> json_ok (JObj (transaction_fields t)) = true.
Proof.
  rewrite json_safe_spec. intros (Href & Hamt & Htyp & Hst & Hip & Hext & Hc & Hp).
  cbn [json_ok]. unfold transaction_fields, opt_field.
  rewrite !forallb_app. cbn [forallb json_ok fst snd uuid_json int_json time_json].
  rewrite !uuid_utf8, Href, Htyp, Hst, (int_lit_format _ Hamt), (format_nano_utf8 _ Hc).
  destruct (_ =? _)%string, (tx_ExtraData t), (tx_OriginalTransactionID t), (tx_ProcessedAt t);
    cbn [forallb json_ok fst snd uuid_json time_json default] in *; unfold id in *;
    rewrite ?uuid_utf8, ?Hip, ?Hext, ?(format_nano_utf8 _ Hp); reflexivity.
Qed.

Lemma decode_transaction_fields t :
  json_safe t = true -> decode_transaction (transaction_fields t) zero_Transaction = Ok (visible t).
Proof.
  rewrite json_safe_spec. intros (_ & Hamt & _ & _ & _ & _ & Hc & Hp).
  pose proof (parse_int_format _ Hamt) as Ha. pose proof (parse_rfc3339_format _ Hc) as Hcp.
  destruct t as [id ref mid wid amt ae typ st sg ip ext orig cre pro].
  cbn [tx_Amount tx_CreatedAt tx_ProcessedAt] in *.
  assert (Hpp : forall z, pro = Some z -> parse_rfc3339 (Format_RFC3339Nano z) = Some z).
  { intros z ->. by apply parse_rfc3339_format. }
  clear Hc Hp Hamt. unfold transaction_fields, opt_field, visible. cbn [tx_ClientIP].
  destruct (ip =? "")%string eqn:Hip; bool_prop; [subst ip|];
  (destruct pro as [z|]; [specialize (Hpp z eq_refl)|]); destruct ext, orig;
  lazy -[uuid uuid_String uuid_Parse uuid_Nil parse_rfc3339 Format_RFC3339Nano ParseInt FormatInt];
  repeat (rewrite uuid_Parse_String || rewrite Ha || rewrite Hcp || rewrite Hpp); reflexivity.
Qed.

Lemma Marshal_Transaction_ok t :
  json_safe t = true -> Marshal_Transaction t = Ok (json_print (JObj (transaction_fields t))).
Proof.
  rewrite json_safe_spec. intros (_ & _ & _ & _ & _ & _ & Hc & Hp).
  unfold Marshal_Transaction, time_to_json. rewrite Hc. simpl.
  destruct (tx_ProcessedAt t); simpl in *; [by rewrite Hp | done].
Qed.

Lemma Marshal_Transaction_inv t s :
  Marshal_Transaction t = Ok s ->
  json_year (tx_CreatedAt t) = true /\ json_year (default 0 (tx_ProcessedAt t)) = true.
Proof.
  unfold Marshal_Transaction, time_to_json. intros H.
  apply result_bind_Ok in H as (? & Hc & H). apply result_bind_Ok in H as (? & Hp & _).
  destruct (json_year (tx_CreatedAt t)); [|done]. split; [done|].
  destruct (tx_ProcessedAt t); simpl in *; [|done]. by destruct (json_year _).
Qed.

(** Any document holding the marshalled members, in any order, decodes to the same
    transaction: the form in which PostgreSQL's JSONB keeps the cached response. *)
Lemma Unmarshal_perm t s l :
  json_safe t = true -> json_parse s = Some (JObj l) -> Permutation (transaction_fields t) l ->
  Unmarshal_Transaction s = Ok (visible t).
Proof.
  intros Hs Hp HP. unfold Unmarshal_Transaction. rewrite Hp.
  rewrite <- (decode_transaction_perm _ _ _ HP (transaction_fields_nodup t)).
  by apply decode_transaction_fields.
Qed.

Lemma Unmarshal_Marshal t s :
  json_safe t = true -> Marshal_Transaction t = Ok s -> Unmarshal_Transaction s = Ok (visible t).
Proof.
  intros Hs HM. rewrite Marshal_Transaction_ok in HM by done.
  assert (s = json_print (JObj (transaction_fields t))) as -> by congruence.
  eapply Unmarshal_perm; [done | | reflexivity].
  by apply json_parse_print, transaction_fields_ok.
Qed.

(** *** Idempotency keys *)

Lemma uuid_prefix_inj u v a b :
  uuid_String u +:+ a = uuid_String v +:+ b -> u = v /\ a = b.
Proof.
  intros H. apply str_app_inj in H as [H ->]; [by apply uuid_String_inj in H|].
  by rewrite !uuid_String_length.
Qed.

Lemma BuildIdempotencyKey_inj u v a b :
  BuildIdempotencyKey u a = BuildIdempotencyKey v b -> u = v /\ a = b.
Proof.
  intros [-> E]%uuid_prefix_inj. split; [done|]. by apply str_app_inj_l in E.
Qed.

Lemma BuildRefundIdempotencyKey_inj u v a b :
  BuildRefundIdempotencyKey u a = BuildRefundIdempotencyKey v b -> u = v /\ a = b.
Proof.
  intros [-> E]%uuid_prefix_inj. split; [done|]. by apply str_app_inj_l in E.
Qed.

Lemma refund_key_as_payment_key u v a b :
  BuildIdempotencyKey u a = BuildRefundIdempotencyKey v b <-> u = v /\ a = "refund:" +:+ b.
Proof.
  split; [|by intros [-> ->]]. intros [-> E]%uuid_prefix_inj. split; [done|].
  change (":refund:" +:+ b) with (":" +:+ ("refund:" +:+ b)) in E.
  by apply str_app_inj_l in E.
Qed.
End RoundTrip.
