(* ===== verification/Effects.v ===== *)
(** What the program does to the outside world, and programs as sequences of such
    operations: the SQL statements of the postgres adapter, Redis commands, clock,
    entropy, outgoing HTTP, and [go] statements.  A Go function with effects is a value of
    [prog]; the same value is run alone ([World.run]) or interleaved with others. *)

From S2P Require Export Domain.

(** ** SQL statements

    One constructor per statement text of internal/adapter/storage/postgres; the columns
    are those of the row type.  Dynamic [WHERE] clauses (List, GetStats) keep their numbered
    placeholders, which the argument list fills. *)

Inductive column_test :=
| MerchantIDEq            (* merchant_id = $n *)
| StatusEq                (* status = $n *)
| TypeEq                  (* transaction_type = $n *)
| CreatedGe               (* created_at >= to_timestamp($n) *)
| CreatedLe.              (* created_at <= to_timestamp($n) *)

(** A condition with the number of its placeholder. *)
Definition condition : Type := column_test * Z.

Record TransactionStats := mkTransactionStats {
  TotalTransactions : Z;
  Successful : Z;
  Failed : Z;
  Reversed : Z;
  TotalRevenue : Z;
  TotalRefunded : Z;
  TotalTopup : Z
}.

Section Effects.
Context {U : UUIDLib}.

Inductive sqlval :=
| VUuid (u : uuid)
| VText (s : string)
| VInt (z : Z).

(** The index is what the driver hands back: the rows of a [SELECT], the number of rows an
    [INSERT] or [UPDATE] affected. *)
Inductive sql : Type -> Type :=
| InsertMerchant (m : Merchant) : sql Z
| SelectMerchantByID (id : uuid) : sql (list Merchant)
| SelectMerchantByAccessKey (accessKey : string) : sql (list Merchant)
| SelectMerchantByUsername (username : string) : sql (list Merchant)
| UpdateMerchant (name : string) (webhook : option string) (access secret status : string)
    (id : uuid) : sql Z
| InsertWallet (w : Wallet) : sql Z
| SelectWalletByID (id : uuid) (forUpdate : bool) : sql (list Wallet)
| SelectWalletByMerchant (merchantID : uuid) (currency : string) (forUpdate : bool) : sql (list Wallet)
| UpdateWalletBalance (encryptedBalance : string) (id : uuid) : sql Z
| InsertTransaction (t : Transaction) : sql Z
| SelectTransactionByID (id : uuid) : sql (list Transaction)
| SelectTransactionByReference (merchantID : uuid) (referenceID : string) : sql (list Transaction)
| UpdateTransactionStatus (status : string) (now : time) (id : uuid) : sql Z
| ExistsRefund (originalTxID : uuid) : sql bool
| CountTransactions (where_ : list condition) (args : list sqlval) : sql Z
| SelectTransactions (where_ : list condition) (limitArg offsetArg : Z) (args : list sqlval)
    : sql (list Transaction)
| SelectStats (where_ : list condition) (args : list sqlval) : sql TransactionStats
| InsertIdempotencyLog (l : IdempotencyLog) : sql Z
| SelectIdempotencyLog (key : string) : sql (list IdempotencyLog)
| InsertWebhookLog (l : WebhookDeliveryLog) : sql Z
| UpdateWebhookLog (l : WebhookDeliveryLog) : sql Z
| SelectWebhookLogs (txID : uuid) : sql (list WebhookDeliveryLog)
| InsertAuditLog (l : AuditLog) : sql Z
| SelectOne : sql unit.

(** ** Operations *)

(** A handle on an open database transaction ([pgx.Tx]). *)
Definition tx : Type := nat.

Inductive Op : Type -> Type :=
| Now : Op time                                   (* time.Now() *)
| NewUUID : Op uuid                               (* uuid.New() *)
| RandRead (n : nat) : Op (res string)            (* rand.Read of n bytes *)
| PgBegin : Op (res tx)
| PgCommit (h : tx) : Op (res unit)
| PgRollback (h : tx) : Op (res unit)
| Pg {A} (conn : option tx) (stmt : sql A) : Op (res A)
| RedisGet (key : string) : Op (res string)
| RedisSet (key value : string) (ttl : duration) : Op (res unit)
| RedisSetNX (key value : string) (ttl : duration) : Op (res string)
| RedisIncr (key : string) : Op (res Z)
| RedisExpire (key : string) (ttl : duration) : Op (res unit)
| RedisPing : Op (res unit)
| Sleep (d : duration) : Op unit
| HTTPDo (url body : string) : Op (res Z).        (* POST; the status code *)

(** ** Programs *)

Inductive prog (A : Type) : Type :=
| Ret (a : A)
| Do {X : Type} (o : Op X) (k : X -> prog A)
| Go (child : prog unit) (k : prog A).            (* go child(); k *)
Arguments Ret {A} a.
Arguments Do {A X} o k.
Arguments Go {A} child k.

Fixpoint bind {A B} (p : prog A) (f : A -> prog B) : prog B :=
  match p with
  | Ret a => f a
  | Do o k => Do o (fun x => bind (k x) f)
  | Go c k => Go c (bind k f)
  end.

Definition op {X} (o : Op X) : prog X := Do o Ret.

(** [defer f()]: [f] runs when the body has returned, its result is ignored. *)
Definition defer {A B} (f : prog B) (body : prog A) : prog A :=
  bind body (fun a => bind f (fun _ => Ret a)).
End Effects.

Arguments Ret {U A} a.
Arguments Do {U A X} o k.
Arguments Go {U A} child k.

Declare Scope prog_scope.
Delimit Scope prog_scope with prog.
#[global] Open Scope prog_scope.

Notation "'do' x <- p ';;' k" := (bind p (fun x => k))
  (at level 10, x pattern, p at level 99, k at level 200) : prog_scope.

(** [x, err := p; if err != nil { h }; k] *)
Notation "'try' x <- p 'catch' e => h ';;' k" :=
  (bind p (fun r => match r with Ok x => k | Err e => h end))
  (at level 10, x pattern, p at level 99, e name, h at level 99, k at level 200) : prog_scope.

(** The same for a call without effects. *)
Notation "'check' x <- r 'catch' e => h ';;' k" :=
  (match r with Ok x => k | Err e => h end)
  (at level 10, x pattern, r at level 99, e name, h at level 99, k at level 200) : prog_scope.

(** [return nil, err] *)
Definition fail {U : UUIDLib} {A} (e : error) : prog (res A) := Ret (Err e).
Definition ok {U : UUIDLib} {A} (a : A) : prog (res A) := Ret (Ok a).

