(* ===== verification/Postgres.v ===== *)
(** The database the program talks to: the tables and constraints of
    db/migrations/001_init_schema.up.sql and the meaning of the statements the postgres
    adapter sends, as functions on those tables.

    What a column type does to a value is standard SQL; how the server renders [JSONB] and
    rounds [TIMESTAMPTZ] is a parameter ([PgLib], [JsonbLaws]), and so are its failures and
    the order of rows it leaves open ([World]). *)

From S2P Require Export Effects.
From Stdlib Require Import Permutation.

(** The server's own functions on values. *)
Class PgLib : Type := {
  jsonb : string -> option string;   (* the text a JSONB column gives back *)
  pg_time : time -> time             (* the instant a TIMESTAMPTZ column keeps *)
}.

(** A flat object without NUL characters: what the program stores in JSONB columns. *)
Definition has_nul (s : string) : bool := string_existsb (fun c => byte_val c =? 0) s.

Definition jsonb_scalar (v : json) : bool :=
  match v with
  | JNull | JBool _ => true
  | JNum lit => int_lit lit
  | JStr s => utf8_valid s && negb (has_nul s)
  | _ => false
  end.

Definition jsonb_flat (l : list (string * json)) : bool :=
  forallb (fun kv => utf8_valid kv.1 && negb (has_nul kv.1) && jsonb_scalar kv.2) l.

(** JSONB keeps an object's members, not their order. *)
Class JsonbLaws {P : PgLib} : Prop := {
  jsonb_object l :
    jsonb_flat l = true -> NoDup (map fst l) ->
    exists s' l', jsonb (json_print (JObj l)) = Some s' /\ json_parse s' = Some (JObj l') /\
                  Permutation l l'
}.

(** ** Column types *)

Definition sql_error (m : string) : error := ErrLeaf ("ERROR: " +:+ m).

(** TEXT: valid UTF-8 without NUL, in columns and in parameters. *)
Definition readable (s : string) : bool := utf8_valid s && negb (has_nul s).

Definition text (s : string) : res string :=
  if readable s then Ok s
  else Err (sql_error "invalid byte sequence for encoding UTF8").

(** The first [n] characters and the rest. *)
Fixpoint split_runes (n : nat) (s : string) : string * string :=
  match s with
  | EmptyString => (EmptyString, EmptyString)
  | String c t =>
    if in_range 128 191 c then let '(a, b) := split_runes n t in (String c a, b)
    else match n with
         | O => (EmptyString, s)
         | S n' => let '(a, b) := split_runes n' t in (String c a, b)
         end
  end.

(** VARCHAR(n): longer values are refused unless the excess is blank. *)
Definition varchar (n : nat) (s : string) : res string :=
  let! s := text s in
  if (rune_count s <=? n)%nat then Ok s
  else let '(a, b) := split_runes n s in
       if string_forallb (fun c => byte_val c =? 32) b then Ok a
       else Err (sql_error "value too long for type character varying").

(** Short plain texts are kept as they are. *)
Lemma plain_no_nul s : string_forallb is_plain s = true -> has_nul s = false.
Proof.
  unfold has_nul. induction s as [|c s IH]; [done|]. cbn [string_forallb string_existsb].
  intros [Hc Hs]%andb_true_iff. rewrite IH by done. unfold is_plain in Hc. bool_prop.
  apply orb_false_iff. split; [|done]. apply Z.eqb_neq. lia.
Qed.

Lemma text_plain s : string_forallb is_plain s = true -> text s = Ok s.
Proof. intros H. unfold text, readable. by rewrite (utf8_valid_plain _ H), (plain_no_nul _ H). Qed.

Lemma text_Err s e : text s = Err e -> readable s = false.
Proof. unfold text. by destruct (readable s). Qed.

Lemma text_readable s : readable s = true -> text s = Ok s.
Proof. unfold text. by intros ->. Qed.

Lemma text_unreadable s : readable s = false -> exists e, text s = Err e.
Proof. unfold text. intros ->. eauto. Qed.

Lemma rune_count_length s : (rune_count s <= String.length s)%nat.
Proof. induction s as [|c s IH]; simpl; [lia|]. destruct (in_range 128 191 c); lia. Qed.

Lemma varchar_plain n s : string_forallb is_plain s = true -> (String.length s <= n)%nat -> varchar n s = Ok s.
Proof.
  intros Hp Hn. unfold varchar. rewrite text_plain by done. simpl. pose proof (rune_count_length s).
  by destruct (Nat.leb_spec (rune_count s) n); [|lia].
Qed.

(** What a VARCHAR column keeps is readable again: it is cut between characters. *)
Lemma conts_split m p : conts m p = true -> string_forallb (in_range 128 191) (str_take m p) = true.
Proof.
  revert p. induction m as [|m IH]; intros [|c p]; simpl; try done. intros [-> Hc]%andb_true_iff. by apply IH.
Qed.

Lemma utf8_lead_range v m lo hi : utf8_lead v = Some (m, lo, hi) -> 194 <= v /\ 128 <= lo /\ hi <= 191.
Proof. unfold utf8_lead. intros. repeat (case_match; simplify_eq; bool_prop; try lia). Qed.

Lemma utf8_size_conts c t k :
  utf8_size (String c t) = Some k ->
  in_range 128 191 c = false /\ exists m, k = S m /\ string_forallb (in_range 128 191) (str_take m t) = true.
Proof.
  simpl. case_match.
  - intros [= <-]. split; [unfold in_range; bool_prop; apply andb_false_iff; left; apply Z.leb_gt; lia|]. by exists O.
  - destruct (utf8_lead (byte_val c)) as [[[m lo] hi]|] eqn:Hl; [|done].
    destruct t as [|b u]; [done|]. case_match; [|done]. intros [= <-].
    apply utf8_lead_len in Hl as Hm. apply utf8_lead_range in Hl as (Hc & Hlo & Hhi).
    match goal with H : _ && _ = true |- _ => apply andb_true_iff in H as [Hb Hu] end.
    split; [unfold in_range; apply andb_false_iff; right; apply Z.leb_gt; lia|].
    destruct m as [|[|m]]; [lia..|]. exists (S m). split; [done|]. simpl. simpl in Hu. rewrite Nat.sub_0_r in Hu.
    rewrite (conts_split _ _ Hu), andb_true_r. unfold in_range in *. bool_prop. apply andb_true_iff. lia.
Qed.

Lemma split_runes_conts n p u :
  string_forallb (in_range 128 191) p = true ->
  split_runes n (p +:+ u) = (p +:+ (split_runes n u).1, (split_runes n u).2).
Proof.
  induction p as [|c p IH]; cbn [string_forallb]; intros Hp.
  - change ("" +:+ ?x) with x. by destruct (split_runes n u).
  - apply andb_true_iff in Hp as [Hc Hp]. rewrite !str_app_cons. cbn [split_runes]. by rewrite Hc, IH.
Qed.

Lemma split_runes_app n s : (split_runes n s).1 +:+ (split_runes n s).2 = s.
Proof.
  revert n. induction s as [|c s IH]; intros n; [done|]. cbn [split_runes]. case_match.
  - specialize (IH n). destruct (split_runes n s). rewrite <- IH. done.
  - destruct n as [|n]; [done|]. specialize (IH n). destruct (split_runes n s). rewrite <- IH. done.
Qed.

Lemma split_runes_valid f n s g :
  utf8_valid_fuel f s = true -> (String.length (split_runes n s).1 <= g)%nat ->
  utf8_valid_fuel g (split_runes n s).1 = true.
Proof.
  revert n s g. induction f as [|f IH]; intros n s g; [by destruct s, g|]. destruct s as [|c t]; [by destruct g|].
  cbn [utf8_valid_fuel]. destruct (utf8_size (String c t)) as [k|] eqn:Hk; [|done]. intros Hv.
  destruct (utf8_size_conts _ _ _ Hk) as (Hc & m & -> & Hp). cbn [split_runes]. rewrite Hc.
  destruct n as [|n]; [by destruct g|]. pose proof (str_take_drop m t) as Ht. fold (str_take m t +:+ str_drop m t) in Ht.
  rewrite <- Ht, (split_runes_conts _ _ _ Hp). cbn [str_drop] in Hv. cbn [fst]. intros Hg. destruct g as [|g]; [simpl in Hg; lia|].
  destruct (utf8_size_take _ _ (split_runes n (str_drop m t)).1 Hk) as [Hsize Hlen]. cbn [str_take] in Hsize.
  rewrite str_app_cons in Hsize. cbn [utf8_valid_fuel]. rewrite Hsize. cbn [str_drop].
  destruct (str_take_take_app m t (split_runes n (str_drop m t)).1) as [_ ->]; [simpl in Hlen; lia|].
  apply IH; [done|]. cbn [String.length] in Hg. rewrite str_length_app in Hg. lia.
Qed.

Lemma varchar_readable n s s' : varchar n s = Ok s' -> readable s' = true.
Proof.
  unfold varchar, text. destruct (readable s) eqn:Hr; [|done]. cbn [result_bind]. case_match; [by intros [= <-]|].
  pose proof (split_runes_app n s) as Happ. unfold readable in *. bool_prop. match goal with H : utf8_valid s = true |- _ => rename H into Hv end.
  unfold utf8_valid in Hv. pose proof (split_runes_valid _ n _ _ Hv (le_n _)) as Ha.
  destruct (split_runes n s) as [a b]. case_match; [|done]. intros [= <-]. apply andb_true_iff. split; [exact Ha|].
  apply negb_true_iff. unfold has_nul in *. cbn [fst snd] in Happ. rewrite <- Happ in *.
  match goal with H : string_existsb _ _ = false |- _ => rewrite string_existsb_app in H; by apply orb_false_iff in H as [H _] end.
Qed.

(** DECIMAL(20, 2): at most 18 digits before the point. *)
Definition decimal_20_2 (z : Z) : res Z :=
  if Z.abs z <? 10 ^ 18 then Ok z else Err (sql_error "numeric field overflow").

(** INTEGER *)
Definition integer (z : Z) : res Z :=
  if (- 2 ^ 31 <=? z) && (z <? 2 ^ 31) then Ok z else Err (sql_error "integer out of range").

Definition nullable {A B} (col : A -> res B) (o : option A) : res (option B) :=
  match o with Some a => result_map Some (col a) | None => Ok None end.

(** JSONB *)
Definition jsonb_col `{PgLib} (s : string) : res string :=
  match jsonb s with Some s' => Ok s' | None => Err (sql_error "invalid input syntax for type json") end.

(** TO_TIMESTAMP(seconds): the instants of a TIMESTAMPTZ reach from 24 November 4714 BC to the
    end of the year 294276. *)
Definition to_timestamp (z : Z) : res time :=
  if (-210866803200 <=? z) && (z <? 9224318016000) then Ok (z * Second)
  else Err (sql_error "timestamp out of range").

Section Tables.
Context {U : UUIDLib} {P : PgLib}.

(** The values the tables keep of a row that is inserted. *)
Definition store_merchant (m : Merchant) : res Merchant :=
  let! username := varchar 50 (m_Username m) in
  let! hash := varchar 255 (m_PasswordHash m) in
  let! name := varchar 100 (m_MerchantName m) in
  let! access := varchar 64 (m_AccessKey m) in
  let! secret := text (m_SecretKeyEnc m) in
  let! webhook := nullable text (m_WebhookURL m) in
  let! status := varchar 20 (m_Status m) in
  Ok (mkMerchant (m_ID m) username hash name access secret webhook status
        (pg_time (m_CreatedAt m)) (pg_time (m_UpdatedAt m))).

Definition store_wallet (w : Wallet) : res Wallet :=
  let! currency := varchar 3 (w_Currency w) in
  let! enc := text (w_EncryptedBalance w) in
  let! hash := nullable (varchar 64) (w_LastAuditHash w) in
  Ok (mkWallet (w_ID w) (w_MerchantID w) currency enc hash
        (pg_time (w_CreatedAt w)) (pg_time (w_UpdatedAt w))).

Definition store_transaction (t : Transaction) : res Transaction :=
  let! ref := varchar 100 (tx_ReferenceID t) in
  let! amount := decimal_20_2 (tx_Amount t) in
  let! enc := text (tx_AmountEncrypted t) in
  let! typ := varchar 20 (tx_TransactionType t) in
  let! status := varchar 20 (tx_Status t) in
  let! sig := varchar 255 (tx_Signature t) in
  let! ip := varchar 45 (tx_ClientIP t) in
  let! extra := nullable text (tx_ExtraData t) in
  Ok (mkTransaction (tx_ID t) ref (tx_MerchantID t) (tx_WalletID t) amount enc typ status sig ip
        extra (tx_OriginalTransactionID t) (pg_time (tx_CreatedAt t))
        (option_map pg_time (tx_ProcessedAt t))).

Definition store_idempotency_log (l : IdempotencyLog) : res IdempotencyLog :=
  let! key := varchar 255 (il_Key l) in
  let! response := jsonb_col (il_ResponseJSON l) in
  Ok (mkIdempotencyLog key (il_TransactionID l) response (pg_time (il_CreatedAt l))).

Definition store_webhook_log (l : WebhookDeliveryLog) : res WebhookDeliveryLog :=
  let! url := text (wl_WebhookURL l) in
  let! payload := jsonb_col (wl_Payload l) in
  let! http := nullable integer (wl_HTTPStatus l) in
  let! attempt := integer (wl_Attempt l) in
  let! status := varchar 20 (wl_Status l) in
  let! last := nullable text (wl_LastError l) in
  Ok (mkWebhookDeliveryLog (wl_ID l) (wl_TransactionID l) (wl_MerchantID l) url payload http
        attempt status (option_map pg_time (wl_NextRetryAt l)) last
        (pg_time (wl_CreatedAt l)) (pg_time (wl_UpdatedAt l))).

(** [details] is JSONB; the empty text is not a JSON document. *)
Definition store_audit_log (l : AuditLog) : res AuditLog :=
  let! action := varchar 50 (al_Action l) in
  let! rtype := varchar 50 (al_ResourceType l) in
  let! rid := varchar 100 (al_ResourceID l) in
  let! details := jsonb_col (al_Details l) in
  let! ip := varchar 45 (al_IPAddress l) in
  Ok (mkAuditLog (al_ID l) (al_MerchantID l) action rtype rid details ip (pg_time (al_CreatedAt l))).

(** ** Tables, by primary key *)

Record Tables := mkTables {
  merchants : gmap uuid Merchant;
  wallets : gmap uuid Wallet;
  transactions : gmap uuid Transaction;
  idempotency_logs : gmap string IdempotencyLog;
  webhook_delivery_logs : gmap uuid WebhookDeliveryLog;
  audit_logs : gmap uuid AuditLog
}.

Definition empty_tables : Tables := mkTables ∅ ∅ ∅ ∅ ∅ ∅.

(** A row-level change. *)
Inductive write :=
| WMerchant (m : Merchant)
| WWallet (w : Wallet)
| WTransaction (t : Transaction)
| WIdempotencyLog (l : IdempotencyLog)
| WWebhookLog (l : WebhookDeliveryLog)
| WAuditLog (l : AuditLog)
| WBalance (id : uuid) (enc : string) (now : time)
| WStatus (id : uuid) (status : string) (now : time).

Definition set_balance (enc : string) (now : time) (w : Wallet) : Wallet :=
  mkWallet (w_ID w) (w_MerchantID w) (w_Currency w) enc (w_LastAuditHash w) (w_CreatedAt w) now.

Definition set_status (status : string) (now : time) (t : Transaction) : Transaction :=
  mkTransaction (tx_ID t) (tx_ReferenceID t) (tx_MerchantID t) (tx_WalletID t) (tx_Amount t)
    (tx_AmountEncrypted t) (tx_TransactionType t) status (tx_Signature t) (tx_ClientIP t)
    (tx_ExtraData t) (tx_OriginalTransactionID t) (tx_CreatedAt t) (Some now).

Definition apply_write (x : write) (T : Tables) : Tables :=
  mkTables
    (match x with WMerchant m => <[m_ID m := m]> (merchants T) | _ => merchants T end)
    (match x with
     | WWallet w => <[w_ID w := w]> (wallets T)
     | WBalance id enc now => alter (set_balance enc now) id (wallets T)
     | _ => wallets T
     end)
    (match x with
     | WTransaction t => <[tx_ID t := t]> (transactions T)
     | WStatus id status now => alter (set_status status now) id (transactions T)
     | _ => transactions T
     end)
    (match x with WIdempotencyLog l => <[il_Key l := l]> (idempotency_logs T) | _ => idempotency_logs T end)
    (match x with
     | WWebhookLog l => <[wl_ID l := l]> (webhook_delivery_logs T)
     | _ => webhook_delivery_logs T
     end)
    (match x with WAuditLog l => <[al_ID l := l]> (audit_logs T) | _ => audit_logs T end).

Definition apply_writes (xs : list write) (T : Tables) : Tables :=
  fold_left (fun T x => apply_write x T) xs T.

(** ** Constraints *)

Definition has_row {K A} `{Countable K} (m : gmap K A) (k : K) : bool :=
  match m !! k with Some _ => true | None => false end.

(** The rows of a table in the order the server visits them, which SQL leaves open: [ord]
    is any permutation. *)
Definition Order : Type := forall A, list A -> list A.

Definition is_order (ord : Order) : Prop := forall A (l : list A), Permutation (ord A l) l.

Definition rows {K A} `{Countable K} (ord : Order) (f : A -> bool) (m : gmap K A) : list A :=
  ord A (List.filter f (map snd (map_to_list m))).

Definition some_row {K A} `{Countable K} (f : A -> bool) (m : gmap K A) : bool :=
  existsb (fun kv => f kv.2) (map_to_list m).

(** A constraint that fails: the error of the statement. *)
Definition require (b : bool) (m : string) : res unit := if b then Ok tt else Err (sql_error m).

Definition unique_violation : string := "duplicate key value violates unique constraint".
Definition fk_violation : string := "insert or update on table violates foreign key constraint".

(** ** WHERE clauses with placeholders *)

Definition nth_arg (args : list sqlval) (n : Z) : option sqlval := nth_error args (Z.to_nat (n - 1)).

Definition bind_error {A} : res A := Err (ErrLeaf "mismatched query arguments").

(** A parameter that is missing or of another type than the column is an error of the driver,
    a text or an instant that the server cannot read one of the server. *)
Definition test_of (args : list sqlval) (c : condition) : res (Transaction -> bool) :=
  match c.1, nth_arg args c.2 with
  | MerchantIDEq, Some (VUuid u) => Ok (fun t => bool_decide (tx_MerchantID t = u))
  | StatusEq, Some (VText s) => let! s := text s in Ok (fun t => (tx_Status t =? s)%string)
  | TypeEq, Some (VText s) => let! s := text s in Ok (fun t => (tx_TransactionType t =? s)%string)
  | CreatedGe, Some (VInt z) => let! since := to_timestamp z in Ok (fun t => since <=? tx_CreatedAt t)
  | CreatedLe, Some (VInt z) => let! until_ := to_timestamp z in Ok (fun t => tx_CreatedAt t <=? until_)
  | _, _ => bind_error
  end.

Fixpoint where_of (args : list sqlval) (cs : list condition) : res (Transaction -> bool) :=
  match cs with
  | [] => Ok (fun _ => true)
  | c :: cs =>
    let! f := test_of args c in
    let! g := where_of args cs in
    Ok (fun t => f t && g t)
  end.

(** [ORDER BY created_at DESC]: insertion sort, later rows of equal keys after earlier ones. *)
Fixpoint insert_desc {A} (key : A -> Z) (a : A) (l : list A) : list A :=
  match l with
  | [] => [a]
  | b :: l' => if key a <? key b then b :: insert_desc key a l' else a :: l
  end.

Fixpoint order_by_desc {A} (key : A -> Z) (l : list A) : list A :=
  match l with [] => [] | a :: l' => insert_desc key a (order_by_desc key l') end.

(** [LIMIT n OFFSET m] *)
Definition page {A} (limit offset : Z) (l : list A) : res (list A) :=
  if limit <? 0 then Err (sql_error "LIMIT must not be negative")
  else if offset <? 0 then Err (sql_error "OFFSET must not be negative")
  else Ok (take (Z.to_nat limit) (drop (Z.to_nat offset) l)).

Definition count {A} (f : A -> bool) (l : list A) : Z := Z.of_nat (length (List.filter f l)).

(** [SUM(amount) FILTER (WHERE transaction_type = typ AND status = 'SUCCESS')] *)
Definition sum_success (typ : string) (l : list Transaction) : Z :=
  fold_right Z.add 0
    (map tx_Amount
       (List.filter (fun t => (tx_TransactionType t =? typ)%string && (tx_Status t =? "SUCCESS")%string) l)).

(** A NUMERIC that the driver reads into an [int64]. *)
Definition scan_int64 (z : Z) : res Z :=
  if in_int64b z then Ok z else Err (ErrLeaf "cannot scan numeric into *int64").

Definition stats_of (l : list Transaction) : res TransactionStats :=
  let! revenue := scan_int64 (sum_success "PAYMENT" l) in
  let! refunded := scan_int64 (sum_success "REFUND" l) in
  let! topup := scan_int64 (sum_success "TOPUP" l) in
  Ok (mkTransactionStats (Z.of_nat (length l))
        (count (fun t => (tx_Status t =? "SUCCESS")%string) l)
        (count (fun t => (tx_Status t =? "FAILED")%string) l)
        (count (fun t => (tx_Status t =? "REVERSED")%string) l)
        revenue refunded topup).

(** ** Statements

    The rows a statement returns (or their number) and the changes it makes, on the tables
    it sees; [now] is [NOW()]. *)

Definition wallet_of (merchantID : uuid) (currency : string) (w : Wallet) : bool :=
  bool_decide (w_MerchantID w = merchantID) && (w_Currency w =? currency)%string.

Definition txn_of (merchantID : uuid) (referenceID : string) (t : Transaction) : bool :=
  bool_decide (tx_MerchantID t = merchantID) && (tx_ReferenceID t =? referenceID)%string.

(** [original_transaction_id = id AND transaction_type = 'REFUND' AND status != 'FAILED'] *)
Definition live_refund_of (id : uuid) (t : Transaction) : bool :=
  bool_decide (tx_OriginalTransactionID t = Some id)
  && (tx_TransactionType t =? "REFUND")%string && negb (tx_Status t =? "FAILED")%string.

Definition select {A} (l : list A) : res (list A * list write) := Ok (l, []).

Definition update_merchant (m : Merchant) (name access secret status : string)
    (webhook : option string) (now : time) : Merchant :=
  mkMerchant (m_ID m) (m_Username m) (m_PasswordHash m) name access secret webhook status
    (m_CreatedAt m) now.

Definition update_webhook_log (old : WebhookDeliveryLog) (http : option Z) (attempt : Z)
    (status : string) (next : option time) (last : option string) (now : time) : WebhookDeliveryLog :=
  mkWebhookDeliveryLog (wl_ID old) (wl_TransactionID old) (wl_MerchantID old) (wl_WebhookURL old)
    (wl_Payload old) http attempt status next last (wl_CreatedAt old) now.

Definition lookup_list {K A} `{Countable K} (m : gmap K A) (k : K) : list A :=
  match m !! k with Some a => [a] | None => [] end.

Definition stmt_eff {A} (ord : Order) (now : time) (s : sql A) (T : Tables) : res (A * list write) :=
  match s in sql A return res (A * list write) with
  | InsertMerchant m =>
    let! row := store_merchant m in
    let! _ := require (negb (has_row (merchants T) (m_ID m))) unique_violation in
    let! _ := require (negb (some_row (fun r => (m_Username r =? m_Username row)%string) (merchants T)))
                unique_violation in
    let! _ := require (negb (some_row (fun r => (m_AccessKey r =? m_AccessKey row)%string) (merchants T)))
                unique_violation in
    Ok (1, [WMerchant row])
  | SelectMerchantByID id => select (lookup_list (merchants T) id)
  | SelectMerchantByAccessKey k =>
    let! k := text k in
    select (rows ord (fun r => (m_AccessKey r =? k)%string) (merchants T))
  | SelectMerchantByUsername u =>
    let! u := text u in
    select (rows ord (fun r => (m_Username r =? u)%string) (merchants T))
  | UpdateMerchant name webhook access secret status id =>
    let! name := varchar 100 name in
    let! webhook := nullable text webhook in
    let! access := varchar 64 access in
    let! secret := text secret in
    let! status := varchar 20 status in
    match merchants T !! id with
    | None => Ok (0, [])
    | Some m =>
      let! _ := require (negb (some_row (fun r => (m_AccessKey r =? access)%string)
                                 (delete id (merchants T)))) unique_violation in
      Ok (1, [WMerchant (update_merchant m name access secret status webhook now)])
    end
  | InsertWallet w =>
    let! row := store_wallet w in
    let! _ := require (negb (has_row (wallets T) (w_ID w))) unique_violation in
    let! _ := require (has_row (merchants T) (w_MerchantID w)) fk_violation in
    Ok (1, [WWallet row])
  | SelectWalletByID id _ => select (lookup_list (wallets T) id)
  | SelectWalletByMerchant mid cur _ =>
    let! cur := text cur in
    select (rows ord (wallet_of mid cur) (wallets T))
  | UpdateWalletBalance enc id =>
    let! enc := text enc in
    match wallets T !! id with
    | None => Ok (0, [])
    | Some _ => Ok (1, [WBalance id enc now])
    end
  | InsertTransaction t =>
    let! row := store_transaction t in
    let! _ := require (negb (has_row (transactions T) (tx_ID t))) unique_violation in
    let! _ := require (has_row (merchants T) (tx_MerchantID t)) fk_violation in
    let! _ := require (has_row (wallets T) (tx_WalletID t)) fk_violation in
    let! _ := require (match tx_OriginalTransactionID t with
                       | Some o => has_row (transactions T) o
                       | None => true
                       end) fk_violation in
    Ok (1, [WTransaction row])
  | SelectTransactionByID id => select (lookup_list (transactions T) id)
  | SelectTransactionByReference mid ref =>
    let! ref := text ref in
    select (rows ord (txn_of mid ref) (transactions T))
  | UpdateTransactionStatus status at_ id =>
    let! status := varchar 20 status in
    match transactions T !! id with
    | None => Ok (0, [])
    | Some _ => Ok (1, [WStatus id status (pg_time at_)])
    end
  | ExistsRefund id => Ok (some_row (live_refund_of id) (transactions T), [])
  | CountTransactions cs args =>
    if (length args =? length cs)%nat
    then let! f := where_of args cs in Ok (Z.of_nat (length (rows ord f (transactions T))), [])
    else bind_error
  | SelectTransactions cs limitArg offsetArg args =>
    match nth_arg args limitArg, nth_arg args offsetArg with
    | Some (VInt limit), Some (VInt offset) =>
      if (length args =? length cs + 2)%nat
      then let! f := where_of args cs in
           let! l := page limit offset (order_by_desc tx_CreatedAt (rows ord f (transactions T))) in
           select l
      else bind_error
    | _, _ => bind_error
    end
  | SelectStats cs args =>
    if (length args =? length cs)%nat
    then let! f := where_of args cs in
         let! st := stats_of (rows ord f (transactions T)) in
         Ok (st, [])
    else bind_error
  | InsertIdempotencyLog l =>
    let! row := store_idempotency_log l in
    let! _ := require (negb (has_row (idempotency_logs T) (il_Key row))) unique_violation in
    let! _ := require (has_row (transactions T) (il_TransactionID l)) fk_violation in
    Ok (1, [WIdempotencyLog row])
  | SelectIdempotencyLog key =>
    let! key := text key in
    select (lookup_list (idempotency_logs T) key)
  | InsertWebhookLog l =>
    let! row := store_webhook_log l in
    let! _ := require (negb (has_row (webhook_delivery_logs T) (wl_ID l))) unique_violation in
    let! _ := require (has_row (transactions T) (wl_TransactionID l)) fk_violation in
    let! _ := require (has_row (merchants T) (wl_MerchantID l)) fk_violation in
    Ok (1, [WWebhookLog row])
  | UpdateWebhookLog l =>
    let! http := nullable integer (wl_HTTPStatus l) in
    let! attempt := integer (wl_Attempt l) in
    let! status := varchar 20 (wl_Status l) in
    let! last := nullable text (wl_LastError l) in
    match webhook_delivery_logs T !! wl_ID l with
    | None => Ok (0, [])
    | Some old => Ok (1, [WWebhookLog (update_webhook_log old http attempt status
                                         (option_map pg_time (wl_NextRetryAt l)) last
                                         (pg_time (wl_UpdatedAt l)))])
    end
  | SelectWebhookLogs id =>
    select (order_by_desc wl_CreatedAt
              (rows ord (fun l => bool_decide (wl_TransactionID l = id)) (webhook_delivery_logs T)))
  | InsertAuditLog l =>
    let! row := store_audit_log l in
    let! _ := require (negb (has_row (audit_logs T) (al_ID l))) unique_violation in
    let! _ := require (match al_MerchantID l with Some m => has_row (merchants T) m | None => true end)
                fk_violation in
    Ok (1, [WAuditLog row])
  | SelectOne => Ok (tt, [])
  end.

(** ** Row locks *)

(** What a statement locks until its transaction ends: wallet rows, transaction rows, and
    the primary key of an idempotency log being inserted. *)
Definition lock : Type := uuid + uuid + string.
Definition LWallet (id : uuid) : lock := inl (inl id).
Definition LTransaction (id : uuid) : lock := inl (inr id).
Definition LKey (key : string) : lock := inr key.

Definition stmt_locks {A} (s : sql A) (T : Tables) : list lock :=
  match s with
  | SelectWalletByID id true => [LWallet id]
  | SelectWalletByMerchant mid cur true =>
    map (fun w => LWallet (w_ID w)) (List.filter (wallet_of mid cur) (map snd (map_to_list (wallets T))))
  | InsertWallet w => [LWallet (w_ID w)]
  | UpdateWalletBalance _ id => [LWallet id]
  | InsertTransaction t => [LTransaction (tx_ID t)]
  | UpdateTransactionStatus _ _ id => [LTransaction id]
  | InsertIdempotencyLog l => match varchar 255 (il_Key l) with Ok k => [LKey k] | Err _ => [] end
  | _ => []
  end.

(** *** What the helpers mean *)

Lemma rows_elem {K A} `{Countable K} ord f (m : gmap K A) a :
  is_order ord -> a ∈ rows ord f m <-> exists k, m !! k = Some a /\ f a = true.
Proof.
  intros Hord. unfold rows. rewrite (Hord A (List.filter f (map snd (map_to_list m)))).
  rewrite list_elem_of_In, filter_In, in_map_iff. split.
  - intros [([k a'] & <- & Hin) Hf]. apply list_elem_of_In, elem_of_map_to_list in Hin. eauto.
  - intros (k & Hk & Hf). split; [|done]. exists (k, a). split; [done|].
    by apply list_elem_of_In, elem_of_map_to_list.
Qed.

Lemma rows_nil {K A} `{Countable K} ord f (m : gmap K A) :
  is_order ord -> rows ord f m = [] -> forall k a, m !! k = Some a -> f a = false.
Proof.
  intros Hord Hr k a Hk. destruct (f a) eqn:Hf; [|done]. exfalso.
  assert (Hin : a ∈ rows ord f m) by (apply rows_elem; eauto). rewrite Hr in Hin. by apply not_elem_of_nil in Hin.
Qed.

Lemma text_Ok s s' : text s = Ok s' -> s' = s.
Proof. unfold text. case_match; [congruence|done]. Qed.

(** A SELECT by a text. *)
Lemma select_text_Ok {A} s (f : string -> list A) l ws :
  (let! s := text s in select (f s)) = Ok (l, ws) -> readable s = true /\ l = f s /\ ws = [].
Proof. unfold text. destruct (readable s); [|done]. by intros [= <- <-]. Qed.

Lemma select_text_Err {A} s (f : string -> list A) e :
  (let! s := text s in select (f s)) = Err e -> readable s = false.
Proof. destruct (text s) as [s'|e'] eqn:Hs; [done|]. intros _. by eapply text_Err. Qed.

Lemma require_Ok b m u : require b m = Ok u -> b = true.
Proof. unfold require. by destruct b. Qed.

Lemma has_row_true {K A} `{Countable K} (m : gmap K A) k : has_row m k = true <-> is_Some (m !! k).
Proof. unfold has_row. destruct (m !! k); split; eauto; [done|]. by intros [? [=]]. Qed.

Lemma has_row_false {K A} `{Countable K} (m : gmap K A) k : has_row m k = false <-> m !! k = None.
Proof. unfold has_row. by destruct (m !! k). Qed.

Lemma some_row_true {K A} `{Countable K} (f : A -> bool) (m : gmap K A) :
  some_row f m = true -> exists k a, m !! k = Some a /\ f a = true.
Proof.
  unfold some_row. intros ([k a] & Hin & Hf)%existsb_exists.
  apply list_elem_of_In, elem_of_map_to_list in Hin. eauto.
Qed.

Lemma some_row_false {K A} `{Countable K} (f : A -> bool) (m : gmap K A) k a :
  some_row f m = false -> m !! k = Some a -> f a = false.
Proof.
  unfold some_row. intros Hf Hk. destruct (f a) eqn:E; [|done]. rewrite <- Hf. symmetry.
  apply existsb_exists. exists (k, a). split; [|done]. by apply list_elem_of_In, elem_of_map_to_list.
Qed.

Lemma require_none b m u : require (negb b) m = Ok u -> b = false.
Proof. unfold require. by destruct b. Qed.

End Tables.
