(* ===== verification/World.v ===== *)
(** The outside world as the program may rely on it: PostgreSQL at READ COMMITTED, Redis, the
    clock and the entropy source.

    They are not code of the repository, so they are a parameter: a [Backend] has states and
    executes operations, and [BackendLaws] state its documented behaviour ([op_spec]) on the
    part of a state that matters, its [View].  [run] executes a program on a backend; [Logic]
    reasons about programs under [op_spec] alone, and [Logic.wp_run] and [Logic.wp_total]
    carry what is proved so to every backend. *)

From S2P Require Export Postgres.

Section World.
Context {U : UUIDLib} {P : PgLib}.

(** ** Views *)

(** An open transaction keeps its uncommitted writes; after an error it can only be rolled
    back; a handle that was closed is never opened again. *)
Inductive TxState :=
| Open (writes : list write)
| Aborted
| Closed.

Record View := mkView {
  v_tables : Tables;                               (* committed *)
  v_txs : gmap tx TxState;                         (* open transactions *)
  v_locks : gmap lock tx;
  v_redis : gmap string (string * option time);    (* value, expiry *)
  v_clock : time
}.

Definition set_tables (T : Tables) (v : View) : View :=
  mkView T (v_txs v) (v_locks v) (v_redis v) (v_clock v).
Definition set_tx (h : tx) (t : TxState) (v : View) : View :=
  mkView (v_tables v) (<[h := t]> (v_txs v)) (v_locks v) (v_redis v) (v_clock v).
Definition add_locks (h : tx) (ls : list lock) (v : View) : View :=
  mkView (v_tables v) (v_txs v) (foldr (fun l m => <[l := h]> m) (v_locks v) ls) (v_redis v) (v_clock v).
Definition set_redis (key : string) (entry : string * option time) (v : View) : View :=
  mkView (v_tables v) (v_txs v) (v_locks v) (<[key := entry]> (v_redis v)) (v_clock v).
Definition set_clock (c : time) (v : View) : View :=
  mkView (v_tables v) (v_txs v) (v_locks v) (v_redis v) c.

(** The end of a transaction: its writes are dropped, its locks released. *)
Definition close_tx (h : tx) (v : View) : View :=
  mkView (v_tables v) (<[h := Closed]> (v_txs v)) (filter (fun kv => kv.2 <> h) (v_locks v))
    (v_redis v) (v_clock v).

Definition publish (h : tx) (ws : list write) (v : View) : View :=
  close_tx h (set_tables (apply_writes ws (v_tables v)) v).

(** A connection sees the committed rows and, in a transaction, its own changes. *)
Definition seen (conn : option tx) (v : View) : Tables :=
  match conn with
  | Some h => match v_txs v !! h with
              | Some (Open ws) => apply_writes ws (v_tables v)
              | _ => v_tables v
              end
  | None => v_tables v
  end.

Definition locked_by_other (conn : option tx) (v : View) (l : lock) : Prop :=
  exists h, v_locks v !! l = Some h /\ conn <> Some h.

(** The transaction has its connection. *)
Definition tx_open (h : tx) (v : View) : Prop :=
  match v_txs v !! h with Some (Open _) | Some Aborted => True | _ => False end.

(** What an operation waits for: a lock, or a connection.  BEGIN and a statement outside a
    transaction take one from the pool, which may be exhausted as long as some transaction
    keeps its own. *)
Inductive wait := ForLock (l : lock) | ForConn.

Definition waits_for {X} (o : Op X) (v : View) (w : wait) : Prop :=
  match w with
  | ForLock l =>
    match o with Pg conn s => l ∈ stmt_locks s (seen conn v) /\ locked_by_other conn v l | _ => False end
  | ForConn => match o with Pg None _ | PgBegin => exists h, tx_open h v | _ => False end
  end.

Definition blocked {X} (o : Op X) (v : View) : Prop := exists l, waits_for o v (ForLock l).

(** The value of a Redis key that has not expired. *)
Definition live (v : View) (key : string) : option string :=
  match v_redis v !! key with
  | Some (s, Some e) => if v_clock v <? e then Some s else None
  | Some (s, None) => Some s
  | None => None
  end.

Definition live_expiry (v : View) (key : string) : option time :=
  match v_redis v !! key with
  | Some (_, e) => match live v key with Some _ => e | None => None end
  | None => None
  end.

(** ** Documented behaviour

    [flt] says whether failures may happen: a lost connection, a timeout, a full disk.  A
    failed command has had its effect or not. *)

Definition env_error (e : error) : Prop := exists m, e = ErrLeaf m.

Definition fault {A} (flt : bool) (x : res A) : Prop :=
  flt = true /\ exists e, x = Err e /\ env_error e.

(** A statement outside a transaction commits by itself; in a transaction its writes are
    kept until the commit, and a failure is final. *)
Definition pg_spec {A} (flt : bool) (conn : option tx) (s : sql A) (v : View) (x : res A) (v' : View) : Prop :=
  match conn with
  | None =>
    (exists ord now, is_order ord /\ ~ blocked (Pg None s) v /\
       match stmt_eff ord now s (v_tables v) with
       | Ok (a, ws) => (x = Ok a \/ fault flt x) /\ v' = set_tables (apply_writes ws (v_tables v)) v
       | Err e => x = Err e /\ v' = v
       end)
    \/ (fault flt x /\ v' = v)
  | Some h =>
    match v_txs v !! h with
    | Some (Open ws) =>
      (exists ord now, is_order ord /\ ~ blocked (Pg (Some h) s) v /\
         match stmt_eff ord now s (apply_writes ws (v_tables v)) with
         | Ok (a, ws') =>
           x = Ok a /\
           v' = add_locks h (stmt_locks s (seen (Some h) v)) (set_tx h (Open (ws ++ ws')) v)
         | Err e => x = Err e /\ v' = set_tx h Aborted v
         end)
      \/ (fault flt x /\ v' = set_tx h Aborted v)
    | _ => (exists e, x = Err e /\ env_error e) /\ v' = v
    end
  end.

(** SET with a TTL; [0] is no TTL. *)
Definition expiry (v : View) (ttl : duration) : option time :=
  if ttl =? 0 then None else Some (v_clock v + ttl).

(** The behaviour of an operation at the instant it takes effect. *)
Definition op_at {X} (flt : bool) (o : Op X) (v : View) (x : X) (v' : View) : Prop :=
  match o in Op X return X -> Prop with
  | Now => fun x => x = v_clock v /\ v' = v
  | NewUUID => fun _ => v' = v
  | RandRead n => fun x => v' = v /\ (fault flt x \/ exists s, x = Ok s /\ String.length s = n)
  | PgBegin => fun x =>
    (fault flt x /\ v' = v)
    \/ exists h, x = Ok h /\ v_txs v !! h = None /\ v' = set_tx h (Open []) v
  | PgCommit h => fun x =>
    match v_txs v !! h with
    | Some (Open ws) =>
      ((x = Ok tt \/ fault flt x) /\ v' = publish h ws v) \/ (fault flt x /\ v' = close_tx h v)
    | Some Aborted => (exists e, x = Err e /\ env_error e) /\ v' = close_tx h v
    | _ => (exists e, x = Err e /\ env_error e) /\ v' = v
    end
  | PgRollback h => fun x =>
    match v_txs v !! h with
    | Some (Open _) | Some Aborted => (x = Ok tt \/ fault flt x) /\ v' = close_tx h v
    | _ => (exists e, x = Err e /\ env_error e) /\ v' = v
    end
  | Pg conn s => fun x => pg_spec flt conn s v x v'
  | RedisGet k => fun x =>
    v' = v /\ (fault flt x \/ x = match live v k with Some s => Ok s | None => Err RedisNil end)
  | RedisSet k s ttl => fun x =>
    ((x = Ok tt \/ fault flt x) /\ v' = set_redis k (s, expiry v ttl) v) \/ (fault flt x /\ v' = v)
  | RedisSetNX k s ttl => fun x =>
    match live v k with
    | Some _ => (x = Err RedisNil \/ fault flt x) /\ v' = v
    | None => ((x = Ok "OK" \/ fault flt x) /\ v' = set_redis k (s, expiry v ttl) v)
              \/ (fault flt x /\ v' = v)
    end
  | RedisIncr k => fun x =>
    match ParseInt (default "0" (live v k)) with
    | Ok n =>
      if n =? max_int64 then (exists e, x = Err e /\ env_error e) /\ v' = v
      else ((x = Ok (n + 1) \/ fault flt x) /\
            v' = set_redis k (FormatInt (n + 1), live_expiry v k) v)
           \/ (fault flt x /\ v' = v)
    | Err _ => (exists e, x = Err e /\ env_error e) /\ v' = v
    end
  | RedisExpire k ttl => fun x =>
    ((x = Ok tt \/ fault flt x) /\
     v' = match live v k with Some s => set_redis k (s, Some (v_clock v + ttl)) v | None => v end)
    \/ (fault flt x /\ v' = v)
  | RedisPing => fun x => v' = v /\ (x = Ok tt \/ fault flt x)
  | Sleep d => fun _ => exists c, v_clock v + Z.max 0 d <= c /\ v' = set_clock c v
  | HTTPDo _ _ => fun x => v' = v /\ match x with Ok _ => True | Err e => env_error e end
  end x.

(** Time passes before an operation takes effect. *)
Definition later (v v' : View) : Prop := exists c, v_clock v <= c /\ v' = set_clock c v.

Definition op_spec {X} (flt : bool) (o : Op X) (v : View) (x : X) (v' : View) : Prop :=
  exists v1, later v v1 /\ op_at flt o v1 x v'.

(** A reliable server's behaviour is one an unreliable server may show. *)
Lemma fault_weaken {A} (x : res A) : fault false x -> fault true x.
Proof. by intros [? ?]. Qed.

Lemma pg_spec_weaken {A} conn (s : sql A) v x v' :
  pg_spec false conn s v x v' -> pg_spec true conn s v x v'.
Proof.
  unfold pg_spec. destruct conn as [h|]; [destruct (v_txs v !! h) as [[ws| |]|]; try done|];
    (intros [(ord & now & Ho & Hb & H)|[? ->]]; [left|right; eauto using fault_weaken]);
    exists ord, now; do 2 (split; [done|]); destruct (stmt_eff _ _ _ _) as [[]|];
    intuition eauto using fault_weaken.
Qed.

Lemma op_at_weaken {X} (o : Op X) v x v' : op_at false o v x v' -> op_at true o v x v'.
Proof.
  destruct o; simpl; try apply pg_spec_weaken; repeat case_match;
    intuition eauto using fault_weaken.
Qed.

(** No operation turns the clock back. *)
Lemma op_clock {X} flt (o : Op X) v x v' : op_spec flt o v x v' -> v_clock v <= v_clock v'.
Proof.
  intros (v1 & (c & Hc & ->) & Ho). destruct o; cbn [op_at] in Ho; unfold pg_spec in Ho;
    repeat first [progress des | case_match]; subst; simpl in *; try lia.
Qed.

(** ** Restarts

    The process has stopped, wherever its goroutines were, and was started anew: PostgreSQL
    rolled back the transactions of the lost connections and released their locks; Redis may
    have dropped entries. *)
Record restarted (v v' : View) : Prop := {
  rs_tables : v_tables v' = v_tables v;
  rs_txs h : v_txs v' !! h = (fun _ => Closed) <$> (v_txs v !! h);
  rs_locks : v_locks v' = ∅;
  rs_redis key entry : v_redis v' !! key = Some entry -> v_redis v !! key = Some entry;
  rs_clock : v_clock v <= v_clock v'
}.

(** ** Backends *)

Class Backend : Type := {
  St : Type;
  view : St -> View;
  exec : forall X, Op X -> St -> option (X * St);     (* [None]: waiting *)
  reliable : St -> Prop                               (* no failures from here on *)
}.

Class BackendLaws {B : Backend} : Prop := {
  exec_spec X (o : Op X) s x s' : exec X o s = Some (x, s') -> op_spec true o (view s) x (view s');
  exec_blocked X (o : Op X) s : exec X o s = None -> exists w, waits_for o (view s) w;
  exec_reliable X (o : Op X) s x s' :
    reliable s -> exec X o s = Some (x, s') -> op_spec false o (view s) x (view s') /\ reliable s'
}.

(** ** Events: what a run did that leaves no trace in the view *)

Inductive event :=
| Spawned (child : prog unit)
| Drew (u : uuid)
| Entropy (bytes : string)
| Posted (url body : string) (r : res Z)
| Slept (d : duration).

Definition event_of {X} (o : Op X) (x : X) : list event :=
  match o in Op X return X -> list event with
  | NewUUID => fun u => [Drew u]
  | RandRead _ => fun r => match r with Ok bytes => [Entropy bytes] | Err _ => [] end
  | HTTPDo url body => fun r => [Posted url body r]
  | Sleep d => fun _ => [Slept d]
  | _ => fun _ => []
  end x.

(** ** Running a program: one goroutine, its [go] statements noted *)

Fixpoint run {B : Backend} {A} (p : prog A) (es : list event) (s : St) : option (A * list event * St) :=
  match p with
  | Ret a => Some (a, es, s)
  | Do o k => match exec _ o s with
              | Some (x, s') => run (k x) (es ++ event_of o x) s'
              | None => None
              end
  | Go c k => run k (es ++ [Spawned c]) s
  end.

End World.

#[global] Arguments blocked : simpl never.
#[global] Arguments waits_for : simpl never.
#[global] Arguments op_spec : simpl never.
#[global] Arguments pg_spec : simpl never.
