(* ===== verification/Server.v ===== *)
(** A concrete [Backend]: a deterministic server whose faults, clock, entropy, row orders and
    HTTP answers come from an [Env].  It satisfies [BackendLaws], so the laws are consistent,
    and it executes: the witnesses and examples run the program on it. *)

From S2P Require Export World.

Inductive Fault :=
| FBefore (msg : string)     (* the command fails without effect *)
| FAfter (msg : string).     (* it takes effect and its answer is lost *)

Definition fault_error (f : Fault) : error :=
  match f with FBefore m => ErrLeaf m | FAfter m => ErrLeaf m end.

Section Server.
Context {U : UUIDLib} {P : PgLib}.

(** Everything the outside world decides, by the number of the operation. *)
Record Env := mkEnv {
  env_elapsed : nat -> Z;                 (* time since the previous operation; its absolute value counts *)
  env_uuid : nat -> uuid;
  env_rand : nat -> nat -> Ascii.ascii;
  env_fault : nat -> option Fault;
  env_turn : nat -> nat;                  (* rows are visited from the n-th on *)
  env_conns : nat;                        (* the pool has one connection more *)
  env_http : nat -> Z + string
}.

Record Server := mkServer {
  sv_env : Env;
  sv_tick : nat;
  sv_view : View
}.

Definition turn (n : nat) : Order :=
  fun A l => drop (n mod S (length l)) l ++ take (n mod S (length l)) l.

Fixpoint rand_bytes (f : nat -> Ascii.ascii) (n : nat) : string :=
  match n with O => "" | S n' => String (f n') (rand_bytes f n') end.

Definition locked_by_otherb (conn : option tx) (v : View) (l : lock) : bool :=
  match v_locks v !! l with Some h => negb (bool_decide (conn = Some h)) | None => false end.

Definition blockedb {A} (conn : option tx) (s : sql A) (v : View) : bool :=
  existsb (locked_by_otherb conn v) (stmt_locks s (seen conn v)).

(** All connections are kept by transactions. *)
Definition is_open (t : TxState) : bool := match t with Closed => false | _ => true end.

Definition exhausted (E : Env) (v : View) : bool :=
  (env_conns E <? length (filter (fun kv => is_open kv.2 = true) (map_to_list (v_txs v))))%nat.

Definition tx_closed : error := ErrLeaf "tx is closed".
Definition tx_aborted : error := ErrLeaf "current transaction is aborted".

Definition pg_exec {A} (f : option Fault) (full : bool) (ord : Order) (conn : option tx) (s : sql A) (v : View)
    : option (res A * View) :=
  match conn with
  | None =>
    match f with
    | Some (FBefore m) => Some (Err (ErrLeaf m), v)
    | _ =>
      if full || blockedb None s v then None
      else match stmt_eff ord (v_clock v) s (v_tables v) with
           | Ok (a, ws) => Some (match f with Some e => Err (fault_error e) | None => Ok a end,
                                 set_tables (apply_writes ws (v_tables v)) v)
           | Err e => Some (Err e, v)
           end
    end
  | Some h =>
    match v_txs v !! h with
    | Some (Open ws) =>
      match f with
      | Some e => Some (Err (fault_error e), set_tx h Aborted v)
      | None =>
        if blockedb (Some h) s v then None
        else match stmt_eff ord (v_clock v) s (apply_writes ws (v_tables v)) with
             | Ok (a, ws') =>
               Some (Ok a, add_locks h (stmt_locks s (seen (Some h) v)) (set_tx h (Open (ws ++ ws')) v))
             | Err e => Some (Err e, set_tx h Aborted v)
             end
      end
    | Some Aborted => Some (Err tx_aborted, v)
    | _ => Some (Err tx_closed, v)
    end
  end.

(** A command with effect [v -> v'] and answer [a], under a fault. *)
Definition answer {A} (f : option Fault) (a : A) (v v' : View) : res A * View :=
  match f with
  | None => (Ok a, v')
  | Some (FBefore m) => (Err (ErrLeaf m), v)
  | Some (FAfter m) => (Err (ErrLeaf m), v')
  end.

Definition exec_at {X} (E : Env) (n : nat) (o : Op X) (v : View) : option (X * View) :=
  let f := env_fault E n in
  match o in Op X return option (X * View) with
  | Now => Some (v_clock v, v)
  | NewUUID => Some (env_uuid E n, v)
  | RandRead k => Some (answer f (rand_bytes (env_rand E n) k) v v)
  | PgBegin =>
    match f with
    | Some e => Some (Err (fault_error e), v)
    | None =>
      if exhausted E v then None
      else let h := fresh (dom (v_txs v)) in Some (Ok h, set_tx h (Open []) v)
    end
  | PgCommit h =>
    match v_txs v !! h with
    | Some (Open ws) => Some (answer f tt (close_tx h v) (publish h ws v))
    | Some Aborted => Some (Err tx_aborted, close_tx h v)
    | _ => Some (Err tx_closed, v)
    end
  | PgRollback h =>
    match v_txs v !! h with
    | Some (Open _) | Some Aborted => Some (answer f tt (close_tx h v) (close_tx h v))
    | _ => Some (Err tx_closed, v)
    end
  | Pg conn s => pg_exec f (exhausted E v) (turn (env_turn E n)) conn s v
  | RedisGet k =>
    match f with
    | Some e => Some (Err (fault_error e), v)
    | None => Some (match live v k with Some s => Ok s | None => Err RedisNil end, v)
    end
  | RedisSet k s ttl => Some (answer f tt v (set_redis k (s, expiry v ttl) v))
  | RedisSetNX k s ttl =>
    match live v k with
    | Some _ => Some (match f with Some e => Err (fault_error e) | None => Err RedisNil end, v)
    | None => Some (answer f "OK" v (set_redis k (s, expiry v ttl) v))
    end
  | RedisIncr k =>
    match ParseInt (default "0" (live v k)) with
    | Ok z =>
      if z =? max_int64 then Some (Err (ErrLeaf "ERR increment or decrement would overflow"), v)
      else Some (answer f (z + 1) v (set_redis k (FormatInt (z + 1), live_expiry v k) v))
    | Err _ => Some (Err (ErrLeaf "ERR value is not an integer or out of range"), v)
    end
  | RedisExpire k ttl =>
    Some (answer f tt v
            match live v k with Some s => set_redis k (s, Some (v_clock v + ttl)) v | None => v end)
  | RedisPing => Some (answer f tt v v)
  | Sleep d => Some (tt, set_clock (v_clock v + Z.max 0 d) v)
  | HTTPDo _ _ => Some (match env_http E n with inl z => Ok z | inr m => Err (ErrLeaf m) end, v)
  end.

Definition server_exec X (o : Op X) (w : Server) : option (X * Server) :=
  let v := sv_view w in
  let v1 := set_clock (v_clock v + Z.abs (env_elapsed (sv_env w) (sv_tick w))) v in
  match exec_at (sv_env w) (sv_tick w) o v1 with
  | Some (x, v') => Some (x, mkServer (sv_env w) (S (sv_tick w)) v')
  | None => None
  end.

#[export] Instance ServerBackend : Backend := {
  St := Server;
  view := sv_view;
  exec := server_exec;
  reliable w := forall n, (sv_tick w <= n)%nat -> env_fault (sv_env w) n = None
}.

(** ** The laws *)

Lemma turn_order n : is_order (turn n).
Proof.
  intros A l. unfold turn. rewrite Permutation_app_comm. by rewrite take_drop.
Qed.

Lemma rand_bytes_length f n : String.length (rand_bytes f n) = n.
Proof. induction n; simpl; congruence. Qed.

Lemma locked_by_otherb_spec conn v l : locked_by_otherb conn v l = true <-> locked_by_other conn v l.
Proof.
  unfold locked_by_otherb, locked_by_other. destruct (v_locks v !! l) as [h|].
  - rewrite negb_true_iff, bool_decide_eq_false. split; [by exists h|]. by intros (h' & [= <-] & Hne).
  - split; [done|]. by intros (h' & ? & _).
Qed.

Lemma blockedb_spec {A} conn (s : sql A) v : blockedb conn s v = true <-> blocked (Pg conn s) v.
Proof.
  unfold blockedb, blocked, waits_for. rewrite existsb_exists.
  setoid_rewrite locked_by_otherb_spec. setoid_rewrite <- list_elem_of_In. done.
Qed.

Lemma env_error_leaf m : env_error (ErrLeaf m).
Proof. by exists m. Qed.

Lemma err_leaf {A} m : exists e, Err (ErrLeaf m) = Err (A := A) e /\ env_error e.
Proof. eauto using env_error_leaf. Qed.

Lemma fault_leaf {A} m : fault (A := A) true (Err (ErrLeaf m)).
Proof. split; [done|]. eexists. split; [done|]. apply env_error_leaf. Qed.

Lemma fault_fault {A} f : fault (A := A) true (Err (fault_error f)).
Proof. destruct f; apply fault_leaf. Qed.

Local Hint Resolve turn_order rand_bytes_length env_error_leaf err_leaf fault_leaf fault_fault : core.

Definition may_fault (f : option Fault) : bool := match f with Some _ => true | None => false end.

Lemma pg_exec_spec {A} f full n conn (s : sql A) v x v' :
  pg_exec f full (turn n) conn s v = Some (x, v') -> pg_spec (may_fault f) conn s v x v'.
Proof.
  unfold pg_exec, pg_spec. destruct conn as [h|].
  - destruct (v_txs v !! h) as [[ws| |]|].
    2, 3, 4: intros [= <- <-]; unfold tx_closed, tx_aborted; eauto.
    destruct f as [e|]; simpl.
    + intros [= <- <-]. right. auto.
    + destruct (blockedb (Some h) s v) eqn:Eb; [done|]. intros Hx. left.
      exists (turn n), (v_clock v). split; [done|]. split.
      { rewrite <- blockedb_spec. congruence. }
      destruct (stmt_eff _ _ _ _) as [[a ws']|e]; simplify_eq; auto.
  - destruct f as [[m|m]|]; simpl.
    + intros [= <- <-]. right. auto.
    + destruct (full || blockedb None s v) eqn:Eb; [done|]. apply orb_false_iff in Eb as [_ Eb]. intros Hx. left.
      exists (turn n), (v_clock v). split; [done|]. split.
      { rewrite <- blockedb_spec. congruence. }
      destruct (stmt_eff _ _ _ _) as [[a ws']|e]; simplify_eq; auto.
    + destruct (full || blockedb None s v) eqn:Eb; [done|]. apply orb_false_iff in Eb as [_ Eb]. intros Hx. left.
      exists (turn n), (v_clock v). split; [done|]. split.
      { rewrite <- blockedb_spec. congruence. }
      destruct (stmt_eff _ _ _ _) as [[a ws']|e]; simplify_eq; auto.
Qed.

Lemma exec_at_spec {X} E n (o : Op X) v x v' :
  exec_at E n o v = Some (x, v') -> op_at (may_fault (env_fault E n)) o v x v'.
Proof.
  destruct o; simpl; try apply pg_exec_spec; intros Hx; unfold tx_closed, tx_aborted in *;
    destruct (env_fault E n) as [[m|m]|]; simpl in *; simplify_eq;
    repeat case_match; simplify_eq; simpl; eauto 10 using Z.le_refl.
  right. eexists. split_and!; eauto. apply not_elem_of_dom, is_fresh.
Qed.

Lemma exhausted_open E v : exhausted E v = true -> exists h, tx_open h v.
Proof.
  unfold exhausted. rewrite Nat.ltb_lt. intros Hl.
  destruct (filter _ _) as [|[h t] l] eqn:Hf; [simpl in Hl; lia|]. exists h.
  assert (Hin : (h, t) ∈ filter (fun kv => is_open kv.2 = true) (map_to_list (v_txs v))) by (rewrite Hf; left).
  apply list_elem_of_filter in Hin as [Ho Ht%elem_of_map_to_list]. unfold tx_open. rewrite Ht. by destruct t.
Qed.

Lemma exec_at_waits {X} E n (o : Op X) v : exec_at E n o v = None -> exists w, waits_for o v w.
Proof.
  destruct o as [| | | | | |A conn s| | | | | | | |]; simpl; intros Hx; try (repeat case_match; simplify_eq; fail).
  - exists ForConn. destruct (env_fault E n); [done|]. destruct (exhausted E v) eqn:He; [|done].
    by apply exhausted_open in He.
  - assert (Hb : blockedb conn s v = true -> exists w, waits_for (Pg conn s) v w).
    { intros [l Hl]%blockedb_spec. eauto. }
    unfold pg_exec in Hx. destruct conn as [h|]; [repeat case_match; simplify_eq; by apply Hb|].
    destruct (exhausted E v) eqn:He; [exists ForConn; by apply exhausted_open in He|]. simpl in Hx.
    repeat case_match; simplify_eq; by apply Hb.
Qed.

Lemma later_abs v z : later v (set_clock (v_clock v + Z.abs z) v).
Proof. eexists. split; [|done]. lia. Qed.

#[export] Instance ServerLaws : BackendLaws.
Proof.
  split; intros X o w; simpl; unfold server_exec; intros x; try intros w'; try intros Hr;
    destruct (exec_at _ _ _ _) as [[x1 v1]|] eqn:E; intros; simplify_eq; simpl.
  - eexists. split; [apply later_abs|]. apply exec_at_spec in E.
    destruct (may_fault _); [done|]. by apply op_at_weaken.
  - by apply exec_at_waits in E.
  - split; [|intros n ?; apply Hr; lia].
    eexists. split; [apply later_abs|]. apply exec_at_spec in E. by rewrite Hr in E by done.
Qed.
End Server.
