(* ===== verification/Logic.v ===== *)
(** A program logic for [prog]: what a goroutine may conclude about the world while other
    goroutines run.

    A goroutine owns at most one database transaction.  Between its operations the others may
    change everything but that transaction, its locks and the rows they protect ([calm]),
    within what a [Discipline] allows them; in exchange each of its own operations keeps the
    discipline.  [wp_run] reads a [wp] as a statement on a run of the program alone,
    [Concurrency.pool_safe] as one on any interleaving. *)

From S2P Require Export World.

Section Structure.
Context {U : UUIDLib} {P : PgLib}.

(** ** Rows and the locks that protect them *)

Definition row_at (l : lock) (T : Tables) : option (Wallet + Transaction + IdempotencyLog) :=
  match l with
  | inl (inl id) => inl ∘ inl <$> wallets T !! id
  | inl (inr id) => inl ∘ inr <$> transactions T !! id
  | inr key => inr <$> idempotency_logs T !! key
  end.

Definition write_lock (x : write) : option lock :=
  match x with
  | WWallet w => Some (LWallet (w_ID w))
  | WTransaction t => Some (LTransaction (tx_ID t))
  | WIdempotencyLog l => Some (LKey (il_Key l))
  | WBalance id _ _ => Some (LWallet id)
  | WStatus id _ _ => Some (LTransaction id)
  | _ => None
  end.

Definition begun (h : tx) (v : View) : Prop := is_Some (v_txs v !! h).

(** Uncommitted writes are to locked rows; locks are of open transactions. *)
Record locks_ok (v : View) : Prop := {
  lk_write h ws x l :
    v_txs v !! h = Some (Open ws) -> x ∈ ws -> write_lock x = Some l -> v_locks v !! l = Some h;
  lk_open l h : v_locks v !! l = Some h -> tx_open h v
}.

(** What nobody else touches of the transaction [h]. *)
Record kept (h : tx) (v v' : View) : Prop := {
  kept_tx : v_txs v' !! h = v_txs v !! h;
  kept_lock l : v_locks v' !! l = Some h <-> v_locks v !! l = Some h;
  kept_row l : v_locks v !! l = Some h -> row_at l (v_tables v') = row_at l (v_tables v)
}.

Definition own_kept (own : option tx) (v v' : View) : Prop :=
  match own with Some h => kept h v v' | None => True end.

(** The operations a goroutine that owns [own] may perform. *)
Definition owns {X} (own : option tx) (o : Op X) : Prop :=
  match o with
  | Pg (Some h) _ | PgCommit h | PgRollback h => own = Some h
  | PgBegin => own = None
  | _ => True
  end.

Definition own_after {X} (own : option tx) (o : Op X) (x : X) : option tx :=
  match o in Op X return X -> option tx with
  | PgBegin => fun x => match x with Ok h => Some h | Err _ => own end
  | _ => fun _ => own
  end x.

(** *** Lemmas *)

Lemma kept_refl h v : kept h v v.
Proof. by split. Qed.

Lemma kept_trans h v1 v2 v3 : kept h v1 v2 -> kept h v2 v3 -> kept h v1 v3.
Proof.
  intros [A1 B1 C1] [A2 B2 C2]. split.
  - congruence.
  - intros l. by rewrite B2, B1.
  - intros l Hl. rewrite C2, C1; [done|done|]. by apply B1.
Qed.

Lemma own_kept_refl own v : own_kept own v v.
Proof. destruct own; [apply kept_refl|done]. Qed.

Lemma own_kept_trans own v1 v2 v3 : own_kept own v1 v2 -> own_kept own v2 v3 -> own_kept own v1 v3.
Proof. destruct own; [apply kept_trans|done]. Qed.

(** Changes that leave tables, transactions and locks alone. *)
Lemma kept_same h v v' :
  v_tables v' = v_tables v -> v_txs v' = v_txs v -> v_locks v' = v_locks v -> kept h v v'.
Proof. intros HT Hx Hl. split; by rewrite ?HT, ?Hx, ?Hl. Qed.

Lemma apply_write_row x l T : write_lock x <> Some l -> row_at l (apply_write x T) = row_at l T.
Proof.
  intros Hne. destruct l as [[id|id]|key], x; simpl in *; try done; f_equal;
    rewrite ?lookup_insert_ne, ?lookup_alter_ne; try done; intros E; apply Hne; by rewrite E.
Qed.

Lemma apply_writes_row ws l T :
  (forall x, x ∈ ws -> write_lock x <> Some l) -> row_at l (apply_writes ws T) = row_at l T.
Proof.
  unfold apply_writes. revert T. induction ws as [|x ws IH]; intros T Hne; simpl; [done|].
  rewrite IH by (intros y Hy; apply Hne; by right). apply apply_write_row, Hne. left.
Qed.

Lemma apply_writes_app xs ys T : apply_writes (xs ++ ys) T = apply_writes ys (apply_writes xs T).
Proof. apply fold_left_app. Qed.

Lemma add_locks_lookup h ls v l :
  v_locks (add_locks h ls v) !! l = if decide (l ∈ ls) then Some h else v_locks v !! l.
Proof.
  unfold add_locks. cbn [v_locks]. induction ls as [|l' ls IH]; cbn [foldr].
  - by rewrite decide_False by set_solver.
  - destruct (decide (l' = l)) as [->|Hne].
    + rewrite lookup_insert_eq, decide_True by set_solver. done.
    + rewrite lookup_insert_ne, IH by done.
      destruct (decide (l ∈ ls)); [rewrite decide_True by set_solver|rewrite decide_False by set_solver]; done.
Qed.

Lemma close_locks h v l : v_locks (close_tx h v) !! l = Some h -> False.
Proof. simpl. rewrite map_lookup_filter_Some. intros [_ Hne]. by apply Hne. Qed.

Lemma close_locks_ne h h' v l :
  h' <> h -> v_locks (close_tx h v) !! l = Some h' <-> v_locks v !! l = Some h'.
Proof. intros Hne. simpl. rewrite map_lookup_filter_Some. simpl. tauto. Qed.

(** *** Statements: their errors are the server's, their writes are locked *)

Definition server_error {A} (r : res A) : Prop := forall e, r = Err e -> env_error e.

Lemma se_ok {A} (a : A) : server_error (Ok a).
Proof. done. Qed.
Lemma se_err {A} m : server_error (A := A) (Err (ErrLeaf m)).
Proof. intros e [= <-]. by exists m. Qed.
Lemma se_bind {A B} (r : res A) (f : A -> res B) :
  server_error r -> (forall a, server_error (f a)) -> server_error (result_bind r f).
Proof.
  intros Hr Hf. destruct r; simpl; [done|]. intros e' [= <-]. by apply Hr.
Qed.
Lemma se_map {A B} (r : res A) (f : A -> B) : server_error r -> server_error (result_map f r).
Proof. intros Hr. destruct r; simpl; [done|]. intros e' [= <-]. by apply Hr. Qed.

Ltac se_step :=
  first [apply se_ok | apply se_err | assumption
        | apply se_bind; [|intros ?] | apply se_map
        | progress unfold sql_error, require, bind_error, select
        | case_match].
Ltac se := repeat se_step.

Lemma se_text s : server_error (text s).
Proof. unfold text. se. Qed.
Lemma se_varchar n s : server_error (varchar n s).
Proof. unfold varchar. se. apply se_text. Qed.
Lemma se_decimal z : server_error (decimal_20_2 z).
Proof. unfold decimal_20_2. se. Qed.
Lemma se_integer z : server_error (integer z).
Proof. unfold integer. se. Qed.
Lemma se_jsonb s : server_error (jsonb_col s).
Proof. unfold jsonb_col. se. Qed.
Lemma se_nullable {A B} (col : A -> res B) o :
  (forall a, server_error (col a)) -> server_error (nullable col o).
Proof. intros H. unfold nullable. se. apply H. Qed.
Lemma se_scan z : server_error (scan_int64 z).
Proof. unfold scan_int64. se. Qed.
Lemma se_page {A} a b (l : list A) : server_error (page a b l).
Proof. unfold page. se. Qed.

Lemma se_timestamp z : server_error (to_timestamp z).
Proof. unfold to_timestamp. se. Qed.
Lemma se_test args c : server_error (test_of args c).
Proof. unfold test_of. destruct c as [[] n]; se; first [apply se_text | apply se_timestamp]. Qed.
Lemma se_where args cs : server_error (where_of args cs).
Proof. induction cs; cbn [where_of]; se. apply se_test. Qed.

Lemma stmt_eff_error {A} ord now (s : sql A) T : server_error (stmt_eff ord now s T).
Proof.
  destruct s; simpl;
    unfold store_merchant, store_wallet, store_transaction, store_idempotency_log,
      store_webhook_log, store_audit_log, stats_of, select, bind_error, require;
    repeat first [apply se_text | apply se_varchar | apply se_decimal | apply se_integer
                 | apply se_jsonb | apply se_scan | apply se_page | apply se_where | apply se_nullable; intros ?
                 | se_step].
Qed.

Lemma stmt_eff_locked {A} ord now (s : sql A) T a ws :
  stmt_eff ord now s T = Ok (a, ws) ->
  forall x l, x ∈ ws -> write_lock x = Some l -> l ∈ stmt_locks s T.
Proof.
  intros H x l Hx Hl.
  destruct s; simpl in *;
    unfold store_merchant, store_wallet, store_transaction, store_idempotency_log,
      store_webhook_log, store_audit_log, select, bind_error in H;
    repeat first
      [ match goal with
        | H : result_bind _ _ = Ok _ |- _ => apply result_bind_Ok in H as (? & ? & H)
        end
      | case_match; simplify_eq ];
    simplify_eq; try set_solver;
    try (apply list_elem_of_singleton in Hx; subst x; simpl in *; simplify_eq; try set_solver).
Qed.
(** ** What every operation keeps, whoever performs it *)

Record op_keeps (own : option tx) (v v' : View) : Prop := {
  ok_locked : locks_ok v -> locks_ok v';
  ok_begun h : begun h v -> begun h v';
  ok_clock : v_clock v <= v_clock v';
  ok_kept h : locks_ok v -> begun h v -> own <> Some h -> kept h v v'
}.

Lemma op_keeps_trans own v1 v2 v3 : op_keeps own v1 v2 -> op_keeps own v2 v3 -> op_keeps own v1 v3.
Proof.
  intros [A1 B1 C1 D1] [A2 B2 C2 D2]. split; [auto|auto|lia|]. intros h Hw Hb Hne.
  eapply kept_trans; [by apply D1|]. apply D2; auto.
Qed.

Lemma locks_ok_same v v' : v_txs v' = v_txs v -> v_locks v' = v_locks v -> locks_ok v -> locks_ok v'.
Proof.
  intros Hx Hl [Hw Hg]. split; [by rewrite Hx, Hl|]. intros l h. rewrite Hl. unfold tx_open. rewrite Hx. apply Hg.
Qed.

(** Changes to the clock and to Redis. *)
Lemma op_keeps_same own v v' :
  v_tables v' = v_tables v -> v_txs v' = v_txs v -> v_locks v' = v_locks v -> v_clock v <= v_clock v' ->
  op_keeps own v v'.
Proof.
  intros HT Hx Hl Hc. assert (Hb : forall h, begun h v' <-> begun h v) by (intros h; unfold begun; by rewrite Hx).
  split; try done.
  - by apply locks_ok_same.
  - intros h. by rewrite Hb.
  - intros h _ _ _. by apply kept_same.
Qed.

Lemma locks_ok_idle v : v_txs v = ∅ -> v_locks v = ∅ -> locks_ok v.
Proof. intros Hx Hl. split; [intros h ws x l|intros l h]; by rewrite ?Hx, ?Hl, lookup_empty. Qed.

Lemma op_keeps_refl own v : op_keeps own v v.
Proof. by apply op_keeps_same. Qed.

Lemma begun_set h t v h' : begun h' v -> begun h' (set_tx h t v).
Proof. unfold begun. simpl. rewrite lookup_insert_is_Some'. auto. Qed.

(** Changes to the state of the transaction [h] alone. *)
Lemma op_keeps_tx h t v :
  t <> Closed -> (forall ws x l, t = Open ws -> x ∈ ws -> write_lock x = Some l -> v_locks v !! l = Some h) ->
  op_keeps (Some h) v (set_tx h t v).
Proof.
  intros Hne Ht. split; [|intros h'; apply begun_set|done|].
  - intros [Hw Hg]. split.
    + intros h' ws x l. simpl. destruct (decide (h' = h)) as [->|Hh].
      * rewrite lookup_insert_eq. intros [= ->]. by apply Ht.
      * rewrite lookup_insert_ne by done. apply Hw.
    + intros l h' Hl. specialize (Hg l h' Hl). unfold tx_open in *. simpl. destruct (decide (h' = h)) as [->|Hh].
      * rewrite lookup_insert_eq. by destruct t.
      * by rewrite lookup_insert_ne.
  - intros h' _ _ Hh. split; simpl; try done. rewrite lookup_insert_ne; [done|]. congruence.
Qed.

(** The same for a fresh handle, whoever opens it. *)
Lemma op_keeps_begin own h v : v_txs v !! h = None -> op_keeps own v (set_tx h (Open []) v).
Proof.
  intros Hf. destruct (op_keeps_tx h (Open []) v) as [A B C D]; [done|..].
  { intros ws x l [= <-]. set_solver. }
  split; [done|done|done|]. intros h' Hw Hb _. apply D; [done|done|]. intros [= ->].
  destruct Hb as [? Hb]. congruence.
Qed.

Lemma op_keeps_close h v : op_keeps (Some h) v (close_tx h v).
Proof.
  split; [|intros h'; apply (begun_set h Closed)|done|].
  - intros [Hw Hg]. split.
    + intros h' ws x l. unfold close_tx at 1. cbn [v_txs]. destruct (decide (h' = h)) as [->|Hne].
      * by rewrite lookup_insert_eq.
      * rewrite lookup_insert_ne by done. intros Hx Hin Hl. apply close_locks_ne; [done|]. by eapply Hw.
    + intros l h'. simpl. rewrite map_lookup_filter_Some. intros [Hl Hne]. specialize (Hg l h' Hl). unfold tx_open in *.
      simpl in *. by rewrite lookup_insert_ne.
  - intros h' _ _ Hne. split; [|intros l; apply close_locks_ne; congruence|done].
    simpl. rewrite lookup_insert_ne; [done|]. congruence.
Qed.

(** Committed writes to rows whose locks are free or the writer's. *)
Lemma op_keeps_writes own ws v :
  (forall x l h, locks_ok v -> x ∈ ws -> write_lock x = Some l -> v_locks v !! l = Some h -> own = Some h) ->
  op_keeps own v (set_tables (apply_writes ws (v_tables v)) v).
Proof.
  intros Hl. split; [by intros [Hw Hg]; split|done|done|]. intros h Hw _ Hne. split; [done|done|]. intros l Hh. simpl.
  apply apply_writes_row. intros x Hx Hxl. apply Hne. by eapply Hl.
Qed.

Lemma not_blocked {A} conn (s : sql A) v l h :
  ~ blocked (Pg conn s) v -> l ∈ stmt_locks s (seen conn v) -> v_locks v !! l = Some h -> conn = Some h.
Proof.
  intros Hb Hl Hh. destruct (decide (conn = Some h)) as [|Hne]; [done|].
  destruct Hb. exists l. split; [done|]. by exists h.
Qed.

Lemma op_keeps_locks h ls v :
  tx_open h v -> (forall l h', l ∈ ls -> v_locks v !! l = Some h' -> h' = h) -> op_keeps (Some h) v (add_locks h ls v).
Proof.
  intros Hb Hls. split; [|done|done|].
  - intros [Hw Hg]. split.
    + intros h' ws x l Hx Hin Hl. rewrite add_locks_lookup.
      assert (v_locks v !! l = Some h') as Hh by (by eapply Hw).
      case_decide as Hd; [|done]. f_equal. symmetry. by eapply Hls.
    + intros l h'. rewrite add_locks_lookup. case_decide; [by intros [= <-]|]. apply Hg.
  - intros h' _ _ Hne. split; [done| |done]. intros l. rewrite add_locks_lookup.
    case_decide as Hd; [|done]. split; [congruence|]. intros Hh. apply Hls in Hh; [congruence|done].
Qed.

Lemma set_tx_locks h ls t v : add_locks h ls (set_tx h t v) = set_tx h t (add_locks h ls v).
Proof. done. Qed.

Lemma pg_keeps {A} flt conn (s : sql A) v x v' own :
  pg_spec flt conn s v x v' -> owns own (Pg conn s) -> locks_ok v -> op_keeps own v v'.
Proof.
  intros Hs Hown Hwl. destruct conn as [h|]; simpl in Hown.
  - subst own. unfold pg_spec in Hs.
    destruct (v_txs v !! h) as [[ws| |]|] eqn:Ht;
      [|destruct Hs as [_ ->]; apply op_keeps_refl..].
    destruct Hs as [(ord & now & _ & Hb & Hs)|[_ ->]]; [|by apply op_keeps_tx].
    destruct (stmt_eff _ _ _ _) as [[a ws']|e] eqn:Es; destruct Hs as [_ ->]; [|by apply op_keeps_tx].
    rewrite set_tx_locks. eapply op_keeps_trans.
    + apply (op_keeps_locks h (stmt_locks s (seen (Some h) v))); [unfold tx_open; by rewrite Ht|].
      intros l h' Hl Hh. eapply not_blocked in Hh; [|done|done]. congruence.
    + apply op_keeps_tx; [done|]. intros ws0 y l [= <-] [Hy|Hy]%elem_of_app Hyl; rewrite add_locks_lookup.
      * case_decide; [done|]. by eapply Hwl.
      * rewrite decide_True; [done|]. unfold seen. rewrite Ht. by eapply stmt_eff_locked.
  - destruct Hs as [(ord & now & _ & Hb & Hs)|[_ ->]]; [|apply op_keeps_refl].
    destruct (stmt_eff _ _ _ _) as [[a ws']|e] eqn:Es; destruct Hs as [_ ->]; [|apply op_keeps_refl].
    apply op_keeps_writes. intros y l h _ Hy Hyl Hh.
    by discriminate (not_blocked None s v l h Hb (stmt_eff_locked _ _ _ _ _ _ Es y l Hy Hyl) Hh).
Qed.

Lemma publish_keeps h ws v : v_txs v !! h = Some (Open ws) -> op_keeps (Some h) v (publish h ws v).
Proof.
  intros Ht. unfold publish. eapply op_keeps_trans; [|apply op_keeps_close].
  apply op_keeps_writes. intros x l h' Hw Hx Hl Hh. f_equal.
  assert (v_locks v !! l = Some h) by (by eapply Hw). congruence.
Qed.

Lemma op_at_keeps {X} flt (o : Op X) v x v' own :
  op_at flt o v x v' -> owns own o -> locks_ok v -> op_keeps own v v'.
Proof.
  intros Hs Hown Hwl. destruct o; simpl in *;
    try (by eapply pg_keeps);
    repeat match goal with
           | H : context [match ?d with _ => _ end] |- _ => destruct d eqn:?
           end;
    des; subst; simpl in *; try discriminate;
    try apply op_keeps_refl; try (by apply op_keeps_same); try (apply op_keeps_same; simpl; done || lia); try apply op_keeps_close;
    try (by apply publish_keeps); try (by apply op_keeps_begin).
Qed.
End Structure.

(** ** Disciplines and weakest preconditions *)

Section WP.
Context {U : UUIDLib} {P : PgLib}.

(** An invariant of the shared state, what one operation may do to it ([d_guar]), what the
    others may do meanwhile ([d_rely]) and what that comes to on the tables ([d_tables]); when
    a goroutine may wait for a lock or a connection ([d_waits]) and how it may end ([d_done]). *)
Record Discipline := mkDiscipline {
  d_inv : View -> Prop;
  d_guar : View -> View -> Prop;
  d_rely : View -> View -> Prop;
  d_tables : Tables -> Tables -> Prop;
  d_waits : option tx -> View -> wait -> Prop;
  d_done : option tx -> View -> Prop
}.

(** Waiting is free of rules. *)
Class Patient (D : Discipline) : Prop := patient own v w : d_waits D own v w.

Class DisciplineLaws (D : Discipline) : Prop := {
  guar_inv v v' : d_inv D v -> d_guar D v v' -> d_inv D v';
  guar_same v v' : v_tables v' = v_tables v -> v_redis v' = v_redis v -> d_guar D v v';
  guar_clock v c v' : d_guar D (set_clock c v) v' -> d_guar D v v';
  rely_refl v : d_rely D v v;
  rely_trans v1 v2 v3 : d_rely D v1 v2 -> d_rely D v2 v3 -> d_rely D v1 v3;
  rely_clock v c : v_clock v <= c -> d_rely D v (set_clock c v);
  rely_tables v v' : d_rely D v v' -> d_tables D (v_tables v) (v_tables v');
  done_calm own v v' : d_done D own v -> own_kept own v v' -> d_rely D v v' -> d_done D own v';
  tables_preorder :: PreOrder (d_tables D)
}.

Fixpoint wp {A : Type} (D : Discipline) (flt : bool) (p : prog A)
    (Q : A -> option tx -> list event -> View -> Prop) (own : option tx) (es : list event) (v : View)
    : Prop :=
  match p with
  | Ret a => Q a own es v
  | Do o k =>
    owns own o /\
    forall v1, own_kept own v v1 -> d_rely D v v1 -> locks_ok v1 -> d_inv D v1 ->
      (forall w, waits_for o v1 w -> flt = true /\ d_waits D own v1 w) /\
      forall x v', op_spec flt o v1 x v' ->
        d_guar D v1 v' /\ wp D flt (k x) Q (own_after own o x) (es ++ event_of o x) v'
  | Go c k =>
    wp D true c (fun _ own' _ v' => d_done D own' v') None [] v /\ wp D flt k Q own (es ++ [Spawned c]) v
  end.

Lemma open_set h h' t v : tx_open h (set_tx h' t v) -> tx_open h v \/ h' = h.
Proof. unfold tx_open. simpl. destruct (decide (h' = h)) as [|Hne]; [by right|rewrite lookup_insert_ne by done; by left]. Qed.

Lemma open_close h h' v : tx_open h (close_tx h' v) -> tx_open h v.
Proof.
  unfold tx_open. simpl. destruct (decide (h' = h)) as [->|Hne]; [by rewrite lookup_insert_eq|by rewrite lookup_insert_ne by done].
Qed.

Lemma close_closes h v : ~ tx_open h (close_tx h v).
Proof. unfold tx_open. simpl. rewrite lookup_insert_eq. by intros []. Qed.

Lemma pg_opens {A} flt conn (s : sql A) v x v' h :
  pg_spec flt conn s v x v' -> tx_open h v' -> tx_open h v \/ conn = Some h.
Proof.
  unfold pg_spec. intros Ho Hh. destruct conn as [h'|].
  - destruct (v_txs v !! h') as [[ws| |]|]; [|destruct Ho as [_ ->]; by left..].
    assert (Hset : forall ls t, tx_open h (add_locks h' ls (set_tx h' t v)) -> tx_open h v \/ Some h' = Some h).
    { intros ls t [?| ->]%(open_set h h' t v); auto. }
    destruct Ho as [(ord & now & _ & _ & Ho)|[_ ->]]; [|by apply (Hset [] Aborted)].
    destruct (stmt_eff _ _ _ _) as [[a ws']|]; destruct Ho as [_ ->]; [by eapply Hset|by apply (Hset [] Aborted)].
  - destruct Ho as [(ord & now & _ & _ & Ho)|[_ ->]]; [|by left].
    destruct (stmt_eff _ _ _ _) as [[a ws']|]; destruct Ho as [_ ->]; by left.
Qed.

(** Only BEGIN opens a transaction, for its caller. *)
Lemma op_spec_opens {X} flt (o : Op X) v x v' own h :
  op_spec flt o v x v' -> owns own o -> tx_open h v' -> tx_open h v \/ own_after own o x = Some h.
Proof.
  intros (v1 & (c & _ & ->) & Ho) Hown Hh.
  destruct o as [| | | | | |A conn s| | | | | | | |]; simpl in Ho, Hown;
    try (by repeat case_match; des; subst; auto);
    try (repeat case_match; des; subst; auto; left; by apply open_close in Hh).
  - des; subst; [by left|]. apply open_set in Hh as [?| ->]; [by left|by right].
  - destruct (pg_opens _ _ _ _ _ _ _ Ho Hh) as [?|Hc]; [by left|right]. by subst conn.
Qed.

Lemma op_spec_keeps {X} flt (o : Op X) v x v' own :
  op_spec flt o v x v' -> owns own o -> locks_ok v -> op_keeps own v v'.
Proof.
  intros (v1 & (c & Hc & ->) & Ho) Hown Hwl.
  assert (Hcl : op_keeps own v (set_clock c v)) by (by apply op_keeps_same).
  eapply op_keeps_trans; [exact Hcl|]. eapply op_at_keeps; [exact Ho|done|by apply Hcl].
Qed.

Lemma blocked_clock {X} (o : Op X) c v : blocked o (set_clock c v) <-> blocked o v.
Proof. by destruct o. Qed.

(** A run of the program alone. *)
Lemma wp_run {B : Backend} {BL : BackendLaws} D {DL : DisciplineLaws D} {A} (p : prog A) Q own es s a es' s' :
  wp D true p Q own es (view s) -> locks_ok (view s) -> d_inv D (view s) ->
  run p es s = Some (a, es', s') ->
  (exists own', Q a own' es' (view s')) /\ locks_ok (view s') /\ d_inv D (view s').
Proof.
  revert own es s. induction p as [A a0|A X o k IH|A c IHc k IH]; intros own es s Hw Hwl Hi; simpl in *.
  - intros [= <- <- <-]. eauto.
  - destruct (exec X o s) as [[x s1]|] eqn:E; [|done]. destruct Hw as [Hown Hw].
    destruct (Hw (view s)) as [_ Hstep]; [apply own_kept_refl|apply rely_refl|done|done|].
    apply exec_spec in E. destruct (Hstep _ _ E) as [Hg Hk].
    intros Hr. eapply IH; [exact Hk| | |exact Hr].
    + eapply ok_locked; [by eapply op_spec_keeps|done].
    + by eapply guar_inv.
  - intros Hr. eapply IH; [apply Hw|done|done|exact Hr].
Qed.

(** When nothing fails and nothing is to be waited for, the run ends. *)
Lemma wp_total {B : Backend} {BL : BackendLaws} D {DL : DisciplineLaws D} {A} (p : prog A) Q own es s :
  wp D false p Q own es (view s) -> locks_ok (view s) -> d_inv D (view s) -> reliable s ->
  exists a es' s', run p es s = Some (a, es', s') /\ (exists own', Q a own' es' (view s')) /\
                   locks_ok (view s') /\ d_inv D (view s') /\ reliable s'.
Proof.
  revert own es s. induction p as [A a0|A X o k IH|A c IHc k IH]; intros own es s Hw Hwl Hi Hr; simpl in *.
  - eauto 10.
  - destruct Hw as [Hown Hw].
    destruct (Hw (view s)) as [Hb Hstep]; [apply own_kept_refl|apply rely_refl|done|done|].
    destruct (exec X o s) as [[x s1]|] eqn:E.
    + assert (E' := exec_spec _ _ _ _ _ E). destruct (exec_reliable _ _ _ _ _ Hr E) as [Ho Hr'].
      destruct (Hstep _ _ Ho) as [Hg Hk]. eapply IH; [exact Hk| | |done].
      * eapply ok_locked; [by eapply op_spec_keeps|done].
      * by eapply guar_inv.
    + apply exec_blocked in E as [l Hl]. by destruct (Hb l Hl).
  - eapply IH; [apply Hw|done..].
Qed.

Lemma wp_mono D {A} flt (p : prog A) (Q Q' : A -> option tx -> list event -> View -> Prop) own es v :
  (forall a own es v, Q a own es v -> Q' a own es v) -> wp D flt p Q own es v -> wp D flt p Q' own es v.
Proof.
  intros HQ. revert own es v. induction p as [A a0|A X o k IH|A c IHc k IH]; intros own es v; simpl; auto.
  - intros [Hown Hw]. split; [done|]. intros v1 H1 H2 H3 H4.
    destruct (Hw v1 H1 H2 H3 H4) as [Hb Hs]. split; [done|].
    intros x v' Ho. destruct (Hs x v' Ho). split; [done|]. by eapply IH.
  - intros [Hc Hk]. split; [done|]. by apply (IH _ _ HQ).
Qed.

Lemma wp_and D {A} flt (p : prog A) (Q Q' : A -> option tx -> list event -> View -> Prop) own es v :
  wp D flt p Q own es v -> wp D flt p Q' own es v -> wp D flt p (fun a own es v => Q a own es v /\ Q' a own es v) own es v.
Proof.
  revert own es v. induction p as [A a0|A X o k IH|A c IHc k IH]; intros own es v; simpl; [done|..].
  - intros [Hown Hw] [_ Hw']. split; [done|]. intros v1 H1 H2 H3 H4.
    destruct (Hw v1 H1 H2 H3 H4) as [Hb Hs]. destruct (Hw' v1 H1 H2 H3 H4) as [_ Hs']. split; [done|].
    intros x v' Ho. destruct (Hs x v' Ho) as [Hg Hk]. destruct (Hs' x v' Ho) as [_ Hk']. split; [done|]. by apply IH.
  - intros [Hc Hk] [_ Hk']. split; [done|]. by apply IH.
Qed.

Lemma wp_bind D {A B} flt (p : prog A) (f : A -> prog B) Q own es v :
  wp D flt p (fun a own es v => wp D flt (f a) Q own es v) own es v -> wp D flt (bind p f) Q own es v.
Proof.
  revert own es v. induction p as [A a0|A X o k IH|A c IHc k IH]; intros own es v; simpl; auto.
  - intros [Hown Hw]. split; [done|]. intros v1 H1 H2 H3 H4.
    destruct (Hw v1 H1 H2 H3 H4) as [Hb Hs]. split; [done|].
    intros x v' Ho. destruct (Hs x v' Ho). split; [done|]. by eapply IH.
  - intros [Hc Hk]. split; [done|]. by apply IH.
Qed.
End WP.
