(* ===== verification/Concurrency.v ===== *)
(** Goroutines that run together: a pool of programs on one backend, any of which may perform
    its next operation at any time, while new requests arrive.  A program whose [wp] holds
    under a [Discipline] may be interleaved with any others of the kind: the invariant of the
    discipline holds in every reachable state. *)

From S2P Require Export Logic.

Section Pool.
Context {U : UUIDLib} {P : PgLib} {B : Backend} {BL : BackendLaws}.

Abbreviation pool := (list (prog unit)).

(** [served] says which programs may arrive as new goroutines: the server's requests. *)
Inductive pool_step (served : prog unit -> Prop) : pool * St -> pool * St -> Prop :=
| step_op ps s i X (o : Op X) k x s' :
    ps !! i = Some (Do o k) -> exec X o s = Some (x, s') ->
    pool_step served (ps, s) (<[i := k x]> ps, s')
| step_go ps s i c k :
    ps !! i = Some (Go c k) -> pool_step served (ps, s) (<[i := k]> ps ++ [c], s)
| step_arrive ps s p :
    served p -> pool_step served (ps, s) (ps ++ [p], s).

Context (D : Discipline) {DL : DisciplineLaws D}.

(** What one goroutine does is among what the others expect. *)
Context (guar_rely : forall v v', d_guar D v v' -> v_clock v <= v_clock v' -> d_rely D v v').

Definition ended {A} : A -> option tx -> list event -> View -> Prop := fun _ own _ v => d_done D own v.

Definition safe (own : option tx) (p : prog unit) (v : View) : Prop := exists es, wp D true p ended own es v.

Lemma wp_calm {A} flt (p : prog A) own es v v' :
  wp D flt p ended own es v -> own_kept own v v' -> d_rely D v v' -> wp D flt p ended own es v'.
Proof.
  revert flt own es. induction p as [A a0|A X o k IH|A c IHc k IH]; intros flt own es; simpl.
  - apply done_calm.
  - intros [Hown Hw] Hk Hr. split; [done|]. intros v1 H1 H2 H3 H4.
    apply Hw; [by eapply own_kept_trans|by eapply rely_trans|done|done].
  - intros [Hc Hk] H1 H2. split; [|by apply IH]. by apply (IHc true None []).
Qed.

Lemma safe_calm own p v v' : safe own p v -> own_kept own v v' -> d_rely D v v' -> safe own p v'.
Proof. intros [es Hw] H1 H2. exists es. by eapply wp_calm. Qed.

(** Every goroutine is safe with the transaction it owns; no two own the same; but for
    [stale] ones, all open transactions are theirs. *)
Context (stale : tx -> Prop).

Definition distinct (owners : list (option tx)) : Prop :=
  forall i j h, owners !! i = Some (Some h) -> owners !! j = Some (Some h) -> i = j.

Record owned (owners : list (option tx)) (ps : pool) (v : View) : Prop := {
  ow_length : length owners = length ps;
  ow_safe i p own : ps !! i = Some p -> owners !! i = Some own -> safe own p v;
  ow_begun i h : owners !! i = Some (Some h) -> begun h v;
  ow_distinct : distinct owners;
  ow_open h : tx_open h v -> stale h \/ exists i, owners !! i = Some (Some h)
}.

Record pool_ok (ps : pool) (v : View) : Prop := {
  po_locked : locks_ok v;
  po_inv : d_inv D v;
  po_owned : exists owners, owned owners ps v
}.

Lemma owned_lookup owners ps v i p : owned owners ps v -> ps !! i = Some p -> exists own, owners !! i = Some own.
Proof. intros Hw Hp. apply lookup_lt_is_Some_2. rewrite (ow_length _ _ _ Hw). by eapply lookup_lt_Some. Qed.

Lemma owned_goroutine owners ps v j own : owned owners ps v -> owners !! j = Some own -> exists p, ps !! j = Some p.
Proof. intros Hw Hj. apply lookup_lt_is_Some_2. rewrite <- (ow_length _ _ _ Hw). by eapply lookup_lt_Some. Qed.

(** *** One goroutine's transaction before and after an operation *)

Lemma own_after_other {X} flt (o : Op X) v x v' own h :
  op_spec flt o v x v' -> owns own o -> own_after own o x = Some h ->
  own = Some h \/ (~ begun h v /\ begun h v').
Proof.
  intros (v1 & (c & _ & ->) & Ho) Hown Ha. destruct o; simpl in *; auto.
  destruct Ho as [[[_ (e & -> & _)] _]|(h' & -> & Hf & ->)]; simpl in *; auto.
  simplify_eq. right. unfold begun. simpl. rewrite lookup_insert_eq. split; [|eauto].
  intros [? Hs]. simpl in Hs. congruence.
Qed.

Lemma own_after_own {X} (o : Op X) x h : owns (Some h) o -> own_after (Some h) o x = Some h.
Proof. by destruct o. Qed.

Lemma insert_distinct owners i new :
  distinct owners -> (forall j h, new = Some h -> owners !! j = Some (Some h) -> j = i) -> distinct (<[i := new]> owners).
Proof.
  intros Hdis Hnew a b h [[<- [-> _]]|[Hai Ha]]%list_lookup_insert_Some [[<- [Hb _]]|[Hbi Hb]]%list_lookup_insert_Some.
  - done.
  - symmetry. by eapply Hnew.
  - by eapply Hnew.
  - by eapply Hdis.
Qed.

Section Step.
Context {X : Type} (o : Op X) (x : X) (v v' : View) (own : option tx) (i : nat) (owners : list (option tx)) (ps : pool).
Context (Howned : owned owners ps v) (Hmine : owners !! i = Some own).
Context (Ho : op_spec true o v x v') (Howns : owns own o) (Hwl : locks_ok v).

Lemma step_begun j h : <[i := own_after own o x]> owners !! j = Some (Some h) -> begun h v'.
Proof.
  assert (Hkeep := op_spec_keeps _ _ _ _ _ _ Ho Howns Hwl).
  intros [[<- [Ha _]]|[Hne Hj]]%list_lookup_insert_Some.
  - destruct (own_after_other _ _ _ _ _ _ _ Ho Howns Ha) as [->|[_ ?]]; [|done].
    eapply ok_begun, ow_begun; done.
  - eapply ok_begun, ow_begun; done.
Qed.

Lemma step_distinct : distinct (<[i := own_after own o x]> owners).
Proof.
  apply insert_distinct; [apply Howned|]. intros j h Ha Hj.
  destruct (own_after_other _ _ _ _ _ _ _ Ho Howns Ha) as [->|[Hn _]].
  - by eapply (ow_distinct _ _ _ Howned).
  - destruct Hn. by eapply ow_begun.
Qed.

Lemma step_open h : tx_open h v' -> stale h \/ exists j, <[i := own_after own o x]> owners !! j = Some (Some h).
Proof.
  assert (Hi : own_after own o x = Some h -> exists j, <[i := own_after own o x]> owners !! j = Some (Some h)).
  { intros ->. exists i. by rewrite list_lookup_insert_eq by (by eapply lookup_lt_Some). }
  intros Hh. destruct (op_spec_opens _ _ _ _ _ _ _ Ho Howns Hh) as [Hh'|Ha]; [|by right; apply Hi].
  destruct (ow_open _ _ _ Howned _ Hh') as [|[j Hj]]; [by left|right]. destruct (decide (j = i)) as [->|Hne].
  - apply Hi. assert (own = Some h) as Hown by congruence. rewrite Hown in Howns |- *. by apply own_after_own.
  - exists j. by rewrite list_lookup_insert_ne.
Qed.

(** The others' transactions are left alone. *)
Lemma step_kept j ownj : j <> i -> owners !! j = Some ownj -> own_kept ownj v v'.
Proof.
  intros Hne Hj. destruct ownj as [h|]; [|done]. eapply ok_kept; [by eapply op_spec_keeps|done|by eapply ow_begun|].
  intros ->. destruct Hne. by eapply (ow_distinct _ _ _ Howned).
Qed.
End Step.

Lemma pool_ok_op ps s i X (o : Op X) k x s' :
  pool_ok ps (view s) -> ps !! i = Some (Do o k) -> exec X o s = Some (x, s') ->
  pool_ok (<[i := k x]> ps) (view s') /\ d_rely D (view s) (view s').
Proof.
  intros [Hwl Hi [owners Hw]] Hp E. destruct (owned_lookup _ _ _ _ _ Hw Hp) as [own Hown].
  destruct (ow_safe _ _ _ Hw _ _ _ Hp Hown) as [es [Howns Hstep]].
  destruct (Hstep (view s)) as [_ Hs]; [apply own_kept_refl|apply rely_refl|done|done|]. clear Hstep.
  assert (Ho := exec_spec _ _ _ _ _ E). destruct (Hs _ _ Ho) as [Hg Hk].
  assert (Hkeep := op_spec_keeps _ _ _ _ _ _ Ho Howns Hwl).
  assert (Hr : d_rely D (view s) (view s')) by (apply guar_rely; [done|apply Hkeep]).
  split; [|done]. split; [by apply Hkeep|by eapply guar_inv|].
  exists (<[i := own_after own o x]> owners). split.
  - by rewrite !length_insert, (ow_length _ _ _ Hw).
  - intros j p ownj [[<- [<- _]]|[Hne Hpj]]%list_lookup_insert_Some.
    + rewrite list_lookup_insert_eq by (by eapply lookup_lt_Some). intros [= <-]. by eexists.
    + rewrite list_lookup_insert_ne by done. intros Hoj.
      eapply safe_calm; [by eapply ow_safe|by apply (step_kept o x _ _ own i owners ps Hw Hown Ho Howns Hwl j); [congruence|]|done].
  - by eapply step_begun.
  - by eapply step_distinct.
  - by eapply step_open.
Qed.

Lemma pool_ok_nil v :
  locks_ok v -> d_inv D v -> (forall h, tx_open h v -> stale h) -> pool_ok [] v.
Proof. intros Hwl Hi Hst. split; [done|done|]. exists []. split; [done..|]. intros h Hh. left. by apply Hst. Qed.

(** A new goroutine owns nothing. *)
Lemma pool_ok_new ps v p : pool_ok ps v -> safe None p v -> pool_ok (ps ++ [p]) v.
Proof.
  intros [Hwl Hi [owners Hw]] Hp. split; [done|done|].
  exists (owners ++ [None]). pose proof (ow_length _ _ _ Hw) as Hlen. split.
  - by rewrite !length_app, Hlen.
  - intros i q own Hq Ho. apply lookup_snoc_Some in Hq, Ho.
    destruct Hq as [[Hlt Hq]|[-> <-]], Ho as [[Hlt' Ho]|[Heq <-]]; try lia; [by eapply ow_safe|done].
  - intros i h [[_ Hi']|[_ Hi']]%lookup_snoc_Some; [by eapply ow_begun|done].
  - intros i j h [[_ Ha]|[_ Ha]]%lookup_snoc_Some [[_ Hb]|[_ Hb]]%lookup_snoc_Some; simplify_eq.
    by eapply (ow_distinct _ _ _ Hw).
  - intros h Hh. destruct (ow_open _ _ _ Hw _ Hh) as [|[j Hj]]; [by left|right]. exists j.
    rewrite lookup_app_l; [done|by eapply lookup_lt_Some].
Qed.

Lemma pool_ok_go ps v i c k : pool_ok ps v -> ps !! i = Some (Go c k) -> pool_ok (<[i := k]> ps ++ [c]) v.
Proof.
  intros [Hwl Hi [owners Hw]] Hp. destruct (owned_lookup _ _ _ _ _ Hw Hp) as [own Hown].
  destruct (ow_safe _ _ _ Hw _ _ _ Hp Hown) as [es [Hc Hk]].
  apply pool_ok_new; [|by eexists]. split; [done|done|]. exists owners. split.
  - by rewrite length_insert, (ow_length _ _ _ Hw).
  - intros j p ownj [[<- [<- _]]|[Hne Hpj]]%list_lookup_insert_Some Hoj; [|by eapply ow_safe].
    simplify_eq. by eexists.
  - apply Hw.
  - apply Hw.
  - apply Hw.
Qed.

Theorem pool_safe served ps s ps' s' :
  (forall p v, served p -> locks_ok v -> d_inv D v -> safe None p v) ->
  rtc (pool_step served) (ps, s) (ps', s') ->
  pool_ok ps (view s) ->
  pool_ok ps' (view s') /\ d_rely D (view s) (view s').
Proof.
  intros Hserved Hsteps. remember (ps, s) as a eqn:Ea. remember (ps', s') as b eqn:Eb.
  revert ps s Ea. induction Hsteps as [c|c d e Hstep Hsteps IH]; intros ps s -> Hok.
  - simplify_eq. split; [done|apply rely_refl].
  - inversion Hstep as [ps0 s0 i X o k x s1 Hp E|ps0 s0 i ch k Hp|ps0 s0 p Hp]; simplify_eq.
    + destruct (pool_ok_op _ _ _ _ _ _ _ _ Hok Hp E) as [Hok1 Hr1].
      destruct (IH eq_refl _ _ eq_refl Hok1) as [Hok' Hr]. split; [done|]. by eapply rely_trans.
    + by apply (IH eq_refl _ _ eq_refl), pool_ok_go.
    + apply (IH eq_refl _ _ eq_refl), pool_ok_new; [done|]. by apply Hserved; [|apply Hok..].
Qed.
End Pool.
