(* ===== verification/Ports.v ===== *)
(** Package [ports] (internal/core/ports): the request and answer records of the services,
    and the service interfaces the components promise each other, as classes with their
    laws. *)

From S2P Require Export Logic.

Section Requests.
Context {U : UUIDLib}.

Record PaymentRequest := mkPaymentRequest {
  pr_MerchantID : uuid;
  pr_ReferenceID : string;
  pr_Amount : Z;
  pr_Currency : string;
  pr_Signature : string;
  pr_ClientIP : string;
  pr_ExtraData : option string
}.

Record RefundRequest := mkRefundRequest {
  rr_MerchantID : uuid;
  rr_OriginalReferenceID : string;
  rr_Amount : option Z;          (* None = full refund *)
  rr_Reason : string;
  rr_Signature : string;
  rr_ClientIP : string
}.

Record TopupRequest := mkTopupRequest {
  tr_MerchantID : uuid;
  tr_Amount : Z;
  tr_Currency : string
}.

Record RegisterRequest := mkRegisterRequest {
  rg_Username : string;
  rg_Password : string;
  rg_MerchantName : string;
  rg_WebhookURL : option string
}.

Record RegisterResponse := mkRegisterResponse {
  rs_MerchantID : uuid;
  rs_AccessKey : string;
  rs_SecretKey : string
}.

Record TokenClaims := mkTokenClaims {
  tc_MerchantID : uuid;
  tc_AccessKey : string
}.

Record MerchantProfile := mkMerchantProfile {
  mp_ID : uuid;
  mp_Username : string;
  mp_MerchantName : string;
  mp_WebhookURL : option string;
  mp_Status : string;
  mp_CreatedAt : string
}.

Record RotateKeysResponse := mkRotateKeysResponse {
  rk_AccessKey : string;
  rk_SecretKey : string
}.

Record TransactionListParams := mkTransactionListParams {
  lp_MerchantID : uuid;
  lp_Status : option string;
  lp_Type : option string;
  lp_From : option Z;
  lp_To : option Z;
  lp_Page : Z;
  lp_PageSize : Z
}.
End Requests.

(** [EncryptionService].  What its clients rely on: a ciphertext decrypts to its plaintext,
    is printable, and encrypting does nothing but draw random bytes, whose failure is the
    only way it fails. *)
Class EncryptionService {U : UUIDLib} : Type := {
  Encrypt : string -> prog (res string);
  Decrypt : string -> res string
}.

(** The views between which a goroutine did nothing that anybody can see. *)
Definition calm {U : UUIDLib} {P : PgLib} (D : Discipline) (own : option tx) (v v' : View) : Prop :=
  own_kept own v v' /\ d_rely D v v'.

Class EncryptionLaws {U : UUIDLib} {P : PgLib} {E : EncryptionService} : Prop := {
  Encrypt_wp D {DL : DisciplineLaws D} flt plaintext Q own es v :
    (forall c nonces v', calm D own v v' -> locks_ok v' -> d_inv D v' -> Decrypt c = Ok plaintext ->
                  string_forallb is_lower_hex c = true -> Q (Ok c) own (es ++ nonces) v') ->
    (forall e v', flt = true -> calm D own v v' -> locks_ok v' -> d_inv D v' -> Q (Err e) own es v') ->
    wp D flt (Encrypt plaintext) Q own es v
}.

(** [HashService].  A hash verifies its own password, and fits the column it is kept in. *)
Class HashService {U : UUIDLib} : Type := {
  Hash : string -> prog (res string);
  HashVerify : string -> string -> res bool
}.

Class HashLaws {U : UUIDLib} {P : PgLib} {H : HashService} : Prop := {
  Hash_wp D {DL : DisciplineLaws D} flt password Q own es v :
    (forall h salts v', calm D own v v' -> locks_ok v' -> d_inv D v' -> HashVerify password h = Ok true ->
                  varchar 255 h = Ok h -> Q (Ok h) own (es ++ salts) v') ->
    (forall e v', flt = true -> calm D own v v' -> locks_ok v' -> d_inv D v' -> Q (Err e) own es v') ->
    wp D flt (Hash password) Q own es v
}.

(** [SignatureService].  What verifies is exactly what signing yields. *)
Class SignatureService : Type := {
  Sign : string -> string -> string;
  Verify : string -> string -> string -> bool;
  BuildCanonicalString : string -> string -> Z -> string -> string -> string
}.

Class SignatureLaws {S : SignatureService} : Prop := {
  Verify_spec secretKey payload signature :
    Verify secretKey payload signature = true <-> signature = Sign secretKey payload
}.

(** [TokenService].  [Validate] reads the clock; a token that [Generate] issued is valid until
    it expires, and names the merchant and access key it was issued for. *)
Class TokenService {U : UUIDLib} : Type := {
  Generate : uuid -> string -> prog (res (string * time));
  ValidateAt : time -> string -> res TokenClaims
}.

Definition Validate {U : UUIDLib} {T : TokenService} (tokenString : string) : prog (res TokenClaims) :=
  do now <- op Now ;; Ret (ValidateAt now tokenString).

Definition issued {U : UUIDLib} {T : TokenService} (mid : uuid) (accessKey token : string) (expiry : time) : Prop :=
  (forall now, now < Unix expiry * Second -> ValidateAt now token = Ok (mkTokenClaims mid accessKey)) /\
  (forall now, Unix expiry * Second <= now -> exists e, ValidateAt now token = Err e).

Class TokenLaws {U : UUIDLib} {P : PgLib} {T : TokenService} : Prop := {
  Generate_wp D {DL : DisciplineLaws D} flt mid accessKey Q own es v :
    (forall token expiry v', calm D own v v' -> locks_ok v' -> d_inv D v' ->
       (utf8_valid accessKey = true -> issued mid accessKey token expiry) -> Q (Ok (token, expiry)) own es v') ->
    (forall e v', calm D own v v' -> locks_ok v' -> d_inv D v' -> Q (Err e) own es v') ->
    wp D flt (Generate mid accessKey) Q own es v
}.
