(* ===== verification/Repos.v ===== *)
(** The postgres adapter (internal/adapter/storage/postgres): one Module per repository, one
    Definition per method, sending the statements of [Effects.sql] and wrapping errors as the
    code does; then the rules by which clients reason about a statement. *)

From S2P Require Export Ports.

Section Query.
Context {U : UUIDLib}.

(** [QueryRow(...).Scan(...)]: the first row, or [pgx.ErrNoRows]. *)
Definition query_row {A} (conn : option tx) (s : sql (list A)) : prog (res A) :=
  do r <- op (Pg conn s) ;;
  Ret (match r with
       | Ok (a :: _) => Ok a
       | Ok [] => Err ErrNoRows
       | Err e => Err e
       end).

(** [if errors.Is(err, pgx.ErrNoRows) { return nil, nil }; return nil, fmt.Errorf(what, err)] *)
Definition or_nil {A} (what : string) (r : res A) : res (option A) :=
  match r with
  | Ok a => Ok (Some a)
  | Err err => if is_ErrNoRows err then Ok None else Err (Errorf what err)
  end.

Definition query_opt {A} (what : string) (conn : option tx) (s : sql (list A)) : prog (res (option A)) :=
  do r <- query_row conn s ;; Ret (or_nil what r).

(** [_, err := Exec(...); if err != nil { return fmt.Errorf(what, err) }] *)
Definition exec_stmt (what : string) (conn : option tx) (s : sql Z) : prog (res unit) :=
  try _ <- op (Pg conn s) catch err => fail (Errorf what err) ;;
  ok tt.

(** The same, and no affected row is an error. *)
Definition exec_one (what missing : string) (conn : option tx) (s : sql Z) : prog (res unit) :=
  try n <- op (Pg conn s) catch err => fail (Errorf what err) ;;
  if n =? 0 then fail (ErrLeaf missing) else ok tt.

(** [_, err := Exec(...); return err] *)
Definition exec_raw (conn : option tx) (s : sql Z) : prog (res unit) :=
  try _ <- op (Pg conn s) catch err => fail err ;;
  ok tt.
End Query.

Module MerchantRepo.
Section Methods.
Context {U : UUIDLib}.

Definition Create (m : Merchant) : prog (res unit) :=
  exec_stmt "insert merchant" None (InsertMerchant m).

Definition GetByID (id : uuid) : prog (res (option Merchant)) :=
  query_opt "get merchant by id" None (SelectMerchantByID id).

Definition GetByAccessKey (accessKey : string) : prog (res (option Merchant)) :=
  query_opt "get merchant by access_key" None (SelectMerchantByAccessKey accessKey).

Definition GetByUsername (username : string) : prog (res (option Merchant)) :=
  query_opt "get merchant by username" None (SelectMerchantByUsername username).

Definition Update (m : Merchant) : prog (res unit) :=
  exec_stmt "update merchant" None
    (UpdateMerchant (m_MerchantName m) (m_WebhookURL m) (m_AccessKey m) (m_SecretKeyEnc m)
       (m_Status m) (m_ID m)).
End Methods.
End MerchantRepo.

Module WalletRepo.
Section Methods.
Context {U : UUIDLib}.

Definition Create (w : Wallet) : prog (res unit) :=
  exec_stmt "insert wallet" None (InsertWallet w).

Definition GetByID (id : uuid) : prog (res (option Wallet)) :=
  query_opt "get wallet by id" None (SelectWalletByID id false).

Definition GetByMerchantID (merchantID : uuid) (currency : string) : prog (res (option Wallet)) :=
  query_opt "get wallet by merchant id" None (SelectWalletByMerchant merchantID currency false).

Definition GetByMerchantIDForUpdate (h : tx) (merchantID : uuid) (currency : string)
    : prog (res (option Wallet)) :=
  query_opt "get wallet for update by merchant" (Some h)
    (SelectWalletByMerchant merchantID currency true).

Definition GetByIDForUpdate (h : tx) (id : uuid) : prog (res (option Wallet)) :=
  query_opt "get wallet for update by id" (Some h) (SelectWalletByID id true).

Definition UpdateBalance (h : tx) (walletID : uuid) (encryptedBalance : string) : prog (res unit) :=
  exec_one "update wallet balance" ("wallet not found: " +:+ uuid_String walletID) (Some h)
    (UpdateWalletBalance encryptedBalance walletID).
End Methods.
End WalletRepo.

Module TransactionRepo.
Section Methods.
Context {U : UUIDLib}.

Definition Create (h : tx) (t : Transaction) : prog (res unit) :=
  exec_stmt "insert transaction" (Some h) (InsertTransaction t).

Definition GetByID (id : uuid) : prog (res (option Transaction)) :=
  query_opt "scan transaction" None (SelectTransactionByID id).

Definition GetByReference (merchantID : uuid) (referenceID : string)
    : prog (res (option Transaction)) :=
  query_opt "scan transaction" None (SelectTransactionByReference merchantID referenceID).

Definition UpdateStatus (h : tx) (id : uuid) (status : string) : prog (res unit) :=
  do now <- op Now ;;
  exec_one "update transaction status" ("transaction not found: " +:+ uuid_String id) (Some h)
    (UpdateTransactionStatus status now id).

Definition CheckRefundExists (originalTxID : uuid) : prog (res bool) :=
  try exists_ <- op (Pg None (ExistsRefund originalTxID))
    catch err => fail (Errorf "check refund exists" err) ;;
  ok exists_.

(** The clauses and arguments of [List], numbered by [argIdx] as they are appended. *)
Definition clause (test : column_test) (arg : option sqlval)
    (st : list condition * list sqlval * Z) : list condition * list sqlval * Z :=
  let '(conditions, args, argIdx) := st in
  match arg with
  | Some a => (conditions ++ [(test, argIdx)], args ++ [a], argIdx + 1)
  | None => st
  end.

Definition list_clauses (params : TransactionListParams) : list condition * list sqlval * Z :=
  clause CreatedLe (option_map VInt (lp_To params))
    (clause CreatedGe (option_map VInt (lp_From params))
      (clause TypeEq (option_map VText (lp_Type params))
        (clause StatusEq (option_map VText (lp_Status params))
          (clause MerchantIDEq (Some (VUuid (lp_MerchantID params))) ([], [], 1))))).

Definition List (params : TransactionListParams) : prog (res (list Transaction * Z)) :=
  let '(conditions, args, argIdx) := list_clauses params in
  try total <- op (Pg None (CountTransactions conditions args))
    catch err => fail (Errorf "count transactions" err) ;;
  let offset := mul64 (sub64 (lp_Page params) 1) (lp_PageSize params) in
  let args := args ++ [VInt (lp_PageSize params); VInt offset] in
  try txns <- op (Pg None (SelectTransactions conditions argIdx (argIdx + 1) args))
    catch err => fail (Errorf "list transactions" err) ;;
  ok (txns, total).

Definition GetStats (merchantID : uuid) (periodStart : option Z) : prog (res TransactionStats) :=
  let '(conditions, args, _) :=
    clause CreatedGe (option_map VInt periodStart)
      (clause MerchantIDEq (Some (VUuid merchantID)) ([], [], 1)) in
  try stats <- op (Pg None (SelectStats conditions args))
    catch err => fail (Errorf "get transaction stats" err) ;;
  ok stats.
End Methods.
End TransactionRepo.

Module IdempotencyRepo.
Section Methods.
Context {U : UUIDLib}.

Definition Create (h : tx) (l : IdempotencyLog) : prog (res unit) :=
  exec_stmt "insert idempotency log" (Some h) (InsertIdempotencyLog l).

Definition Get (key : string) : prog (res (option IdempotencyLog)) :=
  query_opt "get idempotency log" None (SelectIdempotencyLog key).
End Methods.
End IdempotencyRepo.

Module WebhookRepo.
Section Methods.
Context {U : UUIDLib}.

Definition Create (l : WebhookDeliveryLog) : prog (res unit) :=
  exec_raw None (InsertWebhookLog l).

(** [log.UpdatedAt = time.Now()] is written through the pointer: the caller's record, which
    is handed back. *)
Definition Update (l : WebhookDeliveryLog) : prog (WebhookDeliveryLog * res unit) :=
  do now <- op Now ;;
  let l := mkWebhookDeliveryLog (wl_ID l) (wl_TransactionID l) (wl_MerchantID l) (wl_WebhookURL l)
             (wl_Payload l) (wl_HTTPStatus l) (wl_Attempt l) (wl_Status l) (wl_NextRetryAt l)
             (wl_LastError l) (wl_CreatedAt l) now in
  do r <- exec_raw None (UpdateWebhookLog l) ;;
  Ret (l, r).

Definition GetByTransactionID (txID : uuid) : prog (res (list WebhookDeliveryLog)) :=
  op (Pg None (SelectWebhookLogs txID)).
End Methods.
End WebhookRepo.

Module AuditRepo.
Section Methods.
Context {U : UUIDLib}.

Definition Create (l : AuditLog) : prog (res unit) := exec_raw None (InsertAuditLog l).
End Methods.
End AuditRepo.

Module Transactor.
Section Methods.
Context {U : UUIDLib}.

Definition Begin : prog (res tx) := op PgBegin.
End Methods.
End Transactor.

Module PgHealth.
Section Methods.
Context {U : UUIDLib}.

Definition Ping : prog (res unit) := op (Pg None SelectOne).
Definition Name : string := "postgresql".
End Methods.
End PgHealth.
