(* ===== verification/RedisStores.v ===== *)
(** The Redis adapter (internal/adapter/storage/redis): the idempotency cache, the nonce
    store and the rate limit counters. *)

From S2P Require Export Ports.

Module IdempotencyCache.
Section Methods.
Context {U : UUIDLib}.

Definition prefix : string := "idempotency:".

Definition Get (key : string) : prog (res (option string)) :=
  do r <- op (RedisGet (prefix +:+ key)) ;;
  match r with
  | Ok val => ok (Some val)
  | Err RedisNil => ok None
  | Err err => fail (Errorf "redis idempotency get" err)
  end.

Definition Set_ (key value : string) (ttl : duration) : prog (res unit) :=
  try _ <- op (RedisSet (prefix +:+ key) value ttl)
    catch err => fail (Errorf "redis idempotency set" err) ;;
  ok tt.
End Methods.
End IdempotencyCache.

Module NonceStore.
Section Methods.
Context {U : UUIDLib}.

Definition prefix : string := "nonce:".

Definition CheckAndSet (merchantID nonce : string) (ttl : duration) : prog (res bool) :=
  let key := prefix +:+ merchantID +:+ ":" +:+ nonce in
  do r <- op (RedisSetNX key "1" ttl) ;;
  match r with
  | Ok result => ok (result =? "OK")%string
  | Err RedisNil => ok false
  | Err err => fail (Errorf "redis nonce check" err)
  end.
End Methods.
End NonceStore.

(** [RateLimitResult] *)
Record RateLimitResult := mkRateLimitResult {
  Allowed : bool;
  Limit : Z;
  Remaining : Z;
  ResetAt : Z
}.

Module RateLimitStore.
Section Methods.
Context {U : UUIDLib}.

Definition prefix : string := "ratelimit:".

(** [int64(window.Seconds())]: whole seconds of a window of [n] seconds. *)
Definition window_seconds (window : duration) : Z := Z.quot window Second.

Definition redis_key (key : string) (windowID : Z) : string :=
  prefix +:+ key +:+ ":" +:+ FormatInt windowID.

Definition Allow (key : string) (limit : Z) (window : duration) : prog (res RateLimitResult) :=
  do now <- op Now ;;
  let windowID := Z.quot (Unix now) (window_seconds window) in
  let redisKey := redis_key key windowID in
  try count <- op (RedisIncr redisKey) catch err => fail (Errorf "redis rate limit incr" err) ;;
  do _ <- (if count =? 1 then do _ <- op (RedisExpire redisKey (add64 window Second)) ;; Ret tt
           else Ret tt) ;;
  let resetAt := mul64 (add64 windowID 1) (window_seconds window) in
  let remaining := sub64 limit count in
  ok (mkRateLimitResult (count <=? limit) limit (if remaining <? 0 then 0 else remaining) resetAt).
End Methods.
End RateLimitStore.

Module RedisHealth.
Section Methods.
Context {U : UUIDLib}.

Definition Ping : prog (res unit) := op RedisPing.
Definition Name : string := "redis".
End Methods.
End RedisHealth.
