(* ===== verification/Rules.v ===== *)
(** Proof rules for the operations the services perform: silent operations, reads, statements
    in a transaction, commit and rollback.  [in_tx] is what a service knows of its open
    transaction: its uncommitted writes, and the rows it has locked. *)

From S2P Require Export Repos RedisStores.

Section Rules.
Context {U : UUIDLib} {P : PgLib}.
Context (D : Discipline) {DL : DisciplineLaws D} (flt : bool).

(** The part of the state an operation starts from and hands on. *)
Definition good (v : View) : Prop := locks_ok v /\ d_inv D v.

Lemma calm_refl own v : calm D own v v.
Proof. split; [apply own_kept_refl|apply rely_refl]. Qed.

Lemma calm_trans own v1 v2 v3 : calm D own v1 v2 -> calm D own v2 v3 -> calm D own v1 v3.
Proof. intros [? ?] [? ?]. split; [by eapply own_kept_trans|by eapply rely_trans]. Qed.

Lemma calm_clock own v c : v_clock v <= c -> calm D own v (set_clock c v).
Proof. split; [destruct own; [by apply kept_same|done]|by apply rely_clock]. Qed.

Lemma calm_tables own v v' : calm D own v v' -> d_tables D (v_tables v) (v_tables v').
Proof. intros [_ ?]. by apply rely_tables. Qed.

Lemma good_clock v c : good v -> v_clock v <= c -> good (set_clock c v).
Proof. intros [? ?] ?. split; [by eapply (locks_ok_same v)|]. eapply guar_inv; [done|]. by apply guar_same. Qed.

(** The general rule of one operation: the goroutine finds a calm view, time passes, the
    operation takes effect. *)
Lemma wp_op {X} (o : Op X) Q own es v :
  owns own o ->
  (forall v1, calm D own v v1 -> good v1 ->
     (forall w, waits_for o v1 w -> flt = true /\ d_waits D own v1 w) /\
     forall x v', op_at flt o v1 x v' ->
       d_guar D v1 v' /\ (good v' -> Q x (own_after own o x) (es ++ event_of o x) v')) ->
  wp D flt (op o) Q own es v.
Proof.
  intros Hown H. simpl. split; [done|]. intros v1 Hk Hr Hwl Hi.
  split; [by apply H|]. intros x v' Hs. pose proof Hs as (v2 & (c & Hc & ->) & Ho).
  destruct (H (set_clock c v1)) as [_ Hstep].
  - by eapply calm_trans; [split|apply calm_clock].
  - by apply good_clock.
  - destruct (Hstep _ _ Ho) as [Hg HQ].
    assert (Hg' : d_guar D v1 (set_clock c v1)) by (by apply guar_same).
    split.
    + by eapply guar_clock.
    + apply HQ. split; [eapply ok_locked; [by eapply op_spec_keeps|done]|].
      eapply guar_inv; [|exact Hg]. by eapply guar_inv.
Qed.

(** Whatever else a program does, it hands on a good view. *)
Lemma wp_good {A : Type} (p : prog A) Q own es v :
  good v -> wp D flt p Q own es v -> wp D flt p (fun a own es v' => Q a own es v' /\ good v') own es v.
Proof.
  intros [Hwl Hi]. revert own es v Hwl Hi.
  induction p as [A a|A X o k IH|A c IHc k IH]; intros own es v Hwl Hi; simpl; [by split|..].
  - intros [Hown Hw]. split; [done|]. intros v1 H1 H2 H3 H4.
    destruct (Hw v1 H1 H2 H3 H4) as [Hb Hs]. split; [done|]. intros x v' Ho.
    destruct (Hs x v' Ho) as [Hg Hk]. split; [done|]. eapply IH; [| |exact Hk].
    + eapply ok_locked; [by eapply op_spec_keeps|done].
    + by eapply guar_inv.
  - intros [Hc Hk]. split; [done|]. by eapply IH.
Qed.

(** *** Silent operations *)

Ltac silent := intros v1 Hc Hg; split; [by intros [] []|]; intros x v'; simpl.

Lemma wp_now Q own es v :
  (forall v', calm D own v v' -> good v' -> Q (v_clock v') own es v') ->
  wp D flt (op Now) Q own es v.
Proof.
  intros HQ. apply wp_op; [done|]. silent. intros [-> ->]. split; [by apply guar_same|].
  rewrite app_nil_r. auto.
Qed.

Lemma wp_uuid Q own es v :
  (forall id v', calm D own v v' -> good v' -> Q id own (es ++ [Drew id]) v') ->
  wp D flt (op NewUUID) Q own es v.
Proof.
  intros HQ. apply wp_op; [done|]. silent. intros ->. split; [by apply guar_same|]. auto.
Qed.

Lemma wp_rand n Q own es v :
  (forall s v', calm D own v v' -> good v' -> String.length s = n -> Q (Ok s) own (es ++ [Entropy s]) v') ->
  (forall e v', flt = true -> env_error e -> calm D own v v' -> good v' -> Q (Err e) own es v') ->
  wp D flt (op (RandRead n)) Q own es v.
Proof.
  intros HQ HE. apply wp_op; [done|]. silent. intros [-> Hx]. split; [by apply guar_same|].
  destruct Hx as [[Hf (e & -> & He)]|(s & -> & Hs)]; rewrite ?app_nil_r; auto.
Qed.

(** *** Reads outside a transaction *)

(** The goroutine may take a connection: it never waits for one, or may do so. *)
Definition may_connect (own : option tx) (v : View) : Prop :=
  forall v1, calm D own v v1 -> good v1 -> (exists h, tx_open h v1) -> flt = true /\ d_waits D own v1 ForConn.

Lemma may_connect_calm own v v' : may_connect own v -> calm D own v v' -> may_connect own v'.
Proof. intros Hm Hc v1 Hc1. apply Hm. by eapply calm_trans. Qed.

Lemma wp_read {A} (s : sql A) Q own es v :
  may_connect own v ->
  (forall T, stmt_locks s T = []) ->
  (forall ord now T a ws, stmt_eff ord now s T = Ok (a, ws) -> ws = []) ->
  (forall ord now a v', is_order ord -> calm D own v v' -> good v' ->
     stmt_eff ord now s (v_tables v') = Ok (a, []) -> Q (Ok a) own es v') ->
  (forall e v', env_error e ->
     flt = true \/ (exists ord now, is_order ord /\ stmt_eff ord now s (v_tables v') = Err e) ->
     calm D own v v' -> good v' -> Q (Err e) own es v') ->
  wp D flt (op (Pg None s)) Q own es v.
Proof.
  intros Hm Hl Hws HQ HE. apply wp_op; [done|]. intros v1 Hc Hg.
  split; [intros [l|]; [intros [Hin _]; rewrite Hl in Hin; by apply not_elem_of_nil in Hin|by apply Hm]|].
  intros x v'. simpl.
  rewrite app_nil_r. intros [(ord & now & Hord & _ & Hs)|[[Hf (e & -> & He)] ->]].
  - destruct (stmt_eff _ _ _ _) as [[a ws]|e] eqn:Es.
    + destruct Hs as [Hx ->]. assert (ws = []) as -> by (by eapply Hws).
      replace (set_tables _ v1) with v1 by (by destruct v1).
      split; [by apply guar_same|]. intros _. destruct Hx as [->|[Hf (e & -> & He)]]; [by eapply HQ|].
      apply HE; auto.
    + destruct Hs as [-> ->]. split; [by apply guar_same|]. intros _. apply HE; [by eapply stmt_eff_error|eauto|done|done].
  - split; [by apply guar_same|]. intros _. apply HE; auto.
Qed.

End Rules.

(** *** Transactions *)

Section Transactions.
Context {U : UUIDLib} {P : PgLib}.
Context (D : Discipline) {DL : DisciplineLaws D} {PD : Patient D} (flt : bool).

(** In the total reading ([flt = false]) the others open no transactions. *)
Context (quiet : flt = false -> forall v v' h, d_rely D v v' -> tx_open h v' -> tx_open h v).

Definition row : Type := option (Wallet + Transaction + IdempotencyLog).

(** [flt = false]: only [own] is open. *)
Definition alone (own : option tx) (v : View) : Prop := flt = false -> forall h, tx_open h v -> own = Some h.

(** An open transaction: its writes and the rows it has locked. *)
Record in_tx (h : tx) (ws : list write) (held : list (lock * row)) (v : View) : Prop := {
  it_open : v_txs v !! h = Some (Open ws);
  it_held : Forall (fun lr => v_locks v !! lr.1 = Some h /\ row_at lr.1 (v_tables v) = lr.2) held;
  it_alone : alone (Some h) v
}.

Lemma alone_rely own v v' : alone own v -> d_rely D v v' -> alone own v'.
Proof. intros Ha Hr Hf h Hh. apply Ha; [done|]. by eapply quiet. Qed.

Lemma alone_connect v : alone None v -> may_connect D flt None v.
Proof.
  intros Ha v1 [_ Hr] _ [h Hh]. split; [|apply patient].
  destruct (Bool.bool_dec flt true) as [|Hf%not_true_is_false]; [done|].
  by discriminate (alone_rely None v v1 Ha Hr Hf h Hh).
Qed.

(** Every lock is the goroutine's own, if it must not wait. *)
Lemma alone_lock own v l h : alone own v -> locks_ok v -> flt = false -> v_locks v !! l = Some h -> own = Some h.
Proof. intros Ha Hl Hf Hh. apply Ha; [done|]. by eapply lk_open. Qed.

Lemma alone_set h t v : alone (Some h) v -> alone (Some h) (set_tx h t v).
Proof. intros Ha Hf h' [Ho| ->]%open_set; [by apply Ha|done]. Qed.

Lemma in_tx_calm h ws held v v' : in_tx h ws held v -> calm D (Some h) v v' -> in_tx h ws held v'.
Proof.
  intros [Ho Hh Ha] [[K1 K2 K3] Hr]. split; [by rewrite K1| |by eapply alone_rely].
  eapply Forall_impl; [exact Hh|].
  intros [l r] [Hl Hx]. simpl in *. split; [by apply K2|]. by rewrite K3.
Qed.

Lemma in_tx_held h ws held v l r :
  in_tx h ws held v -> (l, r) ∈ held -> row_at l (v_tables v) = r.
Proof. intros [_ Hh _] Hin. rewrite Forall_forall in Hh. by apply Hh in Hin as [_ ?]. Qed.

(** The rows a statement locks, as they are when it does. *)
Definition new_held {A} (s : sql A) (ws : list write) (T : Tables) : list (lock * row) :=
  map (fun l => (l, row_at l T)) (stmt_locks s (apply_writes ws T)).

Lemma wp_begin Q es v :
  alone None v ->
  (forall h v', d_tables D (v_tables v) (v_tables v') -> good D v' -> in_tx h [] [] v' ->
     Q (Ok h) (Some h) es v') ->
  (forall e v', flt = true -> env_error e -> calm D None v v' -> good D v' -> Q (Err e) None es v') ->
  wp D flt (op PgBegin) Q None es v.
Proof.
  intros Ha HQ HE. apply wp_op; [done..|]. intros v1 Hc Hg.
  split; [intros [l|]; [by intros []|by apply (alone_connect v)]|]. intros x v'. simpl.
  rewrite app_nil_r. intros [[[Hf (e & -> & He)] ->]|(h & -> & Hh & ->)].
  - split; [by apply guar_same|]. auto.
  - split; [by apply guar_same|]. intros Hg'. apply HQ; [by apply (calm_tables _ _ _ _ Hc)|done|].
    split; simpl; [by rewrite lookup_insert_eq|done|].
    intros Hf h' [Ho| ->]%open_set; [|done]. by discriminate (alone_rely _ _ _ Ha (proj2 Hc) Hf h' Ho).
Qed.

(** A statement of the transaction: it runs on some committed tables [T], where the locked
    rows are as they were, and locks more. *)
Lemma wp_tx_stmt {A} (s : sql A) h ws held Q es v :
  in_tx h ws held v ->
  (forall ord now a ws' v', is_order ord -> good D v' ->
     d_tables D (v_tables v) (v_tables v') ->
     stmt_eff ord now s (apply_writes ws (v_tables v')) = Ok (a, ws') ->
     in_tx h (ws ++ ws') (new_held s ws (v_tables v') ++ held) v' ->
     Q (Ok a) (Some h) es v') ->
  (forall e v', env_error e -> good D v' -> d_tables D (v_tables v) (v_tables v') ->
     Forall (fun lr => row_at lr.1 (v_tables v') = lr.2) held ->
     flt = true \/ (exists ord now, is_order ord /\
                      stmt_eff ord now s (apply_writes ws (v_tables v')) = Err e) ->
     alone (Some h) v' -> Q (Err e) (Some h) es v') ->
  wp D flt (op (Pg (Some h) s)) Q (Some h) es v.
Proof.
  intros Hin HQ HE. apply wp_op; [done..|]. intros v1 Hc Hg.
  pose proof (in_tx_calm _ _ _ _ _ Hin Hc) as Hin1. pose proof Hin1 as [Ho Hheld Hal].
  assert (Hrows : Forall (fun lr => row_at lr.1 (v_tables v1) = lr.2) held)
    by (eapply Forall_impl; [exact Hheld|by intros lr [_ ?]]).
  split.
  { intros [l|]; [|by intros []]. intros (_ & h' & Hl & Hne). split; [|apply patient].
    destruct (Bool.bool_dec flt true) as [|Hf%not_true_is_false]; [done|].
    destruct Hne. by apply (alone_lock _ _ _ _ Hal (proj1 Hg) Hf Hl). }
  intros x v'. simpl. rewrite app_nil_r. unfold pg_spec. rewrite Ho.
  intros [(ord & now & Hord & Hb & Hs)|[[Hf (e & -> & He)] ->]].
  - destruct (stmt_eff _ _ _ _) as [[a ws']|e] eqn:Es; destruct Hs as [-> ->].
    + split; [by apply guar_same|]. intros Hg'.
      apply (HQ ord now a ws'); [done|done|by apply (calm_tables _ _ _ _ Hc)|done|].
      assert (Hseen : seen (Some h) v1 = apply_writes ws (v_tables v1)) by (unfold seen; by rewrite Ho).
      rewrite set_tx_locks, Hseen. split.
      * unfold set_tx. cbn [v_txs]. by rewrite lookup_insert_eq.
      * change (v_tables (set_tx _ _ _)) with (v_tables v1).
        change (v_locks (set_tx ?a ?b ?c)) with (v_locks c).
        apply Forall_app. split.
        -- unfold new_held. apply Forall_forall. intros lr Hlr.
           apply list_elem_of_In, in_map_iff in Hlr as (l & <- & Hl%list_elem_of_In).
           cbn [fst snd]. by rewrite add_locks_lookup, decide_True.
        -- eapply Forall_impl; [exact Hheld|]. intros lr [Hl Hr]. split; [|done].
           rewrite add_locks_lookup. by case_decide.
      * by apply (alone_set h _ v1).
    + split; [by apply guar_same|]. intros Hg'.
      apply HE; [by eapply stmt_eff_error|done|by apply (calm_tables _ _ _ _ Hc)|done|eauto|by apply alone_set].
  - split; [by apply guar_same|]. intros Hg'.
    apply HE; [done|done|by apply (calm_tables _ _ _ _ Hc)|done|by left|by apply alone_set].
Qed.

(** Commit: all the writes, or none, and then an error. *)
Lemma wp_commit h ws held Q es v :
  in_tx h ws held v ->
  (forall v1, in_tx h ws held v1 -> good D v1 -> d_tables D (v_tables v) (v_tables v1) ->
     d_guar D v1 (publish h ws v1) /\
     (good D (publish h ws v1) -> Q (Ok tt) (Some h) es (publish h ws v1)) /\
     (forall e, flt = true -> good D (publish h ws v1) -> Q (Err e) (Some h) es (publish h ws v1))) ->
  (forall e v', flt = true -> good D v' -> d_tables D (v_tables v) (v_tables v') -> Q (Err e) (Some h) es v') ->
  wp D flt (op (PgCommit h)) Q (Some h) es v.
Proof.
  intros Hin HQ HE. apply wp_op; [done..|]. intros v1 Hc Hg. split; [by intros [] []|]. intros x v'.
  pose proof (in_tx_calm _ _ _ _ _ Hin Hc) as Hin1. pose proof (calm_tables _ _ _ _ Hc) as Ht.
  destruct (HQ v1 Hin1 Hg Ht) as (Hgu & Hok & Herr).
  simpl. rewrite app_nil_r, (it_open _ _ _ _ Hin1).
  intros [[[->|[Hf (e & -> & He)]] ->]|[[Hf (e & -> & He)] ->]].
  - split; [done|]. auto.
  - split; [done|]. auto.
  - split; [by apply guar_same|]. auto.
Qed.

Lemma wp_rollback h Q es v :
  (forall x v', good D v' -> d_tables D (v_tables v) (v_tables v') -> Q x (Some h) es v') ->
  wp D flt (op (PgRollback h)) Q (Some h) es v.
Proof.
  intros HQ. apply wp_op; [done..|]. intros v1 Hc Hg. split; [by intros [] []|]. intros x v'.
  pose proof (calm_tables _ _ _ _ Hc) as Ht. simpl. rewrite app_nil_r.
  destruct (v_txs v1 !! h) as [[ws| |]|]; intros [_ ->];
    (split; [by apply guar_same|]); intros Hg'; by apply HQ.
Qed.

(** [defer f()]: whatever the body returns, [f] runs next. *)
Lemma wp_defer {A C} (f : prog C) (body : prog A) Q own es v :
  wp D flt body (fun a own es v => wp D flt f (fun _ own es v => Q a own es v) own es v) own es v ->
  wp D flt (defer f body) Q own es v.
Proof.
  intros Hw. unfold defer. apply wp_bind. eapply wp_mono; [|exact Hw].
  intros a own' es' v' Hf. apply wp_bind. eapply wp_mono; [|exact Hf]. done.
Qed.
End Transactions.

(** ** The repositories' query helpers *)

Section Queries.
Context {U : UUIDLib} {P : PgLib}.
Context (D : Discipline) {DL : DisciplineLaws D} {PD : Patient D} (flt : bool).
Context (quiet : flt = false -> forall v v' h, d_rely D v v' -> tx_open h v' -> tx_open h v).

Lemma env_error_not_no_rows e : env_error e -> is_ErrNoRows e = false.
Proof. by intros [m ->]. Qed.

(** [QueryRow] outside a transaction. *)
Lemma wp_query_opt {A} what (s : sql (list A)) Q own es v :
  may_connect D flt own v ->
  (forall T, stmt_locks s T = []) ->
  (forall ord now T a ws, stmt_eff ord now s T = Ok (a, ws) -> ws = []) ->
  (forall ord now l v', is_order ord -> calm D own v v' -> good D v' ->
     stmt_eff ord now s (v_tables v') = Ok (l, []) -> Q (Ok (head l)) own es v') ->
  (forall e v', env_error e ->
     flt = true \/ (exists ord now, is_order ord /\ stmt_eff ord now s (v_tables v') = Err e) ->
     calm D own v v' -> good D v' -> Q (Err (Errorf what e)) own es v') ->
  wp D flt (query_opt what None s) Q own es v.
Proof.
  intros Hm Hl Hws HQ HE. unfold query_opt, query_row. do 2 apply wp_bind. apply wp_read; [done..| |].
  - intros ord now l v' Hord Hc Hg Hs. specialize (HQ ord now l v' Hord Hc Hg Hs).
    destruct l as [|a l]; exact HQ.
  - intros e v' He Hx Hc Hg. simpl. rewrite (env_error_not_no_rows _ He). by apply HE.
Qed.

(** [QueryRow] in a transaction. *)
Lemma wp_query_opt_tx {A} what (s : sql (list A)) h ws held Q es v :
  in_tx flt h ws held v ->
  (forall ord now l ws' v', is_order ord -> good D v' -> d_tables D (v_tables v) (v_tables v') ->
     stmt_eff ord now s (apply_writes ws (v_tables v')) = Ok (l, ws') ->
     in_tx flt h (ws ++ ws') (new_held s ws (v_tables v') ++ held) v' ->
     Q (Ok (head l)) (Some h) es v') ->
  (forall e v', good D v' -> d_tables D (v_tables v) (v_tables v') ->
     flt = true \/ (exists ord now, is_order ord /\
                      stmt_eff ord now s (apply_writes ws (v_tables v')) = Err e) ->
     Q (Err (Errorf what e)) (Some h) es v') ->
  wp D flt (query_opt what (Some h) s) Q (Some h) es v.
Proof.
  intros Hin HQ HE. unfold query_opt, query_row. do 2 apply wp_bind.
  eapply wp_tx_stmt; [done|done|done|exact Hin| |].
  - intros ord now l ws' v' Hord Hg Ht Hs Hin'. specialize (HQ ord now l ws' v' Hord Hg Ht Hs Hin').
    destruct l as [|a l]; exact HQ.
  - intros e v' He Hg Ht _ Hx _. simpl. rewrite (env_error_not_no_rows _ He). by apply HE.
Qed.

(** [Exec] in a transaction, where no affected row is no error ... *)
Lemma wp_exec_stmt_tx what (s : sql Z) h ws held Q es v :
  in_tx flt h ws held v ->
  (forall ord now n ws' v', is_order ord -> good D v' -> d_tables D (v_tables v) (v_tables v') ->
     stmt_eff ord now s (apply_writes ws (v_tables v')) = Ok (n, ws') ->
     in_tx flt h (ws ++ ws') (new_held s ws (v_tables v') ++ held) v' ->
     Q (Ok tt) (Some h) es v') ->
  (forall e v', good D v' -> d_tables D (v_tables v) (v_tables v') ->
     Forall (fun lr => row_at lr.1 (v_tables v') = lr.2) held ->
     flt = true \/ (exists ord now, is_order ord /\
                      stmt_eff ord now s (apply_writes ws (v_tables v')) = Err e) ->
     Q (Err (Errorf what e)) (Some h) es v') ->
  wp D flt (exec_stmt what (Some h) s) Q (Some h) es v.
Proof.
  intros Hin HQ HE. unfold exec_stmt. apply wp_bind.
  eapply wp_tx_stmt; [done|done|done|exact Hin| |].
  - intros ord now n ws' v' Hord Hg Ht Hs Hin'. by eapply HQ.
  - intros e v' He Hg Ht Hr Hx _. by apply HE.
Qed.

(** ... and where it is. *)
Lemma wp_exec_one_tx what missing (s : sql Z) h ws held Q es v :
  in_tx flt h ws held v ->
  (forall ord now n ws' v', is_order ord -> good D v' -> d_tables D (v_tables v) (v_tables v') ->
     stmt_eff ord now s (apply_writes ws (v_tables v')) = Ok (n, ws') -> n <> 0 ->
     in_tx flt h (ws ++ ws') (new_held s ws (v_tables v') ++ held) v' ->
     Q (Ok tt) (Some h) es v') ->
  (forall e v', good D v' -> d_tables D (v_tables v) (v_tables v') ->
     Forall (fun lr => row_at lr.1 (v_tables v') = lr.2) held ->
     flt = true \/ (exists ord now, is_order ord /\
                      ((exists e, stmt_eff ord now s (apply_writes ws (v_tables v')) = Err e) \/
                       exists ws', stmt_eff ord now s (apply_writes ws (v_tables v')) = Ok (0, ws'))) ->
     Q (Err e) (Some h) es v') ->
  wp D flt (exec_one what missing (Some h) s) Q (Some h) es v.
Proof.
  intros Hin HQ HE. unfold exec_one. apply wp_bind.
  eapply wp_tx_stmt; [done|done|done|exact Hin| |].
  - intros ord now n ws' v' Hord Hg Ht Hs Hin'. destruct (n =? 0) eqn:En; bool_prop; [subst n|by eapply HQ].
    apply HE; [done|done| |by eauto 10].
    destruct Hin' as [_ Hh _]. apply Forall_app in Hh as [_ Hh].
    eapply Forall_impl; [exact Hh|]. by intros lr [_ ?].
  - intros e v' He Hg Ht Hr [Hx|(ord & now & Hord & Hx)] _; simpl; (apply HE; [done|done|done|]); [by left|].
    right. eauto 10.
Qed.

(** *** Redis: reads and best-effort writes *)

Lemma wp_cache_get key Q own es v :
  (forall v', calm D own v v' -> good D v' ->
     forall s e, v_redis v' !! (IdempotencyCache.prefix +:+ key) = Some (s, e) -> Q (Ok (Some s)) own es v') ->
  (forall v', calm D own v v' -> good D v' -> Q (Ok None) own es v') ->
  (forall e v', flt = true -> calm D own v v' -> good D v' -> Q (Err e) own es v') ->
  wp D flt (IdempotencyCache.Get key) Q own es v.
Proof.
  intros HS HN HE. unfold IdempotencyCache.Get. apply wp_bind. apply wp_op; [done..|].
  intros v1 Hc Hg. split; [by intros [] []|]. intros x v'. simpl. intros [-> Hx].
  split; [by apply guar_same|]. intros _. rewrite app_nil_r.
  destruct Hx as [ [Hf (e & -> & He)] | -> ]; [destruct He as [m ->]; by apply HE|].
  unfold live. destruct (v_redis v1 !! _) as [[s [e|]]|] eqn:Hr; [|by eapply HS|by apply HN].
  destruct (v_clock v1 <? e); [by eapply HS|by apply HN].
Qed.

Lemma wp_cache_set key value ttl Q own es v :
  (forall v1, calm D own v v1 -> good D v1 -> forall e, 
     d_guar D v1 (set_redis (IdempotencyCache.prefix +:+ key) (value, e) v1)) ->
  (forall x v', good D v' -> d_tables D (v_tables v) (v_tables v') -> Q x own es v') ->
  wp D flt (IdempotencyCache.Set_ key value ttl) Q own es v.
Proof.
  intros HG HQ. unfold IdempotencyCache.Set_. apply wp_bind. apply wp_op; [done..|].
  intros v1 Hc Hg. split; [by intros [] []|]. intros x v'. pose proof (calm_tables _ _ _ _ Hc) as Ht.
  simpl. rewrite app_nil_r. intros [[Hx ->]|[Hx ->]].
  - split; [by apply HG|]. intros Hg'. destruct x; by apply HQ.
  - split; [by apply guar_same|]. intros Hg'. destruct x; by apply HQ.
Qed.
End Queries.
