(* ===== verification/Solo.v ===== *)
(** One goroutine at a time: the discipline under which nothing but time happens between the
    operations of a program, for statements about a request that runs alone. *)

From S2P Require Export Rules.

Section Solo.
Context {U : UUIDLib} {P : PgLib}.

Definition solo : Discipline := mkDiscipline (fun _ => True) (fun _ _ => True) later eq (fun _ _ _ => True) (fun _ _ => True).

#[export] Instance solo_patient : Patient solo.
Proof. done. Qed.

#[export] Instance solo_laws : DisciplineLaws solo.
Proof.
  split; simpl; try done.
  - intros v. exists (v_clock v). split; [lia|]. by destruct v.
  - intros v1 v2 v3 (c & Hc & ->) (c' & Hc' & ->). exists c'. split; [simpl in *; lia|done].
  - intros v c Hc. by exists c.
  - intros v v' (c & _ & ->). done.
  - apply _.
Qed.

(** Between operations the view stays as it is, but for the clock. *)
Lemma calm_solo own v v' : calm solo own v v' -> later v v'.
Proof. by intros [_ ?]. Qed.

Context (flt : bool).

(** The clock does not run backwards. *)
Lemma wp_clock {A} (p : prog A) Q own es v t :
  t <= v_clock v -> wp solo flt p Q own es v -> wp solo flt p (fun a own es v' => Q a own es v' /\ t <= v_clock v') own es v.
Proof.
  revert own es v. induction p as [A a0|A X o k IH|A c _ k IH]; intros own es v Ht; simpl; [done|..].
  - intros [Hown Hw]. split; [done|]. intros v1 H1 (c & Hc & ->) Hl H4.
    destruct (Hw _ H1 (ex_intro _ c (conj Hc eq_refl)) Hl H4) as [Hb Hs]. split; [done|].
    intros x v' Ho. destruct (Hs x v' Ho) as [Hg Hk]. split; [done|]. apply IH; [|done].
    pose proof (ok_clock _ _ _ (op_spec_keeps _ _ _ _ _ _ Ho Hown Hl)) as Hk'. simpl in Hk'. lia.
  - intros [Hc Hk]. split; [done|]. by apply IH.
Qed.

(** The rule of one operation. *)
Lemma wp_solo {X} (o : Op X) Q own es v :
  owns own o -> (flt = false -> locks_ok v -> forall w, ~ waits_for o v w) ->
  (forall c x v', v_clock v <= c -> op_at flt o (set_clock c v) x v' ->
     Q x (own_after own o x) (es ++ event_of o x) v') ->
  wp solo flt (op o) Q own es v.
Proof.
  intros Hown Hb HQ. split; [done|]. intros v1 _ (c1 & Hc1 & ->) Hl _.
  apply (locks_ok_same (set_clock c1 v) v) in Hl; [|done..].
  split; [intros w Hw; split; [|done]; destruct flt; [done|]; by destruct (Hb eq_refl Hl w)|]. intros x v' (v2 & (c2 & Hc2 & ->) & Ho).
  split; [done|]. apply (HQ c2); [simpl in Hc2; lia|done].
Qed.

(** No transaction is open, if nothing is to wait. *)
Definition free (v : View) : Prop := flt = false -> forall h, ~ tx_open h v.

Lemma free_no_wait {A} (s : sql A) v : free v -> flt = false -> locks_ok v -> forall w, ~ waits_for (Pg None s) v w.
Proof.
  intros Hf Hfl Hl [l|]; [intros (_ & h & Hh & _)|intros [h Hh]]; apply (Hf Hfl h); [by eapply lk_open|done].
Qed.

(** A statement outside a transaction: done, done with its answer lost, refused, or not done. *)
Lemma wp_stmt {A} (s : sql A) Q own es v :
  free v ->
  (forall ord now c a ws, is_order ord -> v_clock v <= c -> stmt_eff ord now s (v_tables v) = Ok (a, ws) ->
     Q (Ok a) own es (set_tables (apply_writes ws (v_tables v)) (set_clock c v)) /\
     (flt = true -> forall e, env_error e -> Q (Err e) own es (set_tables (apply_writes ws (v_tables v)) (set_clock c v)))) ->
  (forall e c, v_clock v <= c -> env_error e ->
     flt = true \/ (exists ord now, is_order ord /\ stmt_eff ord now s (v_tables v) = Err e) ->
     Q (Err e) own es (set_clock c v)) ->
  wp solo flt (op (Pg None s)) Q own es v.
Proof.
  intros Hf HOk HErr. apply wp_solo; [done|by apply free_no_wait|].
  intros c x v' Hc. simpl. rewrite app_nil_r. intros [(ord & now & Hord & _ & Hs)|[[Hfl (e & -> & He)] ->]].
  - simpl in Hs. destruct (stmt_eff ord now s (v_tables v)) as [[a ws]|e] eqn:Es.
    + destruct (HOk ord now c a ws Hord Hc Es) as [H1 H2]. destruct Hs as [[->|[Hfl (e & -> & He)]] ->]; [done|by apply H2].
    + destruct Hs as [-> ->]. apply HErr; [done|by eapply stmt_eff_error|eauto].
  - apply HErr; auto.
Qed.

Lemma wp_solo_now Q own es v :
  (forall c, v_clock v <= c -> Q c own es (set_clock c v)) -> wp solo flt (op Now) Q own es v.
Proof. intros HQ. apply wp_solo; [done|by intros _ _ [] []|]. intros c x v' Hc [-> ->]. simpl. rewrite app_nil_r. auto. Qed.

Lemma wp_solo_uuid Q own es v :
  (forall c id, v_clock v <= c -> Q id own (es ++ [Drew id]) (set_clock c v)) -> wp solo flt (op NewUUID) Q own es v.
Proof. intros HQ. apply wp_solo; [done|by intros _ _ [] []|]. intros c x v' Hc ->. by apply HQ. Qed.

Lemma wp_solo_rand n Q own es v :
  (forall c s, v_clock v <= c -> String.length s = n -> Q (Ok s) own (es ++ [Entropy s]) (set_clock c v)) ->
  (forall c e, v_clock v <= c -> flt = true -> env_error e -> Q (Err e) own es (set_clock c v)) ->
  wp solo flt (op (RandRead n)) Q own es v.
Proof.
  intros HQ HE. apply wp_solo; [done|by intros _ _ [] []|]. intros c x v' Hc [-> Hx]. simpl.
  destruct Hx as [[Hf (e & -> & He)]|(s & -> & Hs)]; rewrite ?app_nil_r; auto.
Qed.
End Solo.

(** ** From a [wp] to the runs of a backend *)

Section Runs.
Context {U : UUIDLib} {P : PgLib} {B : Backend} {BL : BackendLaws}.

Lemma solo_run {A} (p : prog A) Q es s r es' s' :
  wp solo true p Q None es (view s) -> locks_ok (view s) -> run p es s = Some (r, es', s') ->
  (exists own, Q r own es' (view s')) /\ locks_ok (view s').
Proof.
  intros Hw Hwl Hr. destruct (wp_run solo p Q None es s r es' s' Hw Hwl I Hr) as (H1 & H2 & _). done.
Qed.

(** Without failures and waiting a program runs to its end, and both readings hold of it. *)
Lemma solo_total {A} (p : prog A) Q es s :
  wp solo false p Q None es (view s) -> locks_ok (view s) -> reliable s ->
  exists r es' s', run p es s = Some (r, es', s') /\ (exists own, Q r own es' (view s')) /\
                   locks_ok (view s') /\ reliable s'.
Proof.
  intros Hw Hwl Hr. destruct (wp_total solo p Q None es s Hw Hwl I Hr) as (r & es' & s' & H1 & H2 & H3 & _ & H4).
  exists r, es', s'. done.
Qed.

Lemma run_bind {A C} (p : prog A) (f : A -> prog C) es s :
  run (bind p f) es s = match run p es s with Some (a, es', s') => run (f a) es' s' | None => None end.
Proof.
  revert es s. induction p as [A a|A X o k IH|A c _ k IH]; intros es s; simpl; [done|..|done].
  destruct (exec X o s) as [[x s']|]; [apply IH|done].
Qed.
End Runs.
