(* ===== verification/Gin.v ===== *)
(** What the handlers use of gin and net/http: the request, the context that travels through a
    handler chain, and the answer.  A handler is a function that takes what [c.Next()] would
    run, and a context, and yields the context after the request; a handler that aborts does
    not run the rest. *)

From S2P Require Export Ports.

(** A request body: the bytes that can be read, then the end or an error. *)
Record Reader := mkReader {
  rd_Bytes : string;
  rd_Error : option error
}.

Definition ReadAll (r : Reader) : res string :=
  match rd_Error r with Some e => Err e | None => Ok (rd_Bytes r) end.

(** [http.MaxBytesReader] *)
Definition MaxBytesReader (maxBytes : Z) (r : Reader) : Reader :=
  if maxBytes <? Z.of_nat (String.length (rd_Bytes r))
  then mkReader (str_take (Z.to_nat maxBytes) (rd_Bytes r)) (Some (ErrLeaf "http: request body too large"))
  else r.

(** [Header] yields the value of a header, empty when it is missing; [Query] the first value
    of a query parameter; [ClientIP] is what gin takes for the client's address. *)
Record Request := mkRequest {
  rq_Method : string;
  rq_Path : string;
  rq_Header : string -> string;
  rq_Query : string -> option string;
  rq_ClientIP : string;
  rq_Body : Reader
}.

Inductive Content :=
| JSON (body : json)
| Data (contentType body : string).

(** The answer a handler writes. *)
Record Answer := mkAnswer { an_Status : Z; an_Content : Content }.

Section Context_.
Context {U : UUIDLib}.

(** [gin.Context]: the request, the keys the middleware sets, the headers and the answer
    written so far. *)
Record Ctx := mkCtx {
  c_Request : Request;
  c_MerchantID : option uuid;
  c_AccessKey : option string;
  c_Merchant : option Merchant;
  c_Headers : list (string * string);
  c_Answer : option Answer
}.

Definition HandlerFunc : Type := (Ctx -> prog Ctx) -> Ctx -> prog Ctx.

(** A handler that ends its chain. *)
Definition final (h : Ctx -> prog Ctx) : HandlerFunc := fun _ => h.

Definition new_Ctx (r : Request) : Ctx := mkCtx r None None None [] None.

Definition set_Request (r : Request) (c : Ctx) : Ctx :=
  mkCtx r (c_MerchantID c) (c_AccessKey c) (c_Merchant c) (c_Headers c) (c_Answer c).
Definition set_Body (b : Reader) (c : Ctx) : Ctx :=
  let r := c_Request c in
  set_Request (mkRequest (rq_Method r) (rq_Path r) (rq_Header r) (rq_Query r) (rq_ClientIP r) b) c.
Definition set_MerchantID (id : uuid) (c : Ctx) : Ctx :=
  mkCtx (c_Request c) (Some id) (c_AccessKey c) (c_Merchant c) (c_Headers c) (c_Answer c).
Definition set_AccessKey (k : string) (c : Ctx) : Ctx :=
  mkCtx (c_Request c) (c_MerchantID c) (Some k) (c_Merchant c) (c_Headers c) (c_Answer c).
Definition set_Merchant (m : Merchant) (c : Ctx) : Ctx :=
  mkCtx (c_Request c) (c_MerchantID c) (c_AccessKey c) (Some m) (c_Headers c) (c_Answer c).

(** [c.Header(k, v)] *)
Definition Header (k v : string) (c : Ctx) : Ctx :=
  mkCtx (c_Request c) (c_MerchantID c) (c_AccessKey c) (c_Merchant c) ((k, v) :: c_Headers c) (c_Answer c).

(** [c.JSON(status, body)] and [c.Data] *)
Definition answer_with (status : Z) (body : Content) (c : Ctx) : Ctx :=
  mkCtx (c_Request c) (c_MerchantID c) (c_AccessKey c) (c_Merchant c) (c_Headers c) (Some (mkAnswer status body)).

(** [c.Writer.Status()] *)
Definition Status (c : Ctx) : Z := match c_Answer c with Some a => an_Status a | None => StatusOK end.

Definition GetHeader (c : Ctx) (name : string) : string := rq_Header (c_Request c) name.
Definition Query (c : Ctx) (name : string) : string := default "" (rq_Query (c_Request c) name).
Definition DefaultQuery (c : Ctx) (name d : string) : string := default d (rq_Query (c_Request c) name).
Definition ClientIP (c : Ctx) : string := rq_ClientIP (c_Request c).

(** The handlers of a route, one after the other. *)
Definition chain (hs : list HandlerFunc) : Ctx -> prog Ctx := foldr (fun h next => h next) Ret hs.
End Context_.
