(* ===== verification/Response.v ===== *)
(** Package [response] (pkg/response/response.go): the envelopes of the API's answers. *)

From S2P Require Export Gin.

Section Envelopes.
Context {U : UUIDLib}.

(** [getRequestID]: no middleware sets [request_id], so it is always drawn. *)
Definition getRequestID : prog string := do id <- op NewUUID ;; Ret (uuid_String id).

Definition SuccessResponse (data : json) (requestID : string) (now : time) : json :=
  JObj [("data", data); ("request_id", JStr requestID); ("timestamp", JStr (Format_RFC3339 now))].

Definition ErrorResponse (code message requestID : string) (now : time) : json :=
  JObj [("error_code", JStr code); ("message", JStr message); ("request_id", JStr requestID);
        ("timestamp", JStr (Format_RFC3339 now))].

Definition OK (c : Ctx) (data : json) : prog Ctx :=
  do requestID <- getRequestID ;;
  do now <- op Now ;;
  Ret (answer_with StatusOK (JSON (SuccessResponse data requestID now)) c).

Definition Created (c : Ctx) (data : json) : prog Ctx :=
  do requestID <- getRequestID ;;
  do now <- op Now ;;
  Ret (answer_with StatusCreated (JSON (SuccessResponse data requestID now)) c).

(** [response.Error]: status, code and message of the outermost [AppError], SYS_000 for any
    other error. *)
Definition Error (c : Ctx) (err : error) : prog Ctx :=
  let '(status, code, message) := response_Error err in
  do requestID <- getRequestID ;;
  do now <- op Now ;;
  Ret (answer_with status (JSON (ErrorResponse code message requestID now)) c).
End Envelopes.
