(* ===== verification/Dto.v ===== *)
(** Package [dto] (internal/adapter/http/dto): the request and answer bodies, their binding
    tags, the custom validations and the sanitiser.

    Reading a body is gin's [ShouldBindJSON]: encoding/json, then go-playground/validator,
    which is a parameter that accepts what satisfies the documented meaning of its tags.
    Documents nested deeper than encoding/json allows (10000) are not refused here. *)

From S2P Require Export Response Text.
From Stdlib Require Import Ascii.

(** ** Bodies *)

Record RegisterBody := mkRegisterBody {
  rb_Username : string;
  rb_Password : string;
  rb_MerchantName : string;
  rb_WebhookURL : option string
}.

Record LoginBody := mkLoginBody { lb_Username : string; lb_Password : string }.

Record PaymentBody := mkPaymentBody {
  pb_ReferenceID : string;
  pb_Amount : Z;
  pb_Currency : string;
  pb_ExtraData : option string
}.

Record RefundBody := mkRefundBody {
  fb_OriginalReferenceID : string;
  fb_Amount : option Z;
  fb_Reason : string
}.

Record TopupBody := mkTopupBody { tb_Amount : Z; tb_Currency : string }.

Record UpdateWebhookBody := mkUpdateWebhookBody { ub_WebhookURL : option string }.

(** *** Answers, and their JSON: members in the order of the fields *)

Record RegisterResponseBody := mkRegisterResponseBody {
  ro_MerchantID : string;
  ro_AccessKey : string;
  ro_SecretKey : string
}.

Definition RegisterResponse_json (r : RegisterResponseBody) : json :=
  JObj [("merchant_id", JStr (ro_MerchantID r)); ("access_key", JStr (ro_AccessKey r)); ("secret_key", JStr (ro_SecretKey r))].

Record LoginResponse := mkLoginResponse { lr_Token : string; lr_Expiry : Z }.

Definition LoginResponse_json (r : LoginResponse) : json :=
  JObj [("token", JStr (lr_Token r)); ("expiry", int_json (lr_Expiry r))].

Record TransactionResponse := mkTransactionResponse {
  to_ID : string;
  to_ReferenceID : string;
  to_Amount : Z;
  to_TransactionType : string;
  to_Status : string;
  to_CreatedAt : string;
  to_ProcessedAt : option string
}.

Definition TransactionResponse_json (r : TransactionResponse) : json :=
  JObj ([("id", JStr (to_ID r)); ("reference_id", JStr (to_ReferenceID r)); ("amount", int_json (to_Amount r));
         ("transaction_type", JStr (to_TransactionType r)); ("status", JStr (to_Status r));
         ("created_at", JStr (to_CreatedAt r))]
        ++ opt_field "processed_at" JStr (to_ProcessedAt r)).

Record WalletBalanceResponse := mkWalletBalanceResponse { wo_Balance : Z; wo_Currency : string }.

Definition WalletBalanceResponse_json (r : WalletBalanceResponse) : json :=
  JObj [("balance", int_json (wo_Balance r)); ("currency", JStr (wo_Currency r))].

Record DashboardStatsResponse := mkDashboardStatsResponse {
  do_TotalTransactions : Z;
  do_Successful : Z;
  do_Failed : Z;
  do_Reversed : Z;
  do_TotalRevenue : Z;
  do_TotalRefunded : Z;
  do_TotalTopup : Z
}.

Definition DashboardStatsResponse_json (r : DashboardStatsResponse) : json :=
  JObj [("total_transactions", int_json (do_TotalTransactions r)); ("successful", int_json (do_Successful r));
        ("failed", int_json (do_Failed r)); ("reversed", int_json (do_Reversed r));
        ("total_revenue", int_json (do_TotalRevenue r)); ("total_refunded", int_json (do_TotalRefunded r));
        ("total_topup", int_json (do_TotalTopup r))].

Record TransactionListResponse := mkTransactionListResponse {
  tl_Items : list TransactionResponse;
  tl_Total : Z;
  tl_Page : Z;
  tl_PageSize : Z;
  tl_TotalPages : Z
}.

Definition TransactionListResponse_json (r : TransactionListResponse) : json :=
  JObj [("items", JArr (map TransactionResponse_json (tl_Items r))); ("total", int_json (tl_Total r));
        ("page", int_json (tl_Page r)); ("page_size", int_json (tl_PageSize r)); ("total_pages", int_json (tl_TotalPages r))].

(** ** Validation *)

Definition is_alpha (c : ascii) : bool :=
  let n := byte_val c in ((65 <=? n) && (n <=? 90)) || ((97 <=? n) && (n <=? 122)).

(** The class of the expression ^[a-zA-Z0-9_\-\.]+$ *)
Definition is_safe_char (c : ascii) : bool :=
  is_alpha c || is_digit c || (c =? "_")%char || (c =? "-")%char || (c =? ".")%char.

Definition validateSafeID (s : string) : bool :=
  negb (s =? "")%string && string_forallb is_safe_char s.

(** [url.ParseRequestURI], of which the scheme is used: a parameter. *)
Class RequestURI : Type := { ParseRequestURI : string -> res string }.

Definition validateSafeURL `{RequestURI} (raw : string) : bool :=
  if (raw =? "")%string then true else
  match ParseRequestURI raw with
  | Ok scheme => (scheme =? "http")%string || (scheme =? "https")%string
  | Err _ => false
  end.

(** The tags of the package, as their documentation describes them: [required] refuses the
    zero value and nil, lengths of strings count characters, [omitempty] passes over nil. *)
Inductive tag :=
| TRequired
| TMin (n : nat)
| TMax (n : nat)
| TLen (n : nat)
| TGt (n : Z)
| TAlpha
| TSafeID
| TSafeURL.

Inductive field :=
| FString (s : string)
| FInt64 (z : Z)
| FOptString (s : option string)      (* *string with omitempty *)
| FOptInt64 (z : option Z).           (* *int64 with omitempty *)

Section Tags.
Context {RU : RequestURI}.

Definition string_tag (s : string) (t : tag) : bool :=
  match t with
  | TRequired => negb (s =? "")%string
  | TMin n => (n <=? rune_count s)%nat
  | TMax n => (rune_count s <=? n)%nat
  | TLen n => (rune_count s =? n)%nat
  | TGt _ => true
  | TAlpha => negb (s =? "")%string && string_forallb is_alpha s
  | TSafeID => validateSafeID s
  | TSafeURL => validateSafeURL s
  end.

Definition int_tag (z : Z) (t : tag) : bool :=
  match t with
  | TRequired => negb (z =? 0)
  | TGt n => n <? z
  | _ => true
  end.

Definition field_valid (f : field * list tag) : bool :=
  match f with
  | (FString s, ts) => forallb (string_tag s) ts
  | (FInt64 z, ts) => in_int64b z && forallb (int_tag z) ts
  | (FOptString None, _) | (FOptInt64 None, _) => true
  | (FOptString (Some s), ts) => forallb (string_tag s) ts
  | (FOptInt64 (Some z), ts) => in_int64b z && forallb (int_tag z) ts
  end.

(** The JSON names and the [binding] tags of each body; [body_decode] decodes the members of an
    object into a struct, from its zero value. *)
Class Body (A : Type) : Type := {
  body_zero : A;
  body_decode : list (string * json) -> A -> res A;
  binding_tags : A -> list (field * list tag)
}.

#[export] Instance register_tags : Body RegisterBody := {
  body_zero := mkRegisterBody "" "" "" None;
  body_decode l z :=
    let! x0 := decode_field "username" dec_string l (rb_Username z) in
    let! x1 := decode_field "password" dec_string l (rb_Password z) in
    let! x2 := decode_field "merchant_name" dec_string l (rb_MerchantName z) in
    let! x3 := decode_field "webhook_url" (dec_ptr dec_string "") l (rb_WebhookURL z) in
    Ok (mkRegisterBody x0 x1 x2 x3);
  binding_tags b :=
    [(FString (rb_Username b), [TRequired; TMin 3; TMax 50; TSafeID]);
     (FString (rb_Password b), [TRequired; TMin 8; TMax 128]);
     (FString (rb_MerchantName b), [TRequired; TMin 1; TMax 100]);
     (FOptString (rb_WebhookURL b), [TSafeURL])]
}.

#[export] Instance login_tags : Body LoginBody := {
  body_zero := mkLoginBody "" "";
  body_decode l z :=
    let! x0 := decode_field "username" dec_string l (lb_Username z) in
    let! x1 := decode_field "password" dec_string l (lb_Password z) in
    Ok (mkLoginBody x0 x1);
  binding_tags b := [(FString (lb_Username b), [TRequired]); (FString (lb_Password b), [TRequired])]
}.

#[export] Instance payment_tags : Body PaymentBody := {
  body_zero := mkPaymentBody "" 0 "" None;
  body_decode l z :=
    let! x0 := decode_field "reference_id" dec_string l (pb_ReferenceID z) in
    let! x1 := decode_field "amount" dec_int64 l (pb_Amount z) in
    let! x2 := decode_field "currency" dec_string l (pb_Currency z) in
    let! x3 := decode_field "extra_data" (dec_ptr dec_string "") l (pb_ExtraData z) in
    Ok (mkPaymentBody x0 x1 x2 x3);
  binding_tags b :=
    [(FString (pb_ReferenceID b), [TRequired; TMax 100; TSafeID]);
     (FInt64 (pb_Amount b), [TRequired; TGt 0]);
     (FString (pb_Currency b), [TRequired; TLen 3; TAlpha]);
     (FOptString (pb_ExtraData b), [TMax 1000])]
}.

#[export] Instance refund_tags : Body RefundBody := {
  body_zero := mkRefundBody "" None "";
  body_decode l z :=
    let! x0 := decode_field "original_reference_id" dec_string l (fb_OriginalReferenceID z) in
    let! x1 := decode_field "amount" (dec_ptr dec_int64 0) l (fb_Amount z) in
    let! x2 := decode_field "reason" dec_string l (fb_Reason z) in
    Ok (mkRefundBody x0 x1 x2);
  binding_tags b :=
    [(FString (fb_OriginalReferenceID b), [TRequired; TMax 100; TSafeID]);
     (FOptInt64 (fb_Amount b), [TGt 0]);
     (FString (fb_Reason b), [TRequired; TMax 500])]
}.

#[export] Instance topup_tags : Body TopupBody := {
  body_zero := mkTopupBody 0 "";
  body_decode l z :=
    let! x0 := decode_field "amount" dec_int64 l (tb_Amount z) in
    let! x1 := decode_field "currency" dec_string l (tb_Currency z) in
    Ok (mkTopupBody x0 x1);
  binding_tags b :=
    [(FInt64 (tb_Amount b), [TRequired; TGt 0]); (FString (tb_Currency b), [TRequired; TLen 3; TAlpha])]
}.

#[export] Instance webhook_tags : Body UpdateWebhookBody := {
  body_zero := mkUpdateWebhookBody None;
  body_decode l z :=
    let! x0 := decode_field "webhook_url" (dec_ptr dec_string "") l (ub_WebhookURL z) in
    Ok (mkUpdateWebhookBody x0);
  binding_tags b := [(FOptString (ub_WebhookURL b), [TSafeURL])]
}.

(** go-playground/validator: no error exactly when every field satisfies its tags. *)
Class Validator : Type := { ValidateStruct : list (field * list tag) -> option error }.

Class ValidatorLaws {V : Validator} : Prop := {
  ValidateStruct_spec fs : ValidateStruct fs = None <-> forallb field_valid fs = true
}.

(** ** [c.ShouldBindJSON(&req)] *)

(** The first JSON value of the body; what follows it is not read.  An object ends with its
    brace, [null] only with a blank or the end of the body. *)
Definition decode_value (r : Reader) : res json :=
  match parse_value (S (String.length (rd_Bytes r))) (rd_Bytes r) with
  | None => Err (default (ErrLeaf "json: syntax error") (rd_Error r))
  | Some (JNull, EmptyString) => match rd_Error r with Some e => Err e | None => Ok JNull end
  | Some (JNull, String c _) =>
    if is_json_ws c then Ok JNull else Err (ErrLeaf "json: syntax error")
  | Some (v, _) => Ok v
  end.

Context {V : Validator}.

Definition ShouldBindJSON {A} {BA : Body A} (r : Reader) : res A :=
  let! v := decode_value r in
  let! a := match v with
            | JObj l => body_decode l body_zero
            | JNull => Ok body_zero
            | _ => Err UnmarshalTypeError
            end in
  match ValidateStruct (binding_tags a) with None => Ok a | Some e => Err e end.

Lemma bound_valid {VL : ValidatorLaws} {A} {BA : Body A} (r : Reader) (a : A) :
  ShouldBindJSON r = Ok a -> forallb field_valid (binding_tags a) = true.
Proof.
  unfold ShouldBindJSON. intros (v & _ & H)%result_bind_Ok. apply result_bind_Ok in H as (a' & _ & H).
  destruct (ValidateStruct _) eqn:E; [done|]. simplify_eq. by apply ValidateStruct_spec.
Qed.
End Tags.

(** ** [SanitizeStruct] *)

Definition sanitize (s : string) : string := EscapeString (TrimSpace s).

Class Sanitize (A : Type) : Type := { SanitizeStruct : A -> A }.

#[export] Instance sanitize_register : Sanitize RegisterBody := {
  SanitizeStruct b := mkRegisterBody (sanitize (rb_Username b)) (sanitize (rb_Password b))
                        (sanitize (rb_MerchantName b)) (option_map sanitize (rb_WebhookURL b))
}.
#[export] Instance sanitize_login : Sanitize LoginBody := {
  SanitizeStruct b := mkLoginBody (sanitize (lb_Username b)) (sanitize (lb_Password b))
}.
#[export] Instance sanitize_payment : Sanitize PaymentBody := {
  SanitizeStruct b := mkPaymentBody (sanitize (pb_ReferenceID b)) (pb_Amount b) (sanitize (pb_Currency b))
                        (option_map sanitize (pb_ExtraData b))
}.
#[export] Instance sanitize_refund : Sanitize RefundBody := {
  SanitizeStruct b := mkRefundBody (sanitize (fb_OriginalReferenceID b)) (fb_Amount b) (sanitize (fb_Reason b))
}.
#[export] Instance sanitize_topup : Sanitize TopupBody := {
  SanitizeStruct b := mkTopupBody (tb_Amount b) (sanitize (tb_Currency b))
}.
#[export] Instance sanitize_webhook : Sanitize UpdateWebhookBody := {
  SanitizeStruct b := mkUpdateWebhookBody (option_map sanitize (ub_WebhookURL b))
}.

(** ** What validation and sanitising leave *)

Lemma safe_not_escaped c : is_safe_char c = true -> html_escape_char c = String c "".
Proof. destruct c as [[] [] [] [] [] [] [] []]; vm_compute; done. Qed.

Lemma escape_safe s : string_forallb is_safe_char s = true -> EscapeString s = s.
Proof.
  induction s as [|c s IH]; [done|]. cbn [string_forallb EscapeString]. intros [Hc Hs]%andb_true_iff.
  by rewrite safe_not_escaped, str_app_cons, IH.
Qed.

Definition starts_unsafe (p : string) : bool :=
  match p with String c _ => negb (is_safe_char c) | EmptyString => false end.

Lemma strip_safe ps s :
  forallb starts_unsafe ps = true -> string_forallb is_safe_char s = true -> strip_prefix_any ps s = None.
Proof.
  intros Hps Hs. induction ps as [|p ps IH]; [done|]. cbn [forallb strip_prefix_any] in *.
  apply andb_true_iff in Hps as [Hp Hps]. destruct p as [|c p]; [done|]. destruct s as [|d s]; simpl; [by apply IH|].
  simpl in Hp, Hs. apply andb_true_iff in Hs as [Hd _]. destruct (Ascii.ascii_dec c d) as [->|Hne].
  - by rewrite Hd in Hp.
  - simpl. by apply IH.
Qed.

Lemma trim_left_safe ps s :
  forallb starts_unsafe ps = true -> string_forallb is_safe_char s = true -> trim_left ps s = s.
Proof.
  intros Hps Hs. unfold trim_left. destruct (String.length s); simpl; [done|]. by rewrite strip_safe.
Qed.

Lemma str_rev_onto_forallb f s acc :
  string_forallb f (str_rev_onto s acc) = string_forallb f s && string_forallb f acc.
Proof.
  revert acc. induction s as [|c s IH]; intros acc; simpl; [done|]. rewrite IH. simpl.
  destruct (f c), (string_forallb f s); done.
Qed.

Lemma str_rev_onto_onto s acc acc' : str_rev_onto (str_rev_onto s acc) acc' = str_rev_onto acc (s +:+ acc').
Proof. revert acc. induction s as [|c s IH]; intros acc; simpl; [done|]. by rewrite IH. Qed.

Lemma str_rev_rev s : str_rev (str_rev s) = s.
Proof. unfold str_rev. rewrite str_rev_onto_onto. simpl. by rewrite str_app_nil_r. Qed.

(** An identifier that passed validation is not altered by the sanitiser. *)
Lemma sanitize_safe s : validateSafeID s = true -> sanitize s = s.
Proof.
  unfold validateSafeID, sanitize, TrimSpace. intros [_ Hs]%andb_true_iff.
  rewrite (trim_left_safe white_space) by (reflexivity || done).
  rewrite trim_left_safe, str_rev_rev.
  - by apply escape_safe.
  - reflexivity.
  - unfold str_rev. rewrite str_rev_onto_forallb, Hs. done.
Qed.

Lemma alpha_safe s : string_forallb is_alpha s = true -> string_forallb is_safe_char s = true.
Proof. apply string_forallb_impl. intros c Hc. unfold is_safe_char. by rewrite Hc. Qed.

Section Bound.
Context {RU : RequestURI} {V : Validator} {VL : ValidatorLaws}.

(** Reads the tags of a bound body as facts. *)
Ltac tags H :=
  apply bound_valid in H; simpl in H; repeat rewrite ?andb_true_iff, ?andb_true_r in H;
  unfold in_int64b, in_int64 in *; des; bool_prop.

(** What reaches the payment service of a payment body. *)
Lemma bound_payment r a :
  ShouldBindJSON r = Ok a ->
  in_int64 (pb_Amount a) /\ 0 < pb_Amount a /\
  pb_ReferenceID a <> "" /\ string_forallb is_safe_char (pb_ReferenceID a) = true /\
  (rune_count (pb_ReferenceID a) <= 100)%nat /\ rune_count (pb_Currency a) = 3%nat /\
  SanitizeStruct a = mkPaymentBody (pb_ReferenceID a) (pb_Amount a) (pb_Currency a) (option_map sanitize (pb_ExtraData a)).
Proof.
  intros H. tags H. split_and!; try done; try lia.
  - match goal with H : validateSafeID _ = true |- _ => apply andb_true_iff in H; apply H end.
  - by apply Nat.leb_le.
  - by apply Nat.eqb_eq.
  - simpl. rewrite !sanitize_safe; [done| |done]. unfold validateSafeID.
    apply andb_true_iff. split; [by apply negb_true_iff, String.eqb_neq|by apply alpha_safe].
Qed.

Lemma bound_topup r a : ShouldBindJSON r = Ok a -> in_int64 (tb_Amount a) /\ 0 < tb_Amount a.
Proof. intros H. tags H. lia. Qed.

Lemma bound_refund r a :
  ShouldBindJSON r = Ok a ->
  (rune_count (fb_OriginalReferenceID a) <= 100)%nat /\
  fb_OriginalReferenceID (SanitizeStruct a) = fb_OriginalReferenceID a.
Proof. intros H. tags H. split; [by apply Nat.leb_le|]. by apply sanitize_safe. Qed.
End Bound.
