(* ===== verification/AuthService.v ===== *)
(** [AuthServiceImpl] (internal/service/auth_service.go): registration and login. *)

From S2P Require Export Repos.

Section AuthService.
Context {U : UUIDLib} {ES : EncryptionService} {HS : HashService} {TS : TokenService}.

Definition generateRandomHex (n : nat) : prog (res string) :=
  try bytes <- op (RandRead n) catch err => fail err ;;
  ok (hex_encode bytes).

(** From the keys on: the merchant, then its wallet, in two statements of their own. *)
Definition create_account (req : RegisterRequest) (accessKey secretKey passwordHash secretKeyEnc : string)
    : prog (res RegisterResponse) :=
  do now <- op Now ;;
  do merchantID <- op NewUUID ;;
  let merchant := mkMerchant merchantID (rg_Username req) passwordHash (rg_MerchantName req) accessKey
                    secretKeyEnc (rg_WebhookURL req) MerchantStatusActive now now in
  try _ <- MerchantRepo.Create merchant catch err => fail (InternalError (Errorf "create merchant" err)) ;;
  try encryptedBalance <- Encrypt "0"
    catch err => fail (InternalError (Errorf "encrypt initial balance" err)) ;;
  do walletID <- op NewUUID ;;
  let wallet := mkWallet walletID merchantID "VND" encryptedBalance None now now in
  try _ <- WalletRepo.Create wallet catch err => fail (InternalError (Errorf "create wallet" err)) ;;
  ok (mkRegisterResponse merchantID accessKey secretKey).

Definition Register (req : RegisterRequest) : prog (res RegisterResponse) :=
  try existing <- MerchantRepo.GetByUsername (rg_Username req)
    catch err => fail (InternalError (Errorf "check username" err)) ;;
  match existing with
  | Some _ => fail (Validation "username already exists")
  | None =>
    try accessKey <- generateRandomHex 32
      catch err => fail (InternalError (Errorf "generate access key" err)) ;;
    try secretKey <- generateRandomHex 32
      catch err => fail (InternalError (Errorf "generate secret key" err)) ;;
    try passwordHash <- Hash (rg_Password req)
      catch err => fail (InternalError (Errorf "hash password" err)) ;;
    try secretKeyEnc <- Encrypt secretKey
      catch err => fail (InternalError (Errorf "encrypt secret key" err)) ;;
    create_account req accessKey secretKey passwordHash secretKeyEnc
  end.

Definition Login (username password : string) : prog (res (string * time)) :=
  try merchant <- MerchantRepo.GetByUsername username
    catch err => fail (InternalError (Errorf "find merchant" err)) ;;
  match merchant with
  | None => fail ErrInvalidCredentials
  | Some merchant =>
    check valid <- HashVerify password (m_PasswordHash merchant)
      catch err => fail (InternalError (Errorf "verify password" err)) ;;
    if negb valid then fail ErrInvalidCredentials else
    if negb (IsActive merchant) then fail ErrMerchantSuspended else
    try r <- Generate (m_ID merchant) (m_AccessKey merchant)
      catch err => fail (InternalError (Errorf "generate token" err)) ;;
    ok r
  end.
End AuthService.
