(* ===== verification/MerchantService.v ===== *)
(** [merchantService] (internal/service/merchant_service.go): a merchant's profile, webhook URL
    and keys. *)

From S2P Require Export Repos.

Section MerchantService.
Context {U : UUIDLib} {ES : EncryptionService}.

Definition generateKey (prefix : string) (length : nat) : prog (res string) :=
  try b <- op (RandRead length) catch err => fail err ;;
  ok (prefix +:+ hex_encode b).

(** [err != nil], [merchant == nil], the merchant. *)
Definition with_merchant {A} (merchantID : uuid) (k : Merchant -> prog (res A)) : prog (res A) :=
  try merchant <- MerchantRepo.GetByID merchantID catch err => fail (InternalError err) ;;
  match merchant with
  | None => fail (ErrNotFound "merchant")
  | Some merchant => k merchant
  end.

Definition GetProfile (merchantID : uuid) : prog (res MerchantProfile) :=
  with_merchant merchantID (fun merchant =>
    ok (mkMerchantProfile (m_ID merchant) (m_Username merchant) (m_MerchantName merchant)
          (m_WebhookURL merchant) (m_Status merchant) (Format_RFC3339 (m_CreatedAt merchant)))).

Definition UpdateWebhookURL (merchantID : uuid) (webhookURL : option string) : prog (res unit) :=
  with_merchant merchantID (fun merchant =>
    do now <- op Now ;;
    let merchant := mkMerchant (m_ID merchant) (m_Username merchant) (m_PasswordHash merchant)
                      (m_MerchantName merchant) (m_AccessKey merchant) (m_SecretKeyEnc merchant)
                      webhookURL (m_Status merchant) (m_CreatedAt merchant) now in
    try _ <- MerchantRepo.Update merchant catch err => fail (InternalError err) ;;
    ok tt).

Definition RotateKeys (merchantID : uuid) : prog (res RotateKeysResponse) :=
  with_merchant merchantID (fun merchant =>
    try newAccessKey <- generateKey "ak_" 24
      catch err => fail (InternalError (Errorf "generate access key" err)) ;;
    try newSecretKey <- generateKey "sk_" 32
      catch err => fail (InternalError (Errorf "generate secret key" err)) ;;
    try encSecretKey <- Encrypt newSecretKey
      catch err => fail (InternalError (Errorf "encrypt secret key" err)) ;;
    do now <- op Now ;;
    let merchant := mkMerchant (m_ID merchant) (m_Username merchant) (m_PasswordHash merchant)
                      (m_MerchantName merchant) newAccessKey encSecretKey
                      (m_WebhookURL merchant) (m_Status merchant) (m_CreatedAt merchant) now in
    try _ <- MerchantRepo.Update merchant catch err => fail (InternalError err) ;;
    ok (mkRotateKeysResponse newAccessKey newSecretKey)).
End MerchantService.
