(* ===== verification/ReportingService.v ===== *)
(** [reportingService] (internal/service/reporting_service.go): statistics, lists, balance.
    The local zone of the server is taken to be UTC. *)

From S2P Require Export Repos.

Section ReportingService.
Context {U : UUIDLib} {ES : EncryptionService}.

(** The start of a period, [None] for all time. *)
Definition period_start (period : string) : prog (res (option Z)) :=
  if (period =? "day")%string then
    do now <- op Now ;; ok (Some (Unix (AddDate now 0 0 (-1))))
  else if (period =? "week")%string then
    do now <- op Now ;; ok (Some (Unix (AddDate now 0 0 (-7))))
  else if (period =? "month")%string then
    do now <- op Now ;; ok (Some (Unix (AddDate now 0 (-1) 0)))
  else if (period =? "all")%string || (period =? "")%string then ok None
  else fail (Validation "invalid period: must be day, week, month, or all").

Definition GetDashboardStats (merchantID : uuid) (period : string) : prog (res TransactionStats) :=
  try periodStart <- period_start period catch err => fail err ;;
  try stats <- TransactionRepo.GetStats merchantID periodStart catch err => fail (InternalError err) ;;
  ok stats.

Definition ListTransactions (params : TransactionListParams) : prog (res (list Transaction * Z)) :=
  try r <- TransactionRepo.List params catch err => fail (InternalError err) ;;
  ok r.

Definition GetWalletBalance (merchantID : uuid) : prog (res (Z * string)) :=
  try wallet <- WalletRepo.GetByMerchantID merchantID "VND" catch err => fail (InternalError err) ;;
  match wallet with
  | None => fail (ErrNotFound "wallet")
  | Some wallet =>
    check balanceStr <- Decrypt (w_EncryptedBalance wallet) catch err => fail (InternalError err) ;;
    check balance <- Sscanf_d balanceStr catch err => fail (InternalError err) ;;
    ok (balance, w_Currency wallet)
  end.
End ReportingService.
