(* ===== verification/WebhookService.v ===== *)
(** [webhookService] (internal/service/webhook_service.go): signed notifications, delivered by a
    goroutine of their own that retries and keeps a log of its attempts. *)

From S2P Require Export Repos.

(** [http.NewRequest] fails on a URL that [net/url] does not parse: the parser is a parameter. *)
Class URLParser : Type := {
  url_Parse_error : string -> option string
}.

Section WebhookService.
Context {U : UUIDLib} {ES : EncryptionService} {SS : SignatureService} {UP : URLParser}.

(** [webhookRepo != nil] *)
Context (persistent : bool).

Definition webhookRetryIntervals : list duration :=
  [15 * Second; 60 * Second; 2 * Minute; 5 * Minute; 10 * Minute].

Definition EventPaymentUpdate : string := "PAYMENT_UPDATE".
Definition EventRefundUpdate : string := "REFUND_UPDATE".
Definition EventTopupUpdate : string := "TOPUP_UPDATE".

Record WebhookPayloadData := mkWebhookPayloadData {
  MerchantOrderID : string;
  GatewayTransactionID : string;
  pd_Status : string;
  pd_Amount : Z;
  pd_Currency : string;
  pd_Reason : string;
  pd_Timestamp : Z
}.

Record WebhookPayload := mkWebhookPayload {
  EventType : string;
  pl_Data : WebhookPayloadData;
  pl_Signature : string
}.

(** The JSON of both structs, members in the order of the fields. *)
Definition data_json (d : WebhookPayloadData) : json :=
  JObj [("merchant_order_id", JStr (MerchantOrderID d));
        ("gateway_transaction_id", JStr (GatewayTransactionID d));
        ("status", JStr (pd_Status d));
        ("amount", int_json (pd_Amount d));
        ("currency", JStr (pd_Currency d));
        ("reason", JStr (pd_Reason d));
        ("timestamp", int_json (pd_Timestamp d))].

Definition payload_json (p : WebhookPayload) : json :=
  JObj [("event_type", JStr (EventType p));
        ("data", data_json (pl_Data p));
        ("signature", JStr (pl_Signature p))].

Definition event_type (transactionType : string) : string :=
  if (transactionType =? TransactionTypeRefund)%string then EventRefundUpdate
  else if (transactionType =? TransactionTypeTopup)%string then EventTopupUpdate
  else EventPaymentUpdate.

(** *** Delivery *)

Definition persistLog (log : WebhookDeliveryLog) : prog WebhookDeliveryLog :=
  if persistent then do r <- WebhookRepo.Update log ;; Ret (fst r) else Ret log.

Definition set_attempt (l : WebhookDeliveryLog) (attempt : Z) (now : time) : WebhookDeliveryLog :=
  mkWebhookDeliveryLog (wl_ID l) (wl_TransactionID l) (wl_MerchantID l) (wl_WebhookURL l) (wl_Payload l)
    (wl_HTTPStatus l) attempt (wl_Status l) (wl_NextRetryAt l) (wl_LastError l) (wl_CreatedAt l) now.
Definition set_last_error (l : WebhookDeliveryLog) (msg : string) : WebhookDeliveryLog :=
  mkWebhookDeliveryLog (wl_ID l) (wl_TransactionID l) (wl_MerchantID l) (wl_WebhookURL l) (wl_Payload l)
    (wl_HTTPStatus l) (wl_Attempt l) (wl_Status l) (wl_NextRetryAt l) (Some msg) (wl_CreatedAt l) (wl_UpdatedAt l).
Definition set_http_status (l : WebhookDeliveryLog) (status : Z) : WebhookDeliveryLog :=
  mkWebhookDeliveryLog (wl_ID l) (wl_TransactionID l) (wl_MerchantID l) (wl_WebhookURL l) (wl_Payload l)
    (Some status) (wl_Attempt l) (wl_Status l) (wl_NextRetryAt l) (wl_LastError l) (wl_CreatedAt l) (wl_UpdatedAt l).
Definition set_next_retry (l : WebhookDeliveryLog) (at_ : time) : WebhookDeliveryLog :=
  mkWebhookDeliveryLog (wl_ID l) (wl_TransactionID l) (wl_MerchantID l) (wl_WebhookURL l) (wl_Payload l)
    (wl_HTTPStatus l) (wl_Attempt l) (wl_Status l) (Some at_) (wl_LastError l) (wl_CreatedAt l) (wl_UpdatedAt l).
Definition set_delivered (l : WebhookDeliveryLog) : WebhookDeliveryLog :=
  mkWebhookDeliveryLog (wl_ID l) (wl_TransactionID l) (wl_MerchantID l) (wl_WebhookURL l) (wl_Payload l)
    (wl_HTTPStatus l) (wl_Attempt l) WebhookStatusDelivered None None (wl_CreatedAt l) (wl_UpdatedAt l).
Definition set_failed (l : WebhookDeliveryLog) : WebhookDeliveryLog :=
  mkWebhookDeliveryLog (wl_ID l) (wl_TransactionID l) (wl_MerchantID l) (wl_WebhookURL l) (wl_Payload l)
    (wl_HTTPStatus l) (wl_Attempt l) WebhookStatusFailed None (wl_LastError l) (wl_CreatedAt l) (wl_UpdatedAt l).

(** [if attempt < len(webhookRetryIntervals) { nextRetry := ...; log.NextRetryAt = &nextRetry }] *)
Definition schedule_retry (attempt : nat) (log : WebhookDeliveryLog) : prog WebhookDeliveryLog :=
  match webhookRetryIntervals !! attempt with
  | Some interval => do now <- op Now ;; Ret (set_next_retry log (now + interval))
  | None => Ret log
  end.

Definition is_2xx (status : Z) : bool := (200 <=? status) && (status <? 300).

(** The loop from [attempt] on, with [fuel] iterations left. *)
Fixpoint attempts (url payloadBytes : string) (attempt : nat) (fuel : nat) (log : WebhookDeliveryLog) : prog unit :=
  match fuel with
  | O => do _ <- persistLog (set_failed log) ;; Ret tt
  | S fuel =>
    do _ <- match attempt with
            | O => Ret tt
            | S i => op (Sleep (nth i webhookRetryIntervals 0))
            end ;;
    do now <- op Now ;;
    let log := set_attempt log (Z.of_nat (attempt + 1)) now in
    match url_Parse_error url with
    | Some errMsg =>
      do log <- persistLog (set_last_error log errMsg) ;;
      attempts url payloadBytes (S attempt) fuel log
    | None =>
      do resp <- op (HTTPDo url payloadBytes) ;;
      match resp with
      | Err err =>
        do log <- schedule_retry attempt (set_last_error log (error_text err)) ;;
        do log <- persistLog log ;;
        attempts url payloadBytes (S attempt) fuel log
      | Ok status =>
        let log := set_http_status log status in
        if is_2xx status then do _ <- persistLog (set_delivered log) ;; Ret tt
        else
          do log <- schedule_retry attempt (set_last_error log ("HTTP " +:+ FormatInt status)) ;;
          do log <- persistLog log ;;
          attempts url payloadBytes (S attempt) fuel log
      end
    end
  end.

Definition deliverWithRetries (url : string) (payload : WebhookPayload) (txID merchantID : uuid) : prog unit :=
  let payloadBytes := json_print (payload_json payload) in
  do logID <- op NewUUID ;;
  do now <- op Now ;;
  let deliveryLog := mkWebhookDeliveryLog logID txID merchantID url payloadBytes None 0
                       WebhookStatusPending None None now now in
  do _ <- (if persistent then do _ <- WebhookRepo.Create deliveryLog ;; Ret tt else Ret tt) ;;
  attempts url payloadBytes 0 (S (length webhookRetryIntervals)) deliveryLog.

(** *** [EnqueueWebhook] *)

Definition payload_data (transaction : Transaction) (currency : string) (now : time) : WebhookPayloadData :=
  mkWebhookPayloadData (tx_ReferenceID transaction) (uuid_String (tx_ID transaction)) (tx_Status transaction)
    (tx_Amount transaction) currency ("Transaction " +:+ tx_Status transaction) (Unix now).

Definition signed_payload (transaction : Transaction) (secretKey currency : string) (now : time) : WebhookPayload :=
  let data := payload_data transaction currency now in
  mkWebhookPayload (event_type (tx_TransactionType transaction)) data
    (Sign secretKey (json_print (data_json data))).

Definition EnqueueWebhook (transaction : Transaction) : prog (res unit) :=
  try merchant <- MerchantRepo.GetByID (tx_MerchantID transaction) catch err => fail err ;;
  match merchant with
  | None => ok tt
  | Some merchant =>
    match m_WebhookURL merchant with
    | None => ok tt
    | Some url =>
      if (url =? "")%string then ok tt else
      do wallet <- WalletRepo.GetByID (tx_WalletID transaction) ;;
      let currency := match wallet with Ok (Some wallet) => w_Currency wallet | _ => "VND" end in
      do now <- op Now ;;
      check secretKey <- Decrypt (m_SecretKeyEnc merchant) catch err => fail err ;;
      Go (deliverWithRetries url (signed_payload transaction secretKey currency now)
            (tx_ID transaction) (tx_MerchantID transaction))
         (ok tt)
    end
  end.
End WebhookService.
