(* ===== verification/AuditService.v ===== *)
(** [auditService] (internal/service/audit_service.go): entries are written by a goroutine of
    their own; the log line is left out. *)

From S2P Require Export Repos.

Section AuditService.
Context {U : UUIDLib}.

(** [repo != nil] *)
Context (persistent : bool).

Definition persist_entry (entry : AuditLog) : prog unit :=
  if persistent then do _ <- AuditRepo.Create entry ;; Ret tt else Ret tt.

Definition Log (entry : AuditLog) : prog unit := Go (persist_entry entry) (Ret tt).
End AuditService.
