(* ===== verification/EncryptionService.v ===== *)
(** [AESEncryptionService] (internal/service/encryption_service.go): AES-256-GCM with a random
    nonce, hex encoded; an implementation of the [EncryptionService] interface. *)

From S2P Require Export Rules Crypto.

Section AES.
Context {U : UUIDLib} {P : PgLib}.

Record AESEncryptionService := mkAES { aes_key : string }.

Definition NewAESEncryptionService (hexKey : string) : res AESEncryptionService :=
  check key <- hex_decode hexKey catch err => Err (Errorf "decoding AES key" err) ;;
  if negb (String.length key =? 32)%nat
  then Err (ErrLeaf ("AES key must be 32 bytes, got " +:+ FormatInt (Z.of_nat (String.length key))))
  else Ok (mkAES key).

(** [aes.NewCipher] refuses other key sizes; [cipher.NewGCM] accepts every AES cipher. *)
Definition NewCipher (key : string) : res unit :=
  let n := String.length key in
  if (n =? 16)%nat || (n =? 24)%nat || (n =? 32)%nat then Ok tt
  else Err (ErrLeaf ("crypto/aes: invalid key size " +:+ FormatInt (Z.of_nat n))).

Definition nonceSize : nat := 12.

Definition aes_Encrypt (s : AESEncryptionService) (plaintext : string) : prog (res string) :=
  check _ <- NewCipher (aes_key s) catch err => fail (Errorf "creating cipher" err) ;;
  try nonce <- op (RandRead nonceSize) catch err => fail (Errorf "generating nonce" err) ;;
  ok (hex_encode (gcm_seal (aes_key s) nonce plaintext)).

Definition aes_Decrypt (s : AESEncryptionService) (ciphertextHex : string) : res string :=
  check ciphertext <- hex_decode ciphertextHex catch err => Err (Errorf "decoding ciphertext" err) ;;
  check _ <- NewCipher (aes_key s) catch err => Err (Errorf "creating cipher" err) ;;
  if (String.length ciphertext <? nonceSize)%nat then Err (ErrLeaf "ciphertext too short") else
  let nonce := str_take nonceSize ciphertext in
  let ciphertext := str_drop nonceSize ciphertext in
  check plaintext <- gcm_open (aes_key s) nonce ciphertext catch err => Err (Errorf "decrypting" err) ;;
  Ok plaintext.

Definition aes_service (s : AESEncryptionService) : EncryptionService :=
  {| Encrypt := aes_Encrypt s; Decrypt := aes_Decrypt s |}.

(** ** The constructed service keeps its promise *)

Definition valid_key (s : AESEncryptionService) : Prop := String.length (aes_key s) = 32%nat.

Lemma new_aes_valid hexKey s : NewAESEncryptionService hexKey = Ok s -> valid_key s.
Proof.
  unfold NewAESEncryptionService, valid_key. destruct (hex_decode hexKey) as [key|]; [|done].
  destruct (Nat.eqb_spec (String.length key) 32); simpl; [|done]. by intros [= <-].
Qed.

Lemma new_cipher_valid s : valid_key s -> NewCipher (aes_key s) = Ok tt.
Proof. unfold NewCipher. by intros ->. Qed.

Lemma aes_decrypt_seal s nonce plaintext :
  valid_key s -> String.length nonce = nonceSize ->
  aes_Decrypt s (hex_encode (gcm_seal (aes_key s) nonce plaintext)) = Ok plaintext.
Proof.
  intros Hs Hn. destruct (gcm_open_seal (aes_key s) nonce plaintext) as (sealed & -> & Hopen).
  unfold aes_Decrypt. rewrite hex_decode_encode, new_cipher_valid by done.
  rewrite str_length_app. destruct (Nat.ltb_spec (String.length nonce + String.length sealed) nonceSize); [lia|].
  by rewrite <- Hn, str_take_app, str_drop_app, Hopen.
Qed.

Lemma aes_laws s : valid_key s -> @EncryptionLaws U P (aes_service s).
Proof.
  intros Hs. split. intros D DL flt plaintext Q own es v HQ HE. simpl Encrypt. unfold aes_Encrypt.
  rewrite new_cipher_valid by done. apply wp_bind. apply wp_rand; [done|..].
  - intros nonce v' Hc [? ?] Hn. apply HQ; [done..| |apply hex_encode_lower]. by apply aes_decrypt_seal.
  - intros e v' Hf _ Hc [? ?]. by apply HE.
Qed.
End AES.
