(* ===== verification/HashService.v ===== *)
(** [Argon2HashService] (internal/service/hash_service.go).  Argon2id itself is
    golang.org/x/crypto, a parameter; the encoding of a hash, its parsing and the comparison
    are the program's. *)

From S2P Require Export Rules Text.
From Stdlib Require Import Ascii.

(** [argon2.IDKey(password, salt, time, memory, threads, keyLen)] yields a key of the length
    asked for; [argon2.Version] is 0x13. *)
Class Argon2 : Type := {
  argon2_Version : Z;
  argon2_IDKey : string -> string -> Z -> Z -> Z -> Z -> string
}.

Class Argon2Laws {A2 : Argon2} : Prop := {
  argon2_Version_19 : argon2_Version = 19;
  argon2_IDKey_length password salt time memory threads keyLen :
    1 <= time -> 1 <= threads -> 0 <= keyLen ->
    String.length (argon2_IDKey password salt time memory threads keyLen) = Z.to_nat keyLen
}.

Section Hash.
Context {U : UUIDLib} {A2 : Argon2}.

Definition argon2Time : Z := 1.
Definition argon2Memory : Z := 64 * 1024.
Definition argon2Threads : Z := 4.
Definition argon2KeyLen : Z := 32.
Definition argon2SaltLen : nat := 16.

Definition encode_hash (salt hash : string) : string :=
  "$argon2id$v=" +:+ FormatInt argon2_Version +:+ "$m=" +:+ FormatInt argon2Memory +:+ ",t=" +:+
  FormatInt argon2Time +:+ ",p=" +:+ FormatInt argon2Threads +:+ "$" +:+ b64_encode salt +:+ "$" +:+
  b64_encode hash.

Definition argon2_Hash (password : string) : prog (res string) :=
  try salt <- op (RandRead argon2SaltLen) catch err => fail (Errorf "generating salt" err) ;;
  let hash := argon2_IDKey password salt argon2Time argon2Memory argon2Threads argon2KeyLen in
  ok (encode_hash salt hash).

Record argon2Params := mkArgon2Params {
  ap_memory : Z;     (* uint32 *)
  ap_time : Z;       (* uint32 *)
  ap_threads : Z;    (* uint8 *)
  ap_keyLen : Z      (* uint32 *)
}.

Definition version_format : list directive := [DLit "v"; DLit "="; DInt 64].
Definition params_format : list directive :=
  [DLit "m"; DLit "="; DUint 32; DLit ","; DLit "t"; DLit "="; DUint 32; DLit ","; DLit "p"; DLit "="; DUint 8].

Definition decodeArgon2Hash (encodedHash : string) : res (string * string * argon2Params) :=
  match split_at "$" encodedHash with
  | [_; algorithm; version; params; salt; hash] =>
    if negb (algorithm =? "argon2id")%string
    then Err (ErrLeaf ("unsupported algorithm: " +:+ algorithm)) else
    check _ <- Sscanf version_format version catch err => Err (Errorf "parsing version" err) ;;
    check ps <- Sscanf params_format params catch err => Err (Errorf "parsing params" err) ;;
    check salt <- b64_decode salt catch err => Err (Errorf "decoding salt" err) ;;
    check hash <- b64_decode hash catch err => Err (Errorf "decoding hash" err) ;;
    Ok (salt, hash, mkArgon2Params (nth 0 ps 0) (nth 1 ps 0) (nth 2 ps 0)
                      (Z.of_nat (String.length hash) mod 2 ^ 32))
  | parts => Err (ErrLeaf ("invalid hash format: expected 6 parts, got " +:+ FormatInt (Z.of_nat (length parts))))
  end.

(** [subtle.ConstantTimeCompare] is equality of the bytes. *)
Definition argon2_Verify (password encodedHash : string) : res bool :=
  check decoded <- decodeArgon2Hash encodedHash catch err => Err err ;;
  let '(salt, hash, params) := decoded in
  let otherHash := argon2_IDKey password salt (ap_time params) (ap_memory params) (ap_threads params)
                     (ap_keyLen params) in
  Ok (hash =? otherHash)%string.

(** ** Reading back what [Hash] wrote *)

Lemma no_dollar s f :
  string_forallb f s = true -> f "$"%char = false -> has_char "$" s = false.
Proof.
  intros Hs Hf. unfold has_char. induction s as [|c s IH]; [done|]. simpl in Hs |- *.
  apply andb_true_iff in Hs as [Hc Hs]. rewrite IH by done. rewrite orb_false_r.
  change (Ascii.eqb "$"%char c = false). apply Ascii.eqb_neq. congruence.
Qed.

Context {A2L : Argon2Laws}.

Lemma encode_hash_parts salt hash :
  encode_hash salt hash =
  strings_join "$" [""; "argon2id"; "v=19"; "m=65536,t=1,p=4"; b64_encode salt; b64_encode hash].
Proof. unfold encode_hash. by rewrite argon2_Version_19. Qed.

Lemma decode_encode_hash salt hash :
  decodeArgon2Hash (encode_hash salt hash) =
  Ok (salt, hash, mkArgon2Params argon2Memory argon2Time argon2Threads (Z.of_nat (String.length hash) mod 2 ^ 32)).
Proof.
  unfold decodeArgon2Hash.
  assert (Hb : forall s, has_char "$" (b64_encode s) = false).
  { intros s. eapply no_dollar; [apply b64_encode_chars|done]. }
  rewrite encode_hash_parts, split_at_join by (repeat constructor; done).
  change (Sscanf version_format "v=19") with (Ok (E:=error) [19]).
  change (Sscanf params_format "m=65536,t=1,p=4") with (Ok (E:=error) [argon2Memory; argon2Time; argon2Threads]).
  cbn [negb String.eqb Ascii.eqb Bool.eqb]. by rewrite !b64_decode_encode.
Qed.

(** A password verifies against its own hash, whatever the salt. *)
Lemma verify_encode salt password :
  argon2_Verify password
    (encode_hash salt (argon2_IDKey password salt argon2Time argon2Memory argon2Threads argon2KeyLen)) = Ok true.
Proof.
  unfold argon2_Verify. rewrite decode_encode_hash. cbn [ap_time ap_memory ap_threads ap_keyLen].
  rewrite argon2_IDKey_length by (unfold argon2Time, argon2Threads, argon2KeyLen; lia).
  change (Z.of_nat (Z.to_nat argon2KeyLen) mod 2 ^ 32) with argon2KeyLen. by rewrite String.eqb_refl.
Qed.

(** Verification of a hash that [Hash] wrote compares the derived keys, nothing else. *)
Lemma verify_other salt hash password :
  String.length hash = Z.to_nat argon2KeyLen ->
  argon2_Verify password (encode_hash salt hash) =
  Ok (hash =? argon2_IDKey password salt argon2Time argon2Memory argon2Threads argon2KeyLen)%string.
Proof.
  intros Hl. unfold argon2_Verify. rewrite decode_encode_hash, Hl. done.
Qed.

(** *** A hash fits its column *)

Lemma b64_encode_length s : (3 * String.length (b64_encode s) <= 4 * String.length s + 4)%nat.
Proof. induction s as [|a|a b|a b c s IH] using string_ind3; cbn [b64_encode String.length]; lia. Qed.

Lemma b64_plain c : is_b64 c = true -> is_plain c = true.
Proof.
  unfold is_b64, b64_val, is_plain. intros H. apply andb_true_iff. rewrite !Z.ltb_lt.
  repeat (case_match; bool_prop; try lia); done.
Qed.

Lemma hash_column salt hash :
  (String.length salt <= 32)%nat -> (String.length hash <= 32)%nat ->
  varchar 255 (encode_hash salt hash) = Ok (encode_hash salt hash).
Proof.
  intros Hs Hh. assert (Hp : forall s, string_forallb is_plain (b64_encode s) = true).
  { intros s. eapply string_forallb_impl; [apply b64_plain|apply b64_encode_chars]. }
  apply varchar_plain.
  - unfold encode_hash. rewrite argon2_Version_19, !string_forallb_app, !Hp. done.
  - unfold encode_hash. rewrite argon2_Version_19, !str_length_app.
    pose proof (b64_encode_length salt). pose proof (b64_encode_length hash). simpl. lia.
Qed.

(** *** The service *)

Definition argon2_service : HashService := {| Hash := argon2_Hash; HashVerify := argon2_Verify |}.

Lemma argon2_laws {P : PgLib} : @HashLaws U P argon2_service.
Proof.
  split. intros D DL flt password Q own es v HQ HE. simpl Hash. unfold argon2_Hash.
  apply wp_bind. apply wp_rand; [done|..].
  - intros salt v' Hc [? ?] Hn. apply HQ; [done..|apply verify_encode|].
    apply hash_column; [unfold argon2SaltLen in Hn; lia|].
    rewrite argon2_IDKey_length by (unfold argon2Time, argon2Threads, argon2KeyLen; lia).
    unfold argon2KeyLen. lia.
  - intros e v' Hf _ Hc [? ?]. by apply HE.
Qed.
End Hash.
