(* ===== verification/SignatureService.v ===== *)
(** [HMACSignatureService] (internal/service/signature_service.go): signatures are lowercase
    hexadecimal HMAC-SHA256 of the canonical string. *)

From S2P Require Export Ports Crypto Text.
From Stdlib Require Import Ascii.

Definition hmac_Sign (secretKey payload : string) : string := hex_encode (hmac_sha256 secretKey payload).

(** [hmac.Equal] is equality of the bytes, in constant time. *)
Definition hmac_Verify (secretKey payload signature : string) : bool :=
  (hmac_Sign secretKey payload =? signature)%string.

(** METHOD|PATH|TIMESTAMP|NONCE|BODY *)
Definition hmac_BuildCanonicalString (method path : string) (timestamp : Z) (nonce body : string) : string :=
  method +:+ "|" +:+ path +:+ "|" +:+ FormatInt timestamp +:+ "|" +:+ nonce +:+ "|" +:+ body.

#[export] Instance HMACSignatureService : SignatureService := {
  Sign := hmac_Sign;
  Verify := hmac_Verify;
  BuildCanonicalString := hmac_BuildCanonicalString
}.

#[export] Instance HMACSignatureLaws : SignatureLaws.
Proof. split. intros. unfold Verify, Sign, HMACSignatureService, hmac_Verify. rewrite String.eqb_eq. split; by intros ->. Qed.

(** ** The canonical string *)

Lemma bar_inj a a' b b' :
  has_char "|" a = false -> has_char "|" a' = false ->
  a +:+ "|" +:+ b = a' +:+ "|" +:+ b' -> a = a' /\ b = b'.
Proof.
  unfold has_char. revert a'. induction a as [|c a IH]; intros [|c' a'] Ha Ha' H; simpl in Ha, Ha'.
  - change (String "|" b = String "|" b') in H. by simplify_eq.
  - change (String "|" b = String c' (a' +:+ "|" +:+ b')) in H. simplify_eq.
  - change (String c (a +:+ "|" +:+ b) = String "|" b') in H. simplify_eq.
  - rewrite !str_app_cons in H. injection H as -> H. apply orb_false_iff in Ha as [_ Ha], Ha' as [_ Ha'].
    destruct (IH _ Ha Ha' H) as [-> ->]. done.
Qed.

Lemma digits_no_bar s : string_forallb is_digit s = true -> has_char "|" s = false.
Proof.
  unfold has_char. induction s as [|c s IH]; [done|]. cbn [string_forallb string_existsb].
  intros [Hc Hs]%andb_true_iff. rewrite IH, orb_false_r by done. apply Ascii.eqb_neq. by intros <-.
Qed.

Lemma format_no_bar z : has_char "|" (FormatInt z) = false.
Proof.
  unfold FormatInt. destruct (Z.ltb_spec z 0).
  - change (has_char "|" (String "-" (format_uint (- z)))) with (has_char "|" (format_uint (- z))).
    apply digits_no_bar, format_uint_digits. lia.
  - apply digits_no_bar, format_uint_digits. lia.
Qed.
