(* ===== verification/TokenService.v ===== *)
(** [JWTTokenService] (internal/service/token_service.go).  Encoding, signing and checking of
    tokens is golang-jwt, a parameter; the claims, the key function and the reading of the
    claims are the program's. *)

From S2P Require Export Rules.

Definition claim (k : string) (claims : list (string * json)) : option json :=
  snd <$> List.find (fun kv => (kv.1 =? k)%string) claims.

(** [jwt.NewWithClaims(SigningMethodHS256, claims).SignedString(secret)] and
    [jwt.Parse(token, keyFunc)] at an instant.  The key function is shown whether the token's
    method is an HMAC, and its [alg].  A token that was signed with the key the key function
    returns is accepted until the second its [exp] claim names, with the claims it was signed
    with (numbers may read back in another form); no token is accepted without a key. *)
Class JWT : Type := {
  jwt_SignedString : list (string * json) -> string -> res string;
  jwt_Parse : time -> string -> (bool -> string -> res string) -> res (list (string * json) * bool)
}.

(** The claims this service signs; of those that the library checks, only [exp] is among them
    (it looks at [nbf], and at others when it is configured to). *)
Definition claim_names : list string := ["sub"; "access_key"; "iat"; "exp"; "iss"].

Class JWTLaws {J : JWT} : Prop := {
  jwt_accepts claims secret token e now keyFunc :
    map fst claims = claim_names -> jwt_SignedString claims secret = Ok token -> keyFunc true "HS256" = Ok secret ->
    claim "exp" claims = Some (int_json e) -> now < e * Second ->
    exists claims', jwt_Parse now token keyFunc = Ok (claims', true) /\
      forall k s, utf8_valid s = true -> claim k claims = Some (JStr s) -> claim k claims' = Some (JStr s);
  jwt_expires claims secret token e now keyFunc :
    map fst claims = claim_names -> jwt_SignedString claims secret = Ok token -> keyFunc true "HS256" = Ok secret ->
    claim "exp" claims = Some (int_json e) -> e * Second <= now ->
    exists err, jwt_Parse now token keyFunc = Err err;
  jwt_keyed now token keyFunc r :
    jwt_Parse now token keyFunc = Ok r -> exists hmac alg key, keyFunc hmac alg = Ok key
}.

Section Token.
Context {U : UUIDLib} {J : JWT}.

Record JWTTokenService := mkJWT {
  jwt_secret : string;
  jwt_expiry : duration;
  jwt_issuer : string
}.

Definition token_claims (s : JWTTokenService) (merchantID : uuid) (accessKey : string) (now expiresAt : time)
    : list (string * json) :=
  [("sub", JStr (uuid_String merchantID));
   ("access_key", JStr accessKey);
   ("iat", int_json (Unix now));
   ("exp", int_json (Unix expiresAt));
   ("iss", JStr (jwt_issuer s))].

Definition jwt_Generate (s : JWTTokenService) (merchantID : uuid) (accessKey : string) : prog (res (string * time)) :=
  do now <- op Now ;;
  let expiresAt := now + jwt_expiry s in
  check tokenString <- jwt_SignedString (token_claims s merchantID accessKey now expiresAt) (jwt_secret s)
    catch err => fail (Errorf "signing token" err) ;;
  ok (tokenString, expiresAt).

Definition jwt_keyFunc (s : JWTTokenService) (hmac : bool) (alg : string) : res string :=
  if negb hmac then Err (ErrLeaf ("unexpected signing method: " +:+ alg)) else Ok (jwt_secret s).

(** [Validate], at the instant the library reads the clock. *)
Definition jwt_ValidateAt (s : JWTTokenService) (now : time) (tokenString : string) : res TokenClaims :=
  check token <- jwt_Parse now tokenString (jwt_keyFunc s) catch err => Err (Errorf "parsing token" err) ;;
  let '(claims, valid) := token in
  if negb valid then Err (ErrLeaf "invalid token claims") else
  match claim "sub" claims with
  | Some (JStr sub) =>
    check merchantID <- uuid_Parse sub catch err => Err (Errorf "invalid merchant ID in token" err) ;;
    let accessKey := match claim "access_key" claims with Some (JStr k) => k | _ => "" end in
    Ok (mkTokenClaims merchantID accessKey)
  | _ => Err (ErrLeaf "missing subject claim")
  end.

Definition jwt_service (s : JWTTokenService) : TokenService :=
  {| Generate := jwt_Generate s; ValidateAt := jwt_ValidateAt s |}.

Context {UL : UUIDLaws} {JL : JWTLaws}.

(** The claims of an issued token read back until they expire. *)
Lemma validate_issued s mid accessKey now expiry token :
  utf8_valid accessKey = true ->
  jwt_SignedString (token_claims s mid accessKey now expiry) (jwt_secret s) = Ok token ->
  @issued U (jwt_service s) mid accessKey token expiry.
Proof.
  intros Hu Hs. split; intros now' Hnow; simpl; unfold jwt_ValidateAt.
  - destruct (jwt_accepts (token_claims s mid accessKey now expiry) _ _ (Unix expiry) now' (jwt_keyFunc s) eq_refl Hs) as (claims' & -> & Hc); [done..|].
    rewrite (Hc "sub" (uuid_String mid)) by (done || apply uuid_utf8). rewrite uuid_Parse_String.
    by rewrite (Hc "access_key" accessKey).
  - destruct (jwt_expires (token_claims s mid accessKey now expiry) _ _ (Unix expiry) now' (jwt_keyFunc s) eq_refl Hs) as (err & ->); [done..|]. eauto.
Qed.

Lemma jwt_laws {P : PgLib} s : @TokenLaws U P (jwt_service s).
Proof.
  split. intros D DL flt mid accessKey Q own es v HQ HE. simpl Generate. unfold jwt_Generate.
  apply wp_bind. apply wp_now; [done|]. intros v' Hc [? ?].
  destruct (jwt_SignedString _ _) as [token|e] eqn:Hs; [|by apply HE].
  apply HQ; [done..|]. intros Hu. by eapply validate_issued.
Qed.

(** A token is accepted only under an HMAC method, and only if it names a merchant. *)
Lemma validate_sound s now token claims :
  jwt_ValidateAt s now token = Ok claims ->
  exists cs sub, jwt_Parse now token (jwt_keyFunc s) = Ok (cs, true) /\ claim "sub" cs = Some (JStr sub) /\
                 uuid_Parse sub = Ok (tc_MerchantID claims).
Proof.
  unfold jwt_ValidateAt. destruct (jwt_Parse _ _ _) as [[cs valid]|]; [|done]. destruct valid; [|done]. simpl.
  destruct (claim "sub" cs) as [[]|] eqn:Hsub; try done. destruct (uuid_Parse _) eqn:Hu; [|done].
  intros [= <-]. eauto.
Qed.
End Token.
