(* ===== verification/PaymentService.v ===== *)
(** [PaymentServiceImpl] (internal/service/payment_service.go): payments, refunds and top-ups.
    Each is one database transaction, rolled back by a deferred call unless it was committed;
    log lines are left out. *)

From S2P Require Export Repos RedisStores.

Section PaymentService.
Context {U : UUIDLib} {ES : EncryptionService}.

Definition idempotencyTTL : duration := 24 * Hour.

Definition unmarshalCachedTransaction (data : string) : res Transaction :=
  match Unmarshal_Transaction data with
  | Ok txn => Ok txn
  | Err err => Err (InternalError (Errorf "unmarshal cached tx" err))
  end.

(** Layers 1 and 2 of the idempotency check, which [ProcessPayment] and [ProcessRefund]
    spell out alike: the cached answer, if there is one, else [k]. A Redis failure is only
    logged. *)
Definition check_idempotency (idempKey : string) (k : prog (res Transaction)) : prog (res Transaction) :=
  do cached <- IdempotencyCache.Get idempKey ;;
  match cached with
  | Ok (Some data) => Ret (unmarshalCachedTransaction data)
  | _ =>
    try idempLog <- IdempotencyRepo.Get idempKey
      catch err => fail (InternalError (Errorf "db idempotency check" err)) ;;
    match idempLog with
    | Some l => Ret (unmarshalCachedTransaction (il_ResponseJSON l))
    | None => k
    end
  end.

(** Opening the locked wallet: decrypt and parse the balance. *)
Definition open_balance (wallet : Wallet) : res Z :=
  check balanceStr <- Decrypt (w_EncryptedBalance wallet)
    catch err => Err (ErrEncryptionFailure (Errorf "decrypt balance" err)) ;;
  check currentBalance <- ParseInt balanceStr
    catch err => Err (InternalError (Errorf "parse balance" err)) ;;
  Ok currentBalance.

(** *** [ProcessPayment]

    Its three stretches: the persisting statements up to the return, everything between
    BEGIN and the deferred rollback, the whole. *)

Definition persist_payment (dbTx : tx) (idempKey : string) (newBalanceEnc : string)
    (txn : Transaction) (now : time) : prog (res Transaction) :=
  try _ <- WalletRepo.UpdateBalance dbTx (tx_WalletID txn) newBalanceEnc
    catch err => fail (InternalError (Errorf "update balance" err)) ;;
  try _ <- TransactionRepo.Create dbTx txn
    catch err => fail (InternalError (Errorf "create transaction" err)) ;;
  check respJSON <- Marshal_Transaction txn
    catch err => fail (InternalError (Errorf "marshal response" err)) ;;
  try _ <- IdempotencyRepo.Create dbTx (mkIdempotencyLog idempKey (tx_ID txn) respJSON now)
    catch err => fail (InternalError (Errorf "save idempotency log" err)) ;;
  try _ <- op (PgCommit dbTx) catch err => fail (InternalError (Errorf "commit tx" err)) ;;
  do _ <- IdempotencyCache.Set_ idempKey respJSON idempotencyTTL ;;
  ok txn.

Definition payment_in_tx (req : PaymentRequest) (idempKey : string) (dbTx : tx) : prog (res Transaction) :=
  try wallet <- WalletRepo.GetByMerchantIDForUpdate dbTx (pr_MerchantID req) (pr_Currency req)
    catch err => fail (InternalError (Errorf "lock wallet" err)) ;;
  match wallet with
  | None => fail (ErrNotFound "wallet")
  | Some wallet =>
    check currentBalance <- open_balance wallet catch err => fail err ;;
    if currentBalance <? pr_Amount req then fail ErrInsufficientFunds else
    let newBalance := sub64 currentBalance (pr_Amount req) in
    try newBalanceEnc <- Encrypt (FormatInt newBalance)
      catch err => fail (ErrEncryptionFailure (Errorf "encrypt new balance" err)) ;;
    try amountEncrypted <- Encrypt (FormatInt (pr_Amount req))
      catch err => fail (ErrEncryptionFailure (Errorf "encrypt amount" err)) ;;
    do now <- op Now ;;
    do id <- op NewUUID ;;
    let txn := mkTransaction id (pr_ReferenceID req) (pr_MerchantID req) (w_ID wallet)
                 (pr_Amount req) amountEncrypted TransactionTypePayment TransactionStatusSuccess
                 (pr_Signature req) (pr_ClientIP req) (pr_ExtraData req) None now (Some now) in
    persist_payment dbTx idempKey newBalanceEnc txn now
  end.

Definition ProcessPayment (req : PaymentRequest) : prog (res Transaction) :=
  if pr_Amount req <=? 0 then fail ErrInvalidAmount else
  let idempKey := BuildIdempotencyKey (pr_MerchantID req) (pr_ReferenceID req) in
  check_idempotency idempKey (
  try dbTx <- Transactor.Begin catch err => fail (InternalError (Errorf "begin tx" err)) ;;
  defer (op (PgRollback dbTx)) (payment_in_tx req idempKey dbTx)).

(** *** [ProcessRefund] *)

Definition persist_refund (dbTx : tx) (idempKey : string) (newBalanceEnc : string)
    (origTx txn : Transaction) (now : time) : prog (res Transaction) :=
  try _ <- WalletRepo.UpdateBalance dbTx (tx_WalletID txn) newBalanceEnc
    catch err => fail (InternalError (Errorf "update balance" err)) ;;
  try _ <- TransactionRepo.Create dbTx txn
    catch err => fail (InternalError (Errorf "create refund tx" err)) ;;
  try _ <- TransactionRepo.UpdateStatus dbTx (tx_ID origTx) TransactionStatusReversed
    catch err => fail (InternalError (Errorf "reverse original tx" err)) ;;
  check respJSON <- Marshal_Transaction txn
    catch err => fail (InternalError (Errorf "marshal response" err)) ;;
  try _ <- IdempotencyRepo.Create dbTx (mkIdempotencyLog idempKey (tx_ID txn) respJSON now)
    catch err => fail (InternalError (Errorf "save idempotency log" err)) ;;
  try _ <- op (PgCommit dbTx) catch err => fail (InternalError (Errorf "commit tx" err)) ;;
  do _ <- IdempotencyCache.Set_ idempKey respJSON idempotencyTTL ;;
  ok txn.

Definition refund_in_tx (req : RefundRequest) (idempKey : string) (origTx : Transaction)
    (refundAmount : Z) (dbTx : tx) : prog (res Transaction) :=
  try wallet <- WalletRepo.GetByIDForUpdate dbTx (tx_WalletID origTx)
    catch err => fail (InternalError (Errorf "lock wallet" err)) ;;
  match wallet with
  | None => fail (ErrNotFound "wallet")
  | Some wallet =>
    check currentBalance <- open_balance wallet catch err => fail err ;;
    let newBalance := add64 currentBalance refundAmount in
    try newBalanceEnc <- Encrypt (FormatInt newBalance)
      catch err => fail (ErrEncryptionFailure (Errorf "encrypt new balance" err)) ;;
    try amountEncrypted <- Encrypt (FormatInt refundAmount)
      catch err => fail (ErrEncryptionFailure (Errorf "encrypt amount" err)) ;;
    do now <- op Now ;;
    let refundRefID := "REFUND-" +:+ rr_OriginalReferenceID req in
    do id <- op NewUUID ;;
    let txn := mkTransaction id refundRefID (rr_MerchantID req) (w_ID wallet)
                 refundAmount amountEncrypted TransactionTypeRefund TransactionStatusSuccess
                 (rr_Signature req) (rr_ClientIP req) (Some (rr_Reason req))
                 (Some (tx_ID origTx)) now (Some now) in
    persist_refund dbTx idempKey newBalanceEnc origTx txn now
  end.

(** The amount to refund: all of the original's, unless the request says how much. *)
Definition refund_amount (req : RefundRequest) (origTx : Transaction) : res Z :=
  match rr_Amount req with
  | Some amount =>
    if amount <=? 0 then Err ErrInvalidAmount
    else if tx_Amount origTx <? amount then Err ErrRefundAmountExceedsOriginal
    else Ok amount
  | None => Ok (tx_Amount origTx)
  end.

Definition ProcessRefund (req : RefundRequest) : prog (res Transaction) :=
  let idempKey := BuildRefundIdempotencyKey (rr_MerchantID req) (rr_OriginalReferenceID req) in
  check_idempotency idempKey (
  try origTx <- TransactionRepo.GetByReference (rr_MerchantID req) (rr_OriginalReferenceID req)
    catch err => fail (InternalError (Errorf "find original tx" err)) ;;
  match origTx with
  | None => fail (ErrNotFound "original transaction")
  | Some origTx =>
    if negb (IsRefundable origTx) then fail ErrInvalidRefund else
    try refundExists <- TransactionRepo.CheckRefundExists (tx_ID origTx)
      catch err => fail (InternalError (Errorf "check refund exists" err)) ;;
    if (refundExists : bool) then fail ErrDuplicateTransaction else
    check refundAmount <- refund_amount req origTx catch err => fail err ;;
    try dbTx <- Transactor.Begin catch err => fail (InternalError (Errorf "begin tx" err)) ;;
    defer (op (PgRollback dbTx)) (refund_in_tx req idempKey origTx refundAmount dbTx)
  end).

(** *** [ProcessTopup] *)

Definition topup_reference (merchantID : uuid) (now : time) : string :=
  "TOPUP-" +:+ str_take 8 (uuid_String merchantID) +:+ "-" +:+ FormatInt (UnixMilli now).

Definition persist_topup (dbTx : tx) (newBalanceEnc : string) (txn : Transaction) : prog (res Transaction) :=
  try _ <- WalletRepo.UpdateBalance dbTx (tx_WalletID txn) newBalanceEnc
    catch err => fail (InternalError (Errorf "update balance" err)) ;;
  try _ <- TransactionRepo.Create dbTx txn
    catch err => fail (InternalError (Errorf "create transaction" err)) ;;
  try _ <- op (PgCommit dbTx) catch err => fail (InternalError (Errorf "commit tx" err)) ;;
  ok txn.

Definition topup_in_tx (req : TopupRequest) (dbTx : tx) : prog (res Transaction) :=
  try wallet <- WalletRepo.GetByMerchantIDForUpdate dbTx (tr_MerchantID req) (tr_Currency req)
    catch err => fail (InternalError (Errorf "lock wallet" err)) ;;
  match wallet with
  | None => fail (ErrNotFound "wallet")
  | Some wallet =>
    check currentBalance <- open_balance wallet catch err => fail err ;;
    let newBalance := add64 currentBalance (tr_Amount req) in
    try newBalanceEnc <- Encrypt (FormatInt newBalance)
      catch err => fail (ErrEncryptionFailure (Errorf "encrypt new balance" err)) ;;
    try amountEncrypted <- Encrypt (FormatInt (tr_Amount req))
      catch err => fail (ErrEncryptionFailure (Errorf "encrypt amount" err)) ;;
    do now <- op Now ;;
    let refID := topup_reference (tr_MerchantID req) now in
    do id <- op NewUUID ;;
    let txn := mkTransaction id refID (tr_MerchantID req) (w_ID wallet)
                 (tr_Amount req) amountEncrypted TransactionTypeTopup TransactionStatusSuccess
                 "SYSTEM_TOPUP" "" None None now (Some now) in
    persist_topup dbTx newBalanceEnc txn
  end.

Definition ProcessTopup (req : TopupRequest) : prog (res Transaction) :=
  if tr_Amount req <=? 0 then fail ErrInvalidAmount else
  try dbTx <- Transactor.Begin catch err => fail (InternalError (Errorf "begin tx" err)) ;;
  defer (op (PgRollback dbTx)) (topup_in_tx req dbTx).
End PaymentService.
