(* ===== verification/Middleware.v ===== *)
(** Package [middleware] (internal/adapter/http/middleware): request authentication, rate
    limits, audit entries, body size.  Log lines are left out. *)

From S2P Require Export Repos RedisStores Response AuditService.

Definition HeaderAccessKey : string := "X-Merchant-Access-Key".
Definition HeaderSignature : string := "X-Signature".
Definition HeaderTimestamp : string := "X-Timestamp".
Definition HeaderNonce : string := "X-Nonce".

Definition maxTimestampDrift : duration := 60 * Second.
Definition nonceTTL : duration := 120 * Second.

(** [math.Abs(float64(now-timestamp)) > maxTimestampDrift.Seconds()]: the conversion rounds no
    difference across 60. *)
Definition drifted (now : time) (timestamp : Z) : bool :=
  Z.quot maxTimestampDrift Second <? Z.abs (sub64 (Unix now) timestamp).

Section Middleware.
Context {U : UUIDLib} {ES : EncryptionService} {SS : SignatureService} {TS : TokenService}.

(** The request is signed by the merchant: the body is read, put back, and verified. *)
Definition verify_signature (merchant : Merchant) (timestamp : Z) (next : Ctx -> prog Ctx) (c : Ctx) : prog Ctx :=
  check secretKey <- Decrypt (m_SecretKeyEnc merchant) catch err => Error c (InternalError err) ;;
  check bodyBytes <- ReadAll (rq_Body (c_Request c))
    catch _err => Error c (Validation "cannot read request body") ;;
  let c := set_Body (mkReader bodyBytes None) c in
  let canonical := BuildCanonicalString (rq_Method (c_Request c)) (rq_Path (c_Request c)) timestamp
                     (GetHeader c HeaderNonce) bodyBytes in
  if negb (Verify secretKey canonical (GetHeader c HeaderSignature)) then Error c ErrInvalidSignature else
  next (set_Merchant merchant (set_AccessKey (m_AccessKey merchant) (set_MerchantID (m_ID merchant) c))).

Definition HMACAuth : HandlerFunc := fun next c =>
  let accessKey := GetHeader c HeaderAccessKey in
  let signature := GetHeader c HeaderSignature in
  let timestampStr := GetHeader c HeaderTimestamp in
  let nonce := GetHeader c HeaderNonce in
  if (accessKey =? "")%string || (signature =? "")%string || (timestampStr =? "")%string || (nonce =? "")%string
  then Error c ErrInvalidAccessKey else
  check timestamp <- ParseInt timestampStr catch _err => Error c ErrTimestampExpired ;;
  do now <- op Now ;;
  if drifted now timestamp then Error c ErrTimestampExpired else
  try merchant <- MerchantRepo.GetByAccessKey accessKey catch err => Error c (InternalError err) ;;
  match merchant with
  | None => Error c ErrInvalidAccessKey
  | Some merchant =>
    if negb (IsActive merchant) then Error c ErrMerchantSuspended else
    do isNew <- NonceStore.CheckAndSet (uuid_String (m_ID merchant)) nonce nonceTTL ;;
    match isNew with
    | Ok false => Error c ErrNonceUsed
    | _ => verify_signature merchant timestamp next c
    end
  end.

Definition JWTAuth : HandlerFunc := fun next c =>
  let authHeader := GetHeader c "Authorization" in
  if (authHeader =? "")%string || (String.length authHeader <? 8)%nat || negb (str_take 7 authHeader =? "Bearer ")%string
  then Error c ErrInvalidToken else
  try claims <- Validate (str_drop 7 authHeader) catch _err => Error c ErrInvalidToken ;;
  next (set_AccessKey (tc_AccessKey claims) (set_MerchantID (tc_MerchantID claims) c)).

(** The clock is read before and after the request; the line that is logged is left out. *)
Definition RequestLogger : HandlerFunc := fun next c =>
  do _start <- op Now ;;
  do c <- next c ;;
  do _end <- op Now ;;
  Ret c.

(** Panics are not modelled: nothing is recovered. *)
Definition Recovery : HandlerFunc := fun next c => next c.

Definition MaxBodySize (maxBytes : Z) : HandlerFunc := fun next c =>
  next (set_Body (MaxBytesReader maxBytes (rq_Body (c_Request c))) c).

(** *** Rate limits *)

Record RateLimitRule := mkRateLimitRule { rl_Limit : Z; rl_Window : duration }.

Definition DefaultRateLimitRules : list (string * RateLimitRule) :=
  [("payments", mkRateLimitRule 100 Minute);
   ("payments_refund", mkRateLimitRule 30 Minute);
   ("auth_login", mkRateLimitRule 10 Minute);
   ("auth_register", mkRateLimitRule 5 Hour);
   ("dashboard", mkRateLimitRule 60 Minute);
   ("wallets_topup", mkRateLimitRule 20 Minute)].

(** The access key the request claims, the merchant that was authenticated, the address. *)
Definition extractIdentifier (c : Ctx) : string :=
  let ak := GetHeader c HeaderAccessKey in
  if negb (ak =? "")%string then ak else
  match c_MerchantID c with
  | Some mid => uuid_String mid
  | None => ClientIP c
  end.

Definition rate_limit_headers (result : RateLimitResult) (c : Ctx) : Ctx :=
  Header "X-RateLimit-Reset" (FormatInt (ResetAt result))
    (Header "X-RateLimit-Remaining" (FormatInt (Remaining result))
      (Header "X-RateLimit-Limit" (FormatInt (Limit result)) c)).

Definition RateLimiter (group : string) (rule : RateLimitRule) : HandlerFunc := fun next c =>
  let key := extractIdentifier c +:+ ":" +:+ group in
  do result <- RateLimitStore.Allow key (rl_Limit rule) (rl_Window rule) ;;
  match result with
  | Err _ => next c
  | Ok result =>
    let c := rate_limit_headers result c in
    if negb (Allowed result) then
      do now <- op Now ;;
      let retryAfter := sub64 (ResetAt result) (Unix now) in
      Error (Header "Retry-After" (FormatInt (if retryAfter <? 1 then 1 else retryAfter)) c) ErrRateLimitExceeded
    else next c
  end.

(** *** Audit entries *)

Definition mapPathToAction (path method : string) : option (string * string) :=
  if (path =? "/api/v1/auth/register")%string && (method =? "POST")%string
  then Some (AuditActionRegister, "merchant")
  else if (path =? "/api/v1/auth/login")%string && (method =? "POST")%string
  then Some (AuditActionLogin, "session")
  else if (path =? "/api/v1/payments")%string && (method =? "POST")%string
  then Some (AuditActionPayment, "transaction")
  else if (path =? "/api/v1/payments/refund")%string && (method =? "POST")%string
  then Some (AuditActionRefund, "transaction")
  else if (path =? "/api/v1/wallets/topup")%string && (method =? "POST")%string
  then Some (AuditActionTopup, "wallet")
  else if (path =? "/api/v1/merchants/me/webhook")%string && (method =? "PUT")%string
  then Some (AuditActionUpdateWebhook, "merchant")
  else if (path =? "/api/v1/merchants/me/rotate-keys")%string && (method =? "POST")%string
  then Some (AuditActionRotateKeys, "merchant")
  else None.

(** What is worth an entry: a write that succeeded. *)
Definition audited (c : Ctx) : option (string * string) :=
  let method := rq_Method (c_Request c) in
  if (Status c <? 200) || (300 <=? Status c) then None
  else if (method =? "GET")%string || (method =? "HEAD")%string || (method =? "OPTIONS")%string then None
  else mapPathToAction (rq_Path (c_Request c)) method.

(** [persistent]: the audit service has a repository. *)
Definition AuditLog_ (persistent : bool) : HandlerFunc := fun next c =>
  do c <- next c ;;
  match audited c with
  | None => Ret c
  | Some (action, resourceType) =>
    let details := json_print (JObj [("method", JStr (rq_Method (c_Request c)));
                                     ("path", JStr (rq_Path (c_Request c)));
                                     ("status", int_json (Status c))]) in
    do id <- op NewUUID ;;
    do now <- op Now ;;
    do _ <- Log persistent (mkAuditLog id (c_MerchantID c) action resourceType "" details (ClientIP c) now) ;;
    Ret c
  end.
End Middleware.
