(* ===== verification/Handlers.v ===== *)
(** Package [handler] (internal/adapter/http/handler): from requests to service calls, from
    their results to answers.

    JSON objects the code builds as maps ([gin.H]) have their members in the order of the
    names, as encoding/json prints them. *)

From S2P Require Export Dto Middleware AuthService MerchantService ReportingService WebhookService PaymentService.
From Stdlib Require Import SpecFloat.

Section Handlers.
Context {U : UUIDLib} {ES : EncryptionService} {HS : HashService} {SS : SignatureService} {TS : TokenService}.
Context {UP : URLParser} {RU : RequestURI} {V : Validator}.

(** The bound and sanitised body, or a validation error. *)
Definition with_body {A} {BA : Body A} {SA : Sanitize A} (c : Ctx) (k : A -> prog Ctx) : prog Ctx :=
  check req <- ShouldBindJSON (rq_Body (c_Request c)) catch err => Error c (Validation (error_text err)) ;;
  k (SanitizeStruct req).

(** [c.Get(middleware.CtxMerchantID)] *)
Definition authenticated (c : Ctx) (k : uuid -> prog Ctx) : prog Ctx :=
  match c_MerchantID c with
  | Some merchantID => k merchantID
  | None => Error c ErrInvalidToken
  end.

(** *** auth_handler.go *)

Definition handle_Register (c : Ctx) : prog Ctx :=
  with_body c (fun req =>
    try result <- Register (mkRegisterRequest (rb_Username req) (rb_Password req) (rb_MerchantName req) (rb_WebhookURL req))
      catch err => Error c err ;;
    Created c (RegisterResponse_json
      (mkRegisterResponseBody (uuid_String (rs_MerchantID result)) (rs_AccessKey result) (rs_SecretKey result)))).

Definition handle_Login (c : Ctx) : prog Ctx :=
  with_body c (fun req =>
    try r <- Login (lb_Username req) (lb_Password req) catch err => Error c err ;;
    OK c (LoginResponse_json (mkLoginResponse (fst r) (Unix (snd r))))).

(** A dependency: its name and its ping. *)
Definition HealthChecker : Type := string * prog (res unit).

Fixpoint check_all (checkers : list HealthChecker) : prog (list (string * res unit)) :=
  match checkers with
  | [] => Ret []
  | (name, ping) :: checkers =>
    do r <- ping ;;
    do rs <- check_all checkers ;;
    Ret ((name, r) :: rs)
  end.

Definition dep_json (r : res unit) : json :=
  match r with
  | Ok _ => JObj [("status", JStr "healthy")]
  | Err err => JObj (("status", JStr "unhealthy") ::
                     (if (error_text err =? "")%string then [] else [("error", JStr (error_text err))]))
  end.

(** The checkers' names are distinct and in alphabetical order, so the list is the map. *)
Definition HealthCheck (checkers : list HealthChecker) (c : Ctx) : prog Ctx :=
  do deps <- check_all checkers ;;
  let allHealthy := forallb (fun d => is_ok (snd d)) deps in
  Ret (answer_with (if allHealthy then StatusOK else StatusServiceUnavailable)
         (JSON (JObj [("dependencies", JObj (map (fun d => (fst d, dep_json (snd d))) deps));
                      ("status", JStr (if allHealthy then "healthy" else "degraded"))])) c).

(** *** payment_handler.go *)

Definition toTransactionResponse (t : Transaction) : TransactionResponse :=
  mkTransactionResponse (uuid_String (tx_ID t)) (tx_ReferenceID t) (tx_Amount t) (tx_TransactionType t) (tx_Status t)
    (Format_RFC3339 (tx_CreatedAt t)) (Format_RFC3339 <$> tx_ProcessedAt t).

(** [webhooks]: the handlers have a webhook service, [persistent]: which has a repository. *)
Context (webhooks persistent : bool).

Definition respond (c : Ctx) (result : Transaction) : prog Ctx :=
  do _ <- (if webhooks then do _ <- EnqueueWebhook persistent result ;; Ret tt else Ret tt) ;;
  Created c (TransactionResponse_json (toTransactionResponse result)).

Definition handle_ProcessPayment (c : Ctx) : prog Ctx :=
  authenticated c (fun merchantID =>
  with_body c (fun req =>
    try result <- ProcessPayment (mkPaymentRequest merchantID (pb_ReferenceID req) (pb_Amount req) (pb_Currency req)
                                    "" (ClientIP c) (pb_ExtraData req))
      catch err => Error c err ;;
    respond c result)).

Definition handle_ProcessRefund (c : Ctx) : prog Ctx :=
  authenticated c (fun merchantID =>
  with_body c (fun req =>
    try result <- ProcessRefund (mkRefundRequest merchantID (fb_OriginalReferenceID req) (fb_Amount req)
                                   (fb_Reason req) "" (ClientIP c))
      catch err => Error c err ;;
    respond c result)).

(** *** wallet_handler.go *)

Definition handle_Topup (c : Ctx) : prog Ctx :=
  authenticated c (fun merchantID =>
  with_body c (fun req =>
    try result <- ProcessTopup (mkTopupRequest merchantID (tb_Amount req) (tb_Currency req))
      catch err => Error c err ;;
    respond c result)).

Definition handle_GetBalance (c : Ctx) : prog Ctx :=
  authenticated c (fun merchantID =>
    try r <- GetWalletBalance merchantID catch err => Error c err ;;
    OK c (WalletBalanceResponse_json (mkWalletBalanceResponse (fst r) (snd r)))).

(** *** dashboard_handler.go *)

Definition handle_GetStats (c : Ctx) : prog Ctx :=
  authenticated c (fun merchantID =>
    try stats <- GetDashboardStats merchantID (DefaultQuery c "period" "all") catch err => Error c err ;;
    OK c (DashboardStatsResponse_json
      (mkDashboardStatsResponse (TotalTransactions stats) (Successful stats) (Failed stats) (Reversed stats)
         (TotalRevenue stats) (TotalRefunded stats) (TotalTopup stats)))).

(** The value [strconv.Atoi] returns beside its error: 0 for bad syntax, the nearest integer
    out of range. *)
Definition Atoi_value (s : string) : Z :=
  match Atoi s with
  | Ok n => n
  | Err e => if (error_text e =? error_text ErrRange)%string
             then (if (str_take 1 s =? "-")%string then min_int64 else max_int64)
             else 0
  end.

Definition page_of (c : Ctx) : Z :=
  let page := Atoi_value (DefaultQuery c "page" "1") in
  if page <? 1 then 1 else page.

Definition page_size_of (c : Ctx) : Z :=
  let pageSize := Atoi_value (DefaultQuery c "page_size" "20") in
  if (pageSize <? 1) || (100 <? pageSize) then 20 else pageSize.

Definition nonempty_query (c : Ctx) (name : string) : option string :=
  let s := Query c name in if (s =? "")%string then None else Some s.

Definition int_query (c : Ctx) (name : string) : option Z :=
  match ParseInt (Query c name) with Ok v => Some v | Err _ => None end.

Definition list_params (c : Ctx) (merchantID : uuid) : TransactionListParams :=
  mkTransactionListParams merchantID (nonempty_query c "status") (nonempty_query c "type")
    (int_query c "from") (int_query c "to") (page_of c) (page_size_of c).

(** [int(math.Ceil(float64(total) / float64(pageSize)))], in binary64. *)
Definition float64 (z : Z) : spec_float := binary_normalize 53 1024 z 0 false.

Definition ceil_of (f : spec_float) : Z :=
  match f with
  | S754_finite s m e => let v := cond_Zopp s (Zpos m) in if 0 <=? e then v * 2 ^ e else - ((- v) / 2 ^ (- e))
  | _ => 0
  end.

Definition total_pages (total pageSize : Z) : Z := ceil_of (SFdiv 53 1024 (float64 total) (float64 pageSize)).

Definition handle_ListTransactions (c : Ctx) : prog Ctx :=
  authenticated c (fun merchantID =>
    let params := list_params c merchantID in
    try r <- ListTransactions params catch err => Error c err ;;
    let '(txns, total) := r in
    OK c (TransactionListResponse_json
      (mkTransactionListResponse (map toTransactionResponse txns) total (lp_Page params) (lp_PageSize params)
         (total_pages total (lp_PageSize params))))).

(** *** merchant_handler.go *)

Definition handle_GetProfile (c : Ctx) : prog Ctx :=
  authenticated c (fun merchantID =>
    try profile <- GetProfile merchantID catch err => Error c err ;;
    OK c (JObj [("created_at", JStr (mp_CreatedAt profile));
                ("id", uuid_json (mp_ID profile));
                ("merchant_name", JStr (mp_MerchantName profile));
                ("status", JStr (mp_Status profile));
                ("username", JStr (mp_Username profile));
                ("webhook_url", match mp_WebhookURL profile with Some u => JStr u | None => JNull end)])).

Definition handle_UpdateWebhookURL (c : Ctx) : prog Ctx :=
  authenticated c (fun merchantID =>
  with_body c (fun req =>
    try _ <- UpdateWebhookURL merchantID (ub_WebhookURL req) catch err => Error c err ;;
    OK c (JObj [("message", JStr "webhook URL updated")]))).

Definition handle_RotateKeys (c : Ctx) : prog Ctx :=
  authenticated c (fun merchantID =>
    try result <- RotateKeys merchantID catch err => Error c err ;;
    OK c (JObj [("access_key", JStr (rk_AccessKey result)); ("secret_key", JStr (rk_SecretKey result))])).

(** *** swagger.go *)

Definition SwaggerSpec (spec : option string) (c : Ctx) : prog Ctx :=
  Ret (match spec with
       | None => answer_with StatusNotFound (Data "text/plain; charset=utf-8" "OpenAPI spec not loaded") c
       | Some bytes => answer_with StatusOK (Data "application/x-yaml" bytes) c
       end).

(** [page] is the constant page of the file. *)
Definition SwaggerUI (page : string) (c : Ctx) : prog Ctx :=
  Ret (answer_with StatusOK (Data "text/html; charset=utf-8" page) c).
End Handlers.
