(* ===== verification/Router.v ===== *)
(** [SetupRouter] (internal/adapter/http/handler/router.go) and the server main.go wires: from
    an HTTP request to its answer.

    Matching a path is gin's: a route is found by its method and exact path, since no route of
    the program has a parameter.  What gin answers otherwise (404 after the global middleware,
    redirects of trailing slashes before any handler) is a parameter. *)

From S2P Require Export Handlers.

Class GinFallback {U : UUIDLib} : Type := {
  noRoute : Ctx -> Ctx;
  gin_redirect : Request -> option Answer
}.

(** The dependencies that may be nil, and what the swagger routes serve. *)
Record RouterDeps := mkRouterDeps {
  d_WebhookSvc : bool;
  d_WebhookRepo : bool;
  d_RateLimitStore : bool;
  d_MerchantSvc : bool;
  d_AuditSvc : bool;
  d_AuditRepo : bool;
  d_SwaggerSpec : option string;
  d_SwaggerPage : string
}.

Section Router.
Context {U : UUIDLib} {ES : EncryptionService} {HS : HashService} {SS : SignatureService} {TS : TokenService}.
Context {UP : URLParser} {RU : RequestURI} {V : Validator} {GF : GinFallback}.
Context (deps : RouterDeps).

(** [rl(group)] *)
Definition rl (group : string) : HandlerFunc :=
  if d_RateLimitStore deps then
    match find (fun r => (fst r =? group)%string) DefaultRateLimitRules with
    | Some (_, rule) => RateLimiter group rule
    | None => fun next c => next c
    end
  else fun next c => next c.

Definition global_middleware : list HandlerFunc :=
  [Recovery; RequestLogger; MaxBodySize (Z.shiftl 1 20)]
  ++ if d_AuditSvc deps then [AuditLog_ (d_AuditRepo deps)] else [].

(** [deps.HealthCheckers], as main.go passes them. *)
Definition HealthCheckers : list HealthChecker :=
  [(PgHealth.Name, PgHealth.Ping); (RedisHealth.Name, RedisHealth.Ping)].

Definition payment_routes : list (string * string * list HandlerFunc) :=
  [("POST", "/api/v1/payments",
     [HMACAuth; rl "payments"; final (handle_ProcessPayment (d_WebhookSvc deps) (d_WebhookRepo deps))]);
   ("POST", "/api/v1/payments/refund",
     [HMACAuth; rl "payments_refund"; final (handle_ProcessRefund (d_WebhookSvc deps) (d_WebhookRepo deps))])].

Definition dashboard_routes : list (string * string * list HandlerFunc) :=
  [("GET", "/api/v1/wallets/balance", [JWTAuth; rl "dashboard"; final handle_GetBalance]);
   ("POST", "/api/v1/wallets/topup",
     [JWTAuth; rl "wallets_topup"; final (handle_Topup (d_WebhookSvc deps) (d_WebhookRepo deps))]);
   ("GET", "/api/v1/dashboard/stats", [JWTAuth; rl "dashboard"; final handle_GetStats]);
   ("GET", "/api/v1/transactions", [JWTAuth; rl "dashboard"; final handle_ListTransactions])].

Definition merchant_routes : list (string * string * list HandlerFunc) :=
  if d_MerchantSvc deps then
    [("GET", "/api/v1/merchants/me", [JWTAuth; rl "dashboard"; final handle_GetProfile]);
     ("PUT", "/api/v1/merchants/me/webhook", [JWTAuth; rl "dashboard"; final handle_UpdateWebhookURL]);
     ("POST", "/api/v1/merchants/me/rotate-keys", [JWTAuth; rl "dashboard"; final handle_RotateKeys])]
  else [].

Definition public_routes : list (string * string * list HandlerFunc) :=
  [("GET", "/health", [final (HealthCheck HealthCheckers)]);
   ("GET", "/swagger", [final (SwaggerUI (d_SwaggerPage deps))]);
   ("GET", "/swagger/spec", [final (SwaggerSpec (d_SwaggerSpec deps))]);
   ("POST", "/api/v1/auth/register", [rl "auth_register"; final handle_Register]);
   ("POST", "/api/v1/auth/login", [rl "auth_login"; final handle_Login])].

Definition routes : list (string * string * list HandlerFunc) :=
  public_routes ++ payment_routes ++ dashboard_routes ++ merchant_routes.

Definition route (method path : string) : option (list HandlerFunc) :=
  snd <$> find (fun r => (fst (fst r) =? method)%string && (snd (fst r) =? path)%string) routes.

(** One request, from its arrival to its answer. *)
Definition ServeHTTP (r : Request) : prog Ctx :=
  match route (rq_Method r) (rq_Path r) with
  | Some handlers => chain (global_middleware ++ handlers) (new_Ctx r)
  | None =>
    match gin_redirect r with
    | Some a => Ret (answer_with (an_Status a) (an_Content a) (new_Ctx r))
    | None => chain (global_middleware ++ [final (fun c => Ret (noRoute c))]) (new_Ctx r)
    end
  end.
End Router.
