(* ===== verification/Config.v ===== *)
(** Package [config] (config/config.go): the settings, where each comes from, and the addresses
    built of them.

    The library that reads them (viper) is a parameter.  What [Load] tells it is kept as data;
    where a setting then comes from is what its documentation says: the environment, if a
    variable of the key's name is set and not empty; else the file; else the default. *)

From S2P Require Export Rules.
From Stdlib Require Import Ascii.

(** ** The settings *)

Record ServerConfig := mkServerConfig { srv_Host : string; srv_Port : Z; srv_Mode : string }.

Record DatabaseConfig := mkDatabaseConfig {
  db_Host : string;
  db_Port : Z;
  db_User : string;
  db_Password : string;
  db_DBName : string;
  db_SSLMode : string;
  db_MaxConns : Z;
  db_MinConns : Z;
  db_ConnMaxLifetime : duration
}.

Definition DSN (d : DatabaseConfig) : string :=
  "postgres://" +:+ db_User d +:+ ":" +:+ db_Password d +:+ "@" +:+ db_Host d +:+ ":" +:+ FormatInt (db_Port d)
  +:+ "/" +:+ db_DBName d +:+ "?sslmode=" +:+ db_SSLMode d.

Record RedisConfig := mkRedisConfig { rd_Host : string; rd_Port : Z; rd_Password : string; rd_DB : Z }.

Definition Addr (r : RedisConfig) : string := rd_Host r +:+ ":" +:+ FormatInt (rd_Port r).

Record JWTConfig := mkJWTConfig { jw_Secret : string; jw_Expiry : duration; jw_Issuer : string }.

Record AESConfig := mkAESConfig { ae_Key : string }.

Record LogConfig := mkLogConfig { lg_Level : string; lg_Pretty : bool }.

Record Config := mkConfig {
  c_Server : ServerConfig;
  c_Database : DatabaseConfig;
  c_Redis : RedisConfig;
  c_JWT : JWTConfig;
  c_AES : AESConfig;
  c_Log : LogConfig
}.

(** ** viper *)

(** A setting, as the default, the file, or the environment (always a string) has it. *)
Inductive setting :=
| SStr (s : string)
| SInt (z : Z)
| SBool (b : bool).

Inductive ConfigSource :=
| ConfigFile (path : string)
| ConfigNamed (name type : string) (paths : list string).

(** What a [*viper.Viper] was told. *)
Record Viper := mkViper {
  vp_defaults : list (string * setting);
  vp_source : ConfigSource;
  vp_env_prefix : string;
  vp_env_replacer : ascii * ascii;
  vp_config : list (string * setting)        (* what the file said *)
}.

Inductive ReadError := ConfigFileNotFoundError | ReadFailed (err : error).

(** [ReadInConfig], [Get], and how mapstructure decodes a setting into a field of each type. *)
Class ViperLib : Type := {
  ReadInConfig : ConfigSource -> list (string * setting) + ReadError;
  Getenv : string -> string;
  Get : Viper -> string -> option setting;
  decode_string : setting -> res string;
  decode_int : setting -> res Z;
  decode_int32 : setting -> res Z;
  decode_bool : setting -> res bool;
  decode_duration : setting -> res duration
}.

Fixpoint string_map (f : ascii -> ascii) (s : string) : string :=
  match s with
  | EmptyString => EmptyString
  | String c s => String (f c) (string_map f s)
  end.

Definition upper (c : ascii) : ascii :=
  if (97 <=? byte_val c) && (byte_val c <=? 122) then byte_of (byte_val c - 32) else c.

(** The variable of a key: the prefix and the key, its characters replaced, in capitals. *)
Definition env_name (v : Viper) (key : string) : string :=
  let '(from, to_) := vp_env_replacer v in
  string_map upper (vp_env_prefix v +:+ "_" +:+ string_map (fun c => if (c =? from)%char then to_ else c) key).

Definition lookup_key {A} (key : string) (l : list (string * A)) : option A := snd <$> List.find (fun kv => (kv.1 =? key)%string) l.

(** What [Get] finds. *)
Definition setting_of `{ViperLib} (v : Viper) (key : string) : option setting :=
  let env := Getenv (env_name v key) in
  if negb (env =? "")%string then Some (SStr env) else
  match lookup_key key (vp_config v) with
  | Some x => Some x
  | None => lookup_key key (vp_defaults v)
  end.

Class ViperLaws `{ViperLib} : Prop := {
  Get_spec v key : Get v key = setting_of v key
}.

Section Load.
Context {VL : ViperLib}.

Definition defaults : list (string * setting) :=
  [("server.host", SStr "0.0.0.0"); ("server.port", SInt 8080); ("server.mode", SStr "debug");
   ("database.host", SStr "localhost"); ("database.port", SInt 5432); ("database.user", SStr "postgres");
   ("database.password", SStr "postgres"); ("database.dbname", SStr "payment_gateway");
   ("database.sslmode", SStr "disable"); ("database.max_conns", SInt 20); ("database.min_conns", SInt 5);
   ("database.conn_max_lifetime", SStr "30m");
   ("redis.host", SStr "localhost"); ("redis.port", SInt 6379); ("redis.password", SStr ""); ("redis.db", SInt 0);
   ("jwt.secret", SStr ""); ("jwt.expiry", SStr "24h"); ("jwt.issuer", SStr "secure-payment-gateway");
   ("aes.key", SStr ""); ("log.level", SStr "info"); ("log.pretty", SBool false)].

Definition config_source (path : string) : ConfigSource :=
  if negb (path =? "")%string then ConfigFile path else ConfigNamed "config" "yaml" ["."; "./config"].

(** [AllKeys]: what [Unmarshal] goes through.  A key that is in the environment alone is not
    among them. *)
Definition known_key (v : Viper) (key : string) : bool :=
  existsb (fun kv => (kv.1 =? key)%string) (vp_config v) || existsb (fun kv => (kv.1 =? key)%string) (vp_defaults v).

(** One field of a struct: the setting its tag names; it keeps its zero value when there is
    none. *)
Definition cfg_field {A} (decode : setting -> res A) (zero : A) (v : Viper) (key : string) : res A :=
  if negb (known_key v key) then Ok zero else
  match Get v key with
  | Some x => decode x
  | None => Ok zero
  end.

(** [v.Unmarshal(&cfg)]: field by field, by the tags of the structs.  The error of the first
    field that cannot be read stands for the list of all. *)
Definition unmarshal_Server (v : Viper) : res ServerConfig :=
  let! host := cfg_field decode_string "" v "server.host" in
  let! port := cfg_field decode_int 0 v "server.port" in
  let! mode := cfg_field decode_string "" v "server.mode" in
  Ok (mkServerConfig host port mode).

Definition unmarshal_Database (v : Viper) : res DatabaseConfig :=
  let! host := cfg_field decode_string "" v "database.host" in
  let! port := cfg_field decode_int 0 v "database.port" in
  let! user := cfg_field decode_string "" v "database.user" in
  let! password := cfg_field decode_string "" v "database.password" in
  let! dbname := cfg_field decode_string "" v "database.dbname" in
  let! sslmode := cfg_field decode_string "" v "database.sslmode" in
  let! max_conns := cfg_field decode_int32 0 v "database.max_conns" in
  let! min_conns := cfg_field decode_int32 0 v "database.min_conns" in
  let! lifetime := cfg_field decode_duration 0 v "database.conn_max_lifetime" in
  Ok (mkDatabaseConfig host port user password dbname sslmode max_conns min_conns lifetime).

Definition unmarshal_Redis (v : Viper) : res RedisConfig :=
  let! host := cfg_field decode_string "" v "redis.host" in
  let! port := cfg_field decode_int 0 v "redis.port" in
  let! password := cfg_field decode_string "" v "redis.password" in
  let! db := cfg_field decode_int 0 v "redis.db" in
  Ok (mkRedisConfig host port password db).

Definition unmarshal_JWT (v : Viper) : res JWTConfig :=
  let! secret := cfg_field decode_string "" v "jwt.secret" in
  let! expiry := cfg_field decode_duration 0 v "jwt.expiry" in
  let! issuer := cfg_field decode_string "" v "jwt.issuer" in
  Ok (mkJWTConfig secret expiry issuer).

Definition unmarshal_AES (v : Viper) : res AESConfig :=
  let! key := cfg_field decode_string "" v "aes.key" in Ok (mkAESConfig key).

Definition unmarshal_Log (v : Viper) : res LogConfig :=
  let! level := cfg_field decode_string "" v "log.level" in
  let! pretty := cfg_field decode_bool false v "log.pretty" in
  Ok (mkLogConfig level pretty).

Definition Unmarshal (v : Viper) : res Config :=
  let! server := unmarshal_Server v in
  let! database := unmarshal_Database v in
  let! redis := unmarshal_Redis v in
  let! jwt := unmarshal_JWT v in
  let! aes := unmarshal_AES v in
  let! log := unmarshal_Log v in
  Ok (mkConfig server database redis jwt aes log).

(** The [*viper.Viper] of [Load], the file still to be read. *)
Definition viper_of (path : string) (file : list (string * setting)) : Viper :=
  mkViper defaults (config_source path) "SPG" ("."%char, "_"%char) file.

Definition Load (path : string) : res Config :=
  let v := viper_of path [] in
  let unmarshal v := check cfg <- Unmarshal v catch err => Err (Errorf "unmarshaling config" err) ;; Ok cfg in
  match ReadInConfig (vp_source v) with
  | inl file => unmarshal (viper_of path file)
  | inr ConfigFileNotFoundError => unmarshal v
  | inr (ReadFailed err) => Err (Errorf "reading config file" err)
  end.
End Load.
