(* ===== verification/Startup.v ===== *)
(** From the configuration to a server that listens: logger (pkg/logger), connections
    (postgres/db.go, redis/redis.go), and the wiring of main (cmd/api/main.go).

    Opening a connection is pgx's and go-redis's; what they are given is the program's.  Each
    is tried once ([Ping]) before anything else starts.  A failure is fatal: the process logs
    its message and exits.  What the server does on a signal is in Shutdown. *)

From S2P Require Export Config Router EncryptionService HashService SignatureService TokenService.

(** ** Logger *)

Inductive Level := DebugLevel | InfoLevel | WarnLevel | ErrorLevel.

Definition parseLevel (level : string) : Level :=
  if (level =? "debug")%string then DebugLevel
  else if (level =? "info")%string then InfoLevel
  else if (level =? "warn")%string then WarnLevel
  else if (level =? "error")%string then ErrorLevel
  else InfoLevel.

(** What a [zerolog.Logger] is made of: its writer, its level, and what it adds to a line. *)
Inductive Writer := Stdout | ConsoleWriter (timeFormat : string).

Record Logger := mkLogger { lr_Writer : Writer; lr_Level : Level; lr_Timestamp : bool; lr_Caller : bool }.

Definition New (level : string) (pretty : bool) : Logger :=
  mkLogger (if pretty then ConsoleWriter "2006-01-02T15:04:05Z07:00" else Stdout) (parseLevel level) true true.

(** ** Connections *)

(** What [pgxpool.ParseConfig] makes of a connection string, of which the code sets three
    fields; [pgxpool.NewWithConfig] opens no connection yet. *)
Record PoolConfig := mkPoolConfig {
  pl_ConnString : string;
  pl_MaxConns : Z;
  pl_MinConns : Z;
  pl_MaxConnLifetime : duration
}.

Class PgxPool : Type := {
  ParseConfig : string -> res PoolConfig;
  NewWithConfig : PoolConfig -> res unit
}.

Record RedisOptions := mkRedisOptions { rp_Addr : string; rp_Password : string; rp_DB : Z }.

Section Startup.
Context {U : UUIDLib} {PX : PgxPool}.

Definition pool_config (cfg : DatabaseConfig) (poolCfg : PoolConfig) : PoolConfig :=
  mkPoolConfig (pl_ConnString poolCfg) (db_MaxConns cfg) (db_MinConns cfg)
    (if 0 <? db_ConnMaxLifetime cfg then db_ConnMaxLifetime cfg else pl_MaxConnLifetime poolCfg).

(** The pool, by its configuration.  [pool.Ping] runs an empty statement. *)
Definition NewPool (cfg : DatabaseConfig) : prog (res PoolConfig) :=
  check poolCfg <- ParseConfig (DSN cfg) catch err => fail (Errorf "parsing database config" err) ;;
  let poolCfg := pool_config cfg poolCfg in
  check _ <- NewWithConfig poolCfg catch err => fail (Errorf "creating connection pool" err) ;;
  try _ <- op (Pg None SelectOne) catch err => fail (Errorf "pinging database" err) ;;
  ok poolCfg.

Definition NewClient (cfg : RedisConfig) : prog (res RedisOptions) :=
  let options := mkRedisOptions (Addr cfg) (rd_Password cfg) (rd_DB cfg) in
  try _ <- op RedisPing catch err => fail (Errorf "pinging redis" err) ;;
  ok options.

(** ** main *)

(** What the process listens with. *)
Record App := mkApp {
  app_Addr : string;
  app_Logger : Logger;
  app_Pool : PoolConfig;
  app_Redis : RedisOptions;
  app_EncSvc : AESEncryptionService;
  app_TokenSvc : JWTTokenService;
  app_Deps : RouterDeps
}.

(** [log.Fatal()], or [os.Exit(1)] when there is no logger yet. *)
Record Fatal := mkFatal { ft_Message : string; ft_Error : error }.

Definition NewJWTTokenService (secret : string) (expiry : duration) (issuer : string) : JWTTokenService :=
  mkJWT secret expiry issuer.

(** Every service and store is there; the Swagger page is shown, its document if the file could
    be read. *)
Definition router_deps (spec : res string) (page : string) : RouterDeps :=
  mkRouterDeps true true true true true true (match spec with Ok bytes => Some bytes | Err _ => None end) page.

Definition start (cfg : Config) (spec : res string) (page : string) : prog (App + Fatal) :=
  let log := New (lg_Level (c_Log cfg)) (lg_Pretty (c_Log cfg)) in
  try pool <- NewPool (c_Database cfg) catch err => Ret (inr (mkFatal "Failed to connect to PostgreSQL" err)) ;;
  try rdb <- NewClient (c_Redis cfg) catch err => Ret (inr (mkFatal "Failed to connect to Redis" err)) ;;
  check encSvc <- NewAESEncryptionService (ae_Key (c_AES cfg))
    catch err => Ret (inr (mkFatal "Failed to initialize encryption service" err)) ;;
  let tokenSvc := NewJWTTokenService (jw_Secret (c_JWT cfg)) (jw_Expiry (c_JWT cfg)) (jw_Issuer (c_JWT cfg)) in
  let addr := srv_Host (c_Server cfg) +:+ ":" +:+ FormatInt (srv_Port (c_Server cfg)) in
  Ret (inl (mkApp addr log pool rdb encSvc tokenSvc (router_deps spec page))).

Definition main `{ViperLib} (spec : res string) (page : string) : prog (App + Fatal) :=
  check cfg <- Load "" catch err => Ret (inr (mkFatal "failed to load config" err)) ;;
  start cfg spec page.

Context {A2 : Argon2} {J : JWT} {UP : URLParser} {RU : RequestURI} {V : Validator} {GF : GinFallback}.

(** The handler of the server: the router over the program's own services. *)
Definition app_ServeHTTP (app : App) : Request -> prog Ctx :=
  ServeHTTP (ES := aes_service (app_EncSvc app)) (HS := argon2_service) (SS := HMACSignatureService)
    (TS := jwt_service (app_TokenSvc app)) (app_Deps app).
End Startup.
