(* ===== verification/Ledger.v ===== *)
(** The abstract ledger that the payment service maintains: what one booking does to the
    tables ([booking]), the steps of the whole system on them ([ledger_step]), and the
    invariants those steps keep.  The theorems of [PaymentSpec] say that the service's
    programs are such steps; this file is about the steps alone. *)

From S2P Require Export PaymentService Rules Concurrency.

Section Ledger.
Context {U : UUIDLib} {UL : UUIDLaws} {P : PgLib} {JL : JsonbLaws} {ES : EncryptionService}.

(** ** State *)

Definition balance (T : Tables) (id : uuid) : option Z :=
  match wallets T !! id with
  | Some w => match open_balance w with Ok b => Some b | Err _ => None end
  | None => None
  end.

(** No other merchant has this one's username or access key. *)
Definition merchant_fits (T : Tables) (m : Merchant) : Prop :=
  forall id m', merchants T !! id = Some m' -> id <> m_ID m ->
                m_Username m' <> m_Username m /\ m_AccessKey m' <> m_AccessKey m.

(** The texts of a row that statements look up are ones a parameter can have. *)
Definition texts_ok (x : write) : Prop :=
  match x with
  | WMerchant m => readable (m_Username m) = true /\ readable (m_AccessKey m) = true
  | WWallet w => readable (w_Currency w) = true
  | WTransaction t => readable (tx_ReferenceID t) = true
  | _ => True
  end.

(** Rows sit under their primary key and hold readable texts; usernames and access keys are
    unique. *)
Record wf_tables (T : Tables) : Prop := {
  wf_merchant id m : merchants T !! id = Some m -> m_ID m = id;
  wf_unique id m : merchants T !! id = Some m -> merchant_fits T m;
  wf_wallet id w : wallets T !! id = Some w -> w_ID w = id;
  wf_transaction id t : transactions T !! id = Some t -> tx_ID t = id;
  wf_log k l : idempotency_logs T !! k = Some l -> il_Key l = k;
  wf_merchant_texts id m : merchants T !! id = Some m -> texts_ok (WMerchant m);
  wf_wallet_text id w : wallets T !! id = Some w -> texts_ok (WWallet w);
  wf_transaction_text id t : transactions T !! id = Some t -> texts_ok (WTransaction t)
}.

(** The log of an idempotency key: the column is a VARCHAR(255). *)
Definition key_log (T : Tables) (key : string) (l : IdempotencyLog) : Prop :=
  exists k, (key = k \/ varchar 255 key = Ok k) /\ idempotency_logs T !! k = Some l.

(** The answer kept under an idempotency key. *)
Definition answered (T : Tables) (key : string) (r : res Transaction) : Prop :=
  exists l, key_log T key l /\ unmarshalCachedTransaction (il_ResponseJSON l) = r.

(** The cache agrees with the logs. *)
Definition cache_ok (v : View) : Prop :=
  forall key s e, v_redis v !! (IdempotencyCache.prefix +:+ key) = Some (s, e) ->
                  answered (v_tables v) key (unmarshalCachedTransaction s).

(** ** Steps *)

(** A booking: the transaction [txn] moves the balance of its wallet by [delta], an original
    is marked reversed, and the answer is logged under [key]. *)
Definition booking (txn : Transaction) (delta : Z) (reversed : option uuid) (key : option string)
    (T T' : Tables) : Prop :=
  exists w b enc now row reversal logs,
    wallets T !! tx_WalletID txn = Some w /\ open_balance w = Ok b /\
    Decrypt enc = Ok (FormatInt (wrap64 (b + delta))) /\
    store_transaction txn = Ok row /\ transactions T !! tx_ID txn = None /\
    match reversed with
    | Some o => is_Some (transactions T !! o) /\ exists at_, reversal = [WStatus o TransactionStatusReversed at_]
    | None => reversal = []
    end /\
    match key with
    | Some key =>
      exists l, varchar 255 key = Ok (il_Key l) /\ idempotency_logs T !! il_Key l = None /\
                il_TransactionID l = tx_ID txn /\
                unmarshalCachedTransaction (il_ResponseJSON l) = Ok (visible txn) /\
                logs = [WIdempotencyLog l]
    | None => logs = []
    end /\
    T' = apply_writes ([WBalance (tx_WalletID txn) enc now; WTransaction row] ++ reversal ++ logs) T.

(** A printable ciphertext of a number. *)
Definition sealed (enc : string) (z : Z) : Prop :=
  Decrypt enc = Ok (FormatInt z) /\ string_forallb is_lower_hex enc = true.

(** The transaction a payment books, and what it needs. *)
Definition payment_txn (req : PaymentRequest) (txn : Transaction) : Prop :=
  exists id wid enc now,
    sealed enc (pr_Amount req) /\
    txn = mkTransaction id (pr_ReferenceID req) (pr_MerchantID req) wid (pr_Amount req) enc
            TransactionTypePayment TransactionStatusSuccess (pr_Signature req) (pr_ClientIP req)
            (pr_ExtraData req) None now (Some now).

(** What the type and the validation of the request give: a 64-bit amount, a reference of at
    most 100 characters. *)
Definition payment_valid (req : PaymentRequest) : Prop :=
  in_int64 (pr_Amount req) /\ (rune_count (pr_ReferenceID req) <= 100)%nat.

Definition payment_step (req : PaymentRequest) (txn : Transaction) (T T' : Tables) : Prop :=
  payment_txn req txn /\ 0 < pr_Amount req /\
  (exists w b, wallets T !! tx_WalletID txn = Some w /\
     wallet_of (pr_MerchantID req) (pr_Currency req) w = true /\
     open_balance w = Ok b /\ pr_Amount req <= b) /\
  booking txn (- pr_Amount req) None
    (Some (BuildIdempotencyKey (pr_MerchantID req) (pr_ReferenceID req))) T T'.

Definition refund_txn (req : RefundRequest) (orig : Transaction) (amount : Z) (txn : Transaction) : Prop :=
  exists id enc now,
    sealed enc amount /\
    txn = mkTransaction id ("REFUND-" +:+ rr_OriginalReferenceID req) (rr_MerchantID req)
            (tx_WalletID orig) amount enc TransactionTypeRefund TransactionStatusSuccess
            (rr_Signature req) (rr_ClientIP req) (Some (rr_Reason req)) (Some (tx_ID orig))
            now (Some now).

(** The original is read before the transaction starts, in tables [Tr]. *)
Definition refund_step (req : RefundRequest) (txn : Transaction) (Tr T T' : Tables) : Prop :=
  exists orig amount,
    refund_txn req orig amount txn /\
    transactions Tr !! tx_ID orig = Some orig /\ IsRefundable orig = true /\
    tx_MerchantID orig = rr_MerchantID req /\ tx_ReferenceID orig = rr_OriginalReferenceID req /\
    refund_amount req orig = Ok amount /\
    booking txn amount (Some (tx_ID orig))
      (Some (BuildRefundIdempotencyKey (rr_MerchantID req) (rr_OriginalReferenceID req))) T T'.

Definition topup_txn (req : TopupRequest) (txn : Transaction) : Prop :=
  exists id wid enc now,
    sealed enc (tr_Amount req) /\
    txn = mkTransaction id (topup_reference (tr_MerchantID req) now) (tr_MerchantID req) wid
            (tr_Amount req) enc TransactionTypeTopup TransactionStatusSuccess "SYSTEM_TOPUP" ""
            None None now (Some now).

Definition topup_step (req : TopupRequest) (txn : Transaction) (T T' : Tables) : Prop :=
  topup_txn req txn /\ 0 < tr_Amount req /\
  (exists w, wallets T !! tx_WalletID txn = Some w /\
             wallet_of (tr_MerchantID req) (tr_Currency req) w = true) /\
  booking txn (tr_Amount req) None None T T'.

(** Equal in the columns of a transaction that no statement changes. *)
Definition same_transaction (t t' : Transaction) : Prop := set_status "" 0 t = set_status "" 0 t'.

(** Logs stay, transactions keep their immutable columns, well-formedness is kept: what a
    goroutine may rely on after it has read a row without locking it. *)
Record persists (T T' : Tables) : Prop := {
  per_log k l : idempotency_logs T !! k = Some l -> idempotency_logs T' !! k = Some l;
  per_transaction id t :
    transactions T !! id = Some t -> exists t', transactions T' !! id = Some t' /\ same_transaction t t';
  per_wf : wf_tables T -> wf_tables T'
}.

(** Changes to the other tables, and new wallets. *)
Definition aside (T : Tables) (x : write) : Prop :=
  texts_ok x /\
  match x with
  | WMerchant m => merchant_fits T m
  | WWebhookLog _ | WAuditLog _ => True
  | WWallet w => wallets T !! w_ID w = None
  | _ => False
  end.

Inductive ledger_step (T T' : Tables) : Prop :=
| ls_payment req txn : payment_valid req -> payment_step req txn T T' -> ledger_step T T'
| ls_refund req txn Tr : persists Tr T -> refund_step req txn Tr T T' -> ledger_step T T'
| ls_topup req txn : in_int64 (tr_Amount req) -> topup_step req txn T T' -> ledger_step T T'
| ls_aside x : aside T x -> T' = apply_write x T -> ledger_step T T'.

(** ** Bookings *)

Lemma store_transaction_inv t row :
  store_transaction t = Ok row ->
  tx_ID row = tx_ID t /\ tx_MerchantID row = tx_MerchantID t /\ tx_WalletID row = tx_WalletID t /\
  tx_Amount row = tx_Amount t /\ tx_OriginalTransactionID row = tx_OriginalTransactionID t /\
  varchar 100 (tx_ReferenceID t) = Ok (tx_ReferenceID row) /\
  varchar 20 (tx_TransactionType t) = Ok (tx_TransactionType row) /\
  varchar 20 (tx_Status t) = Ok (tx_Status row) /\
  varchar 45 (tx_ClientIP t) = Ok (tx_ClientIP row) /\
  nullable text (tx_ExtraData t) = Ok (tx_ExtraData row) /\
  Z.abs (tx_Amount t) < 10 ^ 18.
Proof.
  unfold store_transaction. intros H.
  repeat (apply result_bind_Ok in H as (? & ? & H)). simplify_eq. simpl.
  unfold decimal_20_2 in *. case_match; bool_prop; simplify_eq. done.
Qed.

Lemma text_inv s s' : text s = Ok s' -> s' = s /\ utf8_valid s = true /\ has_nul s = false.
Proof. unfold text, readable. case_match; [|done]. intros [= <-]. bool_prop. done. Qed.

Lemma varchar_text n s s' : varchar n s = Ok s' -> utf8_valid s = true /\ has_nul s = false.
Proof.
  unfold varchar. intros H. apply result_bind_Ok in H as (s1 & H & _). by apply text_inv in H as (-> & ? & ?).
Qed.

Lemma nullable_text o o' :
  nullable text o = Ok o' -> utf8_valid (default "" o) = true /\ has_nul (default "" o) = false.
Proof.
  destruct o as [s|]; simpl; [|done]. destruct (text s) eqn:E; [|done]. by apply text_inv in E as (_ & ? & ?).
Qed.

(** *** The logged answer reads back *)

(** A transaction that was stored and marshalled has a faithful JSON text, which a JSONB
    column keeps. *)
Lemma stored_json t row data :
  store_transaction t = Ok row -> in_int64 (tx_Amount t) -> Marshal_Transaction t = Ok data ->
  json_safe t = true /\ jsonb_flat (transaction_fields t) = true.
Proof.
  intros Hs Ha Hm. apply store_transaction_inv in Hs as (_&_&_&_&_&Hr&Hty&Hst&Hip&Hex&_).
  apply varchar_text in Hr as [Hr1 Hr2], Hty as [Ht1 Ht2], Hst as [Hs1 Hs2], Hip as [Hi1 Hi2].
  apply nullable_text in Hex as [He1 He2].
  apply Marshal_Transaction_inv in Hm as [Hc Hp].
  assert (Hsafe : json_safe t = true) by (apply json_safe_spec; tauto).
  split; [done|].
  assert (Hu : forall u, jsonb_scalar (uuid_json u) = true).
  { intros u. cbn [jsonb_scalar uuid_json]. by rewrite uuid_utf8, (plain_no_nul _ (uuid_plain u)). }
  assert (Ht : forall x, json_year x = true -> jsonb_scalar (time_json x) = true).
  { intros x Hx. cbn [jsonb_scalar time_json]. by rewrite (format_nano_utf8 _ Hx), (plain_no_nul _ (format_nano_plain _ Hx)). }
  unfold jsonb_flat, transaction_fields, opt_field.
  rewrite !forallb_app. cbn [forallb fst snd]. rewrite !Hu, (Ht _ Hc).
  cbn [jsonb_scalar int_json]. rewrite Hr1, Hr2, Ht1, Ht2, Hs1, Hs2, (int_lit_format _ Ha).
  destruct (_ =? _)%string, (tx_ExtraData t), (tx_OriginalTransactionID t), (tx_ProcessedAt t);
    cbn [forallb fst snd jsonb_scalar default] in *; unfold id in *;
    rewrite ?Hu, ?(Ht _ Hp), ?Hi1, ?Hi2, ?He1, ?He2; reflexivity.
Qed.

Lemma unmarshal_marshal t row data :
  store_transaction t = Ok row -> in_int64 (tx_Amount t) -> Marshal_Transaction t = Ok data ->
  unmarshalCachedTransaction data = Ok (visible t).
Proof.
  intros Hs Ha Hm. destruct (stored_json _ _ _ Hs Ha Hm) as [Hj _].
  unfold unmarshalCachedTransaction. by rewrite (Unmarshal_Marshal _ _ Hj Hm).
Qed.

Lemma unmarshal_jsonb t row data data' :
  store_transaction t = Ok row -> in_int64 (tx_Amount t) -> Marshal_Transaction t = Ok data ->
  jsonb_col data = Ok data' -> unmarshalCachedTransaction data' = Ok (visible t).
Proof.
  intros Hs Ha Hm Hc. destruct (stored_json _ _ _ Hs Ha Hm) as [Hj Hf].
  rewrite (Marshal_Transaction_ok _ Hj) in Hm.
  assert (data = json_print (JObj (transaction_fields t))) as -> by congruence. clear Hm.
  destruct (jsonb_object _ Hf) as (s' & l' & Hb & Hp & HP).
  { pose proof (transaction_fields_nodup t) as Hnd. unfold folded_keys in Hnd.
    rewrite <- (map_map fst fold_key) in Hnd. by apply NoDup_fmap_1 in Hnd. }
  unfold jsonb_col in Hc. rewrite Hb in Hc. injection Hc as <-.
  unfold unmarshalCachedTransaction. by rewrite (Unmarshal_perm _ _ _ Hj Hp HP).
Qed.

(** *** What steps keep *)

(** Writes of readable texts that collide with no row. *)
Definition write_fits (T : Tables) (x : write) : Prop :=
  texts_ok x /\
  match x with
  | WMerchant m => merchant_fits T m
  | WTransaction t => transactions T !! tx_ID t = None
  | WIdempotencyLog l => idempotency_logs T !! il_Key l = None
  | _ => True
  end.

Lemma wf_apply_write x T : write_fits T x -> wf_tables T -> wf_tables (apply_write x T).
Proof.
  intros [Hr Hx] [Hm Hu Hw Ht Hl Hmt Hwt Htt]. split; destruct x; simpl in *; try done; intros k v;
    rewrite ?lookup_insert_Some, ?lookup_alter_Some; intros; des; subst; simpl; eauto 2.
  - intros id m' Hm' Hid. simpl in Hm'. apply lookup_insert_Some in Hm' as [[<- <-]|[Hne Hm']]; [done|].
    by apply (Hx id m').
  - intros id m' Hm' Hid. simpl in Hm'. apply lookup_insert_Some in Hm' as [[<- <-]|[Hne Hm']].
    + destruct (Hx k v) as [Hk1 Hk2]; [done|by rewrite <- (Hm k v)|]. split; congruence.
    + by apply (Hu k v ltac:(done) id m').
Qed.

#[export] Instance persists_preorder : PreOrder persists.
Proof.
  split.
  - intros T. split; unfold same_transaction; eauto.
  - intros T1 T2 T3 [L1 X1 W1] [L2 X2 W2]. split; [auto| |auto].
    intros id t Ht. destruct (X1 _ _ Ht) as (t1 & Ht1 & E1). destruct (X2 _ _ Ht1) as (t2 & Ht2 & E2).
    exists t2. split; [done|]. unfold same_transaction in *. congruence.
Qed.

Lemma persists_write x T : write_fits T x -> persists T (apply_write x T).
Proof.
  intros Hx. split; [| |by apply wf_apply_write]; destruct Hx as [_ Hx].
  - intros k l Hk. destruct x; simpl in *; try done. rewrite lookup_insert_ne; [done|].
    intros <-. by rewrite Hx in Hk.
  - intros id t Hk. unfold same_transaction. destruct x; simpl in *; eauto.
    + rewrite lookup_insert_ne; [eauto|]. intros <-. by rewrite Hx in Hk.
    + destruct (decide (id0 = id)) as [->|Hne]; [|rewrite lookup_alter_ne; eauto].
      rewrite lookup_alter_eq, Hk. simpl. eauto.
Qed.

Lemma booking_persists txn delta reversed key T T' : booking txn delta reversed key T T' -> persists T T'.
Proof.
  intros (w & b & enc & now & row & reversal & logs & Hw & Hb & He & Hs & Hfresh & Hr & Hk & ->).
  apply store_transaction_inv in Hs as (Hid & _ & _ & _ & _ & Href%varchar_readable & _).
  assert (Hp1 : persists T (apply_writes [WBalance (tx_WalletID txn) enc now; WTransaction row] T)).
  { unfold apply_writes. cbn [fold_left]. etrans; apply persists_write; try done.
    split; [done|]. simpl. by rewrite Hid. }
  rewrite apply_writes_app. etrans; [exact Hp1|].
  assert (Hlogs : idempotency_logs (apply_writes [WBalance (tx_WalletID txn) enc now; WTransaction row] T)
                  = idempotency_logs T) by done.
  revert Hlogs. generalize (apply_writes [WBalance (tx_WalletID txn) enc now; WTransaction row] T).
  intros T1 Hlogs. rewrite apply_writes_app.
  assert (Hp2 : persists T1 (apply_writes reversal T1) /\
                idempotency_logs (apply_writes reversal T1) = idempotency_logs T1).
  { destruct reversed as [o|]; [destruct Hr as [_ [at_ ->]]|subst reversal]; [|done].
    split; [|done]. by apply persists_write. }
  destruct Hp2 as [Hp2 Hl2]. etrans; [exact Hp2|].
  destruct key as [key|]; [|by subst logs]. destruct Hk as (l & _ & Hnone & _ & _ & ->).
  apply persists_write. split; [done|]. simpl. by rewrite Hl2, Hlogs.
Qed.

Lemma ledger_step_persists T T' : ledger_step T T' -> persists T T'.
Proof.
  intros [req txn _ (_ & _ & _ & H)|req txn Tr _ (? & ? & _ & _ & _ & _ & _ & _ & H)
         |req txn _ (_ & _ & _ & H)|x Hx ->].
  1-3: by eapply booking_persists.
  apply persists_write. destruct Hx as [Hr Hx]. split; [done|]. by destruct x.
Qed.

Definition ledger_steps : Tables -> Tables -> Prop := rtc ledger_step.

Lemma ledger_steps_persist T T' : ledger_steps T T' -> persists T T'.
Proof. induction 1; [done|]. etrans; [by apply ledger_step_persists|done]. Qed.

(** ** The discipline of the service

    Shared tables change by ledger steps, and whatever enters the cache is logged.  [RT] is
    what the others may do to the tables: nothing when the service runs alone, ledger steps
    when it does not. *)

Class LedgerRely (RT : Tables -> Tables -> Prop) : Prop := {
  lr_preorder :: PreOrder RT;
  lr_persists T T' : RT T T' -> persists T T'
}.

#[export] Instance eq_rely : LedgerRely eq.
Proof. split; [apply _|]. by intros T T' ->. Qed.

#[export] Instance steps_rely : LedgerRely ledger_steps.
Proof. split; [apply _|apply ledger_steps_persist]. Qed.

Definition ledger (RT : Tables -> Tables -> Prop) (quiet : bool) : Discipline := {|
  d_inv v := wf_tables (v_tables v) /\ cache_ok v;
  d_guar v v' := (v_tables v' = v_tables v \/ ledger_step (v_tables v) (v_tables v')) /\
                 (cache_ok v -> cache_ok v');
  d_rely v v' := RT (v_tables v) (v_tables v') /\ (quiet = true -> forall h, tx_open h v' -> tx_open h v);
  d_tables := RT;
  d_waits _ _ _ := True;
  d_done _ _ := True
|}.

#[export] Instance ledger_patient RT quiet : Patient (ledger RT quiet).
Proof. done. Qed.

#[export] Instance ledger_laws RT {LR : LedgerRely RT} quiet : DisciplineLaws (ledger RT quiet).
Proof.
  split; simpl.
  - intros v v' [Hwf Hc] [Hs Hc']. split; [|by apply Hc']. destruct Hs as [->|Hs]; [done|].
    by eapply per_wf; [apply ledger_step_persists|].
  - intros v v' HT HR. split; [by left|]. unfold cache_ok. by rewrite HT, HR.
  - intros v c v' H. exact H.
  - intros v. split; [reflexivity|done].
  - intros v1 v2 v3 [H1 L1] [H2 L2]. split; [by etrans|auto].
  - intros v c _. split; [reflexivity|done].
  - by intros v v' [? _].
  - done.
  - apply lr_preorder.
Qed.
End Ledger.
