(* ===== verification/LedgerInv.v ===== *)
(** Invariants of the ledger: money is conserved, a reference is paid once, a payment is
    refunded once and by no more than it was.  They are proved of [ledger_step], hence of every
    interleaving of the service's requests ([PaymentConcurrency]). *)

From S2P Require Export Ledger.

Section Effects.
Context {U : UUIDLib} {UL : UUIDLaws} {P : PgLib} {JL : JsonbLaws} {ES : EncryptionService}.

(** ** What a booking does *)

Lemma open_balance_set enc now w z :
  Decrypt enc = Ok (FormatInt z) -> in_int64 z -> open_balance (set_balance enc now w) = Ok z.
Proof. intros Hd Hz. unfold open_balance. simpl. by rewrite Hd, parse_int_format. Qed.

Lemma open_balance_range w b : open_balance w = Ok b -> in_int64 b.
Proof.
  unfold open_balance. destruct (Decrypt _); [|done]. destruct (ParseInt _) eqn:E; [|done].
  intros [= <-]. by eapply ParseInt_range.
Qed.

Lemma balance_range T id b : balance T id = Some b -> in_int64 b.
Proof.
  unfold balance. destruct (wallets T !! id) as [w|]; [|done].
  destruct (open_balance w) eqn:Ho; [|done]. intros [= <-]. by eapply open_balance_range.
Qed.

Lemma alter_as_insert {A} (f : A -> A) (id : uuid) (m : gmap uuid A) a :
  m !! id = Some a -> alter f id m = <[id := f a]> m.
Proof.
  intros Ha. apply map_eq. intros k. destruct (decide (id = k)) as [<-|Hne].
  - by rewrite lookup_alter_eq, lookup_insert_eq, Ha.
  - by rewrite lookup_alter_ne, lookup_insert_ne.
Qed.

Lemma booking_wallets txn delta reversed key T T' :
  booking txn delta reversed key T T' ->
  exists w b enc now, wallets T !! tx_WalletID txn = Some w /\ open_balance w = Ok b /\
    open_balance (set_balance enc now w) = Ok (wrap64 (b + delta)) /\
    wallets T' = <[tx_WalletID txn := set_balance enc now w]> (wallets T).
Proof.
  intros (w & b & enc & now & row & reversal & logs & Hw & Hb & He & _ & _ & Hr & Hk & ->).
  exists w, b, enc, now. split_and!; [done|done| |].
  - apply open_balance_set; [done|apply wrap64_range].
  - assert (Hsame : forall ws T1, (forall x, x ∈ ws -> (exists o s a, x = WStatus o s a) \/ (exists l, x = WIdempotencyLog l)) ->
                                  wallets (apply_writes ws T1) = wallets T1).
    { unfold apply_writes. induction ws as [|x ws IH]; intros T1 Hws; simpl; [done|].
      rewrite IH by (intros y Hy; apply Hws; by right).
      destruct (Hws x) as [(? & ? & ? & ->)|[? ->]]; [left|done..]. }
    rewrite apply_writes_app, Hsame.
    + simpl. by apply alter_as_insert.
    + intros x [Hx|Hx]%elem_of_app.
      * destruct reversed; [destruct Hr as [_ [? ->]]|subst reversal; set_solver].
        apply list_elem_of_singleton in Hx as ->. left. eauto.
      * destruct key; [destruct Hk as (? & _ & _ & _ & _ & ->)|subst logs; set_solver].
        apply list_elem_of_singleton in Hx as ->. right. eauto.
Qed.

Definition reverse_row (at_ : time) (reversed : option uuid) (id : uuid) (t : Transaction) : Transaction :=
  if decide (reversed = Some id) then set_status TransactionStatusReversed at_ t else t.

Lemma booking_transactions txn delta reversed key T T' :
  booking txn delta reversed key T T' ->
  exists row at_, store_transaction txn = Ok row /\ transactions T !! tx_ID txn = None /\
    (forall o, reversed = Some o -> is_Some (transactions T !! o)) /\
    transactions T' !! tx_ID txn = Some row /\
    forall id, id <> tx_ID txn -> transactions T' !! id = reverse_row at_ reversed id <$> transactions T !! id.
Proof.
  intros (w & b & enc & now & row & reversal & logs & _ & _ & _ & Hs & Hfresh & Hr & Hk & ->).
  assert (Hid : tx_ID row = tx_ID txn) by (by apply store_transaction_inv in Hs as [? _]).
  assert (Hlogs : forall T1, transactions (apply_writes logs T1) = transactions T1).
  { intros T1. destruct key; [destruct Hk as (l & _ & _ & _ & _ & ->)|subst logs]; done. }
  destruct reversed as [o|].
  - destruct Hr as [[t Ho] [at_ ->]]. exists row, at_. rewrite !apply_writes_app, Hlogs. simpl.
    assert (Hne : o <> tx_ID txn) by congruence. rewrite Hid. split_and!; [done|done|naive_solver| |].
    + rewrite lookup_alter_ne by done. by rewrite lookup_insert_eq.
    + intros id Hne'. unfold reverse_row. destruct (decide (o = id)) as [->|Hoi].
      * rewrite lookup_alter_eq, lookup_insert_ne by done.
        destruct (transactions T !! id); simpl; [by rewrite decide_True|done].
      * rewrite lookup_alter_ne, lookup_insert_ne by done.
        destruct (transactions T !! id); simpl; [rewrite decide_False by congruence|]; done.
  - subst reversal. exists row, 0. rewrite !apply_writes_app, Hlogs. simpl. rewrite Hid.
    split_and!; [done|done|done|by rewrite lookup_insert_eq|]. intros id Hne.
    rewrite lookup_insert_ne by done. by destruct (transactions T !! id).
Qed.

Lemma booking_logs txn delta reversed key T T' :
  booking txn delta reversed (Some key) T T' ->
  exists l, varchar 255 key = Ok (il_Key l) /\ idempotency_logs T !! il_Key l = None /\
    il_TransactionID l = tx_ID txn /\ idempotency_logs T' = <[il_Key l := l]> (idempotency_logs T).
Proof.
  intros (w & b & enc & now & row & reversal & logs & _ & _ & _ & _ & _ & Hr & (l & Hk & Hn & Hi & _ & ->) & ->).
  exists l. split_and!; [done..|]. rewrite !apply_writes_app. simpl. f_equal.
  destruct reversed; [destruct Hr as [_ [? ->]]|subst reversal]; done.
Qed.

Lemma booking_no_logs txn delta reversed T T' :
  booking txn delta reversed None T T' -> idempotency_logs T' = idempotency_logs T.
Proof.
  intros (w & b & enc & now & row & reversal & logs & _ & _ & _ & _ & _ & Hr & -> & ->).
  rewrite !apply_writes_app. simpl. destruct reversed; [destruct Hr as [_ [? ->]]|subst reversal]; done.
Qed.

(** The tables no booking touches. *)
Lemma booking_others txn delta reversed key T T' :
  booking txn delta reversed key T T' ->
  merchants T' = merchants T /\ webhook_delivery_logs T' = webhook_delivery_logs T /\ audit_logs T' = audit_logs T.
Proof.
  intros (w & b & enc & now & row & reversal & logs & _ & _ & _ & _ & _ & Hr & Hk & ->).
  rewrite !apply_writes_app. simpl.
  destruct reversed; [destruct Hr as [_ [? ->]]|subst reversal];
    (destruct key; [destruct Hk as (? & _ & _ & _ & _ & ->)|subst logs]); done.
Qed.

Lemma balance_booking txn delta reversed key T T' id :
  booking txn delta reversed key T T' ->
  balance T' id = if decide (id = tx_WalletID txn)
                  then (fun b => wrap64 (b + delta)) <$> balance T id else balance T id.
Proof.
  intros Hb. apply booking_wallets in Hb as (w & b & enc & now & Hw & Ho & Ho' & HT).
  unfold balance. rewrite HT. case_decide as Hd.
  - subst id. by rewrite lookup_insert_eq, Ho', Hw, Ho.
  - by rewrite lookup_insert_ne.
Qed.
End Effects.

(** ** Conservation *)

Section Conservation.
Context {U : UUIDLib} {UL : UUIDLaws} {P : PgLib} {JL : JsonbLaws} {ES : EncryptionService}.

(** What a transaction adds to the balance of its wallet. *)
Definition signed (t : Transaction) : Z :=
  if (tx_TransactionType t =? TransactionTypePayment)%string then - tx_Amount t
  else if (tx_TransactionType t =? TransactionTypeRefund)%string
          || (tx_TransactionType t =? TransactionTypeTopup)%string then tx_Amount t
  else 0.

Definition posted (id : uuid) (t : Transaction) : Z := if decide (tx_WalletID t = id) then signed t else 0.

Definition ledger_sum (id : uuid) (m : gmap uuid Transaction) : Z := map_fold (fun _ t acc => posted id t + acc) 0 m.

Lemma ledger_sum_insert id m k t : m !! k = None -> ledger_sum id (<[k := t]> m) = posted id t + ledger_sum id m.
Proof. intros Hk. unfold ledger_sum. rewrite map_fold_insert_L; [done|intros; lia|done]. Qed.

Lemma ledger_sum_ext id m m' :
  (forall k, posted id <$> m' !! k = posted id <$> m !! k) -> ledger_sum id m' = ledger_sum id m.
Proof.
  revert m'. induction m as [|k t m Hk IH] using map_ind; intros m' He.
  - assert (m' = ∅) as ->; [|done]. apply map_empty. intros k. specialize (He k).
    rewrite lookup_empty in He. by destruct (m' !! k).
  - pose proof (He k) as Hk'. rewrite lookup_insert_eq in Hk'.
    destruct (m' !! k) as [t'|] eqn:Ht'; simplify_eq/=.
    rewrite <- (insert_id m' k t') by done. rewrite <- (insert_delete_eq m' k t').
    rewrite !ledger_sum_insert by (by rewrite ?lookup_delete_eq).
    rewrite (IH (delete k m')); [lia|]. intros k'. destruct (decide (k = k')) as [<-|Hne].
    + by rewrite lookup_delete_eq, Hk.
    + rewrite lookup_delete_ne by done. specialize (He k'). by rewrite lookup_insert_ne in He.
Qed.

Lemma booking_sum txn delta reversed key T T' id :
  booking txn delta reversed key T T' ->
  (forall row, store_transaction txn = Ok row -> signed row = signed txn) ->
  ledger_sum id (transactions T') = ledger_sum id (transactions T) + posted id txn.
Proof.
  intros Hb Hsig. apply booking_transactions in Hb as (row & at_ & Hs & Hfresh & _ & Hrow & Hother).
  rewrite <- (insert_id (transactions T') (tx_ID txn) row) by done.
  rewrite <- (insert_delete_eq (transactions T')), ledger_sum_insert by apply lookup_delete_eq.
  assert (posted id row = posted id txn) as ->.
  { unfold posted. rewrite (Hsig _ Hs). by apply store_transaction_inv in Hs as (_ & _ & -> & _). }
  rewrite (ledger_sum_ext id (transactions T)); [lia|]. intros k.
  destruct (decide (k = tx_ID txn)) as [->|Hne]; [by rewrite lookup_delete_eq, Hfresh|].
  rewrite lookup_delete_ne, Hother by done. destruct (transactions T !! k) as [t|]; simpl; [|done].
  unfold reverse_row. by case_decide.
Qed.

Lemma stored_signed txn row :
  store_transaction txn = Ok row ->
  tx_TransactionType txn = TransactionTypePayment \/ tx_TransactionType txn = TransactionTypeRefund \/
  tx_TransactionType txn = TransactionTypeTopup ->
  tx_TransactionType row = tx_TransactionType txn /\ signed row = signed txn.
Proof.
  intros Hs Ht. apply store_transaction_inv in Hs as (_ & _ & _ & Ha & _ & _ & Hty & _).
  assert (Heq : tx_TransactionType row = tx_TransactionType txn).
  { assert (Hv : varchar 20 (tx_TransactionType txn) = Ok (tx_TransactionType txn))
      by (destruct Ht as [->|[->| ->]]; reflexivity).
    congruence. }
  split; [done|]. unfold signed. by rewrite Heq, Ha.
Qed.

(** Every step changes a balance by what it posts, modulo 2^64. *)
Lemma step_conserves T T' id b :
  ledger_step T T' -> balance T id = Some b ->
  balance T' id = Some (wrap64 (b + (ledger_sum id (transactions T') - ledger_sum id (transactions T)))).
Proof.
  assert (Hbook : forall txn delta reversed key, booking txn delta reversed key T T' ->
    (tx_TransactionType txn = TransactionTypePayment \/ tx_TransactionType txn = TransactionTypeRefund \/
     tx_TransactionType txn = TransactionTypeTopup) -> signed txn = delta -> balance T id = Some b ->
    balance T' id = Some (wrap64 (b + (ledger_sum id (transactions T') - ledger_sum id (transactions T))))).
  { intros txn delta reversed key Hb Hty Hd Hbal.
    rewrite (booking_sum _ _ _ _ _ _ id Hb) by (intros row Hs; by eapply stored_signed).
    rewrite (balance_booking _ _ _ _ _ _ id Hb), Hbal. unfold posted. rewrite Hd.
    case_decide as E1; case_decide as E2; try congruence; simpl.
    - do 2 f_equal. lia.
    - replace (b + _) with b by lia. rewrite wrap64_id; [done|by eapply balance_range]. }
  intros [req txn _ ((? & ? & ? & ? & _ & ->) & _ & _ & Hb)
         |req txn Tr _ (orig & amount & (? & ? & ? & _ & ->) & _ & _ & _ & _ & _ & Hb)
         |req txn _ ((? & ? & ? & ? & _ & ->) & _ & _ & Hb)|x Hx ->] Hbal.
  1-3: by eapply Hbook; [exact Hb|auto|..].
  assert (Hr : wrap64 b = b) by (by eapply wrap64_id, balance_range). destruct Hx as [_ Hx].
  assert (transactions (apply_write x T) = transactions T) as -> by (by destruct x).
  rewrite Z.sub_diag, Z.add_0_r, Hr. destruct x; simpl in *; try done. unfold balance in *. simpl.
  rewrite lookup_insert_ne; [done|]. intros <-. by rewrite Hx in Hbal.
Qed.

Lemma steps_conserve T T' id b :
  ledger_steps T T' -> balance T id = Some b ->
  balance T' id = Some (wrap64 (b + (ledger_sum id (transactions T') - ledger_sum id (transactions T)))).
Proof.
  intros Hs. revert b. induction Hs as [T|T1 T2 T3 H12 H23 IH]; intros b Hb.
  - rewrite Z.sub_diag, Z.add_0_r, wrap64_id; [done|by eapply balance_range].
  - rewrite (IH _ (step_conserves _ _ _ _ H12 Hb)). f_equal. rewrite wrap64_add_l. f_equal. lia.
Qed.
End Conservation.

(** ** One payment per reference, one refund per payment *)

Section Invariant.
Context {U : UUIDLib} {UL : UUIDLaws} {P : PgLib} {JL : JsonbLaws} {ES : EncryptionService}.

(** The log of [key] names the transaction [id]. *)
Definition logged (T : Tables) (key : string) (id : uuid) : Prop :=
  exists k l, varchar 255 key = Ok k /\ idempotency_logs T !! k = Some l /\ il_TransactionID l = id.

Record ledger_ok (T : Tables) : Prop := {
  lo_wf : wf_tables T;
  lo_amount id t :
    transactions T !! id = Some t ->
    tx_TransactionType t = TransactionTypePayment \/ tx_TransactionType t = TransactionTypeRefund \/
    tx_TransactionType t = TransactionTypeTopup -> 0 < tx_Amount t;
  lo_payment id t :
    transactions T !! id = Some t -> tx_TransactionType t = TransactionTypePayment ->
    logged T (BuildIdempotencyKey (tx_MerchantID t) (tx_ReferenceID t)) id;
  lo_refund id t :
    transactions T !! id = Some t -> tx_TransactionType t = TransactionTypeRefund ->
    exists o orig, tx_OriginalTransactionID t = Some o /\ transactions T !! o = Some orig /\
      tx_TransactionType orig = TransactionTypePayment /\ tx_Status orig = TransactionStatusReversed /\
      tx_MerchantID t = tx_MerchantID orig /\ tx_WalletID t = tx_WalletID orig /\
      tx_Amount t <= tx_Amount orig /\
      logged T (BuildRefundIdempotencyKey (tx_MerchantID orig) (tx_ReferenceID orig)) id;
  lo_status id t :
    transactions T !! id = Some t -> tx_TransactionType t = TransactionTypePayment ->
    tx_Status t = TransactionStatusSuccess \/
    (tx_Status t = TransactionStatusReversed /\
     exists id' t', transactions T !! id' = Some t' /\ tx_TransactionType t' = TransactionTypeRefund /\
                    tx_OriginalTransactionID t' = Some id)
}.

Lemma logged_unique T key id id' : logged T key id -> logged T key id' -> id = id'.
Proof. intros (k & l & Hk & Hl & <-) (k' & l' & Hk' & Hl' & <-). congruence. Qed.

Lemma logged_persists T T' key id : persists T T' -> logged T key id -> logged T' key id.
Proof. intros HP (k & l & Hk & Hl & Hi). exists k, l. split_and!; [done|by apply HP|done]. Qed.

(** *** Consequences *)

Lemma payment_unique T id1 id2 t1 t2 :
  ledger_ok T -> transactions T !! id1 = Some t1 -> transactions T !! id2 = Some t2 ->
  tx_TransactionType t1 = TransactionTypePayment -> tx_TransactionType t2 = TransactionTypePayment ->
  tx_MerchantID t1 = tx_MerchantID t2 -> tx_ReferenceID t1 = tx_ReferenceID t2 -> id1 = id2.
Proof.
  intros Hok H1 H2 Ht1 Ht2 Hm Hr. eapply logged_unique; [by eapply lo_payment|].
  rewrite Hm, Hr. by eapply lo_payment.
Qed.

Lemma refund_unique T id1 id2 t1 t2 o :
  ledger_ok T -> transactions T !! id1 = Some t1 -> transactions T !! id2 = Some t2 ->
  tx_TransactionType t1 = TransactionTypeRefund -> tx_TransactionType t2 = TransactionTypeRefund ->
  tx_OriginalTransactionID t1 = Some o -> tx_OriginalTransactionID t2 = Some o -> id1 = id2.
Proof.
  intros Hok H1 H2 Ht1 Ht2 Ho1 Ho2.
  destruct (lo_refund _ Hok _ _ H1 Ht1) as (o1 & r1 & E1 & G1 & _ & _ & _ & _ & _ & L1).
  destruct (lo_refund _ Hok _ _ H2 Ht2) as (o2 & r2 & E2 & G2 & _ & _ & _ & _ & _ & L2).
  simplify_eq. by eapply logged_unique.
Qed.

(** *** Preservation *)

Lemma booking_logged txn delta reversed key T T' :
  booking txn delta reversed (Some key) T T' -> logged T' key (tx_ID txn).
Proof.
  intros Hb. apply booking_logs in Hb as (l & Hk & _ & Hi & HT). exists (il_Key l), l.
  by rewrite HT, lookup_insert_eq.
Qed.

Lemma booking_not_logged txn delta reversed key T T' id :
  booking txn delta reversed (Some key) T T' -> ~ logged T key id.
Proof.
  intros Hb. apply booking_logs in Hb as (l & Hk & Hn & _ & _). intros (k & l' & Hk' & Hl & _). congruence.
Qed.

(** The rows after a booking: the new one, and the old ones, one of them reversed. *)
Lemma booking_row txn delta reversed key T T' id t' :
  booking txn delta reversed key T T' -> transactions T' !! id = Some t' ->
  (id = tx_ID txn /\ store_transaction txn = Ok t') \/
  (id <> tx_ID txn /\ exists t at_, transactions T !! id = Some t /\ t' = reverse_row at_ reversed id t).
Proof.
  intros Hb Ht'. apply booking_transactions in Hb as (row & at_ & Hs & _ & _ & Hrow & Hother).
  destruct (decide (id = tx_ID txn)) as [->|Hne]; [left; split; congruence|].
  right. split; [done|]. rewrite Hother in Ht' by done.
  destruct (transactions T !! id) as [t|]; simplify_eq/=. by exists t, at_.
Qed.

Lemma booking_old_row txn delta reversed key T T' id t :
  booking txn delta reversed key T T' -> transactions T !! id = Some t ->
  exists at_, transactions T' !! id = Some (reverse_row at_ reversed id t).
Proof.
  intros Hb Ht. apply booking_transactions in Hb as (row & at_ & _ & Hfresh & _ & _ & Hother).
  exists at_. rewrite Hother by congruence. by rewrite Ht.
Qed.

Lemma reverse_row_same at_ reversed id t : same_transaction t (reverse_row at_ reversed id t).
Proof. unfold reverse_row, same_transaction. by case_decide. Qed.

Lemma same_fields t t' :
  same_transaction t t' ->
  tx_TransactionType t' = tx_TransactionType t /\ tx_Amount t' = tx_Amount t /\
  tx_MerchantID t' = tx_MerchantID t /\ tx_ReferenceID t' = tx_ReferenceID t /\
  tx_WalletID t' = tx_WalletID t /\ tx_OriginalTransactionID t' = tx_OriginalTransactionID t.
Proof. destruct t, t'. unfold same_transaction, set_status. simpl. intros [=]. subst. done. Qed.

(** Bookings that reverse nothing: a payment or a top-up. *)
Lemma booking_keeps_ok txn delta key T T' :
  ledger_ok T -> booking txn delta None key T T' -> 0 < tx_Amount txn ->
  (forall row, store_transaction txn = Ok row ->
     (tx_TransactionType row = TransactionTypePayment /\ tx_Status row = TransactionStatusSuccess /\
      logged T' (BuildIdempotencyKey (tx_MerchantID row) (tx_ReferenceID row)) (tx_ID txn))
     \/ tx_TransactionType row = TransactionTypeTopup) ->
  ledger_ok T'.
Proof.
  intros Hok Hb Hpos Hnew. pose proof (booking_persists _ _ _ _ _ _ Hb) as HP.
  assert (Hrow : forall id t', transactions T' !! id = Some t' ->
    (id = tx_ID txn /\ store_transaction txn = Ok t') \/ transactions T !! id = Some t').
  { intros id t' Ht'. destruct (booking_row _ _ _ _ _ _ _ _ Hb Ht') as [?|[_ (t & at_ & Ht & ->)]]; [by left|].
    by right. }
  assert (Hold : forall id t, transactions T !! id = Some t -> transactions T' !! id = Some t).
  { intros id t Ht. by destruct (booking_old_row _ _ _ _ _ _ _ _ Hb Ht) as [at_ ?]. }
  split.
  - apply HP, Hok.
  - intros id t' Ht' Hty. destruct (Hrow _ _ Ht') as [[-> Hs]|Ht]; [|by eapply lo_amount].
    by apply store_transaction_inv in Hs as (_ & _ & _ & -> & _).
  - intros id t' Ht' Hty. destruct (Hrow _ _ Ht') as [[-> Hs]|Ht]; [|by eapply logged_persists, lo_payment].
    destruct (Hnew _ Hs) as [(_ & _ & ?)|Hty']; [done|]. by rewrite Hty in Hty'.
  - intros id t' Ht' Hty. destruct (Hrow _ _ Ht') as [[-> Hs]|Ht].
    { destruct (Hnew _ Hs) as [[Hty' _]|Hty']; by rewrite Hty in Hty'. }
    destruct (lo_refund _ Hok _ _ Ht Hty) as (o & orig & ? & Ho & ? & ? & ? & ? & ? & Hl).
    exists o, orig. split_and!; eauto using logged_persists.
  - intros id t' Ht' Hty. destruct (Hrow _ _ Ht') as [[-> Hs]|Ht].
    { destruct (Hnew _ Hs) as [(_ & ? & _)|Hty']; [by left|]. by rewrite Hty in Hty'. }
    destruct (lo_status _ Hok _ _ Ht Hty) as [?|(? & id' & r & ? & ? & ?)]; [by left|right; eauto 10].
Qed.

Lemma payment_keeps_ok req txn T T' :
  ledger_ok T -> payment_valid req -> payment_step req txn T T' -> ledger_ok T'.
Proof.
  intros Hok [_ Hlen] ((id & wid & enc & now & _ & Htxn) & Hpos & _ & Hb).
  eapply booking_keeps_ok; [done|exact Hb|by rewrite Htxn|].
  intros row Hs. left.
  destruct (stored_signed _ _ Hs) as [Hty _]; [left; by rewrite Htxn|].
  apply store_transaction_inv in Hs as (_ & Hm & _ & _ & _ & Hr & _ & Hst & _).
  rewrite Htxn in Hty, Hm, Hr, Hst. simpl in Hty, Hm, Hr, Hst.
  assert (Hv : varchar 20 TransactionStatusSuccess = Ok TransactionStatusSuccess) by reflexivity.
  split; [done|]. split; [congruence|].
  assert (tx_ReferenceID row = pr_ReferenceID req) as ->.
  { unfold varchar in Hr. apply result_bind_Ok in Hr as (s & Hs & Hr). apply text_inv in Hs as (-> & _ & _).
    destruct (Nat.leb_spec (rune_count (pr_ReferenceID req)) 100); [congruence|lia]. }
  rewrite Hm. by eapply booking_logged.
Qed.

Lemma topup_keeps_ok req txn T T' : ledger_ok T -> topup_step req txn T T' -> ledger_ok T'.
Proof.
  intros Hok ((id & wid & enc & now & _ & Htxn) & Hpos & _ & Hb).
  eapply booking_keeps_ok; [done|exact Hb|by rewrite Htxn|].
  intros row Hs. right. destruct (stored_signed _ _ Hs) as [Hty _]; [rewrite Htxn; auto|].
  by rewrite Hty, Htxn.
Qed.

(** The original of a refund, when the refund commits: still refundable, since a refund of it
    would have logged the same key. *)
Lemma refund_original_open req txn Tr T T' orig amount :
  ledger_ok T -> persists Tr T -> transactions Tr !! tx_ID orig = Some orig -> IsRefundable orig = true ->
  tx_MerchantID orig = rr_MerchantID req -> tx_ReferenceID orig = rr_OriginalReferenceID req ->
  booking txn amount (Some (tx_ID orig))
    (Some (BuildRefundIdempotencyKey (rr_MerchantID req) (rr_OriginalReferenceID req))) T T' ->
  exists t, transactions T !! tx_ID orig = Some t /\ same_transaction orig t /\
            tx_TransactionType t = TransactionTypePayment /\ tx_Status t = TransactionStatusSuccess.
Proof.
  intros Hok HP Horig Hrf Hm Hr Hb. destruct (per_transaction _ _ HP _ _ Horig) as (t & Ht & Hsame).
  destruct (same_fields _ _ Hsame) as (Hty & _ & Hm' & Hr' & _).
  unfold IsRefundable in Hrf. bool_prop. rewrite H in Hty.
  exists t. split_and!; [done..|]. destruct (lo_status _ Hok _ _ Ht Hty) as [?|(_ & id' & r & Hr1 & Hrty & Hro)]; [done|].
  destruct (lo_refund _ Hok _ _ Hr1 Hrty) as (o & orig' & Ho & Ho' & _ & _ & _ & _ & _ & Hl). simplify_eq.
  exfalso. eapply booking_not_logged; [exact Hb|]. rewrite Hm', Hr', Hm, Hr in Hl. exact Hl.
Qed.

(** What a refund does: the original [o], still successful when the refund commits, is
    reversed; the refund's row points to it and is logged under its key. *)
Record refund_effect (txn : Transaction) (o : uuid) (orig : Transaction) (amount : Z) (T T' : Tables) : Prop := {
  re_original : transactions T !! o = Some orig;
  re_payment : tx_TransactionType orig = TransactionTypePayment;
  re_open : tx_Status orig = TransactionStatusSuccess;
  re_amount : 0 < amount <= tx_Amount orig;
  re_reversed : exists at_, transactions T' !! o = Some (set_status TransactionStatusReversed at_ orig);
  re_fresh : transactions T !! tx_ID txn = None;
  re_row : exists row, store_transaction txn = Ok row /\ transactions T' !! tx_ID txn = Some row /\
             tx_TransactionType row = TransactionTypeRefund /\ tx_MerchantID row = tx_MerchantID orig /\
             tx_WalletID row = tx_WalletID orig /\ tx_Amount row = amount /\
             tx_OriginalTransactionID row = Some o;
  re_logged : logged T' (BuildRefundIdempotencyKey (tx_MerchantID orig) (tx_ReferenceID orig)) (tx_ID txn);
  re_others id : id <> o -> id <> tx_ID txn -> transactions T' !! id = transactions T !! id
}.

Lemma refund_has_effect req txn Tr T T' :
  ledger_ok T -> persists Tr T -> refund_step req txn Tr T T' ->
  exists o orig amount, booking txn amount (Some o)
    (Some (BuildRefundIdempotencyKey (rr_MerchantID req) (rr_OriginalReferenceID req))) T T' /\
    refund_effect txn o orig amount T T'.
Proof.
  intros Hok HP (orig & amount & (id & enc & now & _ & Htxn) & Horig & Hrf & Hm & Hr & Hamt & Hb).
  destruct (refund_original_open _ _ _ _ _ _ _ Hok HP Horig Hrf Hm Hr Hb) as (t & Ht & Hsame & Hty & Hst).
  destruct (same_fields _ _ Hsame) as (_ & Ha' & Hm' & Hr' & Hw' & _).
  exists (tx_ID orig), t, amount. split; [done|].
  pose proof (booking_transactions _ _ _ _ _ _ Hb) as (row & at_ & Hs & Hfresh & _ & Hrow & Hother).
  assert (Hne : tx_ID orig <> tx_ID txn) by congruence.
  split; try done.
  - pose proof (lo_amount _ Hok _ _ Ht (or_introl Hty)) as Hp. unfold refund_amount in Hamt.
    destruct (rr_Amount req) as [a|]; [|simplify_eq; lia].
    destruct (a <=? 0) eqn:E1; [done|]. destruct (tx_Amount orig <? a) eqn:E2; simplify_eq. bool_prop. lia.
  - exists at_. rewrite Hother, Ht by done. simpl. unfold reverse_row. by rewrite decide_True.
  - exists row. destruct (stored_signed _ _ Hs) as [Hty' _]; [rewrite Htxn; auto|].
    apply store_transaction_inv in Hs as Hs'. destruct Hs' as (_ & H1 & H2 & H3 & H4 & _).
    rewrite Htxn in H1, H2, H3, H4, Hty'. simpl in *. split_and!; congruence.
  - rewrite Hm', Hr', Hm, Hr. by eapply booking_logged.
  - intros id' H1 H2. rewrite Hother by done. destruct (transactions T !! id'); simpl; [|done].
    unfold reverse_row. rewrite decide_False by congruence. done.
Qed.

Lemma refund_keeps_ok req txn Tr T T' :
  ledger_ok T -> persists Tr T -> refund_step req txn Tr T T' -> ledger_ok T'.
Proof.
  intros Hok HP Hstep.
  destruct (refund_has_effect _ _ _ _ _ Hok HP Hstep) as (o & orig & amount & Hb & []).
  pose proof (booking_persists _ _ _ _ _ _ Hb) as HP'.
  destruct re_reversed0 as [at_ Hrev]. destruct re_row0 as (row & Hs & Hrow & Hty & Hm & Hw & Ha & Ho).
  assert (Hcase : forall id t', transactions T' !! id = Some t' ->
    (id = tx_ID txn /\ t' = row) \/ (id = o /\ t' = set_status TransactionStatusReversed at_ orig) \/
    (id <> o /\ transactions T !! id = Some t')).
  { intros id t' Ht'. destruct (decide (id = tx_ID txn)) as [->|H1]; [left; split; congruence|].
    destruct (decide (id = o)) as [->|H2]; [right; left; split; congruence|].
    right. right. split; [done|]. by rewrite <- re_others0. }
  assert (Hkeep : forall id t, transactions T !! id = Some t -> tx_Status t <> TransactionStatusSuccess \/ id <> o ->
    transactions T' !! id = Some t).
  { intros id t Ht Hor. rewrite re_others0; [done| |congruence]. intros ->. destruct Hor; congruence. }
  split; [apply HP', Hok| | | |].
  - intros id t' Ht' Hty'. destruct (Hcase _ _ Ht') as [[-> ->]|[[-> ->]|[_ Ht]]]; [lia| |by eapply lo_amount].
    simpl. lia.
  - intros id t' Ht' Hty'. destruct (Hcase _ _ Ht') as [[-> ->]|[[-> ->]|[_ Ht]]].
    + by rewrite Hty in Hty'.
    + eapply logged_persists; [done|]. by apply (lo_payment _ Hok _ _ re_original0).
    + by eapply logged_persists, lo_payment.
  - intros id t' Ht' Hty'. destruct (Hcase _ _ Ht') as [[-> ->]|[[-> ->]|[_ Ht]]].
    + exists o, (set_status TransactionStatusReversed at_ orig). simpl. split_and!; eauto. lia.
    + simpl in Hty'. by rewrite re_payment0 in Hty'.
    + destruct (lo_refund _ Hok _ _ Ht Hty') as (o' & orig' & ? & Ho' & ? & Hst & ? & ? & ? & Hl).
      exists o', orig'. split_and!; eauto using logged_persists. apply Hkeep; [done|]. left. by rewrite Hst.
  - intros id t' Ht' Hty'. destruct (Hcase _ _ Ht') as [[-> ->]|[[-> ->]|[Hne Ht]]].
    + by rewrite Hty in Hty'.
    + right. split; [done|]. exists (tx_ID txn), row. done.
    + destruct (lo_status _ Hok _ _ Ht Hty') as [?|(? & id' & r & Hr & Hrty & Hro)]; [by left|]. right.
      split; [done|]. exists id', r. split_and!; [|done..]. apply Hkeep; [done|]. right. intros ->.
      rewrite Hr in re_original0. simplify_eq. by rewrite re_payment0 in Hrty.
Qed.

Lemma aside_keeps_ok T x : ledger_ok T -> aside T x -> ledger_ok (apply_write x T).
Proof.
  intros [Hwf Ha Hp Hr Hs] Hx.
  pose proof Hx as [Htext Hcase].
  assert (HT : transactions (apply_write x T) = transactions T) by (by destruct x).
  assert (HL : idempotency_logs (apply_write x T) = idempotency_logs T) by (by destruct x).
  split; unfold logged in *; rewrite ?HT, ?HL; try done.
  apply wf_apply_write; [|done]. split; [done|]. by destruct x.
Qed.

Lemma step_keeps_ok T T' : ledger_ok T -> ledger_step T T' -> ledger_ok T'.
Proof.
  intros Hok [req txn Hv Hs|req txn Tr HP Hs|req txn _ Hs|x Hx ->].
  - by eapply payment_keeps_ok.
  - by eapply refund_keeps_ok.
  - by eapply topup_keeps_ok.
  - by apply aside_keeps_ok.
Qed.

Lemma steps_keep_ok T T' : ledger_ok T -> ledger_steps T T' -> ledger_ok T'.
Proof. intros Hok Hs. induction Hs; [done|]. eauto using step_keeps_ok. Qed.
End Invariant.
