(* ===== verification/Aside.v ===== *)
(** Operations that leave balances, transactions, idempotency logs and the idempotency cache
    alone, those of accounts, reports, webhooks, audit entries, nonces and rate limits: they
    keep the ledger's discipline ([harmless_guar]), beside the payment service. *)

From S2P Require Export LedgerInv.

Section Aside.
Context {U : UUIDLib} {UL : UUIDLaws} {P : PgLib} {JL : JsonbLaws} {ES : EncryptionService}.

(** A key outside the idempotency cache. *)
Definition foreign (key : string) : Prop := forall k, key <> IdempotencyCache.prefix +:+ k.

Definition aside_stmt {A} (s : sql A) : Prop :=
  match s with
  | UpdateWalletBalance _ _ | InsertTransaction _ | UpdateTransactionStatus _ _ _ | InsertIdempotencyLog _ => False
  | _ => True
  end.

Definition harmless {X} (o : Op X) : Prop :=
  match o with
  | Pg None s => aside_stmt s
  | Pg (Some _) _ | PgBegin | PgCommit _ | PgRollback _ => False
  | RedisSet k _ _ | RedisSetNX k _ _ | RedisIncr k | RedisExpire k _ => foreign k
  | _ => True
  end.

(** *** Statements *)

Lemma insert_fits T m row :
  store_merchant m = Ok row ->
  some_row (fun r => (m_Username r =? m_Username row)%string) (merchants T) = false ->
  some_row (fun r => (m_AccessKey r =? m_AccessKey row)%string) (merchants T) = false ->
  aside T (WMerchant row).
Proof.
  intros Hs H1 H2. split.
  { unfold store_merchant in Hs. repeat apply result_bind_Ok in Hs as (? & ? & Hs). simplify_eq.
    split; by eapply varchar_readable. }
  intros id m' Hm' _.
  split; intros Heq; [apply (some_row_false _ _ _ _ H1) in Hm'|apply (some_row_false _ _ _ _ H2) in Hm'];
    rewrite Heq, String.eqb_refl in Hm'; done.
Qed.

Lemma update_fits T id m name access secret status webhook now :
  wf_tables T -> merchants T !! id = Some m ->
  readable access = true ->
  some_row (fun r => (m_AccessKey r =? access)%string) (delete id (merchants T)) = false ->
  aside T (WMerchant (update_merchant m name access secret status webhook now)).
Proof.
  intros Hwf Hm Ha Hf. split; [split; [apply (wf_merchant_texts _ Hwf _ _ Hm)|done]|]. intros id' m' Hm' Hne. simpl in Hne |- *. rewrite (wf_merchant _ Hwf _ _ Hm) in Hne. split.
  - by apply (wf_unique _ Hwf _ _ Hm id' m'); [|rewrite (wf_merchant _ Hwf _ _ Hm)].
  - intros Heq. rewrite <- (lookup_delete_ne _ id) in Hm' by done.
    apply (some_row_false _ _ _ _ Hf) in Hm'. by rewrite Heq, String.eqb_refl in Hm'.
Qed.

(** Such a statement writes at most one row, beside the ledger. *)
Lemma stmt_aside {A} ord now (s : sql A) T a ws :
  wf_tables T -> aside_stmt s -> stmt_eff ord now s T = Ok (a, ws) ->
  ws = [] \/ exists x, ws = [x] /\ aside T x.
Proof.
  intros Hwf Hs H.
  destruct s; simpl in Hs; try done; simpl in H; unfold select, bind_error in H;
    repeat match goal with
      | H : result_bind _ _ = Ok _ |- _ => apply result_bind_Ok in H as (? & ? & H)
      end;
    repeat (case_match; simplify_eq; try by left); simplify_eq; try by left.
  all: repeat match goal with H : result_bind _ _ = Ok _ |- _ => apply result_bind_Ok in H as (? & ? & H) end; simplify_eq;
    try (by left); right; eexists; (split; [reflexivity|]); simpl; try done.
  - eapply insert_fits; [done|by eapply require_none..].
  - eapply update_fits; [done|done|by eapply varchar_readable|by eapply require_none].
  - unfold store_wallet in *. repeat match goal with H : result_bind _ _ = Ok _ |- _ => apply result_bind_Ok in H as (? & ? & H) end.
    simplify_eq. split; [by eapply varchar_readable|]. simpl. apply has_row_false. by eapply require_none.
Qed.

(** *** Such programs keep the discipline of the ledger *)

Lemma foreign_cache key entry v : foreign key -> cache_ok v -> cache_ok (set_redis key entry v).
Proof.
  intros Hf Hc k s e. simpl. rewrite lookup_insert_ne by apply Hf. apply Hc.
Qed.

Context (RT : Tables -> Tables -> Prop) {LR : LedgerRely RT} (quiet : bool).

Lemma aside_guar ws v :
  wf_tables (v_tables v) -> ws = [] \/ (exists x, ws = [x] /\ aside (v_tables v) x) ->
  d_guar (ledger RT quiet) v (set_tables (apply_writes ws (v_tables v)) v).
Proof.
  intros Hwf Hws. split; simpl.
  - destruct Hws as [->|(x & -> & Hx)]; [by left|]. right. by eapply ls_aside.
  - intros Hc key s e He. destruct (Hc key s e He) as (l & (k & Hk & Hl) & Hr).
    exists l. split; [|done]. exists k. split; [done|].
    destruct Hws as [->|(x & -> & _ & Hx)]; [done|]. by destruct x.
Qed.

Lemma harmless_guar {X} (o : Op X) v x v' :
  harmless o -> d_inv (ledger RT quiet) v -> op_at true o v x v' -> d_guar (ledger RT quiet) v v'.
Proof.
  intros Hh [Hwf Hc] Ho.
  assert (Hsame : forall v', v_tables v' = v_tables v -> v_redis v' = v_redis v -> d_guar (ledger RT quiet) v v')
    by (intros; by apply guar_same).
  assert (Hredis : forall key entry, foreign key -> d_guar (ledger RT quiet) v (set_redis key entry v)).
  { intros key entry Hf. split; [by left|]. by apply foreign_cache. }
  destruct o; simpl in Hh, Ho; try done.
  - destruct Ho as [_ ->]. by apply Hsame.
  - subst. by apply Hsame.
  - destruct Ho as [-> _]. by apply Hsame.
  - destruct conn; [done|]. unfold pg_spec in Ho. destruct Ho as [(ord & now & _ & _ & Hs)|[_ ->]]; [|by apply Hsame].
    destruct (stmt_eff _ _ _ _) as [[a ws]|e] eqn:Es; [|destruct Hs as [_ ->]; by apply Hsame].
    destruct Hs as [_ ->]. apply aside_guar; [done|]. by eapply stmt_aside.
  - destruct Ho as [-> _]. by apply Hsame.
  - destruct Ho as [[_ ->]|[_ ->]]; auto.
  - destruct (live v key); [destruct Ho as [_ ->]; auto|]. destruct Ho as [[_ ->]|[_ ->]]; auto.
  - destruct (ParseInt _); [|destruct Ho as [_ ->]; auto]. case_match; [destruct Ho as [_ ->]; auto|].
    destruct Ho as [[_ ->]|[_ ->]]; auto.
  - destruct Ho as [[_ ->]|[_ ->]]; auto. case_match; auto.
  - destruct Ho as [-> _]. by apply Hsame.
  - destruct Ho as (c & _ & ->). by apply Hsame.
  - destruct Ho as [-> _]. by apply Hsame.
Qed.

(** It takes no lock and opens no transaction. *)
Lemma harmless_locks {X} flt (o : Op X) v x v' :
  harmless o -> op_at flt o v x v' -> v_locks v' = v_locks v /\ v_txs v' = v_txs v.
Proof.
  destruct o as [| | | | | |A conn s| | | | | | | |]; simpl; intros Hh Ho; try done; des; subst; try done.
  { destruct conn; [done|]. unfold pg_spec in Ho. destruct Ho as [(ord & now & _ & _ & Ho)|[_ ->]]; [|done].
    destruct (stmt_eff _ _ _ _) as [[]|]; by destruct Ho as [_ ->]. }
  all: repeat case_match; des; by subst.
Qed.

End Aside.
