(* ===== verification/Pieces.v ===== *)
(** Whole requests, taken apart: a handler chain is made of pieces that may run anywhere
    ([beside]) around at most one call of the payment service, which makes it a request
    ([serves]).  A [PieceCore] is a pair of properties of programs that such a decomposition
    proves, a [PieceLogic] one that the payment service has; the lemmas of this file prove
    both of the program's parts, for any of them.
    [Beside] has the one that says requests keep the ledger's discipline, [Tidy] the one that
    says they leave no transaction open. *)

From S2P Require Export Aside Router.
From Stdlib Require Import Ascii.

Class PieceCore {U : UUIDLib} {ES : EncryptionService} {HS : HashService} {TS : TokenService} : Type := {
  beside : forall {A : Type}, prog A -> Prop;
  serves : forall {A : Type}, prog A -> Prop;
  beside_ret {A : Type} (a : A) : beside (Ret a);
  beside_bind {A B : Type} (p : prog A) (f : A -> prog B) : beside p -> (forall a, beside (f a)) -> beside (bind p f);
  beside_go {A : Type} (c : prog unit) (k : prog A) : beside c -> beside k -> beside (Go c k);
  beside_op {X : Type} (o : Op X) : harmless o -> beside (op o);
  beside_encrypt plaintext : beside (Encrypt plaintext);
  beside_hash password : beside (Hash password);
  beside_generate mid key : beside (Generate mid key);
  beside_serves {A : Type} (p : prog A) : beside p -> serves p;
  serves_after {A B : Type} (p : prog A) (f : A -> prog B) : beside p -> (forall a, serves (f a)) -> serves (bind p f);
  serves_before {A B : Type} (p : prog A) (f : A -> prog B) : serves p -> (forall a, beside (f a)) -> serves (bind p f)
}.

Class PieceLogic {U : UUIDLib} {ES : EncryptionService} {HS : HashService} {TS : TokenService} : Type := {
  piece_core :: PieceCore;
  serves_payment req : payment_valid req -> serves (ProcessPayment req);
  serves_refund req : serves (ProcessRefund req);
  serves_topup req : in_int64 (tr_Amount req) -> serves (ProcessTopup req)
}.

Section Derived.
Context {U : UUIDLib} {ES : EncryptionService} {HS : HashService} {TS : TokenService} {PC : PieceCore}.

Lemma beside_fail {A : Type} e : beside (fail (A := A) e).
Proof. apply beside_ret. Qed.
Lemma beside_ok {A : Type} (a : A) : beside (ok a).
Proof. apply beside_ret. Qed.

(** The repositories' statements outside a transaction. *)
Lemma beside_pg {A : Type} (s : sql A) : aside_stmt s -> beside (op (Pg None s)).
Proof. intros Hs. by apply beside_op. Qed.
Lemma beside_query_opt {A : Type} what (s : sql (list A)) : aside_stmt s -> beside (query_opt what None s).
Proof. intros Hs. by repeat (apply beside_bind; [|intros; apply beside_ret]); apply beside_pg. Qed.
Lemma beside_exec_stmt what s : aside_stmt s -> beside (exec_stmt what None s).
Proof. intros Hs. apply beside_bind; [by apply beside_pg|]. intros []; apply beside_ret. Qed.
Lemma beside_exec_raw s : aside_stmt s -> beside (exec_raw None s).
Proof. intros Hs. apply beside_bind; [by apply beside_pg|]. intros []; apply beside_ret. Qed.

End Derived.

Create HintDb beside.
#[export] Hint Resolve beside_ret beside_fail beside_ok beside_encrypt beside_hash beside_generate
  beside_pg beside_query_opt beside_exec_stmt beside_exec_raw : beside.
#[export] Hint Extern 0 (aside_stmt _) => exact I : beside.

Lemma foreign_head c s : (c =? "i")%char = false -> foreign (String c s).
Proof. intros Hc k H. apply Ascii.eqb_neq in Hc. injection H as H _. by apply Hc. Qed.

(** Proves that an operation is harmless. *)
Ltac harmless_op :=
  first [exact I | apply (foreign_head "n"); reflexivity | apply (foreign_head "r"); reflexivity].

(** Takes a program apart: binds, branches, operations; what is left are calls, which the hints
    of [beside] close. *)
Ltac beside :=
  repeat first
    [ progress intros
    | solve [auto with beside nocore]
    | apply beside_bind
    | apply beside_op; harmless_op
    | apply beside_go
    | progress cbv beta zeta
    | case_match ].

(** ** The pieces of the program *)

Section Pieces.
Context {U : UUIDLib} {ES : EncryptionService}.
Context {HS : HashService} {SS : SignatureService} {TS : TokenService}.
Context {UP : URLParser} {RU : RequestURI} {V : Validator} {VL : ValidatorLaws} {GF : GinFallback}.
Context {PC : PieceCore}.


Lemma beside_Register req : beside (Register req).
Proof.
  unfold Register, create_account, generateRandomHex, MerchantRepo.GetByUsername, MerchantRepo.Create, WalletRepo.Create.
  beside.
Qed.

Lemma beside_Login username password : beside (Login username password).
Proof. unfold Login, MerchantRepo.GetByUsername. beside. Qed.
Lemma beside_merchant_service mid url :
  beside (GetProfile mid) /\ beside (UpdateWebhookURL mid url) /\ beside (RotateKeys mid).
Proof.
  unfold GetProfile, UpdateWebhookURL, RotateKeys, with_merchant, generateKey, MerchantRepo.GetByID, MerchantRepo.Update.
  split_and!; beside.
Qed.

Lemma beside_GetDashboardStats mid period : beside (GetDashboardStats mid period).
Proof. unfold GetDashboardStats, period_start, TransactionRepo.GetStats. beside. Qed.

Lemma beside_ListTransactions params : beside (ListTransactions params).
Proof. unfold ListTransactions, TransactionRepo.List. beside. Qed.

Lemma beside_GetWalletBalance mid : beside (GetWalletBalance mid).
Proof. unfold GetWalletBalance, WalletRepo.GetByMerchantID. beside. Qed.

(** *** Webhooks *)

Lemma beside_persistLog b log : beside (persistLog b log).
Proof. unfold persistLog, WebhookRepo.Update. beside. Qed.
#[local] Hint Resolve beside_persistLog : beside.

Lemma beside_schedule_retry n log : beside (schedule_retry n log).
Proof. unfold schedule_retry. beside. Qed.
#[local] Hint Resolve beside_schedule_retry : beside.

Lemma beside_attempts b url body n fuel log : beside (attempts b url body n fuel log).
Proof. revert n log. induction fuel as [|fuel IH]; intros n log; cbn [attempts]; beside. Qed.
#[local] Hint Resolve beside_attempts : beside.

Lemma beside_deliverWithRetries b url payload txID merchantID : beside (deliverWithRetries b url payload txID merchantID).
Proof. unfold deliverWithRetries, WebhookRepo.Create. beside. Qed.
#[local] Hint Resolve beside_deliverWithRetries : beside.

Lemma beside_EnqueueWebhook b t : beside (EnqueueWebhook b t).
Proof. unfold EnqueueWebhook, MerchantRepo.GetByID, WalletRepo.GetByID. beside. Qed.
#[local] Hint Resolve beside_EnqueueWebhook : beside.

(** *** Answers *)

Lemma beside_answer c j e : beside (OK c j) /\ beside (Created c j) /\ beside (Error c e).
Proof. unfold OK, Created, Error, getRequestID. split_and!; beside. Qed.

Lemma beside_OK c j : beside (OK c j).
Proof. apply beside_answer; exact ErrInvalidToken. Qed.
Lemma beside_Created c j : beside (Created c j).
Proof. apply beside_answer; exact ErrInvalidToken. Qed.
Lemma beside_Error c e : beside (Error c e).
Proof. apply beside_answer; exact JNull. Qed.
#[local] Hint Resolve beside_OK beside_Created beside_Error : beside.
(** *** Handlers that leave the ledger alone *)

#[local] Hint Resolve beside_Register beside_Login beside_GetDashboardStats beside_ListTransactions
  beside_GetWalletBalance : beside.

Lemma beside_public_handlers c : beside (handle_Register c) /\ beside (handle_Login c).
Proof. unfold handle_Register, handle_Login, with_body. split; beside. Qed.

Lemma beside_check_all checkers : Forall (fun ch => beside (snd ch)) checkers -> beside (check_all checkers).
Proof. induction 1 as [|[name ping] checkers Hp _ IH]; cbn [check_all]; beside. Qed.

Lemma beside_health c : beside (HealthCheck HealthCheckers c).
Proof.
  unfold HealthCheck. apply beside_bind; [|beside]. apply beside_check_all.
  unfold HealthCheckers, PgHealth.Ping, RedisHealth.Ping.
  apply Forall_cons; split; [|apply Forall_cons; split; [|by apply Forall_nil]]; cbn [snd]; beside.
Qed.

Lemma beside_dashboard_handlers c :
  beside (handle_GetBalance c) /\ beside (handle_GetStats c) /\ beside (handle_ListTransactions c).
Proof.
  unfold handle_GetBalance, handle_GetStats, handle_ListTransactions, authenticated. split_and!; beside.
Qed.

Lemma beside_merchant_handlers c :
  beside (handle_GetProfile c) /\ beside (handle_UpdateWebhookURL c) /\ beside (handle_RotateKeys c).
Proof.
  unfold handle_GetProfile, handle_UpdateWebhookURL, handle_RotateKeys, authenticated, with_body.
  pose proof (fun mid => proj1 (beside_merchant_service mid None)).
  pose proof (fun mid url => proj1 (proj2 (beside_merchant_service mid url))).
  pose proof (fun mid => proj2 (proj2 (beside_merchant_service mid None))).
  split_and!; beside.
Qed.

Lemma beside_respond w b c t : beside (respond w b c t).
Proof. unfold respond. beside. Qed.
#[local] Hint Resolve beside_respond : beside.
(** *** Middleware *)

(** A middleware that serves whenever the rest of its chain does. *)
Definition passes (h : HandlerFunc) : Prop := forall next, (forall c, serves (next c)) -> forall c, serves (h next c).

Lemma chain_serves hs : Forall passes hs -> forall c, serves (chain hs c).
Proof.
  induction 1 as [|h hs Hh _ IH]; intros c; unfold chain; cbn [foldr].
  - apply beside_serves, beside_ret.
  - by apply Hh.
Qed.

Lemma passes_final h : (forall c, serves (h c)) -> passes (final h).
Proof. intros Hh next _ c. apply Hh. Qed.

Lemma passes_skip : passes (fun next c => next c).
Proof. by intros next Hn c. Qed.
End Pieces.

#[export] Hint Resolve beside_OK beside_Created beside_Error beside_respond beside_Register beside_Login
  beside_GetDashboardStats beside_ListTransactions beside_GetWalletBalance beside_EnqueueWebhook
  beside_deliverWithRetries : beside.

(** The same for what surrounds the rest of a chain. *)
Ltac serves :=
  repeat first
    [ progress intros
    | match goal with Hn : forall c, serves (?n c) |- serves (?n _) => apply Hn end
    | solve [apply beside_serves; beside]
    | match goal with |- beside _ => solve [beside] end
    | apply serves_after
    | progress cbv beta zeta
    | case_match ].

Section Requests.
Context {U : UUIDLib} {ES : EncryptionService}.
Context {HS : HashService} {SS : SignatureService} {TS : TokenService}.
Context {UP : URLParser} {RU : RequestURI} {V : Validator} {VL : ValidatorLaws} {GF : GinFallback}.
Context {PL : PieceLogic}.

(** *** Handlers that call the payment service *)

Lemma serves_handle_payment w b c : serves (handle_ProcessPayment w b c).
Proof.
  unfold handle_ProcessPayment, authenticated, with_body. destruct (c_MerchantID c) as [mid|]; [|apply beside_serves; beside].
  destruct (ShouldBindJSON _) as [req|e] eqn:Hb; [|apply beside_serves; beside].
  apply serves_before; [|intros; beside]. apply serves_payment.
  apply bound_payment in Hb as (Ha & _ & _ & _ & Hr & _ & ->). by split.
Qed.

Lemma serves_handle_refund w b c : serves (handle_ProcessRefund w b c).
Proof.
  unfold handle_ProcessRefund, authenticated, with_body. destruct (c_MerchantID c) as [mid|]; [|apply beside_serves; beside].
  destruct (ShouldBindJSON _) as [req|e] eqn:Hb; [|apply beside_serves; beside].
  apply serves_before; [|intros; beside]. apply serves_refund.
Qed.

Lemma serves_handle_topup w b c : serves (handle_Topup w b c).
Proof.
  unfold handle_Topup, authenticated, with_body. destruct (c_MerchantID c) as [mid|]; [|apply beside_serves; beside].
  destruct (ShouldBindJSON _) as [req|e] eqn:Hb; [|apply beside_serves; beside].
  apply serves_before; [|intros; beside]. apply serves_topup. apply (bound_topup _ _ Hb).
Qed.

(** *** The middleware of the routes *)


Lemma passes_HMACAuth : passes HMACAuth.
Proof.
  intros next Hn c. unfold HMACAuth, verify_signature, MerchantRepo.GetByAccessKey, NonceStore.CheckAndSet. serves.
Qed.
Lemma passes_JWTAuth : passes JWTAuth.
Proof. intros next Hn c. unfold JWTAuth, Validate. serves. Qed.

Lemma passes_RateLimiter group rule : passes (RateLimiter group rule).
Proof. intros next Hn c. unfold RateLimiter, RateLimitStore.Allow, RateLimitStore.redis_key. serves. Qed.

Lemma passes_rl deps group : passes (rl deps group).
Proof.
  unfold rl. destruct (d_RateLimitStore deps); [|apply passes_skip].
  destruct (find _ _) as [[? rule]|]; [apply passes_RateLimiter|apply passes_skip].
Qed.

Lemma passes_global deps : Forall passes (global_middleware deps).
Proof.
  unfold global_middleware. apply Forall_app. split.
  - apply Forall_cons; split; [apply passes_skip|]. apply Forall_cons; split; [|apply Forall_cons; split; [|by apply Forall_nil]].
    + intros next Hn c. unfold RequestLogger. apply serves_after; [beside|]. intros _.
      apply serves_before; [apply Hn|]. intros c'. beside.
    + intros next Hn c. apply Hn.
  - destruct (d_AuditSvc deps); [|by apply Forall_nil]. apply Forall_cons; split; [|by apply Forall_nil].
    intros next Hn c. unfold AuditLog_. apply serves_before; [apply Hn|]. intros c'.
    unfold Log, persist_entry, AuditRepo.Create. beside.
Qed.
Lemma passes_beside h : (forall c, beside (h c)) -> passes (final h).
Proof. intros Hh. apply passes_final. intros c. by apply beside_serves. Qed.

(** One route: its middleware and its handler. *)
Ltac route h :=
  repeat first [by apply Forall_nil | apply Forall_cons; split];
  first [apply passes_HMACAuth | apply passes_JWTAuth | apply passes_rl | h].

Lemma routes_pass deps : Forall (fun r => Forall passes (snd r)) (routes deps).
Proof.
  unfold routes. rewrite !Forall_app. split_and!.
  - repeat (apply Forall_cons; split); [..|by apply Forall_nil]; cbn [snd];
      route ltac:(apply passes_beside; intros c; first [by apply beside_health | by apply beside_public_handlers | apply beside_ret]).
  - repeat (apply Forall_cons; split); [..|by apply Forall_nil]; cbn [snd];
      route ltac:(apply passes_final; intros c; first [by apply serves_handle_payment | by apply serves_handle_refund]).
  - repeat (apply Forall_cons; split); [..|by apply Forall_nil]; cbn [snd];
      route ltac:(first [apply passes_beside; intros c; by apply beside_dashboard_handlers
                        | apply passes_final; intros c; by apply serves_handle_topup]).
  - unfold merchant_routes. destruct (d_MerchantSvc deps); [|by apply Forall_nil].
    repeat (apply Forall_cons; split); [..|by apply Forall_nil]; cbn [snd];
      route ltac:(apply passes_beside; intros c; by apply beside_merchant_handlers).
Qed.

Lemma route_passes deps m p hs : route deps m p = Some hs -> Forall passes hs.
Proof.
  unfold route. intros ([mp hs'] & Hf & ->)%fmap_Some. apply find_some in Hf as [Hin _].
  pose proof (routes_pass deps) as Hr. rewrite Forall_forall in Hr.
  apply (Hr (mp, hs')). by apply list_elem_of_In.
Qed.

Lemma noroute_passes : Forall passes [final (fun c => Ret (noRoute c))].
Proof. apply Forall_cons; split; [|by apply Forall_nil]. apply passes_beside. intros c. beside. Qed.

(** Every request, whatever it holds, serves. *)
Lemma ServeHTTP_serves deps r : serves (ServeHTTP deps r).
Proof.
  unfold ServeHTTP. destruct (route deps _ _) as [hs|] eqn:Hf.
  - apply chain_serves. apply Forall_app. split; [apply passes_global|by eapply route_passes].
  - destruct (gin_redirect r); [apply beside_serves; beside|].
    apply chain_serves. apply Forall_app. split; [apply passes_global|apply noroute_passes].
Qed.
End Requests.
