(* ===== verification/PaymentSpec.v ===== *)
(** The payment service refines the ledger: every run of [ProcessPayment], [ProcessRefund] and
    [ProcessTopup], under any failures and any interleaving, either leaves the tables alone or
    performs one step of [Ledger]; the answer says which. *)

From S2P Require Export Ledger.

(** ** What the statements of the service mean *)

Section Statements.
Context {U : UUIDLib} {P : PgLib}.

Lemma elem_app_l {A} (a : A) l k : a ∈ l -> a ∈ l ++ k.
Proof. rewrite elem_of_app. auto. Qed.
Lemma elem_app_r {A} (a : A) l k : a ∈ k -> a ∈ l ++ k.
Proof. rewrite elem_of_app. auto. Qed.

Lemma insert_transaction_Ok ord now t T n ws :
  stmt_eff ord now (InsertTransaction t) T = Ok (n, ws) ->
  exists row, store_transaction t = Ok row /\ transactions T !! tx_ID t = None /\ ws = [WTransaction row].
Proof.
  simpl. intros H. apply result_bind_Ok in H as (row & Hs & H).
  apply result_bind_Ok in H as (? & Hid%require_Ok & H).
  repeat (apply result_bind_Ok in H as (? & _ & H)). simplify_eq. bool_prop.
  exists row. split_and!; [done| |done]. by apply has_row_false.
Qed.

(** Why an INSERT of a transaction is refused. *)
Definition insert_refused (T : Tables) (t : Transaction) : Prop :=
  (exists e, store_transaction t = Err e) \/ is_Some (transactions T !! tx_ID t) \/
  merchants T !! tx_MerchantID t = None \/ wallets T !! tx_WalletID t = None \/
  (exists o, tx_OriginalTransactionID t = Some o /\ transactions T !! o = None).

Lemma insert_transaction_Err ord now t T e :
  stmt_eff ord now (InsertTransaction t) T = Err e -> insert_refused T t.
Proof.
  unfold insert_refused. simpl. destruct (store_transaction t) as [row|e'] eqn:Hs; simpl; [|eauto].
  unfold require. intros H.
  destruct (has_row (transactions T) (tx_ID t)) eqn:H1; simpl in H; [apply has_row_true in H1; auto|].
  destruct (has_row (merchants T) _) eqn:H2; simpl in H; [|apply has_row_false in H2; auto].
  destruct (has_row (wallets T) _) eqn:H3; simpl in H; [|apply has_row_false in H3; auto].
  destruct (tx_OriginalTransactionID t) as [o|]; [|done].
  destruct (has_row (transactions T) o) eqn:H4; simpl in H; [done|]. apply has_row_false in H4. eauto 10.
Qed.

Lemma insert_log_Ok ord now l T n ws :
  stmt_eff ord now (InsertIdempotencyLog l) T = Ok (n, ws) ->
  exists l', ws = [WIdempotencyLog l'] /\ varchar 255 (il_Key l) = Ok (il_Key l') /\
    il_TransactionID l' = il_TransactionID l /\ jsonb_col (il_ResponseJSON l) = Ok (il_ResponseJSON l') /\
    idempotency_logs T !! il_Key l' = None.
Proof.
  simpl. unfold store_idempotency_log. intros H. apply result_bind_Ok in H as (l' & Hs & H).
  apply result_bind_Ok in Hs as (k & Hk & Hs). apply result_bind_Ok in Hs as (r & Hr & Hs).
  simplify_eq. apply result_bind_Ok in H as (? & Hn%require_Ok & H).
  repeat (apply result_bind_Ok in H as (? & _ & H)). simplify_eq. bool_prop. simpl in *.
  eexists. split_and!; [done..|]. by apply has_row_false.
Qed.

(** Why an INSERT of an idempotency log is refused, when its transaction is there. *)
Definition log_refused (T : Tables) (key data : string) : Prop :=
  (exists e, varchar 255 key = Err e) \/ jsonb data = None \/ (exists l, key_log T key l).

Lemma insert_log_Err ord now l T e :
  stmt_eff ord now (InsertIdempotencyLog l) T = Err e -> is_Some (transactions T !! il_TransactionID l) ->
  log_refused T (il_Key l) (il_ResponseJSON l).
Proof.
  unfold log_refused, key_log. simpl. unfold store_idempotency_log, jsonb_col.
  destruct (varchar 255 (il_Key l)) as [k|e1] eqn:Hk; simpl; [|eauto].
  destruct (jsonb (il_ResponseJSON l)) as [r|]; simpl; [|eauto]. unfold require. intros H Ht.
  destruct (has_row (idempotency_logs T) k) eqn:H1; simpl in H.
  - apply has_row_true in H1 as [l1 Hl1]. right. right. exists l1, k. eauto.
  - apply has_row_true in Ht. by rewrite Ht in H.
Qed.

Lemma update_balance_Ok ord now enc id T n ws :
  stmt_eff ord now (UpdateWalletBalance enc id) T = Ok (n, ws) -> is_Some (wallets T !! id) ->
  ws = [WBalance id enc now].
Proof.
  simpl. intros H [w Hw]. apply result_bind_Ok in H as (enc' & He & H). rewrite Hw in H.
  unfold text in He. case_match; simplify_eq. done.
Qed.

Lemma hex_plain c : is_lower_hex c = true -> is_plain c = true.
Proof.
  unfold is_lower_hex, is_plain. rewrite andb_true_iff, !Z.ltb_lt.
  intros [H|H]%orb_true_iff; bool_prop; lia.
Qed.

(** Updating the balance of a row that is there fails only with the server. *)
Lemma update_balance_total ord now enc id T :
  string_forallb is_lower_hex enc = true -> is_Some (wallets T !! id) ->
  stmt_eff ord now (UpdateWalletBalance enc id) T = Ok (1, [WBalance id enc now]).
Proof.
  intros He [w Hw]. simpl.
  rewrite text_plain by (eapply string_forallb_impl; [apply hex_plain|done]). simpl. by rewrite Hw.
Qed.
End Statements.

(** ** Outcomes *)

Section Outcomes.
Context {U : UUIDLib} {UL : UUIDLaws} {P : PgLib} {JL : JsonbLaws} {ES : EncryptionService}.
Context (RT : Tables -> Tables -> Prop) {LR : LedgerRely RT} (flt : bool).

(** No answer is logged under the key, which the server can read. *)
Definition unanswered (T : Tables) (key : option string) : Prop :=
  match key with Some k => readable k = true /\ idempotency_logs T !! k = None | None => True end.

(** The step was performed, between what the others did. *)
Definition booked (key : option string) (step : Tables -> Tables -> Prop) (T0 T1 : Tables) : Prop :=
  exists Tc T T', RT T0 Tc /\ unanswered Tc key /\ RT Tc T /\ step T T' /\ RT T' T1.

Definition replayed (key : option string) (r : res Transaction) (T0 T1 : Tables) : Prop :=
  exists k T, key = Some k /\ RT T0 T /\ answered T k r /\ RT T T1.

(** From tables [T0] to [T1] with answer [r]: a booking or a replay when it is a transaction;
    when it is an error, no booking by this call, unless the commit's answer was lost.
    [refused Tc T e] are the business reasons, with [Tc] the tables the key was looked up in
    and [T] those that were found wanting. *)
Definition outcome (key : option string) (step : Transaction -> Tables -> Tables -> Prop)
    (refused : Tables -> Tables -> error -> Prop) (T0 : Tables) (r : res Transaction) (T1 : Tables) : Prop :=
  replayed key r T0 T1 \/
  match r with
  | Ok txn => booked key (step txn) T0 T1
  | Err e =>
    (exists Tc T, RT T0 Tc /\ RT Tc T /\ RT T T1 /\ refused Tc T e) \/
    (flt = true /\ registered e /\ RT T0 T1) \/
    (flt = true /\ exists txn err, e = InternalError (Errorf "commit tx" err) /\ booked key (step txn) T0 T1)
  end.

Lemma outcome_later key step refused T0 r T1 T2 :
  outcome key step refused T0 r T1 -> RT T1 T2 -> outcome key step refused T0 r T2.
Proof.
  intros H H12. unfold outcome, replayed, booked in *.
  destruct H as [(k & T & ? & ? & ? & ?)|H].
  - left. exists k, T. split_and!; [done..|by etrans].
  - right. destruct r as [txn|e].
    + destruct H as (Tc & T & T' & ? & ? & ? & ? & ?). exists Tc, T, T'. split_and!; [done..|by etrans].
    + destruct H as [(Tc & T & ? & ? & ? & ?)|[(? & ? & ?)|(? & txn & err & ? & Tc & T & T' & ? & ? & ? & ? & ?)]].
      * left. exists Tc, T. split_and!; [done..|by etrans|done].
      * right. left. split_and!; [done..|by etrans].
      * right. right. split; [done|]. exists txn, err. split; [done|]. exists Tc, T, T'.
        split_and!; [done..|by etrans].
Qed.

Lemma outcome_fault key step refused T0 e T1 :
  flt = true -> registered e -> RT T0 T1 -> outcome key step refused T0 (Err e) T1.
Proof. intros. right. right. left. done. Qed.

Lemma outcome_refused key step (refused : Tables -> Tables -> error -> Prop) T0 Tc T e :
  RT T0 Tc -> RT Tc T -> refused Tc T e -> outcome key step refused T0 (Err e) T.
Proof. intros. right. left. exists Tc, T. split_and!; [done..|reflexivity|done]. Qed.

(** *** Reasons to refuse *)

(** No wallet, an unreadable balance, or rows the database does not take. *)
Inductive booking_refused (T : Tables) (key : option string) (txn : Transaction) : error -> Prop :=
| br_insert e : insert_refused T txn -> booking_refused T key txn (InternalError e)
| br_marshal e : key <> None -> Marshal_Transaction txn = Err e ->
                 booking_refused T key txn (InternalError (Errorf "marshal response" e))
| br_log e k data : key = Some k -> Marshal_Transaction txn = Ok data ->
                 log_refused T k data -> booking_refused T key txn (InternalError e).

Definition no_wallet (T : Tables) (f : Wallet -> bool) : Prop :=
  forall id w, wallets T !! id = Some w -> f w = false.

(** The server cannot read one of the texts a statement looks for. *)
Definition unreadable (texts : list string) (e : error) : Prop :=
  exists s err, s ∈ texts /\ readable s = false /\ e = InternalError err.

Lemma unreadable_in s texts err : s ∈ texts -> readable s = false -> unreadable texts (InternalError err).
Proof. intros Hs He. by exists s, err. Qed.

Lemma unreadable_sub texts texts' e : texts ⊆ texts' -> unreadable texts e -> unreadable texts' e.
Proof. intros Hsub (s & err & Hs%Hsub & He & ->). by eapply unreadable_in. Qed.

Inductive payment_refused (req : PaymentRequest) (Tc T : Tables) : error -> Prop :=
| pf_text e :
    unreadable [BuildIdempotencyKey (pr_MerchantID req) (pr_ReferenceID req); pr_Currency req] e ->
    payment_refused req Tc T e
| pf_amount : pr_Amount req <= 0 -> payment_refused req Tc T ErrInvalidAmount
| pf_wallet :
    unanswered Tc (Some (BuildIdempotencyKey (pr_MerchantID req) (pr_ReferenceID req))) ->
    readable (pr_Currency req) = true -> no_wallet T (wallet_of (pr_MerchantID req) (pr_Currency req)) ->
    payment_refused req Tc T (ErrNotFound "wallet")
| pf_sealed w e :
    unanswered Tc (Some (BuildIdempotencyKey (pr_MerchantID req) (pr_ReferenceID req))) ->
    wallets T !! w_ID w = Some w -> wallet_of (pr_MerchantID req) (pr_Currency req) w = true ->
    open_balance w = Err e -> payment_refused req Tc T e
| pf_funds w b :
    unanswered Tc (Some (BuildIdempotencyKey (pr_MerchantID req) (pr_ReferenceID req))) ->
    wallets T !! w_ID w = Some w -> wallet_of (pr_MerchantID req) (pr_Currency req) w = true ->
    open_balance w = Ok b -> b < pr_Amount req -> payment_refused req Tc T ErrInsufficientFunds
| pf_rows w b txn e :
    unanswered Tc (Some (BuildIdempotencyKey (pr_MerchantID req) (pr_ReferenceID req))) ->
    wallets T !! w_ID w = Some w -> wallet_of (pr_MerchantID req) (pr_Currency req) w = true ->
    open_balance w = Ok b -> 0 < pr_Amount req <= b ->
    payment_txn req txn -> tx_WalletID txn = w_ID w ->
    booking_refused T (Some (BuildIdempotencyKey (pr_MerchantID req) (pr_ReferenceID req))) txn e ->
    payment_refused req Tc T e.

(** The original a refund found. *)
Definition original (req : RefundRequest) (T : Tables) (orig : Transaction) : Prop :=
  exists Tr, RT Tr T /\ transactions Tr !! tx_ID orig = Some orig /\
             txn_of (rr_MerchantID req) (rr_OriginalReferenceID req) orig = true.

(** No refund of it was there when that was checked. *)
Definition unrefunded (T : Tables) (orig : Transaction) : Prop :=
  exists Tx, RT Tx T /\ some_row (live_refund_of (tx_ID orig)) (transactions Tx) = false.

(** The original passed every check. *)
Definition cleared (req : RefundRequest) (T : Tables) (orig : Transaction) (amount : Z) : Prop :=
  original req T orig /\ IsRefundable orig = true /\ unrefunded T orig /\
  refund_amount req orig = Ok amount.

Inductive refund_refused (req : RefundRequest) (Tc T : Tables) : error -> Prop :=
| rf_text e :
    unreadable [BuildRefundIdempotencyKey (rr_MerchantID req) (rr_OriginalReferenceID req); rr_OriginalReferenceID req] e ->
    refund_refused req Tc T e
| rf_missing :
    unanswered Tc (Some (BuildRefundIdempotencyKey (rr_MerchantID req) (rr_OriginalReferenceID req))) ->
    (forall id t, transactions T !! id = Some t ->
                  txn_of (rr_MerchantID req) (rr_OriginalReferenceID req) t = false) ->
    refund_refused req Tc T (ErrNotFound "original transaction")
| rf_status orig :
    unanswered Tc (Some (BuildRefundIdempotencyKey (rr_MerchantID req) (rr_OriginalReferenceID req))) ->
    original req T orig -> IsRefundable orig = false -> refund_refused req Tc T ErrInvalidRefund
| rf_exists orig :
    unanswered Tc (Some (BuildRefundIdempotencyKey (rr_MerchantID req) (rr_OriginalReferenceID req))) ->
    original req T orig -> IsRefundable orig = true ->
    some_row (live_refund_of (tx_ID orig)) (transactions T) = true ->
    refund_refused req Tc T ErrDuplicateTransaction
| rf_amount orig e :
    unanswered Tc (Some (BuildRefundIdempotencyKey (rr_MerchantID req) (rr_OriginalReferenceID req))) ->
    original req T orig -> IsRefundable orig = true -> unrefunded T orig ->
    refund_amount req orig = Err e -> refund_refused req Tc T e
| rf_wallet orig amount :
    unanswered Tc (Some (BuildRefundIdempotencyKey (rr_MerchantID req) (rr_OriginalReferenceID req))) -> cleared req T orig amount ->
    wallets T !! tx_WalletID orig = None -> refund_refused req Tc T (ErrNotFound "wallet")
| rf_sealed orig amount w e :
    unanswered Tc (Some (BuildRefundIdempotencyKey (rr_MerchantID req) (rr_OriginalReferenceID req))) -> cleared req T orig amount ->
    wallets T !! tx_WalletID orig = Some w -> open_balance w = Err e -> refund_refused req Tc T e
| rf_rows orig amount txn e :
    unanswered Tc (Some (BuildRefundIdempotencyKey (rr_MerchantID req) (rr_OriginalReferenceID req))) -> cleared req T orig amount -> refund_txn req orig amount txn ->
    booking_refused T (Some (BuildRefundIdempotencyKey (rr_MerchantID req) (rr_OriginalReferenceID req))) txn e ->
    refund_refused req Tc T e.

Inductive topup_refused (req : TopupRequest) (Tc T : Tables) : error -> Prop :=
| tf_text e : unreadable [tr_Currency req] e -> topup_refused req Tc T e
| tf_amount : tr_Amount req <= 0 -> topup_refused req Tc T ErrInvalidAmount
| tf_wallet : readable (tr_Currency req) = true -> no_wallet T (wallet_of (tr_MerchantID req) (tr_Currency req)) ->
              topup_refused req Tc T (ErrNotFound "wallet")
| tf_sealed w e :
    wallets T !! w_ID w = Some w -> wallet_of (tr_MerchantID req) (tr_Currency req) w = true ->
    open_balance w = Err e -> topup_refused req Tc T e
| tf_rows w txn e :
    wallets T !! w_ID w = Some w -> wallet_of (tr_MerchantID req) (tr_Currency req) w = true ->
    topup_txn req txn -> tx_WalletID txn = w_ID w -> booking_refused T None txn e ->
    topup_refused req Tc T e.

Definition refund_outcome (req : RefundRequest) : Tables -> res Transaction -> Tables -> Prop :=
  outcome (Some (BuildRefundIdempotencyKey (rr_MerchantID req) (rr_OriginalReferenceID req)))
    (fun txn T T' => exists Tr, RT Tr T /\ refund_step req txn Tr T T') (refund_refused req).

Definition topup_outcome (req : TopupRequest) : Tables -> res Transaction -> Tables -> Prop :=
  outcome None (topup_step req) (topup_refused req).

Definition payment_outcome (req : PaymentRequest) : Tables -> res Transaction -> Tables -> Prop :=
  outcome (Some (BuildIdempotencyKey (pr_MerchantID req) (pr_ReferenceID req)))
    (payment_step req) (payment_refused req).
End Outcomes.

(** ** Pieces of the service's programs *)

Section Pieces.
Context {U : UUIDLib} {UL : UUIDLaws} {P : PgLib} {JL : JsonbLaws} {ES : EncryptionService} {EL : EncryptionLaws}.
Context (RT : Tables -> Tables -> Prop) {LR : LedgerRely RT} (quiet flt : bool).
Context (Hquiet : flt = false -> quiet = true).

Abbreviation D := (ledger RT quiet).

Lemma ledger_quiet : flt = false -> forall v v' h, d_rely D v v' -> tx_open h v' -> tx_open h v.
Proof. intros Hf v v' h [_ H]. auto. Qed.

Lemma ledger_connect v : alone flt None v -> may_connect D flt None v.
Proof. apply alone_connect; [apply _|apply ledger_quiet]. Qed.

Lemma check_idempotency_wp key k Q own es v :
  may_connect D flt own v ->
  (forall r v', RT (v_tables v) (v_tables v') -> good D v' -> answered (v_tables v') key r -> Q r own es v') ->
  (forall e v', flt = true /\ registered e \/ unreadable [key] e ->
     calm D own v v' -> good D v' -> Q (Err e) own es v') ->
  (forall v', calm D own v v' -> good D v' -> unanswered (v_tables v') (Some key) ->
     wp D flt k Q own es v') ->
  wp D flt (check_idempotency key k) Q own es v.
Proof.
  intros Hm HA HE HK. unfold check_idempotency. apply wp_bind.
  assert (Hdb : forall v1, calm D own v v1 -> good D v1 ->
    wp D flt (try idempLog <- IdempotencyRepo.Get key
                catch err => fail (InternalError (Errorf "db idempotency check" err)) ;;
              match idempLog with
              | Some l => Ret (unmarshalCachedTransaction (il_ResponseJSON l))
              | None => k
              end) Q own es v1).
  { intros v1 Hc1 Hg1. apply wp_bind. apply wp_query_opt; [apply _|by eapply may_connect_calm; [apply _|..]|done|..].
    - intros ord now T a ws (_ & _ & ->)%select_text_Ok. done.
    - intros ord now l v' _ Hc Hg (Hread & -> & _)%select_text_Ok. pose proof (calm_trans _ _ _ _ _ Hc1 Hc) as Hc'.
      unfold lookup_list. destruct (idempotency_logs _ !! key) as [l|] eqn:Hl; simpl; [|by apply HK].
      apply HA; [by apply (calm_tables _ _ _ _ Hc')|done|]. exists l. split; [|done]. exists key. auto.
    - intros e v' He Hx Hc Hg. apply HE; [|by eapply calm_trans; [apply _|..]|done].
      destruct Hx as [Hf|(ord & now & _ & Hx%select_text_Err)]; [left; auto with go|right].
      eapply unreadable_in; [by left|done]. }
  apply wp_cache_get; [apply _|..].
  - intros v' Hc Hg s e Hr. simpl. apply HA; [by apply (calm_tables _ _ _ _ Hc)|done|].
    destruct Hg as (_ & _ & Hcache). by eapply Hcache.
  - intros v' Hc Hg. by apply Hdb.
  - intros e v' Hf Hc Hg. by apply Hdb.
Qed.

(** Locking the wallet of a merchant. *)
Lemma lock_wallet_wp mid cur h Q es v :
  in_tx flt h [] [] v ->
  (forall v', good D v' -> RT (v_tables v) (v_tables v') -> no_wallet (v_tables v') (wallet_of mid cur) ->
     readable cur = true -> Q (Ok None) (Some h) es v') ->
  (forall w held v', good D v' -> RT (v_tables v) (v_tables v') -> in_tx flt h [] held v' ->
     wallets (v_tables v') !! w_ID w = Some w -> wallet_of mid cur w = true ->
     (LWallet (w_ID w), Some (inl (inl w))) ∈ held -> Q (Ok (Some w)) (Some h) es v') ->
  (forall e v', flt = true \/ readable cur = false -> good D v' -> RT (v_tables v) (v_tables v') ->
     Q (Err e) (Some h) es v') ->
  wp D flt (WalletRepo.GetByMerchantIDForUpdate h mid cur) Q (Some h) es v.
Proof.
  intros Hin HN HS HE. eapply wp_query_opt_tx; [apply _|apply _|apply ledger_quiet|exact Hin| |].
  - intros ord now l ws' v' Hord Hg Ht (Hread & -> & ->)%select_text_Ok Hin'.
    change (apply_writes [] (v_tables v')) with (v_tables v').
    destruct (rows ord (wallet_of mid cur) (wallets (v_tables v'))) as [|w l] eqn:Hrows; simpl.
    + apply HN; [done..| |exact Hread]. intros id w. by apply (rows_nil _ _ _ Hord Hrows).
    + assert (Hw : w ∈ rows ord (wallet_of mid cur) (wallets (v_tables v'))) by (rewrite Hrows; left).
      apply rows_elem in Hw as (id & Hid & Hf); [|done].
      assert (Hwid : w_ID w = id) by (by eapply wf_wallet; [apply Hg|]). subst id.
      eapply HS; [done|done|exact Hin'|done|done|]. apply elem_of_app. left.
      unfold new_held. apply list_elem_of_In, in_map_iff. exists (LWallet (w_ID w)). simpl. rewrite Hid.
      split; [done|]. apply in_map_iff. exists w. split; [done|]. apply filter_In. split; [|done].
      apply in_map_iff. exists (w_ID w, w). split; [done|]. by apply list_elem_of_In, elem_of_map_to_list.
  - intros e v' Hg Ht [Hf|(ord & now & _ & Hx%select_text_Err)]; apply HE; eauto.
Qed.

Lemma update_balance_wp enc w h held Q es v :
  in_tx flt h [] held v -> string_forallb is_lower_hex enc = true ->
  (LWallet (w_ID w), Some (inl (inl w))) ∈ held ->
  (forall now held' v', good D v' -> RT (v_tables v) (v_tables v') ->
     in_tx flt h [WBalance (w_ID w) enc now] (held' ++ held) v' -> Q (Ok tt) (Some h) es v') ->
  (forall e v', flt = true -> good D v' -> RT (v_tables v) (v_tables v') -> Q (Err e) (Some h) es v') ->
  wp D flt (WalletRepo.UpdateBalance h (w_ID w) enc) Q (Some h) es v.
Proof.
  intros Hin Henc Hheld HQ HE.
  assert (Hrow : forall r v', (r, v') = (LWallet (w_ID w), v') -> row_at r (v_tables v') = Some (inl (inl w)) ->
                              is_Some (wallets (v_tables v') !! w_ID w)).
  { intros r v' [= ->]. simpl. destruct (wallets (v_tables v') !! w_ID w); [eauto|done]. }
  eapply wp_exec_one_tx; [apply _|apply _|apply ledger_quiet|exact Hin| |].
  - intros ord now n ws' v' Hord Hg Ht Hs _ Hin'. simpl apply_writes in Hs.
    assert (Hw : is_Some (wallets (v_tables v') !! w_ID w)).
    { eapply Hrow; [done|]. eapply in_tx_held; [exact Hin'|]. apply elem_of_app. by right. }
    apply update_balance_Ok in Hs; [|done]. subst ws'. by eapply HQ.
  - intros e v' Hg Ht Hr [Hf|(ord & now & _ & Hx)]; [by apply HE|]. exfalso.
    assert (Hw : is_Some (wallets (v_tables v') !! w_ID w)).
    { eapply Hrow; [done|]. rewrite Forall_forall in Hr. by apply (Hr _ Hheld). }
    rewrite (update_balance_total ord now _ _ (v_tables v') Henc Hw) in Hx. des; simplify_eq.
Qed.

(** Inserting the booked transaction, when the new balance is the only change so far. *)
Lemma insert_transaction_wp t wid enc now h held Q es v :
  in_tx flt h [WBalance wid enc now] held v ->
  (forall row held' v', good D v' -> RT (v_tables v) (v_tables v') -> store_transaction t = Ok row ->
     in_tx flt h [WBalance wid enc now; WTransaction row] (held' ++ held) v' ->
     (LTransaction (tx_ID t), None) ∈ held' -> Q (Ok tt) (Some h) es v') ->
  (forall e v', good D v' -> RT (v_tables v) (v_tables v') -> flt = true \/ insert_refused (v_tables v') t ->
     Forall (fun lr => row_at lr.1 (v_tables v') = lr.2) held -> Q (Err e) (Some h) es v') ->
  wp D flt (TransactionRepo.Create h t) Q (Some h) es v.
Proof.
  intros Hin HQ HE. eapply wp_exec_stmt_tx; [apply _|apply _|apply ledger_quiet|exact Hin| |].
  - intros ord now' n ws' v' Hord Hg Ht Hs Hin'.
    apply insert_transaction_Ok in Hs as (row & Hs & Hfresh & ->). simpl in Hfresh.
    eapply HQ; [done|done|done|exact Hin'|]. unfold new_held. simpl. rewrite Hfresh. by left.
  - intros e v' Hg Ht Hr [Hf|(ord & now' & _ & Hx)]; (apply HE; [done|done| |done]); [by left|].
    right. apply insert_transaction_Err in Hx. unfold insert_refused in *. simpl in Hx.
    rewrite lookup_alter_None in Hx. exact Hx.
Qed.

(** Locking a wallet by its id. *)
Lemma lock_wallet_id_wp id h Q es v :
  in_tx flt h [] [] v ->
  (forall v', good D v' -> RT (v_tables v) (v_tables v') -> wallets (v_tables v') !! id = None ->
     Q (Ok None) (Some h) es v') ->
  (forall w held v', good D v' -> RT (v_tables v) (v_tables v') -> in_tx flt h [] held v' ->
     wallets (v_tables v') !! id = Some w -> w_ID w = id ->
     (LWallet (w_ID w), Some (inl (inl w))) ∈ held -> Q (Ok (Some w)) (Some h) es v') ->
  (forall e v', flt = true -> good D v' -> RT (v_tables v) (v_tables v') -> Q (Err e) (Some h) es v') ->
  wp D flt (WalletRepo.GetByIDForUpdate h id) Q (Some h) es v.
Proof.
  intros Hin HN HS HE. eapply wp_query_opt_tx; [apply _|apply _|apply ledger_quiet|exact Hin| |].
  - intros ord now l ws' v' Hord Hg Ht Hs Hin'. simpl in Hs. injection Hs as <- <-.
    unfold lookup_list. destruct (wallets (v_tables v') !! id) as [w|] eqn:Hw; simpl; [|by apply HN].
    assert (Hwid : w_ID w = id) by (by eapply wf_wallet; [apply Hg|]).
    eapply HS; [done|done|exact Hin'|done|done|]. rewrite Hwid. apply elem_of_app. left.
    unfold new_held. simpl. rewrite Hw. by left.
  - intros e v' Hg Ht [Hf|(ord & now & _ & Hx)]; [|by simpl in Hx]. by apply HE.
Qed.

(** Marking a transaction that is there as reversed. *)
Lemma update_status_wp o ws h held Q es v :
  in_tx flt h ws held v ->
  (forall T, RT (v_tables v) T -> is_Some (transactions (apply_writes ws T) !! o)) ->
  (forall at_ held' v', good D v' -> RT (v_tables v) (v_tables v') ->
     in_tx flt h (ws ++ [WStatus o TransactionStatusReversed at_]) (held' ++ held) v' ->
     Q (Ok tt) (Some h) es v') ->
  (forall e v', flt = true -> good D v' -> RT (v_tables v) (v_tables v') -> Q (Err e) (Some h) es v') ->
  wp D flt (TransactionRepo.UpdateStatus h o TransactionStatusReversed) Q (Some h) es v.
Proof.
  intros Hin Ho HQ HE. unfold TransactionRepo.UpdateStatus. apply wp_bind. apply wp_now; [apply _|].
  intros v1 Hc1 _. pose proof (calm_tables _ _ _ _ Hc1) as H1.
  assert (Heff : forall ord now at_ T, RT (v_tables v) T ->
    stmt_eff ord now (UpdateTransactionStatus TransactionStatusReversed at_ o) (apply_writes ws T)
    = Ok (1, [WStatus o TransactionStatusReversed (pg_time at_)])).
  { intros ord now at_ T HT. simpl. destruct (Ho T HT) as [t ->]. done. }
  eapply wp_exec_one_tx; [apply _|apply _|apply ledger_quiet|eapply in_tx_calm; [apply ledger_quiet|exact Hin|exact Hc1]| |].
  - intros ord now n ws' v' _ Hg H2 Hs _ Hin'. rewrite Heff in Hs by (by etrans). injection Hs as <- <-.
    eapply HQ; [done|by etrans|exact Hin'].
  - intros e v' Hg H2 _ [Hf|(ord & now & _ & Hx)]; [apply HE; [done..|by etrans]|].
    rewrite Heff in Hx by (by etrans). des; simplify_eq.
Qed.

(** Inserting the idempotency log last. *)
Lemma insert_log_wp l h ws held Q es v :
  in_tx flt h ws held v ->
  (forall T, idempotency_logs (apply_writes ws T) = idempotency_logs T) ->
  (forall T, is_Some (transactions (apply_writes ws T) !! il_TransactionID l)) ->
  (forall l' held' v', good D v' -> RT (v_tables v) (v_tables v') ->
     varchar 255 (il_Key l) = Ok (il_Key l') -> il_TransactionID l' = il_TransactionID l ->
     jsonb_col (il_ResponseJSON l) = Ok (il_ResponseJSON l') ->
     in_tx flt h (ws ++ [WIdempotencyLog l']) (held' ++ held) v' ->
     (LKey (il_Key l'), None) ∈ held' -> Q (Ok tt) (Some h) es v') ->
  (forall e v', good D v' -> RT (v_tables v) (v_tables v') ->
     flt = true \/ log_refused (v_tables v') (il_Key l) (il_ResponseJSON l) ->
     Forall (fun lr => row_at lr.1 (v_tables v') = lr.2) held -> Q (Err e) (Some h) es v') ->
  wp D flt (IdempotencyRepo.Create h l) Q (Some h) es v.
Proof.
  intros Hin Hlogs Htxn HQ HE. eapply wp_exec_stmt_tx; [apply _|apply _|apply ledger_quiet|exact Hin| |].
  - intros ord now' n ws' v' Hord Hg Ht Hs Hin'.
    apply insert_log_Ok in Hs as (l' & -> & Hk & Hid & Hj & Hnone). rewrite Hlogs in Hnone.
    eapply HQ; [done..|exact Hin'|]. unfold new_held. simpl. rewrite Hk. simpl. rewrite Hnone. by left.
  - intros e v' Hg Ht Hr [Hf|(ord & now' & _ & Hx)]; (apply HE; [done|done| |done]); [by left|].
    right. apply insert_log_Err in Hx; [|done]. unfold log_refused, key_log in *. by rewrite Hlogs in Hx.
Qed.

Lemma answered_persists T T' key r : persists T T' -> answered T key r -> answered T' key r.
Proof.
  intros HP (l & (k & Hk & Hl) & Hr). exists l. split; [|done]. exists k. split; [done|]. by apply HP.
Qed.

Lemma publish_guar h ws v :
  ledger_step (v_tables v) (apply_writes ws (v_tables v)) -> d_guar D v (publish h ws v).
Proof.
  intros Hs. split; [by right|]. intros Hc key s e Hr. simpl in *.
  eapply answered_persists; [by apply ledger_step_persists|]. by eapply Hc.
Qed.

Lemma cache_guar key value e v :
  answered (v_tables v) key (unmarshalCachedTransaction value) ->
  d_guar D v (set_redis (IdempotencyCache.prefix +:+ key) (value, e) v).
Proof.
  intros Ha. split; [by left|]. intros Hc key' s e'. simpl. rewrite lookup_insert_Some.
  intros [[Hk [= <- <-]]|[_ Hr]]; [|by eapply Hc]. apply str_app_inj_l in Hk. by subst key'.
Qed.

(** What the rows held at the commit say. *)
Definition rows_held (held : list (lock * row)) (T : Tables) : Prop := Forall (fun lr => row_at lr.1 T = lr.2) held.

Lemma in_tx_rows h ws held v : in_tx flt h ws held v -> rows_held held (v_tables v).
Proof. intros [_ Hh _]. eapply Forall_impl; [exact Hh|]. by intros lr [_ ?]. Qed.

Lemma held_wallet held T w :
  rows_held held T -> (LWallet (w_ID w), Some (inl (inl w))) ∈ held -> wallets T !! w_ID w = Some w.
Proof.
  unfold rows_held. rewrite Forall_forall. intros Hrows H%Hrows. simpl in H.
  by destruct (wallets T !! w_ID w) as [w'|]; simplify_eq/=.
Qed.

Lemma held_new held T id : rows_held held T -> (LTransaction id, None) ∈ held -> transactions T !! id = None.
Proof. unfold rows_held. rewrite Forall_forall. intros Hrows H%Hrows. simpl in H. by destruct (transactions T !! id). Qed.

Lemma held_unlogged held T key : rows_held held T -> (LKey key, None) ∈ held -> idempotency_logs T !! key = None.
Proof. unfold rows_held. rewrite Forall_forall. intros Hrows H%Hrows. simpl in H. by destruct (idempotency_logs T !! key). Qed.

(** The end of a booking: commit, then cache the answer. *)
Lemma commit_wp key data txn step refused T0 Tc h ws held es v :
  in_tx flt h ws held v -> RT T0 Tc -> unanswered Tc (Some key) -> RT Tc (v_tables v) ->
  (forall T, wf_tables T -> RT (v_tables v) T -> Forall (fun lr => row_at lr.1 T = lr.2) held ->
     step txn T (apply_writes ws T)) ->
  (forall T T', step txn T T' -> ledger_step T T' /\ answered T' key (unmarshalCachedTransaction data)) ->
  wp D flt
    (try _ <- op (PgCommit h) catch err => fail (InternalError (Errorf "commit tx" err)) ;;
     do _ <- IdempotencyCache.Set_ key data idempotencyTTL ;;
     ok txn)
    (fun r own es v' => own = Some h /\ outcome RT flt (Some key) step refused T0 r (v_tables v'))
    (Some h) es v.
Proof.
  intros Hin H0 Hun Hc Hstep Hledger. apply wp_bind.
  eapply wp_commit; [apply _|apply ledger_quiet|exact Hin| |].
  - intros v1 Hin1 Hg1 H1.
    assert (Hst : step txn (v_tables v1) (apply_writes ws (v_tables v1))).
    { apply Hstep; [apply Hg1|done|by eapply in_tx_rows]. }
    destruct (Hledger _ _ Hst) as [Hls Hans].
    assert (Hb : forall T1, RT (apply_writes ws (v_tables v1)) T1 -> booked RT (Some key) (step txn) T0 T1).
    { intros T1 HT1. exists Tc, (v_tables v1), (apply_writes ws (v_tables v1)).
      split_and!; try done. by etrans. }
    split; [by apply publish_guar|]. split.
    + intros Hg. apply wp_bind. apply wp_cache_set; [apply _|..].
      * intros v2 Hc2 Hg2 e. apply cache_guar. eapply answered_persists; [|exact Hans].
        apply lr_persists. by apply (calm_tables _ _ _ _ Hc2).
      * intros x v2 Hg2 H2. split; [done|]. right. by apply Hb.
    + intros e Hf Hg. split; [done|]. right. right. right. split; [done|]. exists txn, e. split; [done|].
      by apply Hb; simpl.
  - intros e v' Hf Hg H'. split; [done|]. apply outcome_fault; [done|auto with go|].
    etrans; [exact H0|]. by etrans.
Qed.
End Pieces.

(** ** Payments *)

Section Payment.
Context {U : UUIDLib} {UL : UUIDLaws} {P : PgLib} {JL : JsonbLaws} {ES : EncryptionService} {EL : EncryptionLaws}.
Context (RT : Tables -> Tables -> Prop) {LR : LedgerRely RT} (quiet flt : bool).
Context (Hquiet : flt = false -> quiet = true).

Lemma booking_answered txn delta reversed key T T' :
  booking txn delta reversed (Some key) T T' -> answered T' key (Ok (visible txn)).
Proof.
  intros (w & b & enc & now & row & reversal & logs & _ & _ & _ & _ & _ & Hr & (l & Hk & _ & _ & Hu & ->) & ->).
  exists l. split; [|done]. exists (il_Key l). split; [by right|].
  rewrite !apply_writes_app. simpl. by rewrite lookup_insert_eq.
Qed.

Lemma payment_books req txn T T' data :
  payment_valid req -> Marshal_Transaction txn = Ok data -> payment_step req txn T T' ->
  ledger_step T T' /\
  answered T' (BuildIdempotencyKey (pr_MerchantID req) (pr_ReferenceID req)) (unmarshalCachedTransaction data).
Proof.
  intros Ha Hm Hs. split; [by eapply ls_payment|]. destruct Hs as ((id & wid & enc & now & _ & ->) & _ & _ & Hb).
  pose proof Hb as (w & b & enc' & now' & row & reversal & logs & _ & _ & _ & Hs & _).
  rewrite (unmarshal_marshal _ _ _ Hs (proj1 Ha) Hm). by eapply booking_answered.
Qed.

Abbreviation payment_key req := (BuildIdempotencyKey (pr_MerchantID req) (pr_ReferenceID req)).

(** The writes of the transaction are the step, as long as the rows it holds are as it saw them. *)
Lemma payment_step_held req T txn w b enc now row l data :
  0 < pr_Amount req <= b -> payment_valid req -> open_balance w = Ok b ->
  wallet_of (pr_MerchantID req) (pr_Currency req) w = true -> payment_txn req txn -> tx_WalletID txn = w_ID w ->
  Decrypt enc = Ok (FormatInt (sub64 b (pr_Amount req))) -> store_transaction txn = Ok row ->
  Marshal_Transaction txn = Ok data -> varchar 255 (payment_key req) = Ok (il_Key l) -> il_TransactionID l = tx_ID txn ->
  jsonb_col data = Ok (il_ResponseJSON l) ->
  wallets T !! w_ID w = Some w -> transactions T !! tx_ID txn = None -> idempotency_logs T !! il_Key l = None ->
  payment_step req txn T (apply_writes [WBalance (w_ID w) enc now; WTransaction row; WIdempotencyLog l] T).
Proof.
  intros Hb Hint Hopen Hof Htxn Hwid Hdec Hrow Hm Hk Hlid Hj Hw Hnew Hlog.
  split; [done|]. split; [lia|]. split; [exists w, b; rewrite Hwid; split_and!; [done..|lia]|].
  exists w, b, enc, now, row, [], [WIdempotencyLog l]. rewrite Hwid. split_and!; try done.
  exists l. split_and!; try done. eapply unmarshal_jsonb; [done| |done|done].
  destruct Htxn as (? & ? & ? & ? & _ & ->). apply Hint.
Qed.

(** The persisting statements, on the wallet row [w] that is locked with balance [b]. *)
Lemma persist_payment_wp req T0 Tc h w b enc txn now held es v :
  0 < pr_Amount req <= b -> payment_valid req -> open_balance w = Ok b ->
  wallet_of (pr_MerchantID req) (pr_Currency req) w = true ->
  payment_txn req txn -> tx_WalletID txn = w_ID w ->
  Decrypt enc = Ok (FormatInt (sub64 b (pr_Amount req))) -> string_forallb is_lower_hex enc = true ->
  RT T0 Tc -> unanswered Tc (Some (payment_key req)) -> RT Tc (v_tables v) ->
  in_tx flt h [] held v -> (LWallet (w_ID w), Some (inl (inl w))) ∈ held ->
  wp (ledger RT quiet) flt (persist_payment h (payment_key req) enc txn now)
    (fun r own es v' => own = Some h /\ payment_outcome RT flt req T0 r (v_tables v')) (Some h) es v.
Proof.
  intros Hb Hint Hopen Hof Htxn Hwid Hdec Hhex H0 Hun Hc Hin Hheld. unfold persist_payment. rewrite Hwid.
  assert (Hfault : forall e T, flt = true -> registered e -> RT (v_tables v) T ->
    Some h = Some h /\ payment_outcome RT flt req T0 (Err e) T).
  { intros e T Hf He Ht. split; [done|]. apply outcome_fault; [done..|]. etrans; [exact H0|]. by etrans. }
  assert (Href : forall e T held, RT (v_tables v) T -> rows_held held T -> (LWallet (w_ID w), Some (inl (inl w))) ∈ held ->
    booking_refused T (Some (payment_key req)) txn e ->
    Some h = Some h /\ payment_outcome RT flt req T0 (Err e) T).
  { intros e T rows Ht Hrows Hr He. split; [done|]. eapply outcome_refused; [apply _|exact H0|by etrans|].
    eapply pf_rows; [done|by eapply held_wallet|done..]. }
  apply wp_bind. eapply update_balance_wp; [apply _|done|exact Hin|done|done| |].
  2:{ intros e v1 Hf _ H1. apply Hfault; auto with go. }
  intros now1 held1 v1 _ H1 Hin1.
  apply wp_bind. eapply insert_transaction_wp; [apply _|done|exact Hin1| |].
  2:{ intros e v2 _ H2 [Hf|Hr] Hrows; [apply Hfault; [done|auto with go|by etrans]|].
      eapply Href; [by etrans|exact Hrows|by apply elem_app_r|by apply br_insert]. }
  intros row held2 v2 Hg2 H2 Hrow Hin2 Hid.
  assert (Hwall : (LWallet (w_ID w), Some (inl (inl w))) ∈ held2 ++ held1 ++ held)
    by (rewrite !elem_of_app; auto).
  destruct (Marshal_Transaction txn) as [data|e] eqn:Hm.
  2:{ eapply Href; [by etrans|by eapply in_tx_rows|exact Hwall|by apply br_marshal]. }
  assert (Hrid : tx_ID row = tx_ID txn) by (by apply store_transaction_inv in Hrow as [? _]).
  apply wp_bind. eapply insert_log_wp; [apply _|done|exact Hin2|done| | |].
  { intros T. simpl. rewrite Hrid, lookup_insert_eq. eauto. }
  2:{ intros e v3 _ H3 [Hf|Hr] Hrows; [apply Hfault; [done|auto with go|by do 2 etrans]|].
      eapply Href; [by do 2 etrans|exact Hrows|exact Hwall|by eapply br_log]. }
  cbn [app il_Key il_TransactionID il_ResponseJSON]. intros l held3 v3 _ H3 Hk Hlid Hj Hin3 Hlog.
  eapply commit_wp; [apply _|done|exact Hin3|done|done|by do 3 etrans| |].
  - intros T Hwf _ Hrows. eapply payment_step_held; try done.
    + eapply held_wallet; [exact Hrows|]. by apply elem_app_r.
    + eapply held_new; [exact Hrows|]. rewrite !elem_of_app. auto.
    + eapply held_unlogged; [exact Hrows|]. by apply elem_app_l.
  - intros T T' Hs. by eapply payment_books.
Qed.

(** Everything between BEGIN and the deferred rollback. *)
Lemma payment_in_tx_wp req T0 Tc h es v :
  0 < pr_Amount req -> payment_valid req ->
  RT T0 Tc -> unanswered Tc (Some (payment_key req)) -> RT Tc (v_tables v) -> in_tx flt h [] [] v ->
  wp (ledger RT quiet) flt (payment_in_tx req (payment_key req) h)
    (fun r own es v' => own = Some h /\ payment_outcome RT flt req T0 r (v_tables v')) (Some h) es v.
Proof.
  intros Hpos Hint H0 Hun Hc Hin. unfold payment_in_tx.
  assert (Hfault : forall e T, flt = true -> registered e -> RT (v_tables v) T ->
    Some h = Some h /\ payment_outcome RT flt req T0 (Err e) T).
  { intros e T Hf He Ht. split; [done|]. apply outcome_fault; [done..|]. etrans; [exact H0|]. by etrans. }
  assert (Href : forall e T, RT (v_tables v) T -> payment_refused req Tc T e ->
    Some h = Some h /\ payment_outcome RT flt req T0 (Err e) T).
  { intros e T Ht He. split; [done|]. eapply outcome_refused; [apply _|exact H0|by etrans|done]. }
  apply wp_bind. eapply lock_wallet_wp; [apply _|done|exact Hin| | |].
  { intros v1 _ H1 Hno Hcur. apply Href; [done|]. by apply pf_wallet. }
  2:{ intros e v1 [Hf|He] _ H1; [apply Hfault; auto with go|].
      apply Href; [done|]. apply pf_text. eapply unreadable_in; [|exact He]. right. by left. }
  intros w held v1 _ H1 Hin1 Hw Hof Hheld.
  destruct (open_balance w) as [b|e] eqn:Hopen; [|apply Href; [done|by eapply pf_sealed]].
  destruct (b <? pr_Amount req) eqn:Hb; bool_prop; [apply Href; [done|by eapply pf_funds]|].
  apply wp_bind. apply Encrypt_wp; [apply _| |].
  2:{ intros e v2 Hf Hc2 _ _. apply Hfault; [done|auto with go|].
      etrans; [exact H1|by apply (calm_tables _ _ _ _ Hc2)]. }
  intros enc nonces2 v2 Hc2 _ _ Hdec Hhex.
  apply wp_bind. apply Encrypt_wp; [apply _| |].
  2:{ intros e v3 Hf Hc3 _ _. apply Hfault; [done|auto with go|].
      etrans; [exact H1|by apply (calm_tables _ _ _ _ (calm_trans _ _ _ _ _ Hc2 Hc3))]. }
  intros amountEnc nonces3 v3 Hc3 _ _ Hdec2 Hhex2.
  apply wp_bind. apply wp_now; [apply _|]. intros v4 Hc4 _.
  apply wp_bind. apply wp_uuid; [apply _|]. intros id v5 Hc5 _.
  pose proof (calm_trans _ _ _ _ _ Hc2 (calm_trans _ _ _ _ _ Hc3 (calm_trans _ _ _ _ _ Hc4 Hc5))) as Hc'.
  eapply persist_payment_wp; [exact (conj Hpos Hb)|done|exact Hopen|exact Hof|by repeat eexists|done|exact Hdec|done
    |exact H0|done| |by eapply in_tx_calm; [apply ledger_quiet|..]|exact Hheld].
  etrans; [exact Hc|]. etrans; [exact H1|]. by apply (calm_tables _ _ _ _ Hc').
Qed.

Theorem ProcessPayment_wp req es v :
  payment_valid req -> good (ledger RT quiet) v -> alone flt None v ->
  wp (ledger RT quiet) flt (ProcessPayment req)
    (fun r own es v' => payment_outcome RT flt req (v_tables v) r (v_tables v')) None es v.
Proof.
  intros Hint Hg Hal. unfold ProcessPayment.
  destruct (pr_Amount req <=? 0) eqn:Hpos; bool_prop.
  { eapply outcome_refused; [apply _|reflexivity|reflexivity|]. by apply pf_amount. }
  apply check_idempotency_wp; [apply _|by apply ledger_connect|..].
  - intros r v' H' _ Ha. left. exists (payment_key req), (v_tables v'). split_and!; [done..|reflexivity].
  - intros e v' [[Hf He]|Hu] Hc _; [apply outcome_fault; [done..|by apply (calm_tables _ _ _ _ Hc)]|].
    eapply outcome_refused; [apply _|by apply (calm_tables _ _ _ _ Hc)|reflexivity|].
    apply pf_text. eapply unreadable_sub; [|exact Hu]. by intros s ->%list_elem_of_singleton; left.
  - intros v1 Hc1 Hg1 Hun. pose proof (calm_tables _ _ _ _ Hc1) as H1.
    apply wp_bind. eapply wp_begin; [apply _|apply _|by apply ledger_quiet| | |].
    { eapply alone_rely; [by apply ledger_quiet|exact Hal|apply Hc1]. }
    2:{ intros e v2 Hf He Hc2 _. apply outcome_fault; [done|auto with go|].
        etrans; [exact H1|by apply (calm_tables _ _ _ _ Hc2)]. }
    intros h v2 H2 Hg2 Hin. apply wp_defer.
    eapply wp_mono; [|eapply payment_in_tx_wp; [done|done|exact H1|exact Hun| |exact Hin]].
    2: exact H2.
    intros r own es' v3 [-> Ho]. eapply wp_rollback; [apply _|].
    intros x v4 _ H4. by eapply outcome_later.
Qed.
End Payment.

(** ** Refunds *)

Section Refund.
Context {U : UUIDLib} {UL : UUIDLaws} {P : PgLib} {JL : JsonbLaws} {ES : EncryptionService} {EL : EncryptionLaws}.
Context (RT : Tables -> Tables -> Prop) {LR : LedgerRely RT} (quiet flt : bool).
Context (Hquiet : flt = false -> quiet = true).

Abbreviation refund_key req := (BuildRefundIdempotencyKey (rr_MerchantID req) (rr_OriginalReferenceID req)).

Lemma stored_amount t row : store_transaction t = Ok row -> in_int64 (tx_Amount t).
Proof.
  intros Hs. apply store_transaction_inv in Hs as (_&_&_&_&_&_&_&_&_&_&Ha).
  unfold in_int64, min_int64, max_int64. lia.
Qed.

Lemma refund_books req txn T T' data :
  Marshal_Transaction txn = Ok data -> (exists Tr, RT Tr T /\ refund_step req txn Tr T T') ->
  ledger_step T T' /\ answered T' (refund_key req) (unmarshalCachedTransaction data).
Proof.
  intros Hm (Tr & Hr & Hs). split; [eapply ls_refund; [by apply lr_persists|done]|].
  destruct Hs as (orig & amount & (id & enc & now & _ & ->) & _ & _ & _ & _ & _ & Hb).
  pose proof Hb as (w & b & enc' & now' & row & reversal & logs & _ & _ & _ & Hs & _).
  rewrite (unmarshal_marshal _ _ _ Hs (stored_amount _ _ Hs) Hm). by eapply booking_answered.
Qed.

(** The writes of the transaction are the step, as long as the rows it holds are as it saw them. *)
Lemma refund_step_held req Tr T orig t amount txn w b enc now row at_ l data :
  RT Tr T -> open_balance w = Ok b -> w_ID w = tx_WalletID orig -> IsRefundable orig = true ->
  refund_txn req orig amount txn -> refund_amount req orig = Ok amount ->
  transactions Tr !! tx_ID orig = Some orig -> txn_of (rr_MerchantID req) (rr_OriginalReferenceID req) orig = true ->
  Decrypt enc = Ok (FormatInt (add64 b amount)) -> store_transaction txn = Ok row -> Marshal_Transaction txn = Ok data ->
  varchar 255 (refund_key req) = Ok (il_Key l) -> il_TransactionID l = tx_ID txn -> jsonb_col data = Ok (il_ResponseJSON l) ->
  transactions T !! tx_ID orig = Some t ->
  wallets T !! w_ID w = Some w -> transactions T !! tx_ID txn = None -> idempotency_logs T !! il_Key l = None ->
  exists Tr, RT Tr T /\ refund_step req txn Tr T
    (apply_writes [WBalance (w_ID w) enc now; WTransaction row; WStatus (tx_ID orig) TransactionStatusReversed at_; WIdempotencyLog l] T).
Proof.
  intros HT Hopen Hwid Hrf Htxn Hamt HTr Htof Hdec Hrow Hm Hk Hlid Hj Ht Hw Hnew Hlog.
  assert (Htw : tx_WalletID txn = w_ID w) by (destruct Htxn as (? & ? & ? & _ & ->); done).
  unfold txn_of in Htof. apply andb_true_iff in Htof as [Hm1%bool_decide_eq_true Hm2%String.eqb_eq].
  exists Tr. split; [done|]. exists orig, amount. split_and!; [done..|].
  exists w, b, enc, now, row, [WStatus (tx_ID orig) TransactionStatusReversed at_], [WIdempotencyLog l].
  rewrite Htw. split_and!; try done; [by eexists|].
  exists l. split_and!; try done. eapply unmarshal_jsonb; [done|by eapply stored_amount|done|done].
Qed.

Lemma persist_refund_wp req T0 Tc Tr Tx h w b enc orig amount txn now held es v :
  open_balance w = Ok b -> w_ID w = tx_WalletID orig -> IsRefundable orig = true ->
  refund_txn req orig amount txn -> refund_amount req orig = Ok amount ->
  transactions Tr !! tx_ID orig = Some orig -> txn_of (rr_MerchantID req) (rr_OriginalReferenceID req) orig = true ->
  Decrypt enc = Ok (FormatInt (add64 b amount)) -> string_forallb is_lower_hex enc = true ->
  RT T0 Tc -> unanswered Tc (Some (refund_key req)) -> RT Tc (v_tables v) -> RT Tr (v_tables v) ->
  RT Tx (v_tables v) -> some_row (live_refund_of (tx_ID orig)) (transactions Tx) = false ->
  in_tx flt h [] held v -> (LWallet (w_ID w), Some (inl (inl w))) ∈ held ->
  wp (ledger RT quiet) flt (persist_refund h (refund_key req) enc orig txn now)
    (fun r own es v' => own = Some h /\ refund_outcome RT flt req T0 r (v_tables v')) (Some h) es v.
Proof.
  intros Hopen Hwid Hrf Htxn Hamt HTr Htof Hdec Hhex H0 Hun Hc Hcr Hcx Hno Hin Hheld.
  assert (Htw : tx_WalletID txn = w_ID w) by (destruct Htxn as (? & ? & ? & _ & ->); done).
  unfold persist_refund. rewrite Htw.
  assert (Hfault : forall e T, flt = true -> registered e -> RT (v_tables v) T ->
    Some h = Some h /\ refund_outcome RT flt req T0 (Err e) T).
  { intros e T Hf He Ht. split; [done|]. apply outcome_fault; [done..|]. etrans; [exact H0|]. by etrans. }
  assert (Href : forall e T, RT (v_tables v) T -> booking_refused T (Some (refund_key req)) txn e ->
    Some h = Some h /\ refund_outcome RT flt req T0 (Err e) T).
  { intros e T Ht He. split; [done|]. eapply outcome_refused; [apply _|exact H0|by etrans|].
    eapply rf_rows; [done| |exact Htxn|done]. split_and!; [exists Tr|done|exists Tx|done]; split_and!; try done; by etrans. }
  apply wp_bind. eapply update_balance_wp; [apply _|done|exact Hin|done|done| |].
  2:{ intros e v1 Hf _ H1. apply Hfault; auto with go. }
  intros now1 held1 v1 _ H1 Hin1.
  apply wp_bind. eapply insert_transaction_wp; [apply _|done|exact Hin1| |].
  2:{ intros e v2 _ H2 [Hf|Hr] Hrows; [apply Hfault; [done|auto with go|by etrans]|].
      apply Href; [by etrans|by apply br_insert]. }
  intros row held2 v2 Hg2 H2 Hrow Hin2 Hid.
  assert (Hrid : tx_ID row = tx_ID txn) by (by apply store_transaction_inv in Hrow as [? _]).
  assert (Horig : forall T, RT (v_tables v) T -> exists t, transactions T !! tx_ID orig = Some t /\ same_transaction orig t).
  { intros T HT. assert (HTr' : RT Tr T) by (by etrans). by apply (per_transaction _ _ (lr_persists _ _ HTr')). }
  apply wp_bind. eapply update_status_wp; [apply _|done|exact Hin2| | |].
  { intros T HT. destruct (Horig T) as (t & Ht & _); [by do 2 etrans|].
    simpl. destruct (decide (tx_ID row = tx_ID orig)) as [->|Hne].
    - rewrite lookup_insert_eq. eauto.
    - rewrite lookup_insert_ne by done. eauto. }
  2:{ intros e v3 Hf _ H3. apply Hfault; [done|auto with go|by do 2 etrans]. }
  cbn [app]. intros at_ held3 v3 Hg3 H3 Hin3.
  destruct (Marshal_Transaction txn) as [data|e] eqn:Hm.
  2:{ apply Href; [by do 2 etrans|by apply br_marshal]. }
  apply wp_bind. eapply insert_log_wp; [apply _|done|exact Hin3|done| | |].
  { intros T. simpl. destruct (decide (tx_ID txn = tx_ID orig)) as [<-|Hne];
      [rewrite lookup_alter_eq|rewrite lookup_alter_ne by done]; rewrite Hrid, lookup_insert_eq; eauto. }
  2:{ intros e v4 _ H4 [Hf|Hr] Hrows; [apply Hfault; [done|auto with go|by do 3 etrans]|].
      apply Href; [by do 3 etrans|by eapply br_log]. }
  cbn [app il_Key il_TransactionID il_ResponseJSON]. intros l held4 v4 _ H4 Hk Hlid Hj Hin4 Hlog.
  eapply commit_wp; [apply _|done|exact Hin4|done|done|by do 4 etrans| |].
  - intros T Hwf HT Hrows. destruct (Horig T) as (t & Ht & _); [by do 4 etrans|].
    eapply (refund_step_held req Tr); try done; [by do 5 etrans|..].
    + eapply held_wallet; [exact Hrows|]. rewrite !elem_of_app. auto.
    + eapply held_new; [exact Hrows|]. rewrite !elem_of_app. auto.
    + eapply held_unlogged; [exact Hrows|]. by apply elem_app_l.
  - intros T T' Hs. by eapply refund_books.
Qed.

Lemma refund_in_tx_wp req T0 Tc Tr Tx orig amount h es v :
  IsRefundable orig = true -> refund_amount req orig = Ok amount ->
  transactions Tr !! tx_ID orig = Some orig ->
  txn_of (rr_MerchantID req) (rr_OriginalReferenceID req) orig = true ->
  RT T0 Tc -> unanswered Tc (Some (refund_key req)) -> RT Tc (v_tables v) -> RT Tr (v_tables v) ->
  RT Tx (v_tables v) -> some_row (live_refund_of (tx_ID orig)) (transactions Tx) = false ->
  in_tx flt h [] [] v ->
  wp (ledger RT quiet) flt (refund_in_tx req (refund_key req) orig amount h)
    (fun r own es v' => own = Some h /\ refund_outcome RT flt req T0 r (v_tables v')) (Some h) es v.
Proof.
  intros Hrf Hamt HTr Htof H0 Hun Hc Hcr Hcx Hno Hin. unfold refund_in_tx.
  assert (Hfault : forall e T, flt = true -> registered e -> RT (v_tables v) T ->
    Some h = Some h /\ refund_outcome RT flt req T0 (Err e) T).
  { intros e T Hf He Ht. split; [done|]. apply outcome_fault; [done..|]. etrans; [exact H0|]. by etrans. }
  assert (Href : forall e T, RT (v_tables v) T -> (cleared RT req T orig amount -> refund_refused RT req Tc T e) ->
    Some h = Some h /\ refund_outcome RT flt req T0 (Err e) T).
  { intros e T Ht He. split; [done|]. eapply outcome_refused; [apply _|exact H0|by etrans|].
    apply He. split_and!; [exists Tr|done|exists Tx|done]; split_and!; try done; by etrans. }
  apply wp_bind. eapply lock_wallet_id_wp; [apply _|done|exact Hin| | |].
  { intros v1 _ H1 Hnw. apply Href; [done|]. intros Ho. by eapply rf_wallet. }
  2:{ intros e v1 Hf _ H1. apply Hfault; auto with go. }
  intros w held v1 _ H1 Hin1 Hw Hwid Hheld.
  destruct (open_balance w) as [b|e] eqn:Hopen; [|apply Href; [done|intros Ho; by eapply rf_sealed]].
  apply wp_bind. apply Encrypt_wp; [apply _| |].
  2:{ intros e v2 Hf Hc2 _ _. apply Hfault; [done|auto with go|].
      etrans; [exact H1|by apply (calm_tables _ _ _ _ Hc2)]. }
  intros enc nonces2 v2 Hc2 _ _ Hdec Hhex.
  apply wp_bind. apply Encrypt_wp; [apply _| |].
  2:{ intros e v3 Hf Hc3 _ _. apply Hfault; [done|auto with go|].
      etrans; [exact H1|by apply (calm_tables _ _ _ _ (calm_trans _ _ _ _ _ Hc2 Hc3))]. }
  intros amountEnc nonces3 v3 Hc3 _ _ Hdec2 Hhex2.
  apply wp_bind. apply wp_now; [apply _|]. intros v4 Hc4 _.
  apply wp_bind. apply wp_uuid; [apply _|]. intros id v5 Hc5 _.
  pose proof (calm_trans _ _ _ _ _ Hc2 (calm_trans _ _ _ _ _ Hc3 (calm_trans _ _ _ _ _ Hc4 Hc5))) as Hc'.
  assert (H5 : RT (v_tables v) (v_tables v5)) by (etrans; [exact H1|by apply (calm_tables _ _ _ _ Hc')]).
  eapply persist_refund_wp; [exact Hopen|done|done|rewrite Hwid; by repeat eexists|done|exact HTr|done|exact Hdec|done
    |exact H0|done|by etrans|by etrans| |exact Hno|by eapply in_tx_calm; [apply ledger_quiet|..]|exact Hheld].
  by etrans.
Qed.

(** Reading the original by its reference. *)
Lemma get_by_reference_wp mid ref Q own es v :
  may_connect (ledger RT quiet) flt own v ->
  (forall v', calm (ledger RT quiet) own v v' -> good (ledger RT quiet) v' ->
     (forall id t, transactions (v_tables v') !! id = Some t -> txn_of mid ref t = false) ->
     Q (Ok None) own es v') ->
  (forall t v', calm (ledger RT quiet) own v v' -> good (ledger RT quiet) v' ->
     transactions (v_tables v') !! tx_ID t = Some t -> txn_of mid ref t = true -> Q (Ok (Some t)) own es v') ->
  (forall e v', flt = true \/ readable ref = false -> calm (ledger RT quiet) own v v' -> Q (Err e) own es v') ->
  wp (ledger RT quiet) flt (TransactionRepo.GetByReference mid ref) Q own es v.
Proof.
  intros Hm HN HS HE. apply wp_query_opt; [apply _|done|done|..].
  - intros ord now T a ws (_ & _ & ->)%select_text_Ok. done.
  - intros ord now l v' Hord Hc Hg (_ & -> & _)%select_text_Ok.
    destruct (rows ord (txn_of mid ref) (transactions (v_tables v'))) as [|t l] eqn:Hrows; simpl.
    + apply HN; [done..|]. intros id t. by apply (rows_nil _ _ _ Hord Hrows).
    + assert (Ht : t ∈ rows ord (txn_of mid ref) (transactions (v_tables v'))) by (rewrite Hrows; left).
      apply rows_elem in Ht as (id & Hid & Hf); [|done].
      assert (tx_ID t = id) as Htid by (by eapply wf_transaction; [apply Hg|]).
      apply HS; [done..|by rewrite Htid|done].
  - intros e v' He [Hf|(ord & now & _ & Hx%select_text_Err)] Hc Hg; apply HE; eauto.
Qed.

Lemma check_refund_exists_wp id Q own es v :
  may_connect (ledger RT quiet) flt own v ->
  (forall b v', calm (ledger RT quiet) own v v' -> good (ledger RT quiet) v' ->
     b = some_row (live_refund_of id) (transactions (v_tables v')) -> Q (Ok b) own es v') ->
  (forall e v', flt = true -> calm (ledger RT quiet) own v v' -> Q (Err e) own es v') ->
  wp (ledger RT quiet) flt (TransactionRepo.CheckRefundExists id) Q own es v.
Proof.
  intros Hm HQ HE. unfold TransactionRepo.CheckRefundExists. apply wp_bind. apply wp_read; [apply _|done|done|..].
  - intros ord now T a ws Hs. simpl in Hs. injection Hs. congruence.
  - intros ord now a v' _ Hc Hg Hs. simpl in Hs. injection Hs as <-. by apply HQ.
  - intros e v' He [Hf|(ord & now & _ & Hx)] Hc Hg; [|by simpl in Hx]. by apply HE.
Qed.

Theorem ProcessRefund_wp req es v :
  good (ledger RT quiet) v -> alone flt None v ->
  wp (ledger RT quiet) flt (ProcessRefund req)
    (fun r own es v' => refund_outcome RT flt req (v_tables v) r (v_tables v')) None es v.
Proof.
  intros Hg Hal. pose proof (ledger_connect RT quiet flt Hquiet v Hal) as Hm.
  unfold ProcessRefund. apply check_idempotency_wp; [apply _|done|..].
  { intros r v' H' _ Ha. left. exists (refund_key req), (v_tables v'). split_and!; [done..|reflexivity]. }
  { intros e v' [[Hf He]|Hu] Hc _; [apply outcome_fault; [done..|by apply (calm_tables _ _ _ _ Hc)]|].
    eapply outcome_refused; [apply _|by apply (calm_tables _ _ _ _ Hc)|reflexivity|].
    apply rf_text. eapply unreadable_sub; [|exact Hu]. by intros s ->%list_elem_of_singleton; left. }
  intros v1 Hc1 Hg1 Hun. pose proof (calm_tables _ _ _ _ Hc1) as H1.
  assert (Hfault : forall e v', flt = true -> registered e -> calm (ledger RT quiet) None v1 v' ->
    refund_outcome RT flt req (v_tables v) (Err e) (v_tables v')).
  { intros e v' Hf He Hc'. apply outcome_fault; [done..|]. etrans; [exact H1|by apply (calm_tables _ _ _ _ Hc')]. }
  assert (Href : forall e v', calm (ledger RT quiet) None v1 v' ->
    refund_refused RT req (v_tables v1) (v_tables v') e ->
    refund_outcome RT flt req (v_tables v) (Err e) (v_tables v')).
  { intros e v' Hc' He. eapply outcome_refused; [apply _|exact H1|by apply (calm_tables _ _ _ _ Hc')|done]. }
  apply wp_bind. apply get_by_reference_wp; [by eapply may_connect_calm; [apply _|..]|..].
  { intros v2 Hc2 _ Hno. apply Href; [done|]. by apply rf_missing. }
  2:{ intros e v2 [Hf|He] Hc2; [apply Hfault; auto with go|].
      apply Href; [done|]. apply rf_text. eapply unreadable_in; [|exact He]. right. by left. }
  intros orig v2 Hc2 Hg2 Horig Htof.
  assert (Ho : forall v', calm (ledger RT quiet) None v2 v' -> original RT req (v_tables v') orig).
  { intros v' Hc'. exists (v_tables v2). split_and!; [by apply (calm_tables _ _ _ _ Hc')|done..]. }
  destruct (IsRefundable orig) eqn:Hrf; cbn [negb].
  2:{ apply Href; [done|]. eapply rf_status; [done|apply Ho, calm_refl; apply _|done]. }
  apply wp_bind. apply check_refund_exists_wp.
  { eapply may_connect_calm; [apply _|by eapply may_connect_calm; [apply _|..]|done]. }
  2:{ intros e v3 Hf Hc3. apply Hfault; [done|auto with go|by eapply calm_trans; [apply _|..]]. }
  intros b v3 Hc3 Hg3 Hb. pose proof (calm_trans _ _ _ _ _ Hc2 Hc3) as Hc13. destruct b.
  { apply Href; [done|]. eapply rf_exists; eauto. }
  destruct (refund_amount req orig) as [amount|e] eqn:Hamt.
  2:{ apply Href; [done|]. eapply rf_amount; [done|by apply Ho|done|by exists (v_tables v3)|done]. }
  apply wp_bind. eapply wp_begin; [apply _|apply _|by apply ledger_quiet| | |].
  { eapply alone_rely; [by apply ledger_quiet|exact Hal|]. eapply rely_trans; [apply Hc1|apply Hc13]. }
  2:{ intros e v4 Hf He Hc4 _. apply Hfault; [done|auto with go|by eapply calm_trans; [apply _|..]]. }
  intros h v4 H4 Hg4 Hin. apply wp_defer.
  eapply wp_mono; [|eapply refund_in_tx_wp; [done|done|exact Horig|done|exact H1|exact Hun| | | |by symmetry|exact Hin]].
  - intros r own es' v5 [-> Hout]. eapply wp_rollback; [apply _|].
    intros x v6 _ H6. by eapply outcome_later.
  - etrans; [|exact H4]. by apply (calm_tables _ _ _ _ Hc13).
  - etrans; [|exact H4]. by apply (calm_tables _ _ _ _ Hc3).
  - exact H4.
Qed.
End Refund.

(** ** Top-ups *)

Section Topup.
Context {U : UUIDLib} {UL : UUIDLaws} {P : PgLib} {JL : JsonbLaws} {ES : EncryptionService} {EL : EncryptionLaws}.
Context (RT : Tables -> Tables -> Prop) {LR : LedgerRely RT} (quiet flt : bool).
Context (Hquiet : flt = false -> quiet = true).

(** Commit without a log or a cached answer. *)
Lemma commit_only_wp txn step refused T0 h ws held es v :
  in_tx flt h ws held v -> RT T0 (v_tables v) ->
  (forall T, wf_tables T -> Forall (fun lr => row_at lr.1 T = lr.2) held -> step txn T (apply_writes ws T)) ->
  (forall T T', step txn T T' -> ledger_step T T') ->
  wp (ledger RT quiet) flt
    (try _ <- op (PgCommit h) catch err => fail (InternalError (Errorf "commit tx" err)) ;; ok txn)
    (fun r own es v' => own = Some h /\ outcome RT flt None step refused T0 r (v_tables v'))
    (Some h) es v.
Proof.
  intros Hin H0 Hstep Hledger. apply wp_bind.
  eapply wp_commit; [apply _|by apply ledger_quiet|exact Hin| |].
  - intros v1 Hin1 Hg1 H1.
    assert (Hst : step txn (v_tables v1) (apply_writes ws (v_tables v1))).
    { apply Hstep; [apply Hg1|by eapply in_tx_rows]. }
    assert (Hb : booked RT None (step txn) T0 (apply_writes ws (v_tables v1))).
    { exists T0, (v_tables v1), (apply_writes ws (v_tables v1)). split_and!; try done. by etrans. }
    split; [by apply publish_guar, Hledger|]. split.
    + intros Hg. split; [done|]. by right.
    + intros e Hf Hg. split; [done|]. right. right. right. split; [done|]. by exists txn, e.
  - intros e v' Hf Hg H'. split; [done|]. apply outcome_fault; [done|auto with go|by etrans].
Qed.

Lemma persist_topup_wp req T0 h w b enc txn held es v :
  0 < tr_Amount req -> in_int64 (tr_Amount req) -> open_balance w = Ok b ->
  wallet_of (tr_MerchantID req) (tr_Currency req) w = true ->
  topup_txn req txn -> tx_WalletID txn = w_ID w ->
  Decrypt enc = Ok (FormatInt (add64 b (tr_Amount req))) -> string_forallb is_lower_hex enc = true ->
  RT T0 (v_tables v) -> in_tx flt h [] held v -> (LWallet (w_ID w), Some (inl (inl w))) ∈ held ->
  wp (ledger RT quiet) flt (persist_topup h enc txn)
    (fun r own es v' => own = Some h /\ topup_outcome RT flt req T0 r (v_tables v')) (Some h) es v.
Proof.
  intros Hpos Hint Hopen Hof Htxn Hwid Hdec Hhex H0 Hin Hheld. unfold persist_topup. rewrite Hwid.
  assert (Hfault : forall e T, flt = true -> registered e -> RT (v_tables v) T ->
    Some h = Some h /\ topup_outcome RT flt req T0 (Err e) T).
  { intros e T Hf He Ht. split; [done|]. apply outcome_fault; [done..|]. by etrans. }
  apply wp_bind. eapply update_balance_wp; [apply _|done|exact Hin|done|done| |].
  2:{ intros e v1 Hf _ H1. apply Hfault; auto with go. }
  intros now1 held1 v1 _ H1 Hin1.
  apply wp_bind. eapply insert_transaction_wp; [apply _|done|exact Hin1| |].
  2:{ intros e v2 _ H2 [Hf|Hr] Hrows; [apply Hfault; [done|auto with go|by etrans]|].
      split; [done|]. eapply outcome_refused; [apply _|exact H0|by etrans|].
      eapply tf_rows; [|done..|by apply br_insert]. eapply held_wallet; [exact Hrows|]. by apply elem_app_r. }
  intros row held2 v2 _ H2 Hrow Hin2 Hid.
  eapply commit_only_wp; [exact Hin2|by do 2 etrans| |by intros T T' ?; eapply ls_topup].
  intros T Hwf Hrows.
  assert (Hw : wallets T !! w_ID w = Some w) by (eapply held_wallet; [exact Hrows|]; rewrite !elem_of_app; auto).
  assert (Hnew : transactions T !! tx_ID txn = None) by (eapply held_new; [exact Hrows|]; by apply elem_app_l).
  split; [done|]. split; [done|]. split; [exists w; by rewrite Hwid|].
  exists w, b, enc, now1, row, [], []. rewrite Hwid. split_and!; done.
Qed.

Theorem ProcessTopup_wp req es v :
  in_int64 (tr_Amount req) -> good (ledger RT quiet) v -> alone flt None v ->
  wp (ledger RT quiet) flt (ProcessTopup req)
    (fun r own es v' => topup_outcome RT flt req (v_tables v) r (v_tables v')) None es v.
Proof.
  intros Hint Hg Hal. unfold ProcessTopup. destruct (tr_Amount req <=? 0) eqn:Hpos; bool_prop.
  { eapply outcome_refused; [apply _|reflexivity|reflexivity|]. by apply tf_amount. }
  apply wp_bind. eapply wp_begin; [apply _|apply _|by apply ledger_quiet|exact Hal| |].
  2:{ intros e v2 Hf He Hc2 _. apply outcome_fault; [done|auto with go|by apply (calm_tables _ _ _ _ Hc2)]. }
  intros h v1 H1 _ Hin. apply wp_defer.
  eapply (wp_mono _ _ _ (fun r own es v' => own = Some h /\ topup_outcome RT flt req (v_tables v) r (v_tables v'))).
  { intros r own es' v5 [-> Hout]. eapply wp_rollback; [apply _|]. intros x v6 _ H6. by eapply outcome_later. }
  unfold topup_in_tx.
  assert (Hfault : forall e T, flt = true -> registered e -> RT (v_tables v1) T ->
    Some h = Some h /\ topup_outcome RT flt req (v_tables v) (Err e) T).
  { intros e T Hf He Ht. split; [done|]. apply outcome_fault; [done..|]. by etrans. }
  assert (Href : forall e T, RT (v_tables v1) T -> topup_refused req (v_tables v) T e ->
    Some h = Some h /\ topup_outcome RT flt req (v_tables v) (Err e) T).
  { intros e T Ht He. split; [done|]. eapply outcome_refused; [apply _|reflexivity|by etrans|done]. }
  apply wp_bind. eapply lock_wallet_wp; [apply _|done|exact Hin| | |].
  { intros v2 _ H2 Hno Hcur. apply Href; [done|]. by apply tf_wallet. }
  2:{ intros e v2 [Hf|He] _ H2; [apply Hfault; auto with go|].
      apply Href; [done|]. apply tf_text. eapply unreadable_in; [|exact He]. by left. }
  intros w held v2 _ H2 Hin2 Hw Hof Hheld.
  destruct (open_balance w) as [b|e] eqn:Hopen; [|apply Href; [done|by eapply tf_sealed]].
  apply wp_bind. apply Encrypt_wp; [apply _| |].
  2:{ intros e v3 Hf Hc3 _ _. apply Hfault; [done|auto with go|].
      etrans; [exact H2|by apply (calm_tables _ _ _ _ Hc3)]. }
  intros enc nonces3 v3 Hc3 _ _ Hdec Hhex. apply wp_bind. apply Encrypt_wp; [apply _| |].
  2:{ intros e v4 Hf Hc4 _ _. apply Hfault; [done|auto with go|].
      etrans; [exact H2|by apply (calm_tables _ _ _ _ (calm_trans _ _ _ _ _ Hc3 Hc4))]. }
  intros amountEnc nonces4 v4 Hc4 _ _ Hdec2 Hhex2. apply wp_bind. apply wp_now; [apply _|]. intros v5 Hc5 _.
  apply wp_bind. apply wp_uuid; [apply _|]. intros id v6 Hc6 _.
  pose proof (calm_trans _ _ _ _ _ Hc3 (calm_trans _ _ _ _ _ Hc4 (calm_trans _ _ _ _ _ Hc5 Hc6))) as Hc'.
  eapply persist_topup_wp; [done|done|exact Hopen|done|by repeat eexists|done|exact Hdec|done| 
    |by eapply in_tx_calm; [by apply ledger_quiet|..]|exact Hheld].
  etrans; [exact H1|]. etrans; [exact H2|]. by apply (calm_tables _ _ _ _ Hc').
Qed.
End Topup.
