(* ===== verification/Beside.v ===== *)
(** Requests keep the ledger's discipline: every piece leaves the ledger alone, and the calls of
    the payment service change it by its own steps. *)

From S2P Require Export Pieces PaymentSpec.

Section Beside.
Context {U : UUIDLib} {UL : UUIDLaws} {P : PgLib} {JL : JsonbLaws} {ES : EncryptionService} {EL : EncryptionLaws}.
Context {HS : HashService} {HL : HashLaws} {TS : TokenService} {TL : TokenLaws}.
Context (RT : Tables -> Tables -> Prop) {LR : LedgerRely RT} (quiet : bool).

Abbreviation D := (ledger RT quiet).

(** A piece that may run anywhere: it opens no transaction and leaves the ledger alone. *)
Definition ledger_beside {A : Type} (p : prog A) : Prop := forall own es v, good D v ->
  wp D true p (fun _ own' _ v' => own' = own /\ good D v') own es v.

(** A piece that may run as long as the goroutine has no transaction. *)
Definition ledger_serves {A : Type} (p : prog A) : Prop := forall es v, good D v ->
  wp D true p (fun _ _ _ v' => good D v') None es v.

Lemma ledger_beside_serves {A : Type} (p : prog A) : ledger_beside p -> ledger_serves p.
Proof. intros Hp es v Hg. eapply wp_mono; [|by apply Hp]. by intros ???? [_ ?]. Qed.

Lemma ledger_beside_ret {A : Type} (a : A) : ledger_beside (Ret a).
Proof. by intros own es v Hg. Qed.

Lemma ledger_beside_bind {A B : Type} (p : prog A) (f : A -> prog B) :
  ledger_beside p -> (forall a, ledger_beside (f a)) -> ledger_beside (bind p f).
Proof.
  intros Hp Hf own es v Hg. apply wp_bind. eapply wp_mono; [|by apply Hp].
  intros a own' es' v' [-> Hg']. by apply Hf.
Qed.

Lemma ledger_serves_after {A B : Type} (p : prog A) (f : A -> prog B) :
  ledger_beside p -> (forall a, ledger_serves (f a)) -> ledger_serves (bind p f).
Proof.
  intros Hp Hf es v Hg. apply wp_bind. eapply wp_mono; [|by apply Hp].
  intros a own' es' v' [-> Hg']. by apply Hf.
Qed.

Lemma ledger_serves_before {A B : Type} (p : prog A) (f : A -> prog B) :
  ledger_serves p -> (forall a, ledger_beside (f a)) -> ledger_serves (bind p f).
Proof.
  intros Hp Hf es v Hg. apply wp_bind. eapply wp_mono; [|by apply Hp].
  intros a own' es' v' Hg'. eapply wp_mono; [|by apply Hf]. by intros ???? [_ ?].
Qed.

Lemma ledger_beside_go {A : Type} (c : prog unit) (k : prog A) : ledger_beside c -> ledger_beside k -> ledger_beside (Go c k).
Proof.
  intros Hc Hk own es v Hg. split; [|by apply Hk]. eapply wp_mono; [|by apply Hc]. done.
Qed.

Lemma harmless_own {X} (o : Op X) own x : harmless o -> own_after own o x = own.
Proof. by destruct o. Qed.

Lemma ledger_beside_op {X} (o : Op X) : harmless o -> ledger_beside (op o).
Proof.
  intros Ho own es v Hg. apply wp_op; [apply _|destruct o; try done; by destruct conn|].
  intros v1 _ [Hwl Hi]. split; [done|]. intros x v' Hs. split; [by eapply harmless_guar|].
  intros Hg'. split; [by apply harmless_own|done].
Qed.

Lemma ledger_beside_encrypt s : ledger_beside (Encrypt s).
Proof. intros own es v Hg. apply Encrypt_wp; [apply _|..]; intros; done. Qed.

Lemma ledger_beside_hash s : ledger_beside (Hash s).
Proof. intros own es v Hg. apply Hash_wp; [apply _|..]; intros; done. Qed.

Lemma ledger_beside_generate mid key : ledger_beside (Generate mid key).
Proof. intros own es v Hg. apply Generate_wp; [apply _|..]; intros; done. Qed.

(** Whatever is proved of a call of the service, it serves. *)
Lemma ledger_serves_wp {A : Type} (p : prog A) (Q : View -> A -> option tx -> list event -> View -> Prop) :
  (forall es v, good D v -> wp D true p (Q v) None es v) -> ledger_serves p.
Proof.
  intros Hp es v Hg. eapply wp_mono; [|apply wp_good; [apply _|exact Hg|by apply Hp]].
  by intros ???? [_ ?].
Qed.

Definition ledger_core : PieceCore.
Proof.
  refine {| beside := @ledger_beside; serves := @ledger_serves |}.
  - apply @ledger_beside_ret.
  - apply @ledger_beside_bind.
  - apply @ledger_beside_go.
  - apply @ledger_beside_op.
  - apply ledger_beside_encrypt.
  - apply ledger_beside_hash.
  - apply ledger_beside_generate.
  - apply @ledger_beside_serves.
  - apply @ledger_serves_after.
  - apply @ledger_serves_before.
Defined.

Definition ledger_logic : PieceLogic.
Proof.
  refine {| piece_core := ledger_core |}.
  - intros req Hv. eapply ledger_serves_wp. intros es v Hg. by apply ProcessPayment_wp; [apply _|..].
  - intros req. eapply ledger_serves_wp. intros es v Hg. by apply ProcessRefund_wp; [apply _|..].
  - intros req Hv. eapply ledger_serves_wp. intros es v Hg. by apply ProcessTopup_wp; [apply _|..].
Defined.
End Beside.
