(* ===== verification/Payments.v ===== *)
(** What the payment service guarantees to a caller whose call runs alone, under any failures:
    payments, refunds and top-ups on a [Backend]. *)

From S2P Require Export LedgerInv PaymentSpec.

Section Keys.
Context {U : UUIDLib} {UL : UUIDLaws} {P : PgLib} {ES : EncryptionService}.

(** Keys of valid references fit their column. *)
Lemma rune_count_app a b : rune_count (a +:+ b) = (rune_count a + rune_count b)%nat.
Proof. induction a as [|c a IH]; [done|]. rewrite str_app_cons. cbn [rune_count]. rewrite IH. lia. Qed.

Lemma varchar_short n s k : varchar n s = Ok k -> (rune_count s <= n)%nat -> k = s.
Proof.
  unfold varchar. intros H Hn. apply result_bind_Ok in H as (s' & Hs & H).
  apply text_inv in Hs as (-> & _ & _). destruct (Nat.leb_spec (rune_count s) n); [congruence|lia].
Qed.

Lemma key_log_short T key l : (rune_count key <= 255)%nat -> key_log T key l -> idempotency_logs T !! key = Some l.
Proof. intros Hn (k & [->|Hk] & Hl); [done|]. apply varchar_short in Hk; [by subst|done]. Qed.

Lemma payment_key_short req : payment_valid req ->
  (rune_count (BuildIdempotencyKey (pr_MerchantID req) (pr_ReferenceID req)) <= 255)%nat.
Proof.
  intros [_ Hr]. unfold BuildIdempotencyKey. rewrite !rune_count_app.
  pose proof (rune_count_length (uuid_String (pr_MerchantID req))) as H. rewrite uuid_String_length in H.
  simpl. lia.
Qed.

Lemma refund_key_short req : (rune_count (rr_OriginalReferenceID req) <= 100)%nat ->
  (rune_count (BuildRefundIdempotencyKey (rr_MerchantID req) (rr_OriginalReferenceID req)) <= 255)%nat.
Proof.
  intros Hr. unfold BuildRefundIdempotencyKey. rewrite !rune_count_app.
  pose proof (rune_count_length (uuid_String (rr_MerchantID req))) as H. rewrite uuid_String_length in H.
  simpl. lia.
Qed.

Lemma answered_short T key r :
  (rune_count key <= 255)%nat -> answered T key r ->
  exists l, idempotency_logs T !! key = Some l /\ unmarshalCachedTransaction (il_ResponseJSON l) = r.
Proof. intros Hn (l & Hl & Hr). exists l. split; [by apply key_log_short|done]. Qed.

Lemma answered_unique T key r r' :
  (rune_count key <= 255)%nat -> answered T key r -> answered T key r' -> r = r'.
Proof.
  intros Hn H H'. apply answered_short in H as (l & Hl & <-), H' as (l' & Hl' & <-); [|done..]. congruence.
Qed.

(** A cached transaction has no more to hide. *)
Lemma unmarshal_visible data txn : unmarshalCachedTransaction data = Ok txn -> visible txn = txn.
Proof.
  unfold unmarshalCachedTransaction. destruct (Unmarshal_Transaction data) as [t|] eqn:E; [|done].
  intros [= ->]. unfold Unmarshal_Transaction in E. destruct (json_parse data) as [[]|]; try done.
  - by simplify_eq.
  - unfold decode_transaction in E.
    repeat (apply result_bind_Ok in E as (? & _ & E)). by simplify_eq.
Qed.
End Keys.

Section Alone.
Context {U : UUIDLib} {UL : UUIDLaws} {P : PgLib} {JL : JsonbLaws} {ES : EncryptionService} {EL : EncryptionLaws}.
Context {B : Backend} {BL : BackendLaws}.

Definition tables (s : St) : Tables := v_tables (view s).

(** A state between requests: rows under their keys, a cache that agrees with the logs. *)
Definition ready (s : St) : Prop :=
  locks_ok (view s) /\ wf_tables (tables s) /\ cache_ok (view s).

(** Every connection is back in the pool: no transaction is open, and so no row is locked. *)
Definition idle (s : St) : Prop := forall h, ~ tx_open h (view s).

Lemma idle_unlocked s : ready s -> idle s -> v_locks (view s) = ∅.
Proof.
  intros (Hl & _) Hi. apply map_eq. intros l. rewrite lookup_empty.
  destruct (v_locks (view s) !! l) as [h|] eqn:Hh; [|done]. by destruct (Hi h (lk_open _ Hl _ _ Hh)).
Qed.

Lemma ready_good RT q s : ready s <-> good (ledger RT q) (view s).
Proof. done. Qed.

Lemma idle_alone flt s : idle s -> alone flt None (view s).
Proof. intros Hi _ h Hh. by destruct (Hi h). Qed.

Lemma faulty_alone own v : alone true own v.
Proof. done. Qed.

(** Reading a [wp] on a run. *)
Lemma run_spec {A} (p : prog A) (Q : A -> Tables -> Prop) es s r es' s' :
  (good (ledger eq true) (view s) ->
   wp (ledger eq true) true p (fun r _ _ v' => Q r (v_tables v')) None es (view s)) ->
  ready s -> run p es s = Some (r, es', s') -> Q r (tables s') /\ ready s'.
Proof.
  intros Hw Hs Hr. pose proof Hs as (Hwl & Hwf & Hc).
  destruct (wp_run (ledger eq true) p _ None es s r es' s' (Hw Hs) Hwl (conj Hwf Hc) Hr) as ([own HQ] & Hwl' & Hwf' & Hc').
  done.
Qed.

Lemma run_total {A} (p : prog A) (Q : A -> Tables -> Prop) es s :
  (good (ledger eq true) (view s) -> alone false None (view s) ->
   wp (ledger eq true) false p (fun r _ _ v' => Q r (v_tables v')) None es (view s)) ->
  ready s -> idle s -> reliable s ->
  exists r es' s', run p es s = Some (r, es', s') /\ Q r (tables s') /\ ready s' /\ reliable s'.
Proof.
  intros Hw Hs Hi Hr. pose proof Hs as (Hwl & Hwf & Hc).
  destruct (wp_total (ledger eq true) p _ None es s (Hw Hs (idle_alone false _ Hi)) Hwl (conj Hwf Hc) Hr)
    as (r & es' & s' & Hrun & [own HQ] & Hwl' & [Hwf' Hc'] & Hr').
  exists r, es', s'. done.
Qed.

Lemma payment_run req s r es s' :
  payment_valid req -> ready s -> run (ProcessPayment req) [] s = Some (r, es, s') ->
  payment_outcome eq true req (tables s) r (tables s') /\ ready s'.
Proof.
  intros Hv Hs Hr. eapply run_spec; [|exact Hs|exact Hr]. intros Hg. by apply ProcessPayment_wp; [apply _|..].
Qed.

Lemma refund_run req s r es s' :
  ready s -> run (ProcessRefund req) [] s = Some (r, es, s') ->
  refund_outcome eq true req (tables s) r (tables s') /\ ready s'.
Proof.
  intros Hs Hr. eapply run_spec; [|exact Hs|exact Hr]. intros Hg. by apply ProcessRefund_wp; [apply _|..].
Qed.

Lemma topup_run req s r es s' :
  in_int64 (tr_Amount req) -> ready s -> run (ProcessTopup req) [] s = Some (r, es, s') ->
  topup_outcome eq true req (tables s) r (tables s') /\ ready s'.
Proof.
  intros Hv Hs Hr. eapply run_spec; [|exact Hs|exact Hr]. intros Hg. by apply ProcessTopup_wp; [apply _|..].
Qed.

(** Outcomes when nobody else changes the tables. *)
Inductive outcome_alone (flt : bool) (key : option string) (step : Transaction -> Tables -> Tables -> Prop)
    (refused : Tables -> error -> Prop) (T : Tables) : res Transaction -> Tables -> Prop :=
| oa_replayed k r : key = Some k -> answered T k r -> outcome_alone flt key step refused T r T
| oa_booked txn T' : unanswered T key -> step txn T T' -> outcome_alone flt key step refused T (Ok txn) T'
| oa_refused e : refused T e -> outcome_alone flt key step refused T (Err e) T
| oa_fault e : flt = true -> registered e -> outcome_alone flt key step refused T (Err e) T
| oa_commit_lost txn err T' : flt = true -> unanswered T key -> step txn T T' ->
    outcome_alone flt key step refused T (Err (InternalError (Errorf "commit tx" err))) T'.

Lemma outcome_eq flt key step refused T r T' :
  outcome eq flt key step refused T r T' -> outcome_alone flt key step (fun T => refused T T) T r T'.
Proof.
  intros [(k & T1 & -> & -> & Ha & ->)|H]; [by eapply oa_replayed|]. destruct r as [txn|e].
  - destruct H as (Tc & T1 & T2 & -> & Hu & -> & Hs & ->). by apply oa_booked.
  - destruct H as [(Tc & T1 & -> & -> & -> & Hr)|[(Hf & He & ->)|(Hf & txn & err & -> & Tc & T1 & T2 & -> & Hu & -> & Hs & ->)]].
    + by apply oa_refused.
    + by apply oa_fault.
    + by eapply oa_commit_lost.
Qed.

Lemma unanswered_log T key : unanswered T (Some key) -> idempotency_logs T !! key = None.
Proof. by intros [_ ?]. Qed.

Lemma unanswered_readable T key : unanswered T (Some key) -> readable key = true.
Proof. by intros [? _]. Qed.

Lemma unreadable_refused key e : unreadable [key] e -> readable key = false /\ exists err, e = InternalError err.
Proof. intros (s & err & ->%list_elem_of_singleton & Hs & ->). eauto. Qed.

(** The state changes of one booking that is alone. *)
Record booked_alone (txn : Transaction) (delta : Z) (T T' : Tables) : Prop := {
  ba_balance : exists b, balance T (tx_WalletID txn) = Some b /\
                         balance T' (tx_WalletID txn) = Some (wrap64 (b + delta));
  ba_wallets id : id <> tx_WalletID txn -> wallets T' !! id = wallets T !! id;
  ba_row : exists row, store_transaction txn = Ok row /\ transactions T !! tx_ID txn = None /\
                       transactions T' !! tx_ID txn = Some row;
  ba_others : merchants T' = merchants T /\ webhook_delivery_logs T' = webhook_delivery_logs T /\
              audit_logs T' = audit_logs T
}.

Lemma booking_alone txn delta reversed key T T' : booking txn delta reversed key T T' -> booked_alone txn delta T T'.
Proof.
  intros Hb. split.
  - destruct (booking_wallets _ _ _ _ _ _ Hb) as (w & b & enc & now & Hw & Ho & _).
    rewrite (balance_booking _ _ _ _ _ _ _ Hb), decide_True by done. exists b.
    unfold balance. by rewrite Hw, Ho.
  - destruct (booking_wallets _ _ _ _ _ _ Hb) as (w & b & enc & now & _ & _ & _ & ->).
    intros id Hne. by rewrite lookup_insert_ne.
  - destruct (booking_transactions _ _ _ _ _ _ Hb) as (row & at_ & Hs & Hf & _ & Hr & _). eauto.
  - by eapply booking_others.
Qed.

(** A booking that reverses nothing leaves the other transactions alone. *)
Lemma booking_rows txn delta key T T' id :
  booking txn delta None key T T' -> id <> tx_ID txn -> transactions T' !! id = transactions T !! id.
Proof.
  intros Hb Hne. destruct (booking_transactions _ _ _ _ _ _ Hb) as (row & at_ & _ & _ & _ & _ & Ho).
  rewrite Ho by done. by destruct (transactions T !! id).
Qed.
End Alone.
