(* ===== verification/Money.v ===== *)
(** The three calls that move money - payment, refund, top-up - as one, for what is said of
    all of them. *)

From S2P Require Export Payments.

Section Movements.
Context {U : UUIDLib} {UL : UUIDLaws} {P : PgLib} {JL : JsonbLaws} {ES : EncryptionService}.

(** A movement of money. *)
Inductive Movement :=
| Pay (req : PaymentRequest)
| GiveBack (req : RefundRequest)
| PayIn (req : TopupRequest).

(** The call of the payment service that carries it out. *)
Definition carry_out (o : Movement) : prog (res Transaction) :=
  match o with Pay req => ProcessPayment req | GiveBack req => ProcessRefund req | PayIn req => ProcessTopup req end.

(** What bodies that were bound are known to satisfy. *)
Definition movement_valid (o : Movement) : Prop :=
  match o with Pay req => payment_valid req | GiveBack _ => True | PayIn req => in_int64 (tr_Amount req) end.

(** The key its answer is kept under; top-ups have none. *)
Definition movement_key (o : Movement) : option string :=
  match o with
  | Pay req => Some (BuildIdempotencyKey (pr_MerchantID req) (pr_ReferenceID req))
  | GiveBack req => Some (BuildRefundIdempotencyKey (rr_MerchantID req) (rr_OriginalReferenceID req))
  | PayIn _ => None
  end.

(** The step of the ledger, and the reasons against it, when nobody else changes the tables. *)
Definition movement_step (o : Movement) (txn : Transaction) (T T' : Tables) : Prop :=
  match o with
  | Pay req => payment_step req txn T T'
  | GiveBack req => refund_step req txn T T T'
  | PayIn req => topup_step req txn T T'
  end.

Definition movement_refused (o : Movement) (T : Tables) (e : error) : Prop :=
  match o with
  | Pay req => payment_refused req T T e
  | GiveBack req => refund_refused eq req T T e
  | PayIn req => topup_refused req T T e
  end.

Definition movement_outcome (flt : bool) (o : Movement) : Tables -> res Transaction -> Tables -> Prop :=
  outcome_alone flt (movement_key o) (movement_step o) (movement_refused o).

Lemma outcome_alone_mono flt key (step step' : Transaction -> Tables -> Tables -> Prop) (refused : Tables -> error -> Prop) T r T' :
  (forall txn T', step txn T T' -> step' txn T T') ->
  outcome_alone flt key step refused T r T' -> outcome_alone flt key step' refused T r T'.
Proof.
  intros Hst [k r' Hk Ha|txn T1 Hu H|e H|e Hf He|txn err T1 Hf Hu H];
    [by eapply oa_replayed|apply oa_booked; auto|by apply oa_refused|by apply oa_fault|eapply oa_commit_lost; eauto].
Qed.

Context {EL : EncryptionLaws}.

Lemma carry_out_wp flt o es v :
  movement_valid o -> good (ledger eq true) v -> alone flt None v ->
  wp (ledger eq true) flt (carry_out o) (fun r _ _ v' => movement_outcome flt o (v_tables v) r (v_tables v')) None es v.
Proof.
  intros Hv Hg Hal. destruct o as [req|req|req]; cbn [carry_out].
  - eapply wp_mono; [|by apply ProcessPayment_wp; [apply _|..]]. intros r own es' v' Ho%outcome_eq. exact Ho.
  - eapply wp_mono; [|by apply ProcessRefund_wp; [apply _|..]]. intros r own es' v' Ho%outcome_eq.
    eapply outcome_alone_mono; [|exact Ho]. by intros txn T' (Tr & -> & Hst).
  - eapply wp_mono; [|by apply ProcessTopup_wp; [apply _|..]]. intros r own es' v' Ho%outcome_eq. exact Ho.
Qed.

(** Errors are the package's own, so that the status of an answer is the one they name. *)
Lemma open_balance_error w e : open_balance w = Err e -> registered e.
Proof.
  unfold open_balance. destruct (Decrypt _); [|intros [= <-]; auto with go].
  destruct (ParseInt _); [done|]. intros [= <-]. auto with go.
Qed.

Lemma unmarshal_error data e : unmarshalCachedTransaction data = Err e -> registered e.
Proof. unfold unmarshalCachedTransaction. destruct (Unmarshal_Transaction data); [done|]. intros [= <-]. auto with go. Qed.

Lemma booking_refused_error T key txn e : booking_refused T key txn e -> registered e.
Proof. intros []; auto with go. Qed.

Lemma refund_amount_error req orig e : refund_amount req orig = Err e -> registered e.
Proof.
  unfold refund_amount. destruct (rr_Amount req) as [a|]; [|done].
  repeat (case_match; [intros [= <-]; apply reg_plain; set_solver|]). done.
Qed.

Lemma unreadable_error texts e : unreadable texts e -> registered e.
Proof. intros (s & err & _ & _ & ->). auto with go. Qed.

Lemma movement_refused_error o T e : movement_refused o T e -> registered e.
Proof.
  destruct o as [req|req|req]; intros [];
    solve [ apply reg_not_found | apply reg_plain; set_solver
          | by eapply open_balance_error | by eapply booking_refused_error | by eapply unreadable_error | by eapply refund_amount_error ].
Qed.

Lemma registered_refusal e : registered e -> 400 <= fst (fst (response_Error e)).
Proof.
  intros He. destruct He as [e He|x|m|e|e|e|e]; try (simpl; unfold StatusBadRequest, StatusNotFound, StatusInternalServerError, StatusServiceUnavailable; lia).
  repeat (apply elem_of_cons in He as [->|He]; [done|]). by apply not_elem_of_nil in He.
Qed.

Lemma movement_error flt o T e T' : movement_outcome flt o T (Err e) T' -> registered e.
Proof.
  intros Ho. inversion Ho as [k r Hk Ha| |e' Hr| |]; subst; [|by eapply movement_refused_error|done|auto with go].
  destruct Ha as (l & _ & Hu). by eapply unmarshal_error.
Qed.
End Movements.

Section Atomic.
Context {U : UUIDLib} {UL : UUIDLaws} {P : PgLib} {JL : JsonbLaws} {ES : EncryptionService} {EL : EncryptionLaws}.
Context {B : Backend} {BL : BackendLaws}.

(** C9: a payment, refund or top-up that answers with an error has changed no table; the one
    exception is a lost answer to COMMIT, when the whole booking, and nothing else, may be in
    place. *)
Theorem money_error_atomic o s e es s' :
  movement_valid o -> ready s -> run (carry_out o) [] s = Some (Err e, es, s') ->
  tables s' = tables s \/
  (exists err txn, e = InternalError (Errorf "commit tx" err) /\ movement_step o txn (tables s) (tables s')).
Proof.
  intros Hv Hs Hr.
  destruct (run_spec (carry_out o) (movement_outcome true o (tables s)) [] s (Err e) es s') as [Ho _]; [|done|done|].
  { intros Hg. by apply carry_out_wp. }
  inversion Ho; subst; eauto 10.
Qed.
End Atomic.
