(* ===== verification/Tidy.v ===== *)
(** Requests leave no transaction open, whatever fails, and end when nothing fails: the second
    [PieceLogic].  A goroutine that runs alone opens one transaction ([held]), and the deferred
    rollback, after COMMIT or not, gives its connection back. *)

From S2P Require Export Pieces Solo Payments.

Section Tidy.
Context {U : UUIDLib} {P : PgLib}.

Definition unlocked (v : View) : Prop := forall h, ~ tx_open h v.

Definition tidy_beside {A : Type} (p : prog A) : Prop := forall flt own es v, unlocked v ->
  wp solo flt p (fun _ own' _ v' => own' = own /\ unlocked v') own es v.

Definition tidy_serves {A : Type} (p : prog A) : Prop := forall flt es v, unlocked v ->
  wp solo flt p (fun _ _ _ v' => unlocked v') None es v.

Lemma tidy_op {X} (o : Op X) : harmless o -> tidy_beside (op o).
Proof.
  intros Ho flt own es v Hv. apply wp_solo.
  - destruct o; try done. by destruct conn.
  - intros _. destruct o as [| | | | | |A conn s| | | | | | | |]; try (by intros _ [] []). destruct conn; [done|].
    exact (free_no_wait false s v (fun _ => Hv) eq_refl).
  - intros c x v' Hc Hat. split; [by destruct o|]. intros h. unfold tx_open. rewrite (proj2 (harmless_locks _ _ _ _ _ Ho Hat)). apply Hv.
Qed.

Lemma tidy_bind {A B : Type} (p : prog A) (f : A -> prog B) :
  tidy_beside p -> (forall a, tidy_beside (f a)) -> tidy_beside (bind p f).
Proof.
  intros Hp Hf flt own es v Hv. apply wp_bind. eapply wp_mono; [|by apply Hp].
  intros a own' es' v' [-> Hv']. by apply Hf.
Qed.

Lemma tidy_go {A : Type} (c : prog unit) (k : prog A) : tidy_beside c -> tidy_beside k -> tidy_beside (Go c k).
Proof. intros Hc Hk flt own es v Hv. split; [|by apply Hk]. eapply wp_mono; [|by apply Hc]. done. Qed.

Lemma calm_unlocked own v v' : calm solo own v v' -> unlocked v -> unlocked v'.
Proof. by intros (c & _ & ->)%calm_solo. Qed.

Lemma tidy_serves_bind {A B : Type} (p : prog A) (f : A -> prog B) :
  tidy_beside p -> (forall a, tidy_serves (f a)) -> tidy_serves (bind p f).
Proof.
  intros Hp Hf flt es v Hv. apply wp_bind. eapply wp_mono; [|by apply Hp].
  intros a own' es' v' [-> Hv']. by apply Hf.
Qed.

Lemma tidy_serves_before {A B : Type} (p : prog A) (f : A -> prog B) :
  tidy_serves p -> (forall a, tidy_beside (f a)) -> tidy_serves (bind p f).
Proof.
  intros Hp Hf flt es v Hv. apply wp_bind. eapply wp_mono; [|by apply Hp].
  intros a own' es' v' Hv'. eapply wp_mono; [|by apply Hf]. by intros ???? [_ ?].
Qed.

(** *** Inside a transaction *)

Definition held (h : tx) (v : View) : Prop := forall h', tx_open h' v -> h' = h.

Definition inside (h : tx) {A : Type} (p : prog A) : Prop := forall flt es v, held h v ->
  wp solo flt p (fun _ own' _ v' => own' = Some h /\ held h v') (Some h) es v.

(** What a goroutine does in its transaction. *)
Definition tx_op (h : tx) {X} (o : Op X) : Prop :=
  match o with
  | Pg (Some h') _ | PgCommit h' => h' = h
  | Pg None _ | PgBegin | PgRollback _ => False
  | _ => True
  end.

Lemma held_same h v v' : v_txs v' = v_txs v -> held h v -> held h v'.
Proof. unfold held, tx_open. by intros ->. Qed.

Lemma held_closed h v : held h v -> unlocked (close_tx h v).
Proof. intros Hl h' Hh. pose proof (open_close _ _ _ Hh) as ->%Hl. by apply (close_closes h v). Qed.

Lemma unlocked_held h v : unlocked v -> held h v.
Proof. intros Hv h' Hh. by destruct (Hv h'). Qed.

Lemma held_set h t v : held h v -> held h (set_tx h t v).
Proof. intros Hl h' [Hh| ->]%open_set; [by apply Hl|done]. Qed.

Lemma held_stmt {A} flt h (s : sql A) v x v' : held h v -> pg_spec flt (Some h) s v x v' -> held h v'.
Proof. intros Hl Hp h' Hh. destruct (pg_opens _ _ _ _ _ _ _ Hp Hh) as [Ho|[= ->]]; [by apply Hl|done]. Qed.

Lemma held_op {X} flt h (o : Op X) v x v' : tx_op h o -> held h v -> op_at flt o v x v' -> held h v'.
Proof.
  intros Ho Hv Hat. destruct o as [| | | | h' | |A conn s| | | | | | | |]; simpl in Ho, Hat; try done;
    try (destruct conn as [h'|]; [subst h'; by eapply held_stmt|done]);
    try (subst h'; repeat case_match; des; subst; try done);
    try (repeat case_match; des; subst; (exact Hv || by eapply held_same));
    try (by apply unlocked_held, held_closed).
Qed.

Lemma inside_op h {X} (o : Op X) : tx_op h o -> inside h (op o).
Proof.
  intros Ho flt es v Hv. apply wp_solo.
  - destruct o; simpl in *; try done; [by subst|]. destruct conn; [by subst|done].
  - intros _ Hl. destruct o as [| | | | | |A conn s| | | | | | | |]; try done; try (by intros [] []). destruct conn as [h'|]; [|done].
    simpl in Ho. subst h'. intros [l|]; [|by intros []]. intros (_ & h' & Hh & Hne). apply Hne. f_equal. symmetry. by apply Hv, (lk_open _ Hl l).
  - intros c x v' Hc Hat. split; [by destruct o|].
    eapply (held_op flt); [exact Ho| |exact Hat]. by eapply held_same.
Qed.

Lemma inside_ret h {A : Type} (a : A) : inside h (Ret a).
Proof. by intros flt es v Hv. Qed.

Lemma inside_bind h {A B : Type} (p : prog A) (f : A -> prog B) :
  inside h p -> (forall a, inside h (f a)) -> inside h (bind p f).
Proof.
  intros Hp Hf flt es v Hv. apply wp_bind. eapply wp_mono; [|by apply Hp].
  intros a own' es' v' [-> Hv']. by apply Hf.
Qed.

(** The whole transaction: BEGIN, the body, the deferred rollback. *)
Lemma tidy_tx {A : Type} what (body : tx -> prog (res A)) :
  (forall h, inside h (body h)) ->
  tidy_serves (try h <- Transactor.Begin catch err => fail (InternalError (Errorf what err)) ;;
               defer (op (PgRollback h)) (body h)).
Proof.
  intros Hb flt es v Hv. apply wp_bind. unfold Transactor.Begin. apply wp_solo; [done|intros _ _ [l|]; [by intros []|by intros [h ?%Hv]]|].
  intros c x v1 Hc [[[_ (e & -> & _)] ->]|(h & -> & Hfresh & ->)]; [exact Hv|]. cbn [own_after].
  apply wp_bind. eapply wp_mono; [|apply Hb, held_set, unlocked_held, Hv].
  intros a own' es' v2 [-> Hv2]. apply wp_bind, wp_solo; [done|by intros _ _ [] []|].
  intros c' x v3 Hc' Hat. cbn [wp]. simpl in Hat.
  assert (Hv2' : held h (set_clock c' v2)) by (by eapply held_same).
  destruct (v_txs v2 !! h) as [[ws| |]|] eqn:Ht; destruct Hat as [_ ->]; try (by apply held_closed);
    intros h' Hh; pose proof (Hv2' h' Hh) as ->; unfold tx_open in Hh; simpl in Hh; by rewrite Ht in Hh.
Qed.
End Tidy.

(** *** The payment service *)

Section Service.
Context {U : UUIDLib} {P : PgLib} {ES : EncryptionService} {EL : EncryptionLaws}.
Context {HS : HashService} {HL : HashLaws} {TS : TokenService} {TL : TokenLaws}.

Definition tidy_core : PieceCore.
Proof.
  refine {| beside := @tidy_beside _ _; serves := @tidy_serves _ _ |}.
  - intros A a flt own es v Hv. done.
  - apply @tidy_bind.
  - apply @tidy_go.
  - apply @tidy_op.
  - intros text flt own es v Hv. apply Encrypt_wp; [apply _|..]; intros; (split; [done|by eapply calm_unlocked]).
  - intros password flt own es v Hv. apply Hash_wp; [apply _|..]; intros; (split; [done|by eapply calm_unlocked]).
  - intros mid key flt own es v Hv. apply Generate_wp; [apply _|..]; intros; (split; [done|by eapply calm_unlocked]).
  - intros A p Hp flt es v Hv. eapply wp_mono; [|by apply Hp]. by intros ???? [_ ?].
  - apply @tidy_serves_bind.
  - apply @tidy_serves_before.
Defined.

(** A goroutine of harmless operations, of which nothing is asked. *)
Definition loose {A : Type} (p : prog A) : Prop := forall own es v,
  wp solo true p (fun _ own' _ _ => own' = own) own es v.

Lemma loose_bind {A C : Type} (p : prog A) (f : A -> prog C) : loose p -> (forall a, loose (f a)) -> loose (bind p f).
Proof.
  intros Hp Hf own es v. apply wp_bind. eapply wp_mono; [|by apply Hp].
  intros a own' es' v' ->. by apply Hf.
Qed.

Definition loose_core : PieceCore.
Proof.
  refine {| beside := @loose; serves := @loose |}; try (intros; done).
  - apply @loose_bind.
  - intros A c k Hc Hk own es v. split; [|by apply Hk]. eapply wp_mono; [|by apply Hc]. done.
  - intros X o Ho own es v. apply wp_solo; [destruct o; try done; by destruct conn|done|]. intros; by destruct o.
  - intros text own es v. apply Encrypt_wp; [apply _|..]; intros; done.
  - intros password own es v. apply Hash_wp; [apply _|..]; intros; done.
  - intros mid key own es v. apply Generate_wp; [apply _|..]; intros; done.
  - intros A C. apply loose_bind.
  - intros A C. apply loose_bind.
Defined.

Lemma inside_encrypt h plaintext : inside h (Encrypt plaintext).
Proof.
  intros flt es v Hv.
  apply Encrypt_wp; [apply _|..]; intros; (split; [done|]);
    match goal with H : calm solo _ _ _ |- _ => apply calm_solo in H as (k & _ & ->) end; by eapply held_same.
Qed.

Lemma inside_stmt h {A : Type} (s : sql A) : inside h (op (Pg (Some h) s)).
Proof. by apply inside_op. Qed.

(** Takes the body of a transaction apart. *)
Ltac inside :=
  repeat first
    [ progress intros
    | apply inside_ret
    | apply inside_stmt
    | apply inside_encrypt
    | apply inside_bind
    | apply inside_op; first [exact I | reflexivity]
    | progress cbv beta zeta
    | case_match ].

Lemma payment_inside req key h : inside h (payment_in_tx req key h).
Proof.
  unfold payment_in_tx, persist_payment, WalletRepo.GetByMerchantIDForUpdate, WalletRepo.UpdateBalance,
    TransactionRepo.Create, IdempotencyRepo.Create, IdempotencyCache.Set_, query_opt, query_row, exec_one, exec_stmt.
  inside.
Qed.

Lemma refund_inside req key orig amount h : inside h (refund_in_tx req key orig amount h).
Proof.
  unfold refund_in_tx, persist_refund, WalletRepo.GetByIDForUpdate, WalletRepo.UpdateBalance,
    TransactionRepo.Create, TransactionRepo.UpdateStatus, IdempotencyRepo.Create, IdempotencyCache.Set_,
    query_opt, query_row, exec_one, exec_stmt.
  inside.
Qed.

Lemma topup_inside req h : inside h (topup_in_tx req h).
Proof.
  unfold topup_in_tx, persist_topup, WalletRepo.GetByMerchantIDForUpdate, WalletRepo.UpdateBalance,
    TransactionRepo.Create, query_opt, query_row, exec_one, exec_stmt.
  inside.
Qed.

Lemma tidy_check_idempotency key k : tidy_serves k -> tidy_serves (check_idempotency key k).
Proof.
  intros Hk. pose (PC := tidy_core). change (serves (check_idempotency key k)). change (serves k) in Hk.
  unfold check_idempotency, IdempotencyCache.Get, IdempotencyRepo.Get. serves; done.
Qed.

Definition tidy_logic : PieceLogic.
Proof.
  refine {| piece_core := tidy_core |}.
  - intros req _. unfold ProcessPayment. case_match; [by intros flt es v Hv|].
    apply tidy_check_idempotency, tidy_tx. intros h. apply payment_inside.
  - intros req. apply tidy_check_idempotency.
    unfold TransactionRepo.GetByReference, TransactionRepo.CheckRefundExists.
    assert (Hno : forall e, tidy_serves (fail (A := Transaction) e)) by (by intros e flt es v Hv).
    apply (serves_after (PieceCore := tidy_core)); [beside|]. intros [[orig|]|e]; [|apply Hno..].
    destruct (negb _); [apply Hno|].
    apply (serves_after (PieceCore := tidy_core)); [beside|]. intros [[]|e]; [apply Hno| |apply Hno].
    destruct (refund_amount _ _); [|apply Hno]. apply tidy_tx. intros h. apply refund_inside.
  - intros req _. unfold ProcessTopup. case_match; [by intros flt es v Hv|].
    apply tidy_tx. intros h. apply topup_inside.
Defined.
End Service.
