(* ===== verification/Accounts.v ===== *)
(** Accounts: what registration, login and the merchant's self-service do to the tables, for a
    request that runs alone. *)

From S2P Require Export Solo Payments AuthService MerchantService.

(** ** Lookups of a merchant *)

Section Lookups.
Context {U : UUIDLib} {P : PgLib} (flt : bool).

Lemma head_rows {K A} `{Countable K} ord f (m : gmap K A) :
  is_order ord ->
  match head (rows ord f m) with
  | Some a => exists k, m !! k = Some a /\ f a = true
  | None => forall k a, m !! k = Some a -> f a = false
  end.
Proof.
  intros Hord. destruct (rows ord f m) as [|a l] eqn:Hr; simpl.
  - by eapply rows_nil.
  - apply (rows_elem ord f m a Hord). rewrite Hr. left.
Qed.

(** A [SELECT] and [Scan] of its first row. *)
Lemma wp_select {A} what (s : sql (list A)) (sel : Order -> list A) Q own es v :
  (forall ord now, stmt_eff ord now s (v_tables v) = select (sel ord)) -> free flt v ->
  (forall c ord, is_order ord -> v_clock v <= c -> Q (Ok (head (sel ord))) own es (set_clock c v)) ->
  (forall c e, flt = true -> v_clock v <= c -> Q (Err (Errorf what e)) own es (set_clock c v)) ->
  wp solo flt (query_opt what None s) Q own es v.
Proof.
  intros Hs Hf HOk HErr. apply wp_bind, wp_bind. apply wp_stmt; [done|..].
  - intros ord now c l ws Hord Hc E. rewrite Hs in E. unfold select in E. simplify_eq. split.
    + destruct (sel ord) as [|a l] eqn:Hl; specialize (HOk c ord Hord Hc); rewrite Hl in HOk; exact HOk.
    + intros Hfl e (m & ->). apply HErr; [done|exact Hc].
  - intros e c Hc (m & ->) [Hfl|(ord & now & _ & E)]; [by apply HErr|]. by rewrite Hs in E.
Qed.

(** The same for a text that is looked for: the server may not be able to read it. *)
Lemma wp_select_text {A} what (s : sql (list A)) u (sel : Order -> string -> list A) Q own es v :
  (forall ord now, stmt_eff ord now s (v_tables v) = (let! u := text u in select (sel ord u))) -> free flt v ->
  (forall c ord, readable u = true -> is_order ord -> v_clock v <= c -> Q (Ok (head (sel ord u))) own es (set_clock c v)) ->
  (forall c e, flt = true \/ readable u = false -> v_clock v <= c -> Q (Err (Errorf what e)) own es (set_clock c v)) ->
  wp solo flt (query_opt what None s) Q own es v.
Proof.
  intros Hs Hf HOk HErr. apply wp_bind, wp_bind. apply wp_stmt; [done|..].
  - intros ord now c l ws Hord Hc E. rewrite Hs in E. apply select_text_Ok in E as (Hu & -> & ->). split.
    + specialize (HOk c ord Hu Hord Hc). destruct (sel ord u); exact HOk.
    + intros Hfl e (m & ->). apply HErr; [by left|exact Hc].
  - intros e c Hc (m & ->) [Hfl|(ord & now & _ & E)]; [by apply HErr; [left|]|]. rewrite Hs in E.
    apply select_text_Err in E. apply HErr; [by right|done].
Qed.

Lemma wp_merchant_by_name u Q own es v :
  free flt v ->
  (forall c m id, readable u = true -> v_clock v <= c -> merchants (v_tables v) !! id = Some m -> m_Username m = u ->
     Q (Ok (Some m)) own es (set_clock c v)) ->
  (forall c, readable u = true -> v_clock v <= c -> (forall id m, merchants (v_tables v) !! id = Some m -> m_Username m <> u) ->
     Q (Ok None) own es (set_clock c v)) ->
  (forall c e, flt = true \/ readable u = false -> Q (Err (Errorf "get merchant by username" e)) own es (set_clock c v)) ->
  wp solo flt (MerchantRepo.GetByUsername u) Q own es v.
Proof.
  intros Hf HS HN HE.
  apply (wp_select_text _ _ u (fun ord u => rows ord (fun r => (m_Username r =? u)%string) (merchants (v_tables v)))); [done|done|..].
  - intros c ord Hread Hord Hc. pose proof (head_rows ord (fun r => (m_Username r =? u)%string) (merchants (v_tables v)) Hord) as Hh.
    destruct (head _) as [m|].
    + destruct Hh as (id & Hm & Hu). bool_prop. by eapply HS.
    + apply HN; [done..|]. intros id m Hm. specialize (Hh id m Hm). by bool_prop.
  - intros c e Hfl _. by apply HE.
Qed.

Lemma wp_merchant_by_key k Q own es v :
  free flt v ->
  (forall c m id, readable k = true -> v_clock v <= c -> merchants (v_tables v) !! id = Some m -> m_AccessKey m = k ->
     Q (Ok (Some m)) own es (set_clock c v)) ->
  (forall c, readable k = true -> v_clock v <= c -> (forall id m, merchants (v_tables v) !! id = Some m -> m_AccessKey m <> k) ->
     Q (Ok None) own es (set_clock c v)) ->
  (forall c e, flt = true \/ readable k = false -> v_clock v <= c -> Q (Err e) own es (set_clock c v)) ->
  wp solo flt (MerchantRepo.GetByAccessKey k) Q own es v.
Proof.
  intros Hf HS HN HE.
  apply (wp_select_text _ _ k (fun ord k => rows ord (fun r => (m_AccessKey r =? k)%string) (merchants (v_tables v)))); [done|done|..].
  - intros c ord Hread Hord Hc. pose proof (head_rows ord (fun r => (m_AccessKey r =? k)%string) (merchants (v_tables v)) Hord) as Hh.
    destruct (head _) as [m|].
    + destruct Hh as (id & Hm & Hu). bool_prop. by eapply HS.
    + apply HN; [done..|]. intros id m Hm. specialize (Hh id m Hm). by bool_prop.
  - intros c e Hfl Hc. by apply HE.
Qed.

Lemma wp_merchant_by_id id Q own es v :
  free flt v ->
  (forall c, v_clock v <= c -> Q (Ok (merchants (v_tables v) !! id)) own es (set_clock c v)) ->
  (forall c e, flt = true -> Q (Err e) own es (set_clock c v)) ->
  wp solo flt (MerchantRepo.GetByID id) Q own es v.
Proof.
  intros Hf HQ HE. apply (wp_select _ _ (fun _ => lookup_list (merchants (v_tables v)) id)); [done|done|..].
  - intros c ord _ Hc. replace (head (lookup_list _ _)) with (merchants (v_tables v) !! id); [by apply HQ|].
    unfold lookup_list. by destruct (_ !! _).
  - intros c e Hfl _. by apply HE.
Qed.

(** An [INSERT] or [UPDATE], its error wrapped. *)
Lemma wp_exec what (s : sql Z) Q own es v :
  free flt v ->
  (forall ord now c n ws, is_order ord -> v_clock v <= c -> stmt_eff ord now s (v_tables v) = Ok (n, ws) ->
     Q (Ok tt) own es (set_tables (apply_writes ws (v_tables v)) (set_clock c v)) /\
     (flt = true -> forall e, Q (Err e) own es (set_tables (apply_writes ws (v_tables v)) (set_clock c v)))) ->
  (forall e c, flt = true \/ (exists ord now e', is_order ord /\ stmt_eff ord now s (v_tables v) = Err e') ->
     Q (Err e) own es (set_clock c v)) ->
  wp solo flt (exec_stmt what None s) Q own es v.
Proof.
  intros Hf HOk HErr. apply wp_bind. apply wp_stmt; [done|..].
  - intros ord now c n ws Hord Hc E. destruct (HOk ord now c n ws Hord Hc E) as [H1 H2]. split; [done|].
    intros Hfl e He. by apply H2.
  - intros e c Hc He Hwhy. apply HErr. destruct Hwhy as [?|(ord & now & ? & ?)]; eauto 10.
Qed.
End Lookups.

(** ** Registration *)

Section Register.
Context {U : UUIDLib} {UL : UUIDLaws} {P : PgLib} {ES : EncryptionService} {EL : EncryptionLaws}.
Context {HS : HashService} {HL : HashLaws} {TS : TokenService} {TL : TokenLaws}.

(** The account that a registration and its answer are about. *)
Record account (req : RegisterRequest) (resp : RegisterResponse) (m : Merchant) (w : Wallet) : Prop := {
  ac_id : m_ID m = rs_MerchantID resp;
  ac_username : varchar 50 (rg_Username req) = Ok (m_Username m);
  ac_name : varchar 100 (rg_MerchantName req) = Ok (m_MerchantName m);
  ac_webhook : m_WebhookURL m = rg_WebhookURL req;
  ac_key : m_AccessKey m = rs_AccessKey resp;
  ac_secret : Decrypt (m_SecretKeyEnc m) = Ok (rs_SecretKey resp);
  ac_password : HashVerify (rg_Password req) (m_PasswordHash m) = Ok true;
  ac_active : IsActive m = true;
  ac_wallet : w_MerchantID w = m_ID m /\ w_Currency w = "VND" /\ open_balance w = Ok 0;
  ac_keys : String.length (rs_AccessKey resp) = 64%nat /\ String.length (rs_SecretKey resp) = 64%nat /\
            string_forallb is_lower_hex (rs_AccessKey resp) = true
}.

(** A merchant row that was not there, with a username and access key of its own. *)
Definition new_merchant (T : Tables) (m : Merchant) : Prop :=
  merchants T !! m_ID m = None /\
  forall id m', merchants T !! id = Some m' -> m_Username m' <> m_Username m /\ m_AccessKey m' <> m_AccessKey m.

(** What a registration that fails leaves behind, by its error: mostly nothing; a merchant
    without a wallet when the second statement did not come about; more than the error says
    when an answer of the database was lost. *)
Inductive register_failed (flt : bool) (req : RegisterRequest) (T : Tables) (es : list event) : error -> Tables -> Prop :=
| rg_nothing e : register_failed flt req T es e T
| rg_merchant_lost m err : flt = true -> new_merchant T m ->
    register_failed flt req T es (InternalError (Errorf "create merchant" err)) (apply_write (WMerchant m) T)
| rg_no_balance m err : flt = true -> new_merchant T m ->
    register_failed flt req T es (InternalError (Errorf "encrypt initial balance" err)) (apply_write (WMerchant m) T)
| rg_no_wallet m id err : new_merchant T m -> Drew id ∈ es -> flt = true \/ is_Some (wallets T !! id) ->
    register_failed flt req T es (InternalError (Errorf "create wallet" err)) (apply_write (WMerchant m) T)
| rg_wallet_lost resp m w err : flt = true -> account req resp m w -> new_merchant T m -> wallets T !! w_ID w = None ->
    register_failed flt req T es (InternalError (Errorf "create wallet" err)) (apply_writes [WMerchant m; WWallet w] T).

(** The answered keys are the hexadecimal form of the bytes that were drawn first. *)
Definition keys_drawn_from (accessKey secretKey : string) (n1 n2 : nat) (prefix1 prefix2 : string) (es : list event) : Prop :=
  exists a s rest, es = Entropy a :: Entropy s :: rest /\ String.length a = n1 /\ String.length s = n2 /\
    accessKey = prefix1 +:+ hex_encode a /\ secretKey = prefix2 +:+ hex_encode s.

Definition account_outcome (flt : bool) (req : RegisterRequest) (T : Tables) (r : res RegisterResponse) (es : list event)
    (T' : Tables) : Prop :=
  match r with
  | Ok resp => exists m w, account req resp m w /\ new_merchant T m /\ wallets T !! w_ID w = None /\
                           T' = apply_writes [WMerchant m; WWallet w] T
  | Err e => register_failed flt req T es e T'
  end.

Lemma store_merchant_inv m row :
  store_merchant m = Ok row ->
  m_ID row = m_ID m /\ varchar 50 (m_Username m) = Ok (m_Username row) /\
  varchar 255 (m_PasswordHash m) = Ok (m_PasswordHash row) /\
  varchar 100 (m_MerchantName m) = Ok (m_MerchantName row) /\ varchar 64 (m_AccessKey m) = Ok (m_AccessKey row) /\
  m_SecretKeyEnc row = m_SecretKeyEnc m /\ m_WebhookURL row = m_WebhookURL m /\
  varchar 20 (m_Status m) = Ok (m_Status row).
Proof.
  unfold store_merchant. intros H. repeat (apply result_bind_Ok in H as (? & ? & H)). simplify_eq. simpl.
  split_and!; try done.
  - match goal with Ht : text _ = Ok _ |- _ => by apply text_inv in Ht as (-> & _ & _) end.
  - destruct (m_WebhookURL m) as [u|]; simpl in *; [|congruence].
    destruct (text u) eqn:Ht; simpl in *; [|done]. apply text_inv in Ht as (-> & _ & _). congruence.
Qed.

Lemma insert_merchant_Ok ord now m T n ws :
  stmt_eff ord now (InsertMerchant m) T = Ok (n, ws) ->
  exists row, store_merchant m = Ok row /\ ws = [WMerchant row] /\ new_merchant T row.
Proof.
  simpl. intros H. apply result_bind_Ok in H as (row & Hs & H).
  apply result_bind_Ok in H as (? & H1%require_none & H). apply result_bind_Ok in H as (? & H2%require_none & H).
  apply result_bind_Ok in H as (? & H3%require_none & H). simplify_eq.
  exists row. split_and!; [done..|]. split.
  - apply has_row_false. by apply store_merchant_inv in Hs as [-> _].
  - intros id m' Hm'. apply (some_row_false _ _ _ _ H2) in Hm' as Hu. apply (some_row_false _ _ _ _ H3) in Hm'.
    by bool_prop.
Qed.

Lemma insert_wallet_Ok ord now w T n ws :
  stmt_eff ord now (InsertWallet w) T = Ok (n, ws) ->
  exists row, ws = [WWallet row] /\ wallets T !! w_ID row = None /\ w_ID row = w_ID w /\
    w_MerchantID row = w_MerchantID w /\ varchar 3 (w_Currency w) = Ok (w_Currency row) /\
    w_EncryptedBalance row = w_EncryptedBalance w.
Proof.
  simpl. unfold store_wallet. intros H. apply result_bind_Ok in H as (row & Hs & H).
  repeat (apply result_bind_Ok in Hs as (? & ? & Hs)). simplify_eq.
  apply result_bind_Ok in H as (? & Hid%require_none & H). apply result_bind_Ok in H as (? & _ & H). simplify_eq.
  eexists. split_and!; [done| |done..|]; simpl.
  - by apply has_row_false.
  - match goal with Ht : text _ = Ok _ |- _ => by apply text_inv in Ht as (-> & _ & _) end.
Qed.

(** The wallet of a merchant that is there is refused only when its ID is taken. *)
Lemma insert_wallet_Err ord now w T e :
  stmt_eff ord now (InsertWallet w) T = Err e ->
  w_Currency w = "VND" -> string_forallb is_lower_hex (w_EncryptedBalance w) = true -> w_LastAuditHash w = None ->
  is_Some (merchants T !! w_MerchantID w) -> is_Some (wallets T !! w_ID w).
Proof.
  intros H Hcur Hhex Hnone Hm. simpl in H. unfold store_wallet in H.
  rewrite Hcur, Hnone, (text_plain (w_EncryptedBalance w)) in H by (eapply string_forallb_impl; [apply hex_plain|done]).
  change (varchar 3 "VND") with (Ok (E := error) "VND") in H. simpl in H. unfold require in H.
  destruct (has_row (wallets T) (w_ID w)) eqn:Hw; simpl in H; [by apply has_row_true in Hw|].
  apply has_row_true in Hm. by rewrite Hm in H.
Qed.

Lemma open_zero w : Decrypt (w_EncryptedBalance w) = Ok "0" -> open_balance w = Ok 0.
Proof. unfold open_balance. by intros ->. Qed.

(** What holds of the drawn keys when the account is created. *)
Record keys_drawn (req : RegisterRequest) (ak sk hash enc : string) : Prop := {
  kd_ak : String.length ak = 64%nat /\ string_forallb is_lower_hex ak = true;
  kd_sk : String.length sk = 64%nat;
  kd_hash : HashVerify (rg_Password req) hash = Ok true /\ varchar 255 hash = Ok hash;
  kd_enc : Decrypt enc = Ok sk
}.

Lemma drawn_account req ak sk hash enc id wid now m w :
  keys_drawn req ak sk hash enc ->
  store_merchant (mkMerchant id (rg_Username req) hash (rg_MerchantName req) ak enc (rg_WebhookURL req)
                    MerchantStatusActive now now) = Ok m ->
  w_ID w = wid -> w_MerchantID w = id -> varchar 3 "VND" = Ok (w_Currency w) ->
  Decrypt (w_EncryptedBalance w) = Ok "0" ->
  account req (mkRegisterResponse id ak sk) m w.
Proof.
  intros [[Hak Hhex] Hsk [Hv Hcol] Henc] Hm Hwid Hwm Hcur Hbal.
  apply store_merchant_inv in Hm as (Hid & Hu & Hh & Hn & Hk & Hs & Hw & Hst). simpl in *.
  assert (Hakm : m_AccessKey m = ak).
  { rewrite varchar_plain in Hk; [congruence| |lia]. eapply string_forallb_impl; [apply hex_plain|done]. }
  split; simpl; try done; try congruence.
  - rewrite varchar_plain in Hst by (done || (simpl; lia)). injection Hst as Hst. unfold IsActive. by rewrite <- Hst.
  - rewrite varchar_plain in Hcur by (done || (simpl; lia)).
    split_and!; [congruence|congruence|by apply open_zero].
Qed.

Lemma create_account_wp flt req ak sk hash enc es v :
  free flt v -> keys_drawn req ak sk hash enc ->
  wp solo flt (create_account req ak sk hash enc)
    (fun r _ es' v' => account_outcome flt req (v_tables v) r es' (v_tables v') /\ (exists rest, es' = es ++ rest) /\
       forall resp, r = Ok resp -> rs_AccessKey resp = ak /\ rs_SecretKey resp = sk) None es v.
Proof.
  intros Hf Hk. unfold create_account.
  apply wp_bind, wp_solo_now. intros now Hnow. apply wp_bind, wp_solo_uuid. intros c1 id Hc1. cbv zeta.
  apply wp_bind, wp_exec; [done| |].
  2:{ intros e c _. split_and!; [apply rg_nothing|by eexists|done]. }
  intros ord at_ c2 n ws Hord Hc2 (m & Hm & -> & Hnew)%insert_merchant_Ok. split.
  2:{ intros Hfl e. split_and!; [by apply rg_merchant_lost|by eexists|done]. }
  apply wp_bind, Encrypt_wp; [apply _|..].
  2:{ intros e v' Hfl (c3 & _ & ->)%calm_solo _ _. split_and!; [by apply rg_no_balance|by eexists|done]. }
  intros encb nonces v' (c3 & Hc3 & ->)%calm_solo _ _ Hdec Hhex. apply wp_bind, wp_solo_uuid. intros c4 wid Hc4. cbv zeta.
  apply wp_bind, wp_exec; [done| |].
  2:{ intros e c Hwhy. split_and!; [|eexists; by rewrite <- !app_assoc|done].
      apply (rg_no_wallet _ _ _ _ m wid); [done|rewrite elem_of_app; right; by left|].
      destruct Hwhy as [?|(ord' & at' & e' & _ & He%insert_wallet_Err)]; [by left|right; exact He|done..|].
      apply store_merchant_inv in Hm as [Hid _]. simpl in *. rewrite <- Hid, lookup_insert_eq. by eexists. }
  intros ord' at' c5 n' ws' Hord' Hc5 (w & -> & Hwn & Hwid & Hwm & Hcur & Henc)%insert_wallet_Ok.
  simpl in Hwn, Hwid, Hwm, Hcur, Henc.
  assert (Hacc : account req (mkRegisterResponse id ak sk) m w) by (eapply drawn_account; eauto; congruence).
  split.
  - split_and!; [by exists m, w|eexists; by rewrite <- !app_assoc|by intros resp [= <-]].
  - intros Hfl e. split_and!; [by eapply rg_wallet_lost|eexists; by rewrite <- !app_assoc|done].
Qed.

Lemma wp_random_hex flt n Q own es v :
  (forall c s, String.length s = n -> v_clock v <= c -> Q (Ok (hex_encode s)) own (es ++ [Entropy s]) (set_clock c v)) ->
  (forall c e, flt = true -> Q (Err e) own es (set_clock c v)) ->
  wp solo flt (generateRandomHex n) Q own es v.
Proof.
  intros HQ HE. apply wp_bind, wp_solo_rand; [intros c s Hc Hn; by apply HQ|intros c e _ Hfl _; by apply HE].
Qed.

(** A registration; a username that is taken is all it takes to refuse one. *)
Lemma Register_wp flt req v :
  free flt v ->
  wp solo flt (Register req)
    (fun r _ es' v' => (account_outcome flt req (v_tables v) r es' (v_tables v') /\
       forall resp, r = Ok resp -> keys_drawn_from (rs_AccessKey resp) (rs_SecretKey resp) 32 32 "" "" es') /\
       (readable (rg_Username req) = true -> forall id m, merchants (v_tables v) !! id = Some m -> m_Username m = rg_Username req ->
          v_tables v' = v_tables v /\ (flt = false -> r = Err (Validation "username already exists")) /\
          exists e, r = Err e))
    None [] v.
Proof.
  intros Hf. unfold Register. apply wp_bind, wp_merchant_by_name; [done|..].
  1:{ intros c m id _ Hc Hm Hu. split; [split; [apply rg_nothing|done]|]. intros. split_and!; eauto. }
  2:{ intros c e Hwhy. split; [split; [apply rg_nothing|done]|]. intros Hr id m _ _. split_and!; eauto.
      intros Hfl. destruct Hwhy; congruence. }
  intros c1 _ Hc1 Hno.
  eapply (wp_mono _ _ _ (fun r _ es' v' => account_outcome flt req (v_tables v) r es' (v_tables v') /\
    forall resp, r = Ok resp -> keys_drawn_from (rs_AccessKey resp) (rs_SecretKey resp) 32 32 "" "" es')).
  { intros r own es' v' Ho. split; [exact Ho|]. intros _ id m Hm Hu. by destruct (Hno id m Hm). }
  assert (Herr : forall e es' v', v_tables v' = v_tables v ->
    account_outcome flt req (v_tables v) (Err e) es' (v_tables v') /\
    (forall resp, Err e = Ok resp -> keys_drawn_from (rs_AccessKey resp) (rs_SecretKey resp) 32 32 "" "" es')).
  { intros e es' v' ->. split; [apply rg_nothing|done]. }
  apply wp_bind, wp_random_hex; [intros c2 a Ha Hc2|intros; by apply Herr].
  apply wp_bind, wp_random_hex; [intros c3 s Hs Hc3|intros; by apply Herr].
  apply wp_bind, Hash_wp; [apply _|intros hash salts v' (c4 & Hc4 & ->)%calm_solo _ _ Hv Hcol
                                  |intros e v' _ (c4 & _ & ->)%calm_solo _ _; by apply Herr].
  apply wp_bind, Encrypt_wp; [apply _|intros enc nonces v' (c5 & Hc5 & ->)%calm_solo _ _ Hd _
                                     |intros e v' _ (c5 & _ & ->)%calm_solo _ _; by apply Herr].
  match goal with |- wp _ _ _ _ _ ?es ?w =>
    eapply wp_mono; [|apply (create_account_wp flt req (hex_encode a) (hex_encode s) hash enc es w)] end; [|done|].
  - intros r own es' v' (Ho & [rest ->] & Hkeys). split; [exact Ho|]. intros resp [-> ->]%Hkeys.
    exists a, s. eexists. split; [by rewrite <- !app_assoc|done].
  - split; [split; [by rewrite hex_encode_length, Ha|apply hex_encode_lower]|by rewrite hex_encode_length, Hs|done..].
Qed.

(** *** Login *)

(** What a merchant's row makes of a login. *)
Definition login_answer (password : string) (m : Merchant) (r : res (string * time)) : Prop :=
  match HashVerify password (m_PasswordHash m) with
  | Err err => r = Err (InternalError (Errorf "verify password" err))
  | Ok false => r = Err ErrInvalidCredentials
  | Ok true =>
    if IsActive m then
      (exists token expiry, r = Ok (token, expiry) /\
         (utf8_valid (m_AccessKey m) = true -> issued (m_ID m) (m_AccessKey m) token expiry)) \/
      (exists err, r = Err (InternalError (Errorf "generate token" err)))
    else r = Err ErrMerchantSuspended
  end.

Inductive login_outcome (flt : bool) (username password : string) (T : Tables) : res (string * time) -> Prop :=
| lg_find err : flt = true \/ readable username = false ->
    login_outcome flt username password T (Err (InternalError (Errorf "find merchant" err)))
| lg_nobody : readable username = true -> (forall id m, merchants T !! id = Some m -> m_Username m <> username) ->
    login_outcome flt username password T (Err ErrInvalidCredentials)
| lg_row id m r : readable username = true -> merchants T !! id = Some m -> m_Username m = username -> login_answer password m r ->
    login_outcome flt username password T r.

Lemma Login_wp flt username password es v :
  free flt v ->
  wp solo flt (Login username password)
    (fun r _ _ v' => v_tables v' = v_tables v /\ login_outcome flt username password (v_tables v) r) None es v.
Proof.
  intros Hf. unfold Login. apply wp_bind, wp_merchant_by_name; [done|..].
  2:{ intros c Hr Hc Hno. split; [done|]. by apply lg_nobody. }
  2:{ intros c e Hwhy. split; [done|]. by apply lg_find. }
  intros c m id Hr Hc Hm Hu.
  assert (Hrow : forall r v', v_tables v' = v_tables v -> login_answer password m r ->
            v_tables v' = v_tables v /\ login_outcome flt username password (v_tables v) r)
    by (intros; split; [done|by eapply lg_row]).
  unfold login_answer in Hrow. destruct (HashVerify password (m_PasswordHash m)) as [[]|err] eqn:Hv; simpl; [|by apply Hrow..].
  destruct (IsActive m) eqn:Hact; simpl; [|by apply Hrow].
  apply wp_bind, Generate_wp; [apply _|..].
  - intros token expiry v' (c' & _ & ->)%calm_solo _ _ Hi. apply Hrow; eauto 10.
  - intros e v' (c' & _ & ->)%calm_solo _ _. apply Hrow; eauto.
Qed.
End Register.

(** ** The merchant's self-service *)

Section SelfService.
Context {U : UUIDLib} {UL : UUIDLaws} {P : PgLib} {ES : EncryptionService} {EL : EncryptionLaws}.

(** The merchant's row with another value of some columns. *)
Definition rewritten (m m' : Merchant) : Prop :=
  m_ID m' = m_ID m /\ m_Username m' = m_Username m /\ m_PasswordHash m' = m_PasswordHash m /\
  varchar 100 (m_MerchantName m) = Ok (m_MerchantName m') /\ varchar 20 (m_Status m) = Ok (m_Status m') /\
  m_CreatedAt m' = m_CreatedAt m.

Lemma update_merchant_Ok ord now T name webhook access secret status id n ws :
  stmt_eff ord now (UpdateMerchant name webhook access secret status id) T = Ok (n, ws) ->
  (merchants T !! id = None /\ ws = []) \/
  exists m row, merchants T !! id = Some m /\ ws = [WMerchant row] /\
    row = update_merchant m (m_MerchantName row) (m_AccessKey row) (m_SecretKeyEnc row) (m_Status row) (m_WebhookURL row) now /\
    varchar 100 name = Ok (m_MerchantName row) /\ varchar 64 access = Ok (m_AccessKey row) /\
    m_SecretKeyEnc row = secret /\ varchar 20 status = Ok (m_Status row) /\ m_WebhookURL row = webhook /\
    (forall id' m', merchants T !! id' = Some m' -> id' <> id -> m_AccessKey m' <> m_AccessKey row).
Proof.
  simpl. intros H. repeat (apply result_bind_Ok in H as (? & ? & H)).
  destruct (merchants T !! id) as [m|] eqn:Hm; [|left; split; congruence]. right.
  apply result_bind_Ok in H as (? & Hk%require_none & H). simplify_eq.
  eexists m, _. split_and!; [done|reflexivity|done|done|done| |done| |]; simpl.
  - match goal with Ht : text _ = Ok _ |- _ => by apply text_inv in Ht as (-> & _ & _) end.
  - destruct webhook as [u|]; simpl in *; [|congruence].
    destruct (text u) eqn:Ht; simpl in *; [|done]. apply text_inv in Ht as (-> & _ & _). congruence.
  - intros id' m' Hm' Hne. rewrite <- (lookup_delete_ne _ id) in Hm' by done.
    apply (some_row_false _ _ _ _ Hk) in Hm'. by bool_prop.
Qed.

(** The one write an update of the merchant's row makes. *)
Definition updates (T T' : Tables) (mid : uuid) (what : Merchant -> Merchant -> Prop) : Prop :=
  exists m m', merchants T !! mid = Some m /\ rewritten m m' /\ what m m' /\ T' = apply_write (WMerchant m') T.

(** An answer comes after the write; an error before it, or when the write's answer was lost. *)
Definition update_outcome {A} (flt : bool) (what : A -> Merchant -> Merchant -> Prop) (mid : uuid) (T : Tables)
    (r : res A) (T' : Tables) : Prop :=
  match r with
  | Ok a => updates T T' mid (what a)
  | Err e => (T' = T /\ (flt = true \/ (merchants T !! mid = None /\ e = ErrNotFound "merchant") \/ is_Some (merchants T !! mid)))
             \/ (flt = true /\ exists a, updates T T' mid (what a))
  end.

Lemma wp_update {A} flt (what : A -> Merchant -> Merchant -> Prop) (a : A) mid m upd (f : res unit -> prog (res A)) es v v0 :
  (forall r, f r = Ret (match r with Ok _ => Ok a | Err e => Err (InternalError e) end)) ->
  free flt v -> v_tables v = v_tables v0 -> wf_tables (v_tables v0) -> merchants (v_tables v0) !! mid = Some m ->
  m_ID upd = mid -> m_MerchantName upd = m_MerchantName m -> m_Status upd = m_Status m ->
  (forall row, m_WebhookURL row = m_WebhookURL upd -> varchar 64 (m_AccessKey upd) = Ok (m_AccessKey row) ->
     m_SecretKeyEnc row = m_SecretKeyEnc upd -> 
     (forall id' m', merchants (v_tables v0) !! id' = Some m' -> id' <> mid -> m_AccessKey m' <> m_AccessKey row) ->
     what a m row) ->
  wp solo flt (bind (MerchantRepo.Update upd) f)
    (fun r _ _ v' => update_outcome flt what mid (v_tables v0) r (v_tables v')) None es v.
Proof.
  intros Hr Hf HT Hwf Hm Hid Hname Hst Hwhat. apply wp_bind, wp_exec; [done|..].
  - intros ord now c n ws Hord Hc H%update_merchant_Ok. rewrite HT, Hid in H.
    destruct H as [[Hno _]|(m0 & row & Hm0 & -> & Hrow & Hn & Ha & Hs & Hstat & Hw & Hu)]; [congruence|].
    assert (m0 = m) as -> by congruence.
    assert (Hup : updates (v_tables v0) (apply_write (WMerchant row) (v_tables v0)) mid (what a)).
    { exists m, row. split_and!; [done| |by apply Hwhat|done].
      rewrite Hrow. unfold rewritten, update_merchant. simpl. rewrite <- Hname, <- Hst. split_and!; done. }
    split; [|intros Hfl e]; rewrite Hr; simpl; rewrite HT; [done|right; eauto].
  - intros e c Hwhy. rewrite Hr. simpl. rewrite HT. left. split; [done|]. right. right. by eexists.
Qed.
(** The merchant is looked up first. *)
Lemma wp_with_merchant {A} flt (what : A -> Merchant -> Merchant -> Prop) mid (k : Merchant -> prog (res A)) es v :
  free flt v ->
  (forall m c, merchants (v_tables v) !! mid = Some m ->
     wp solo flt (k m) (fun r _ _ v' => update_outcome flt what mid (v_tables v) r (v_tables v')) None es (set_clock c v)) ->
  wp solo flt (with_merchant mid k)
    (fun r _ _ v' => update_outcome flt what mid (v_tables v) r (v_tables v')) None es v.
Proof.
  intros Hf Hk. apply wp_bind, wp_merchant_by_id; [done|..].
  - intros c Hc. destruct (merchants (v_tables v) !! mid) as [m|] eqn:Hm; [by apply Hk|].
    left. split; [done|]. right. left. done.
  - intros c e Hfl. left. split; [done|]. by left.
Qed.

Definition webhook_set (url : option string) (_ : unit) (m m' : Merchant) : Prop :=
  m_WebhookURL m' = url /\ m_SecretKeyEnc m' = m_SecretKeyEnc m /\ varchar 64 (m_AccessKey m) = Ok (m_AccessKey m').

Lemma UpdateWebhookURL_wp flt mid url es v :
  free flt v -> wf_tables (v_tables v) ->
  wp solo flt (UpdateWebhookURL mid url)
    (fun r _ _ v' => update_outcome flt (webhook_set url) mid (v_tables v) r (v_tables v')) None es v.
Proof.
  intros Hf Hwf. apply wp_with_merchant; [done|]. intros m c Hm. apply wp_bind, wp_solo_now. intros now Hnow. cbv zeta.
  eapply (wp_update flt (webhook_set url) tt mid m); try done.
  - by intros [].
  - simpl. by eapply wf_merchant.
Qed.

(** The new keys: the access key is the answer's, the secret key decrypts to it. *)
Definition keys_set (T : Tables) (resp : RotateKeysResponse) (m m' : Merchant) : Prop :=
  m_AccessKey m' = rk_AccessKey resp /\ Decrypt (m_SecretKeyEnc m') = Ok (rk_SecretKey resp) /\
  m_WebhookURL m' = m_WebhookURL m /\
  forall id' o, merchants T !! id' = Some o -> id' <> m_ID m -> m_AccessKey o <> m_AccessKey m'.

Lemma key_column a : String.length a = 24%nat -> varchar 64 ("ak_" +:+ hex_encode a) = Ok ("ak_" +:+ hex_encode a).
Proof.
  intros Ha. apply varchar_plain.
  - rewrite string_forallb_app. apply andb_true_iff. split; [done|].
    eapply string_forallb_impl; [apply hex_plain|apply hex_encode_lower].
  - rewrite str_length_app, hex_encode_length, Ha. simpl. lia.
Qed.

Lemma wp_generateKey flt prefix n Q own es v :
  (forall c s, String.length s = n -> v_clock v <= c ->
     Q (Ok (prefix +:+ hex_encode s)) own (es ++ [Entropy s]) (set_clock c v)) ->
  (forall c e, flt = true -> Q (Err e) own es (set_clock c v)) ->
  wp solo flt (generateKey prefix n) Q own es v.
Proof.
  intros HQ HE. apply wp_bind, wp_solo_rand; [intros c s Hc Hn; by apply HQ|intros c e _ Hfl _; by apply HE].
Qed.

(** What the last statement leaves of the events and the answer. *)
Lemma wp_update_events {A} flt (a : A) upd (f : res unit -> prog (res A)) own es v :
  (forall r, f r = Ret (match r with Ok _ => Ok a | Err e => Err (InternalError e) end)) -> free flt v ->
  wp solo flt (bind (MerchantRepo.Update upd) f) (fun r _ es' _ => es' = es /\ forall a', r = Ok a' -> a' = a) own es v.
Proof.
  intros Hr Hf. apply wp_bind, wp_exec; [done|..].
  - intros. split; intros; rewrite Hr; simpl; split; congruence.
  - intros. rewrite Hr. simpl. split; congruence.
Qed.

Lemma RotateKeys_wp flt mid v :
  free flt v -> wf_tables (v_tables v) ->
  wp solo flt (RotateKeys mid)
    (fun r _ es v' => update_outcome flt (keys_set (v_tables v)) mid (v_tables v) r (v_tables v') /\
       forall resp, r = Ok resp -> keys_drawn_from (rk_AccessKey resp) (rk_SecretKey resp) 24 32 "ak_" "sk_" es) None [] v.
Proof.
  intros Hf Hwf. unfold RotateKeys, with_merchant. apply wp_bind, wp_merchant_by_id; [done|..].
  2:{ intros c e Hfl. split; [|done]. left. split; [done|]. by left. }
  intros c Hc. destruct (merchants (v_tables v) !! mid) as [m|] eqn:Hm.
  2:{ split; [|done]. left. split; [done|]. right. left. done. }
  pose proof (wf_merchant _ Hwf _ _ Hm) as Hid.
  assert (Herr : forall e es c, flt = true ->
    update_outcome flt (keys_set (v_tables v)) mid (v_tables v) (Err e) (v_tables (set_clock c v)) /\
    forall resp, Err e = Ok resp -> keys_drawn_from (rk_AccessKey resp) (rk_SecretKey resp) 24 32 "ak_" "sk_" es)
    by (intros; split; [left; split; [done|by left]|done]).
  apply wp_bind, wp_generateKey; [intros c1 a Ha Hc1|intros; by apply Herr].
  apply wp_bind, wp_generateKey; [intros c2 s Hs Hc2|intros; by apply Herr].
  apply wp_bind, Encrypt_wp; [apply _|intros enc nonces v' (c3 & Hc3 & ->)%calm_solo _ _ Hd _|intros e v' Hfl (c3 & _ & ->)%calm_solo _ _; by apply Herr].
  apply wp_bind, wp_solo_now. intros now Hnow. cbv zeta.
  set (resp := mkRotateKeysResponse ("ak_" +:+ hex_encode a) ("sk_" +:+ hex_encode s)).
  eapply wp_mono; [|apply wp_and; [eapply (wp_update flt (keys_set (v_tables v)) resp mid m)|eapply (wp_update_events flt resp)]]; try done.
  - intros r own es' v' [Ho [-> Hresp]]. split; [exact Ho|]. intros resp' ->%Hresp. exists a, s, nonces. done.
  - by intros [].
  - intros row Hw Hk Hse Hu. simpl in *. rewrite key_column in Hk by done. injection Hk as Hk.
    split_and!; [done|by rewrite Hse|done|]. rewrite Hid. exact Hu.
  - by intros [].
Qed.
End SelfService.
