(* ===== verification/AccountTheorems.v ===== *)
(** What registration, login and the merchant's self-service guarantee to a caller whose
    request runs alone. *)

From S2P Require Export Accounts Beside.

Section Theorems.
Context {U : UUIDLib} {UL : UUIDLaws} {P : PgLib} {JL : JsonbLaws} {ES : EncryptionService} {EL : EncryptionLaws}.
Context {HS : HashService} {HL : HashLaws} {TS : TokenService} {TL : TokenLaws}.
Context {B : Backend} {BL : BackendLaws}.

(** A run of a piece that leaves the ledger alone ends ready for the next request. *)
Lemma beside_run {A} (p : prog A) es s r es' s' :
  ledger_beside eq true p -> ready s -> run p es s = Some (r, es', s') -> ready s'.
Proof.
  intros Hp Hs Hr. apply (run_spec p (fun _ _ => True) es s r es' s'); [|done|done].
  intros Hg. eapply wp_mono; [|by apply Hp]. done.
Qed.

Lemma ready_locked s : ready s -> locks_ok (view s).
Proof. by intros [? _]. Qed.

Lemma idle_free flt s : idle s -> free flt (view s).
Proof. by intros Hi _. Qed.

Lemma failing_free v : free true v.
Proof. done. Qed.

Lemma register_run req s r es s' :
  ready s -> run (Register req) [] s = Some (r, es, s') ->
  account_outcome true req (tables s) r es (tables s') /\
  (forall resp, r = Ok resp -> keys_drawn_from (rs_AccessKey resp) (rs_SecretKey resp) 32 32 "" "" es) /\ ready s'.
Proof.
  intros Hs Hr. destruct (solo_run _ _ _ _ _ _ _ (Register_wp true req (view s) (failing_free _)) (ready_locked _ Hs) Hr) as [[own [[Ho Hk] _]] _].
  split_and!; [exact Ho|exact Hk|]. eapply beside_run; [|exact Hs|exact Hr]. apply (beside_Register (PC := ledger_core eq true)).
Qed.

(** C25: a registration that is answered with keys has stored exactly one merchant and one
    wallet: an active merchant with the requested name, username and webhook, the answered
    access key, a password hash that verifies the password, a secret key that decrypts to the
    answered one; a VND wallet with balance 0.  Username and access key were nobody's; the keys
    are 32 bytes each that were drawn for this registration. *)
Theorem register_creates req s resp es s' :
  ready s -> run (Register req) [] s = Some (Ok resp, es, s') ->
  exists m w, account req resp m w /\ new_merchant (tables s) m /\ wallets (tables s) !! w_ID w = None /\
    tables s' = apply_writes [WMerchant m; WWallet w] (tables s) /\ balance (tables s') (w_ID w) = Some 0 /\ ready s' /\
    keys_drawn_from (rs_AccessKey resp) (rs_SecretKey resp) 32 32 "" "" es.
Proof.
  intros Hs Hr. destruct (register_run _ _ _ _ _ Hs Hr) as ((m & w & Ha & Hn & Hw & HT) & Hk & Hs').
  exists m, w. split_and!; try done; [|by apply Hk]. rewrite HT. unfold balance, apply_writes. simpl.
  rewrite lookup_insert_eq. by destruct (ac_wallet _ _ _ _ Ha) as (_ & _ & ->).
Qed.

(** C28: a registration that is answered with an error has stored nothing, unless the error is
    that of one of the last three steps.  With create merchant or encrypt initial balance a
    merchant without a wallet may be there, with create wallet that merchant or the whole
    account.  When nothing fails, an error means that nothing is stored, but for one case: the
    drawn identifier of the wallet is taken, and a merchant without a wallet is left behind
    (the two rows are separate statements). *)
Theorem register_error req s e es s' :
  ready s -> run (Register req) [] s = Some (Err e, es, s') ->
  register_failed true req (tables s) es e (tables s') /\
  (idle s -> reliable s ->
   tables s' = tables s \/
   exists m id err, e = InternalError (Errorf "create wallet" err) /\ new_merchant (tables s) m /\
     Drew id ∈ es /\ is_Some (wallets (tables s) !! id) /\ tables s' = apply_write (WMerchant m) (tables s)).
Proof.
  intros Hs Hr. split; [by destruct (register_run _ _ _ _ _ Hs Hr)|]. intros Hi Hrel.
  destruct (solo_total _ _ _ _ (Register_wp false req (view s) (idle_free _ _ Hi)) (ready_locked _ Hs) Hrel)
    as (r & es2 & s2 & Hrun & (own & (Ho & _) & _) & _). rewrite Hr in Hrun. injection Hrun as <- <- <-.
  change (register_failed false req (tables s) es e (tables s')) in Ho.
  inversion Ho as [|? ? Hf|? ? Hf|m id err Hn Hd [Hf|Hw]|? ? ? ? Hf]; subst; try done; [by left|]. right.
  exists m, id, err. split_and!; done.
Qed.

(** A username that is taken is refused, with a validation error (PAY_002, status 400), and
    nothing is stored. *)
Theorem register_taken req s id m :
  ready s -> idle s -> reliable s -> readable (rg_Username req) = true ->
  merchants (tables s) !! id = Some m -> m_Username m = rg_Username req ->
  exists es s', run (Register req) [] s = Some (Err (Validation "username already exists"), es, s') /\
                tables s' = tables s.
Proof.
  intros Hs Hi Hrel Hread Hm Hu.
  destruct (solo_total _ _ _ _ (Register_wp false req (view s) (idle_free _ _ Hi)) (ready_locked _ Hs) Hrel)
    as (r & es & s' & Hrun & (own & _ & Htaken) & _ & _).
  destruct (Htaken Hread id m Hm Hu) as (HT & He & _). rewrite (He eq_refl) in Hrun. eauto.
Qed.

Lemma login_runs username password s :
  ready s -> idle s -> reliable s ->
  exists r es s', run (Login username password) [] s = Some (r, es, s') /\ tables s' = tables s /\
                  login_outcome false username password (tables s) r.
Proof.
  intros Hs Hi Hrel.
  destruct (solo_total _ _ _ _ (Login_wp false username password [] (view s) (idle_free _ _ Hi)) (ready_locked _ Hs) Hrel)
    as (r & es & s' & Hrun & (own & HT & Ho) & _ & _). eauto 10.
Qed.

(** The merchant of a username. *)
Lemma username_unique T id m id' m' :
  wf_tables T -> merchants T !! id = Some m -> merchants T !! id' = Some m' -> m_Username m' = m_Username m -> id' = id /\ m' = m.
Proof.
  intros Hwf Hm Hm' Hu. destruct (decide (id' = id)) as [->|Hne]; [split; congruence|].
  rewrite <- (wf_merchant _ Hwf _ _ Hm) in Hne. by destruct (wf_unique _ Hwf _ _ Hm id' m' Hm' Hne).
Qed.

(** The merchant of a username. *)
Definition merchant_named (T : Tables) (username : string) : option Merchant :=
  snd <$> head (filter (fun kv => m_Username kv.2 = username) (map_to_list (merchants T))).

Lemma merchant_named_Some T username id m :
  wf_tables T -> merchants T !! id = Some m -> m_Username m = username -> merchant_named T username = Some m.
Proof.
  intros Hwf Hm Hu. unfold merchant_named.
  assert (Hin : (id, m) ∈ filter (fun kv => m_Username kv.2 = username) (map_to_list (merchants T)))
    by (apply list_elem_of_filter; split; [done|by apply elem_of_map_to_list]).
  destruct (filter _ _) as [|[id' m'] l] eqn:Hf; [by apply not_elem_of_nil in Hin|]. simpl. f_equal.
  assert (Hin' : (id', m') ∈ filter (fun kv => m_Username kv.2 = username) (map_to_list (merchants T))) by (rewrite Hf; left).
  apply list_elem_of_filter in Hin' as [Hu' Hm'%elem_of_map_to_list]. simpl in Hu'.
  eapply username_unique; [done|exact Hm|exact Hm'|congruence].
Qed.

Lemma merchant_named_None T username :
  (forall id m, merchants T !! id = Some m -> m_Username m <> username) -> merchant_named T username = None.
Proof.
  intros Hno. unfold merchant_named. destruct (filter _ _) as [|[id m] l] eqn:Hf; [done|].
  assert (Hin : (id, m) ∈ filter (fun kv => m_Username kv.2 = username) (map_to_list (merchants T))) by (rewrite Hf; left).
  apply list_elem_of_filter in Hin as [Hu Hm%elem_of_map_to_list]. by destruct (Hno id m Hm).
Qed.

(** C27: when nothing fails and nobody is in a transaction, a login ends, changes nothing, and
    is decided by the merchant's row.  Without a row of that username the answer is AUTH_001;
    with one it is AUTH_001 when the password does not verify, then AUTH_004 when the merchant
    is not active, else a token of the merchant (or the error of signing it); a stored hash
    that cannot be parsed is SYS_001.  A username that is no text of the database is SYS_001. *)
Theorem login_decides username password s :
  ready s -> idle s -> reliable s ->
  exists r es s', run (Login username password) [] s = Some (r, es, s') /\ tables s' = tables s /\
    if readable username then
      match merchant_named (tables s) username with
      | Some m => login_answer password m r
      | None => r = Err ErrInvalidCredentials
      end
    else exists err, r = Err (InternalError (Errorf "find merchant" err)).
Proof.
  intros Hs Hi Hrel. destruct (login_runs username password s Hs Hi Hrel) as (r & es & s' & Hrun & HT & Ho).
  exists r, es, s'. split_and!; [done..|]. destruct Hs as (_ & Hwf & _).
  destruct Ho as [err [?|Hu]|Hu Hno|id m r Hu Hm Hn Ha]; [done|rewrite Hu..].
  - by exists err.
  - by rewrite (merchant_named_None _ _ Hno).
  - by rewrite (merchant_named_Some _ _ _ _ Hwf Hm Hn).
Qed.

(** C26: whoever registered may log in: with the password of the registration, the answer is a
    token that names the new merchant and its access key until it expires (or signing the
    token failed). *)
Theorem register_then_login req s resp es s1 :
  ready s -> run (Register req) [] s = Some (Ok resp, es, s1) -> idle s1 -> reliable s1 ->
  (rune_count (rg_Username req) <= 50)%nat ->
  exists r es' s2, run (Login (rg_Username req) (rg_Password req)) [] s1 = Some (r, es', s2) /\ tables s2 = tables s1 /\
    ((exists token expiry, r = Ok (token, expiry) /\ issued (rs_MerchantID resp) (rs_AccessKey resp) token expiry) \/
     (exists err, r = Err (InternalError (Errorf "generate token" err)))).
Proof.
  intros Hs Hr Hi Hrel Hu. destruct (register_run _ _ _ _ _ Hs Hr) as ((m & w & Ha & Hn & Hw & HT) & _ & Hs1).
  assert (Hm : merchants (tables s1) !! m_ID m = Some m).
  { rewrite HT. unfold apply_writes. simpl. apply lookup_insert_eq. }
  pose proof (varchar_short _ _ _ (ac_username _ _ _ _ Ha) Hu) as Hname.
  destruct (login_runs (rg_Username req) (rg_Password req) s1 Hs1 Hi Hrel) as (r & es' & s2 & Hrun & HT2 & Ho).
  exists r, es', s2. split_and!; [done..|]. destruct Hs1 as (_ & Hwf & _).
  assert (Hu' : forall id' m', merchants (tables s1) !! id' = Some m' -> m_Username m' = rg_Username req -> m' = m).
  { intros id' m' Hm' Hn'. eapply username_unique; [done|exact Hm|exact Hm'|congruence]. }
  pose proof (ac_password _ _ _ _ Ha) as Hpw. pose proof (ac_active _ _ _ _ Ha) as Hact.
  destruct Ho as [err [?|Hread]|_ Hno|id' m' r _ Hm' Hn' Hans]; [done|..|by destruct (Hno _ _ Hm)|].
  - pose proof (ac_username _ _ _ _ Ha) as [Hv Hnul]%varchar_text. unfold readable in Hread. by rewrite Hv, Hnul in Hread.
  - apply (Hu' _ _ Hm') in Hn' as ->. unfold login_answer in Hans. rewrite Hpw, Hact in Hans.
    destruct Hans as [(token & expiry & -> & His)|[err ->]]; [left|right; by exists err].
    exists token, expiry. split; [done|]. rewrite <- (ac_id _ _ _ _ Ha), <- (ac_key _ _ _ _ Ha). apply His.
    rewrite (ac_key _ _ _ _ Ha). apply utf8_valid_plain.
    eapply string_forallb_impl; [apply hex_plain|]. apply (ac_keys _ _ _ _ Ha).
Qed.

(** *** Self-service *)

Lemma update_run {A} (what : A -> Merchant -> Merchant -> Prop) mid (p : prog (res A)) s r es s' :
  ledger_beside eq true p ->
  wp solo true p (fun r _ _ v' => update_outcome true what mid (tables s) r (v_tables v')) None [] (view s) ->
  ready s -> run p [] s = Some (r, es, s') -> update_outcome true what mid (tables s) r (tables s') /\ ready s'.
Proof.
  intros Hb Hw Hs Hr. split; [|by eapply beside_run].
  by destruct (solo_run _ _ _ _ _ _ _ Hw (ready_locked _ Hs) Hr) as [[own Ho] _].
Qed.

(** C29: rotating keys replaces the access key and the secret key of the merchant by the
    answered ones, and nothing else.  These are fresh: the hexadecimal form, after ak_ and sk_,
    of 24 and of 32 bytes that were drawn for this call.  From then on no merchant has the old
    access key, unless the very same bytes were drawn again. *)
Theorem rotate_replaces mid s resp es s' :
  ready s -> run (RotateKeys mid) [] s = Some (Ok resp, es, s') ->
  keys_drawn_from (rk_AccessKey resp) (rk_SecretKey resp) 24 32 "ak_" "sk_" es /\
  exists m m', merchants (tables s) !! mid = Some m /\ tables s' = apply_write (WMerchant m') (tables s) /\
    rewritten m m' /\ m_WebhookURL m' = m_WebhookURL m /\ m_AccessKey m' = rk_AccessKey resp /\
    Decrypt (m_SecretKeyEnc m') = Ok (rk_SecretKey resp) /\ ready s' /\
    (m_AccessKey m <> rk_AccessKey resp ->
     forall id o, merchants (tables s') !! id = Some o -> m_AccessKey o <> m_AccessKey m).
Proof.
  intros Hs Hr. pose proof Hs as (_ & Hwf & _).
  destruct (solo_run _ _ _ _ _ _ _ (RotateKeys_wp true mid (view s) (failing_free _) Hwf) (ready_locked _ Hs) Hr)
    as [[own [(m & m' & Hm & Hrw & (Hak & Hsk & Hweb & _) & HT) Hkeys]] _].
  assert (Hs' : ready s') by (eapply beside_run; [|exact Hs|exact Hr];
    by apply (beside_merchant_service (PC := ledger_core eq true) mid None)).
  pose proof (wf_merchant _ Hwf _ _ Hm) as Hid. destruct Hrw as (Hid' & Hrest). split; [by apply Hkeys|].
  exists m, m'. split_and!; try done. intros Hne id o. unfold tables in HT |- *. rewrite HT. simpl.
  rewrite Hid', Hid, lookup_insert_Some. intros [[<- <-]|[Hne' Ho]]; [congruence|].
  apply (wf_unique _ Hwf _ _ Hm id o Ho). congruence.
Qed.

(** Setting the webhook URL changes that column of the merchant (and its update time), and
    nothing else; an error leaves the tables alone, or the answer of the update was lost. *)
Theorem webhook_updates mid url s r es s' :
  ready s -> run (UpdateWebhookURL mid url) [] s = Some (r, es, s') ->
  ready s' /\
  match r with
  | Ok _ => updates (tables s) (tables s') mid (webhook_set url tt)
  | Err e => tables s' = tables s \/ updates (tables s) (tables s') mid (webhook_set url tt)
  end.
Proof.
  intros Hs Hr. pose proof Hs as (_ & Hwf & _).
  destruct (update_run (webhook_set url) mid (UpdateWebhookURL mid url) s r es s') as [Ho Hs'];
    [by apply (beside_merchant_service (PC := ledger_core eq true))|by apply UpdateWebhookURL_wp; [apply failing_free|]|done|done|].
  split; [done|]. destruct r as [[]|e]; [done|]. destruct Ho as [[? _]|[_ [[] Hu]]]; auto.
Qed.
End Theorems.
