(* ===== verification/Authentication.v ===== *)
(** Authentication of requests: what [HMACAuth] and [JWTAuth] let through, what they refuse,
    and why a request cannot be replayed. *)

From S2P Require Export AccountTheorems.

(** ** Nonces *)

Section Nonces.
Context {U : UUIDLib} {P : PgLib} (flt : bool).

Definition nonce_key (merchantID nonce : string) : string :=
  NonceStore.prefix +:+ merchantID +:+ ":" +:+ nonce.

(** A nonce that is not there is kept for its time; one that is there is refused. *)
Lemma CheckAndSet_wp merchantID nonce ttl Q own es v :
  0 < ttl ->
  (forall c, v_clock v <= c -> live (set_clock c v) (nonce_key merchantID nonce) = None ->
     Q (Ok true) own es (set_redis (nonce_key merchantID nonce) ("1", Some (c + ttl)) (set_clock c v))) ->
  (forall c, v_clock v <= c -> live (set_clock c v) (nonce_key merchantID nonce) <> None ->
     Q (Ok false) own es (set_clock c v)) ->
  (forall e c v', flt = true -> v_clock v <= c ->
     v' = set_clock c v \/ v' = set_redis (nonce_key merchantID nonce) ("1", Some (c + ttl)) (set_clock c v) ->
     Q (Err e) own es v') ->
  wp solo flt (NonceStore.CheckAndSet merchantID nonce ttl) Q own es v.
Proof.
  intros Httl Hnew Hold Herr. apply wp_bind, wp_solo; [done|by intros _ _ [] []|].
  intros c x v' Hc. simpl. rewrite app_nil_r. change (NonceStore.prefix +:+ _) with (nonce_key merchantID nonce).
  assert (He : expiry (set_clock c v) ttl = Some (c + ttl)).
  { unfold expiry. destruct (Z.eqb_spec ttl 0); [lia|done]. }
  destruct (live (set_clock c v) (nonce_key merchantID nonce)) eqn:Hl.
  - intros [[->|[Hf (e & -> & (m & ->))]] ->]; simpl.
    + apply Hold; [done|by rewrite Hl].
    + by apply (Herr _ c); [..|left].
  - rewrite He. intros [[[->|[Hf (e & -> & (m & ->))]] ->]|[[Hf (e & -> & (m & ->))] ->]]; simpl.
    + by apply Hnew.
    + by apply (Herr _ c); [..|right].
    + by apply (Herr _ c); [..|left].
Qed.
End Nonces.

(** ** Signed requests *)

Section Signed.
Context {U : UUIDLib} {UL : UUIDLaws} {P : PgLib} {ES : EncryptionService} {SS : SignatureService} {SL : SignatureLaws}.

(** The request of [c] carries the signature of an active merchant of [T], over its method,
    path, timestamp, nonce and body. *)
Record signed_by (T : Tables) (c : Ctx) (m : Merchant) (timestamp : Z) (body : string) : Prop := {
  sb_row : exists id, merchants T !! id = Some m;
  sb_key : m_AccessKey m = GetHeader c HeaderAccessKey;
  sb_active : IsActive m = true;
  sb_timestamp : ParseInt (GetHeader c HeaderTimestamp) = Ok timestamp;
  sb_body : ReadAll (rq_Body (c_Request c)) = Ok body;
  sb_signature : exists secretKey, Decrypt (m_SecretKeyEnc m) = Ok secretKey /\
    GetHeader c HeaderSignature =
      Sign secretKey (BuildCanonicalString (rq_Method (c_Request c)) (rq_Path (c_Request c)) timestamp
                        (GetHeader c HeaderNonce) body)
}.

(** The context the rest of the chain sees. *)
Definition as_merchant (m : Merchant) (body : string) (c : Ctx) : Ctx :=
  set_Merchant m (set_AccessKey (m_AccessKey m) (set_MerchantID (m_ID m) (set_Body (mkReader body None) c))).

Lemma GetHeader_set_Body b c name : GetHeader (set_Body b c) name = GetHeader c name.
Proof. done. Qed.

Definition refusal (c : Ctx) : Prop := 400 <= Status c.

(** The context is answered with the envelope of the error. *)
Definition answers_error (e : error) (c : Ctx) : Prop :=
  exists id now, c_Answer c =
    Some (mkAnswer (response_Error e).1.1 (JSON (ErrorResponse (response_Error e).1.2 (response_Error e).2 id now))).

Lemma answers_refusal e c : 400 <= fst (fst (response_Error e)) -> answers_error e c -> refusal c.
Proof. intros He (id & now & Hc). unfold refusal, Status. by rewrite Hc. Qed.

(** An error answer, and nothing but the clock. *)
Lemma Error_answers flt c e Q own es v :
  (forall c' es' k, answers_error e c' -> v_clock v <= k -> Q c' own es' (set_clock k v)) ->
  wp solo flt (Error c e) Q own es v.
Proof.
  intros HQ. unfold Error. destruct (response_Error e) as [[status code] message] eqn:Er.
  apply wp_bind, wp_bind, wp_solo_uuid. intros k1 id Hk1. apply wp_bind, wp_solo_now. intros k2 Hk2.
  apply (HQ _ _ k2); [|simpl in Hk2; lia]. exists (uuid_String id), k2. by rewrite Er.
Qed.

Lemma Error_wp flt c e Q own es v :
  400 <= fst (fst (response_Error e)) ->
  (forall c' es' k, refusal c' -> v_clock v <= k -> Q c' own es' (set_clock k v)) ->
  wp solo flt (Error c e) Q own es v.
Proof. intros He HQ. apply Error_answers. intros c' es' k Hc. by apply HQ, (answers_refusal e). Qed.

(** The key of the request is a merchant's. *)
Definition keyed (T : Tables) (c : Ctx) (m : Merchant) : Prop :=
  (exists id, merchants T !! id = Some m) /\ m_AccessKey m = GetHeader c HeaderAccessKey.

(** Why a request that arrived at [v] was found not to be signed, by the instant [late]. *)
Inductive unsigned (flt : bool) (v : View) (c : Ctx) (late : time) : error -> Prop :=
| us_header name : name ∈ [HeaderAccessKey; HeaderSignature; HeaderTimestamp; HeaderNonce] -> GetHeader c name = "" ->
    unsigned flt v c late ErrInvalidAccessKey
| us_number e : ParseInt (GetHeader c HeaderTimestamp) = Err e -> unsigned flt v c late ErrTimestampExpired
| us_drift now timestamp : v_clock v <= now <= late -> ParseInt (GetHeader c HeaderTimestamp) = Ok timestamp ->
    drifted now timestamp = true -> unsigned flt v c late ErrTimestampExpired
| us_text e : readable (GetHeader c HeaderAccessKey) = false -> unsigned flt v c late (InternalError e)
| us_unknown : readable (GetHeader c HeaderAccessKey) = true -> (forall m, ~ keyed (v_tables v) c m) -> unsigned flt v c late ErrInvalidAccessKey
| us_suspended m : keyed (v_tables v) c m -> IsActive m = false -> unsigned flt v c late ErrMerchantSuspended
| us_nonce m now : keyed (v_tables v) c m -> v_clock v <= now <= late ->
    live (set_clock now v) (nonce_key (uuid_String (m_ID m)) (GetHeader c HeaderNonce)) <> None ->
    unsigned flt v c late ErrNonceUsed
| us_sealed m e : keyed (v_tables v) c m -> Decrypt (m_SecretKeyEnc m) = Err e -> unsigned flt v c late (InternalError e)
| us_body e : ReadAll (rq_Body (c_Request c)) = Err e -> unsigned flt v c late (Validation "cannot read request body")
| us_signature m secretKey timestamp body :
    keyed (v_tables v) c m -> Decrypt (m_SecretKeyEnc m) = Ok secretKey ->
    ParseInt (GetHeader c HeaderTimestamp) = Ok timestamp -> ReadAll (rq_Body (c_Request c)) = Ok body ->
    GetHeader c HeaderSignature <> Sign secretKey (BuildCanonicalString (rq_Method (c_Request c)) (rq_Path (c_Request c))
                                                     timestamp (GetHeader c HeaderNonce) body) ->
    unsigned flt v c late ErrInvalidSignature
| us_fault e : flt = true -> unsigned flt v c late (InternalError e).

Lemma unsigned_status flt v c late e : unsigned flt v c late e -> 400 <= fst (fst (response_Error e)).
Proof. by intros []. Qed.

Lemma unsigned_refusal flt v c late e c' : unsigned flt v c late e -> answers_error e c' -> refusal c'.
Proof. intros He%unsigned_status. by apply answers_refusal. Qed.

(** The rule of the middleware: the rest of the chain runs only for signed requests, with the
    tables as they were; any refusal has its reason and leaves them so, too. *)
Section Gate.
Context (flt : bool) (c : Ctx) (Q : Ctx -> option tx -> list event -> View -> Prop) (v : View).
Hypothesis Hno : forall e c' es' v', unsigned flt v c (v_clock v') e -> answers_error e c' -> v_tables v' = v_tables v ->
  v_clock v <= v_clock v' -> Q c' None es' v'.

Lemma refuse e c1 es' v' :
  (forall late, v_clock v' <= late -> unsigned flt v c late e) ->
  v_tables v' = v_tables v -> v_clock v <= v_clock v' -> wp solo flt (Error c1 e) Q None es' v'.
Proof.
  intros He HT Hv. apply Error_answers. intros c' es2 k Hc Hk. eapply Hno; [by apply He|done|done|simpl; lia].
Qed.

Lemma verify_wp next m timestamp es' v' :
  keyed (v_tables v) c m -> IsActive m = true -> ParseInt (GetHeader c HeaderTimestamp) = Ok timestamp ->
  v_tables v' = v_tables v -> v_clock v <= v_clock v' ->
  (forall body, signed_by (v_tables v) c m timestamp body -> wp solo flt (next (as_merchant m body c)) Q None es' v') ->
  wp solo flt (verify_signature m timestamp next c) Q None es' v'.
Proof.
  intros Hm Hact Hts HT Hv Hnext. unfold verify_signature.
  destruct (Decrypt _) as [secretKey|] eqn:Hsec; [|by apply refuse; [by intros; eapply us_sealed| |]].
  destruct (ReadAll _) as [body|] eqn:Hb; [|by apply refuse; [by intros; eapply us_body| |]].
  destruct (Verify _ _ _) eqn:Hver; cbn [negb]; cbv iota zeta.
  - apply Hnext. destruct Hm. split; try done. exists secretKey. split; [done|]. by apply Verify_spec.
  - apply refuse; [|done..]. intros late _. eapply us_signature; [done..|]. intros Heq. apply Verify_spec in Heq.
    unfold GetHeader in *. simpl in *. congruence.
Qed.

Lemma HMACAuth_wp next es :
  free flt v ->
  (forall m timestamp body k1 k2 v' es', signed_by (v_tables v) c m timestamp body ->
     v_clock v <= k1 -> k1 <= k2 -> drifted k1 timestamp = false ->
     (flt = true /\ v' = set_clock k2 v) \/ v' = set_redis (nonce_key (uuid_String (m_ID m)) (GetHeader c HeaderNonce)) ("1", Some (k2 + nonceTTL)) (set_clock k2 v) ->
     (flt = false -> live (set_clock k2 v) (nonce_key (uuid_String (m_ID m)) (GetHeader c HeaderNonce)) = None) ->
     wp solo flt (next (as_merchant m body c)) Q None es' v') ->
  wp solo flt (HMACAuth next c) Q None es v.
Proof.
  intros Hf Hnext. unfold HMACAuth. destruct (_ || _) eqn:Hh.
  { apply refuse; [|done|done]. intros late _. rewrite !orb_true_iff, !String.eqb_eq in Hh.
    destruct Hh as [[[Hh|Hh]|Hh]|Hh]; (eapply us_header; [|exact Hh]; set_solver). }
  destruct (ParseInt _) as [timestamp|] eqn:Hts; [|by apply refuse; [by intros; eapply us_number| |]].
  apply wp_bind, wp_solo_now. intros k1 Hk1. destruct (drifted k1 timestamp) eqn:Hd.
  { apply refuse; [|done|done]. intros late Hu. by apply (us_drift _ _ _ _ k1 timestamp). }
  apply wp_bind, wp_merchant_by_key; [done|..].
  2:{ intros k Hr Hk Hun. simpl in Hk. apply refuse; [|done|simpl; lia]. intros late _. apply us_unknown; [done|].
      intros m [[id Hm] Hak]. by apply (Hun id m). }
  2:{ intros k e [Hfl|Hr] Hk; simpl in Hk; apply refuse; try done; try (simpl; lia); intros late _;
        [by apply us_fault|by apply us_text]. }
  intros k m id _ Hk Hm Hak. simpl in Hk, Hm. assert (Hkeyed : keyed (v_tables v) c m) by (split; eauto).
  destruct (IsActive m) eqn:Hact; cbn [negb]; cbv iota.
  2:{ apply refuse; [|done|simpl; lia]. intros late _. by eapply us_suspended. }
  apply wp_bind, CheckAndSet_wp; [done|..].
  - intros k2 Hk2 Hl. simpl in Hk2. apply verify_wp; [done..|simpl; lia|]. intros body Hs.
    apply (Hnext m timestamp body k1 k2); [done..|lia|done|by right|done].
  - intros k2 Hk2 Hl. simpl in Hk2. apply refuse; [|done|simpl; lia]. intros late Hu. simpl in Hu.
    eapply (us_nonce _ _ _ _ m k2); [done|lia|done].
  - intros e k2 v' Hfl Hk2 Hv'. simpl in Hk2.
    apply verify_wp; [done..|by destruct Hv' as [->| ->]|destruct Hv' as [->| ->]; simpl; lia|]. intros body Hs.
    apply (Hnext m timestamp body k1 k2); [done..|lia|done|by destruct Hv' as [->| ->]; [left|right]|congruence].
Qed.
End Gate.
End Signed.

(** ** Bearer tokens *)

Section Bearer.
Context {U : UUIDLib} {P : PgLib} {TS : TokenService}.

(** The request carries a token that names a merchant at the instant [now]. *)
Definition bearer (now : time) (c : Ctx) (claims : TokenClaims) : Prop :=
  exists token, token <> "" /\ GetHeader c "Authorization" = "Bearer " +:+ token /\ ValidateAt now token = Ok claims.

Definition as_bearer (claims : TokenClaims) (c : Ctx) : Ctx :=
  set_AccessKey (tc_AccessKey claims) (set_MerchantID (tc_MerchantID claims) c).

Lemma bearer_split h :
  ((h =? "")%string || (String.length h <? 8)%nat || negb (str_take 7 h =? "Bearer ")%string) = false ->
  h = "Bearer " +:+ str_drop 7 h /\ str_drop 7 h <> "".
Proof.
  rewrite !orb_false_iff, negb_false_iff, String.eqb_eq, Nat.ltb_ge. intros [[_ Hl] Ht]. rewrite <- Ht.
  pose proof (str_take_drop 7 h) as Htd. split; [done|]. intros He. rewrite He, Ht in Htd. rewrite <- Htd in Hl. simpl in Hl. lia.
Qed.

Lemma bearer_header now c claims :
  bearer now c claims ->
  ((GetHeader c "Authorization" =? "")%string || (String.length (GetHeader c "Authorization") <? 8)%nat
     || negb (str_take 7 (GetHeader c "Authorization") =? "Bearer ")%string) = false /\
  ValidateAt now (str_drop 7 (GetHeader c "Authorization")) = Ok claims.
Proof.
  intros (token & Hne & -> & Hv). split; [|done]. destruct token as [|a token]; [done|]. by destruct token.
Qed.

(** The rest of the chain runs only for a token that is valid now. *)
Lemma JWTAuth_wp flt next c Q es v :
  (forall claims k, v_clock v <= k -> bearer k c claims -> wp solo flt (next (as_bearer claims c)) Q None es (set_clock k v)) ->
  (forall c' es' now k, answers_error ErrInvalidToken c' -> v_clock v <= now <= k -> (forall claims, ~ bearer now c claims) ->
     Q c' None es' (set_clock k v)) ->
  wp solo flt (JWTAuth next c) Q None es v.
Proof.
  intros Hnext Hno. unfold JWTAuth. destruct (_ || _) eqn:Hh.
  { apply Error_answers. intros c' es' k Hc Hk. apply (Hno c' es' (v_clock v)); [done|lia|].
    intros claims [Hb _]%bearer_header. congruence. }
  pose proof (bearer_split _ Hh) as [Ha Hne]. apply wp_bind, wp_bind, wp_solo_now. intros k Hk. cbn [wp].
  destruct (ValidateAt k _) as [claims|e] eqn:Hv.
  - apply Hnext; [done|]. by exists (str_drop 7 (GetHeader c "Authorization")).
  - apply Error_answers. intros c' es' k' Hc Hk'. simpl in Hk'. apply (Hno c' es' k k'); [done|lia|].
    intros claims [_ Hb]%bearer_header. congruence.
Qed.
End Bearer.

(** ** The payment routes *)

Section Routes.
Context {U : UUIDLib} {UL : UUIDLaws} {P : PgLib} {JL : JsonbLaws} {ES : EncryptionService} {EL : EncryptionLaws}.
Context {HS : HashService} {HL : HashLaws} {SS : SignatureService} {SL : SignatureLaws} {TS : TokenService} {TL : TokenLaws}.
Context {UP : URLParser} {RU : RequestURI} {V : Validator} {VL : ValidatorLaws} {GF : GinFallback}.

(** The context in which a route's own handlers start. *)
Definition entry (r : Request) : Ctx := set_Body (MaxBytesReader (2 ^ 20) (rq_Body r)) (new_Ctx r).

(** A route under the global middleware, which changes nothing but the clock: whatever the
    route's handlers make of the answer, the tables and the events holds in the end, if it holds
    for later instants and more events. *)
Lemma global_wp flt deps hs r (R : Ctx -> Tables -> time -> list event -> Prop) es v :
  (forall c T k k' es es', R c T k es -> k <= k' -> R c T k' (es ++ es')) ->
  (forall k es', v_clock v <= k ->
     wp solo flt (chain hs (entry r)) (fun c _ es v' => R c (v_tables v') (v_clock v') es) None es' (set_clock k v)) ->
  wp solo flt (chain (global_middleware deps ++ hs) (new_Ctx r)) (fun c _ es v' => R c (v_tables v') (v_clock v') es) None es v.
Proof.
  intros Hlate Hhs.
  assert (Haudit : forall k es', v_clock v <= k ->
    wp solo flt (chain ((if d_AuditSvc deps then [AuditLog_ (d_AuditRepo deps)] else []) ++ hs) (entry r))
      (fun c _ es v' => R c (v_tables v') (v_clock v') es) None es' (set_clock k v)).
  { intros k es' Hk. destruct (d_AuditSvc deps); [|by apply Hhs]. apply wp_bind.
    eapply wp_mono; [|by apply Hhs]. intros c own es2 v2 HR. cbv beta. destruct (audited c) as [[action resource]|]; [|exact HR].
    apply wp_bind, wp_solo_uuid. intros k1 id Hk1. apply wp_bind, wp_solo_now. intros k2 Hk2.
    simpl in Hk1, Hk2. apply wp_bind. split; [|rewrite <- app_assoc; eapply Hlate; [exact HR|simpl; lia]]. unfold persist_entry. destruct (d_AuditRepo deps); [|done].
    apply wp_bind. unfold AuditRepo.Create. apply wp_bind, wp_solo; [done|done|]. intros k3 [n|e] v3 Hk3 _; done. }
  apply wp_bind, wp_solo_now. intros k1 Hk1. apply wp_bind.
  eapply wp_mono; [|by apply Haudit]. intros c own es2 v2 HR. apply wp_bind, wp_solo_now. intros k2 Hk2.
  specialize (Hlate _ _ _ k2 _ [] HR Hk2). by rewrite app_nil_r in Hlate.
Qed.

Definition payment_path (path : string) : Prop := path = "/api/v1/payments" \/ path = "/api/v1/payments/refund".

Lemma payment_route deps path :
  payment_path path ->
  exists limiter handler, route deps "POST" path = Some [HMACAuth; limiter; handler].
Proof. intros [-> | ->]; eexists _, _; reflexivity. Qed.

Lemma unsigned_wp flt deps r es v :
  free flt v -> rq_Method r = "POST" -> payment_path (rq_Path r) ->
  (forall m timestamp body, ~ signed_by (v_tables v) (entry r) m timestamp body) ->
  wp solo flt (ServeHTTP deps r) (fun c _ _ v' => refusal c /\ v_tables v' = v_tables v) None es v.
Proof.
  intros Hf Hm Hp Hno. unfold ServeHTTP. rewrite Hm.
  destruct (payment_route deps _ Hp) as (limiter & handler & ->).
  apply (global_wp flt deps _ r (fun c T _ _ => refusal c /\ T = v_tables v)); [done|]. intros k es' Hk. apply HMACAuth_wp; [|done|].
  - intros e c' es'' v' He Hc HT _. split; [by eapply unsigned_refusal|done].
  - intros m timestamp body k1 k2 v' es'' Hs. by destruct (Hno m timestamp body).
Qed.

Context {B : Backend} {BL : BackendLaws}.

(** C13: a request to the payment routes that no active merchant signed is refused, with a status
    of at least 400, and changes no table. *)
Theorem unsigned_refused deps r s c es s' :
  ready s -> rq_Method r = "POST" -> payment_path (rq_Path r) ->
  (forall m timestamp body, ~ signed_by (tables s) (entry r) m timestamp body) ->
  run (ServeHTTP deps r) [] s = Some (c, es, s') -> tables s' = tables s /\ 400 <= Status c.
Proof.
  intros Hs Hm Hp Hno Hr.
  destruct (solo_run _ _ _ _ _ _ _ (unsigned_wp true deps r [] (view s) (failing_free _) Hm Hp Hno) (ready_locked _ Hs) Hr)
    as [(own & Hc & HT) _]. done.
Qed.

Definition dashboard_path (deps : RouterDeps) (method path : string) : Prop :=
  (method, path) ∈ map fst (dashboard_routes deps ++ merchant_routes deps).

Lemma dashboard_route deps method path :
  dashboard_path deps method path -> exists hs, route deps method path = Some (JWTAuth :: hs).
Proof.
  unfold dashboard_path, route, routes, merchant_routes. destruct (d_MerchantSvc deps); cbn [map app fst dashboard_routes].
  all: intros H; repeat (apply elem_of_cons in H as [[= -> ->]|H]; [by eexists|]); by apply not_elem_of_nil in H.
Qed.

Lemma untokened_wp flt deps r es v :
  free flt v -> dashboard_path deps (rq_Method r) (rq_Path r) ->
  (forall now claims, v_clock v <= now -> ~ bearer now (entry r) claims) ->
  wp solo flt (ServeHTTP deps r) (fun c _ _ v' => refusal c /\ v_tables v' = v_tables v) None es v.
Proof.
  intros Hf Hp Hno. unfold ServeHTTP. destruct (dashboard_route _ _ _ Hp) as [hs ->].
  apply (global_wp flt deps _ r (fun c T _ _ => refusal c /\ T = v_tables v)); [done|]. intros k es' Hk. apply JWTAuth_wp.
  - intros claims k' Hk' Hb. simpl in Hk'. by destruct (Hno k' claims); [lia|].
  - intros c' es2 now k' Hc _ _. split; [by apply (answers_refusal ErrInvalidToken)|done].
Qed.

(** C15: a request to the dashboard, wallet and merchant routes without a bearer token that is
    valid at some instant after its arrival is refused, and changes no table. *)
Theorem untokened_refused deps r s c es s' :
  ready s -> dashboard_path deps (rq_Method r) (rq_Path r) ->
  (forall now claims, v_clock (view s) <= now -> ~ bearer now (entry r) claims) ->
  run (ServeHTTP deps r) [] s = Some (c, es, s') -> tables s' = tables s /\ 400 <= Status c.
Proof.
  intros Hs Hp Hno Hr.
  destruct (solo_run _ _ _ _ _ _ _ (untokened_wp true deps r [] (view s) (failing_free _) Hp Hno) (ready_locked _ Hs) Hr)
    as [(own & Hc & HT) _]. done.
Qed.
End Routes.

(** ** Replays *)

Section Replay.
Context {U : UUIDLib} {UL : UUIDLaws} {P : PgLib} {JL : JsonbLaws} {ES : EncryptionService} {EL : EncryptionLaws}.
Context {SS : SignatureService} {SL : SignatureLaws}.
Context {B : Backend} {BL : BackendLaws}.

(** The middleware alone lets a request through when it leaves it unanswered; what follows in
    the chain runs exactly then. *)
Definition unanswered_ctx (c : Ctx) : bool := match c_Answer c with None => true | Some _ => false end.

Lemma run_Error_then next c e es s :
  run (Error c e) es s =
  match run (Error c e) es s with
  | Some (c', es', s') => if unanswered_ctx c' then run (next c') es' s' else Some (c', es', s')
  | None => None
  end.
Proof.
  unfold Error. destruct (response_Error e) as [[status code] message]. rewrite !run_bind.
  destruct (run getRequestID es s) as [[[id es1] s1]|]; [|done]. rewrite !run_bind.
  by destruct (run (op Now) es1 s1) as [[[now es2] s2]|].
Qed.

Lemma hmac_gate next c es s :
  c_Answer c = None ->
  run (HMACAuth next c) es s =
  match run (HMACAuth Ret c) es s with
  | Some (c', es', s') => if unanswered_ctx c' then run (next c') es' s' else Some (c', es', s')
  | None => None
  end.
Proof.
  intros Hc. unfold HMACAuth. destruct (_ || _); [apply run_Error_then|].
  destruct (ParseInt _) as [ts|]; [|apply run_Error_then]. rewrite !run_bind.
  destruct (run (op Now) es s) as [[[now es1] s1]|]; [|done]. destruct (drifted now ts); [apply run_Error_then|].
  rewrite !run_bind. destruct (run (MerchantRepo.GetByAccessKey _) es1 s1) as [[[[[m|]|e] es2] s2]|]; [|apply run_Error_then..|done].
  destruct (negb (IsActive m)); [apply run_Error_then|]. rewrite !run_bind.
  destruct (run (NonceStore.CheckAndSet _ _ _) es2 s2) as [[[isNew es3] s3]|]; [|done].
  assert (Hv : forall es s, run (verify_signature m ts next c) es s =
    match run (verify_signature m ts Ret c) es s with
    | Some (c', es', s') => if unanswered_ctx c' then run (next c') es' s' else Some (c', es', s')
    | None => None
    end).
  { intros es4 s4. unfold verify_signature. destruct (Decrypt _); [|apply run_Error_then].
    destruct (ReadAll _); [|apply run_Error_then]. destruct (negb _); [apply run_Error_then|].
    cbn [run]. unfold unanswered_ctx. simpl. by rewrite Hc. }
  destruct isNew as [[]|]; [apply Hv|apply run_Error_then|apply Hv].
Qed.

(** The drift of a timestamp, when the clock is within the 64-bit range. *)
Lemma drifted_spec now timestamp :
  0 <= Unix now < 2 ^ 62 -> in_int64 timestamp -> drifted now timestamp = false <-> Z.abs (Unix now - timestamp) <= 60.
Proof.
  unfold drifted, in_int64, min_int64, max_int64. intros Hn Ht.
  change (Z.quot maxTimestampDrift Second) with 60. rewrite Z.ltb_ge. unfold sub64.
  destruct (Z_le_gt_dec (Unix now - timestamp) max_int64) as [Hs|Hb]; unfold max_int64 in *.
  - rewrite wrap64_id; [done|]. unfold in_int64, min_int64, max_int64. lia.
  - rewrite wrap64_over by (unfold max_int64; lia). lia.
Qed.

(** What a reliable server does with a request: it lets it through, having kept its nonce, or
    it answers it. *)
Definition gate_outcome (c : Ctx) (v : View) (c' : Ctx) (v' : View) : Prop :=
  refusal c' \/
  exists m timestamp body k1 k2, signed_by (v_tables v) c m timestamp body /\
    v_clock v <= k1 /\ k1 <= k2 /\ drifted k1 timestamp = false /\ c' = as_merchant m body c /\
    live (set_clock k2 v) (nonce_key (uuid_String (m_ID m)) (GetHeader c HeaderNonce)) = None /\
    v' = set_redis (nonce_key (uuid_String (m_ID m)) (GetHeader c HeaderNonce)) ("1", Some (k2 + nonceTTL)) (set_clock k2 v).

Lemma gate_wp c es v :
  free false v ->
  wp solo false (HMACAuth Ret c) (fun c' _ _ v' => gate_outcome c v c' v') None es v.
Proof.
  intros Hf. apply HMACAuth_wp; [|done|].
  - intros e c' es' v' He Hc _ _. left. by eapply unsigned_refusal.
  - intros m timestamp body k1 k2 v' es' Hs Hk1 Hk2 Hd [[[=] _]| ->] Hl. right. exists m, timestamp, body, k1, k2. auto 10.
Qed.

Lemma gate_run c s c' es s' :
  ready s -> idle s -> reliable s -> run (HMACAuth Ret c) [] s = Some (c', es, s') -> gate_outcome c (view s) c' (view s').
Proof.
  intros Hs Hi Hr Hrun.
  destruct (solo_total _ _ _ _ (gate_wp c [] (view s) (idle_free _ _ Hi)) (ready_locked _ Hs) Hr)
    as (c'' & es' & s'' & Hrun' & (own & Ho) & _ & _). congruence.
Qed.

(** The second of two requests with the same credentials. *)
Record resent (c c2 : Ctx) : Prop := {
  re_key : GetHeader c2 HeaderAccessKey = GetHeader c HeaderAccessKey;
  re_timestamp : GetHeader c2 HeaderTimestamp = GetHeader c HeaderTimestamp;
  re_nonce : GetHeader c2 HeaderNonce = GetHeader c HeaderNonce
}.

(** What happened to the world between the two: anything that moves no access key to another
    merchant and leaves the kept nonce where it is. *)
Record meanwhile (nonce : string) (s1 s2 : St) : Prop := {
  mw_clock : v_clock (view s1) <= v_clock (view s2);
  mw_nonces merchantID : v_redis (view s2) !! nonce_key merchantID nonce = v_redis (view s1) !! nonce_key merchantID nonce;
  mw_keys id id' m m' : merchants (tables s1) !! id = Some m -> merchants (tables s2) !! id' = Some m' ->
    m_AccessKey m' = m_AccessKey m -> m_ID m' = m_ID m
}.

Lemma Unix_bounds t : Unix t * Second <= t < Unix t * Second + Second.
Proof. unfold Unix, Second. pose proof (Z.div_mod t 1000000000). pose proof (Z.mod_pos_bound t 1000000000). lia. Qed.

(** C14: of two requests with the same access key, timestamp and nonce the middleware lets only
    the first through, however late the second comes, as long as
    - Redis and PostgreSQL fail neither of them (without the nonce store, requests are let
      through), and in between nobody touches the entry of the nonce and no other merchant
      takes over the access key; all else may happen in between ([meanwhile]);
    - the timestamp is at most 59 seconds ahead of the first, less the time that the second
      takes: further ahead it is accepted for longer than the nonce is kept, and a replay can
      pass then. *)
Theorem replay_refused c c1 es s s1 c2 c3 es2 s2 s3 timestamp :
  ready s -> idle s -> reliable s -> 0 <= v_clock (view s) ->
  run (HMACAuth Ret c) [] s = Some (c1, es, s1) -> unanswered_ctx c1 = true ->
  ready s2 -> idle s2 -> reliable s2 -> resent c c2 -> meanwhile (GetHeader c HeaderNonce) s1 s2 ->
  run (HMACAuth Ret c2) [] s2 = Some (c3, es2, s3) -> v_clock (view s3) < 2 ^ 62 * Second ->
  ParseInt (GetHeader c HeaderTimestamp) = Ok timestamp ->
  timestamp * Second + (v_clock (view s3) - v_clock (view s2)) <= v_clock (view s) + 59 * Second ->
  refusal c3.
Proof.
  intros Hs Hi Hr Hpos Hrun1 Hun Hs2 Hi2 Hr2 [Hak Hts Hno] Hmw Hrun2 Hmax Hp Hlate.
  destruct (gate_run _ _ _ _ _ Hs Hi Hr Hrun1) as [Hc|(m & t & body & k1 & k2 & Hsig & Hk1 & Hk2 & Hd & -> & _ & Hv1)].
  { unfold refusal, Status in Hc. unfold unanswered_ctx in Hun. destruct (c_Answer c1); [done|]. unfold StatusOK in Hc. lia. }
  destruct (gate_run _ _ _ _ _ Hs2 Hi2 Hr2 Hrun2) as [Hc|(m' & t' & body' & k1' & k2' & Hsig' & Hk1' & Hk2' & Hd' & -> & Hl' & Hv3)]; [exact Hc|exfalso].
  destruct Hmw as [Hclock Hnonces Hkeys].
  destruct (sb_row _ _ _ _ _ Hsig) as [id Hm]. destruct (sb_row _ _ _ _ _ Hsig') as [id' Hm'].
  assert (Hid : m_ID m' = m_ID m).
  { apply (Hkeys id id'); [unfold tables; by rewrite Hv1|done|].
    rewrite (sb_key _ _ _ _ _ Hsig), (sb_key _ _ _ _ _ Hsig'). exact Hak. }
  pose proof (sb_timestamp _ _ _ _ _ Hsig') as Ht'. rewrite Hts, Hp in Ht'. injection Ht' as <-.
  unfold live in Hl'. simpl in Hl'. rewrite Hid, Hno, Hnonces, Hv1 in Hl'. simpl in Hl'.
  rewrite lookup_insert_eq in Hl'. rewrite Hv3 in Hlate, Hmax. simpl in Hlate, Hmax. rewrite Hv1 in Hclock. simpl in Hclock.
  pose proof (Unix_bounds k1') as Hu. pose proof (ParseInt_range _ _ Hp) as Hint.
  apply (drifted_spec k1' timestamp) in Hd'; [|unfold Second in *; lia|done].
  unfold nonceTTL in Hl'. destruct (Z.ltb_spec k2' (k2 + 120 * Second)) as [_|Hge]; [done|].
  unfold Second in *. lia.
Qed.
End Replay.
