(* ===== verification/Requests.v ===== *)
(** What holds of every request, whatever route it takes. *)

From S2P Require Export Beside Tidy Authentication.

Section Requests.
Context {U : UUIDLib} {UL : UUIDLaws} {P : PgLib} {JL : JsonbLaws} {ES : EncryptionService} {EL : EncryptionLaws}.
Context {HS : HashService} {HL : HashLaws} {SS : SignatureService} {SL : SignatureLaws} {TS : TokenService} {TL : TokenLaws}.
Context {UP : URLParser} {RU : RequestURI} {V : Validator} {VL : ValidatorLaws} {GF : GinFallback}.
Context {B : Backend} {BL : BackendLaws}.

Lemma serves_ready {A : Type} (p : prog A) s a es s' :
  ledger_serves eq true p -> ready s -> run p [] s = Some (a, es, s') -> ready s'.
Proof.
  intros Hp Hs Hr. apply (run_spec p (fun _ _ => True) [] s a es s'); [|done|done].
  intros Hg. eapply wp_mono; [|by apply Hp]. done.
Qed.

(** Whatever the middleware decides, the next request finds the world ready. *)
Lemma gate_ready c s c' es s' : ready s -> run (HMACAuth Ret c) [] s = Some (c', es, s') -> ready s'.
Proof.
  apply serves_ready. apply (passes_HMACAuth (PL := ledger_logic eq true) Ret). intros c1.
  by apply (beside_serves (PieceCore := ledger_core eq true)), (beside_ret (PieceCore := ledger_core eq true)).
Qed.

Lemma gate_reliable c s c' es s' :
  ready s -> idle s -> reliable s -> run (HMACAuth Ret c) [] s = Some (c', es, s') -> reliable s'.
Proof.
  intros Hs Hi Hr Hrun.
  destruct (solo_total _ _ _ _ (gate_wp c [] (view s) (idle_free _ _ Hi)) (ready_locked _ Hs) Hr)
    as (c'' & es' & s'' & Hrun' & _ & _ & Hr'). congruence.
Qed.

(** Requests one after the other, and their answers. *)
Fixpoint serve_all (serve : Request -> prog Ctx) (rs : list Request) (s : St) : option (list Ctx * St) :=
  match rs with
  | [] => Some ([], s)
  | r :: rs =>
    match run (serve r) [] s with
    | Some (c, _, s) =>
      match serve_all serve rs s with
      | Some (cs, s) => Some (c :: cs, s)
      | None => None
      end
    | None => None
    end
  end.

Lemma request_ready deps r s c es s' : ready s -> run (ServeHTTP deps r) [] s = Some (c, es, s') -> ready s'.
Proof. apply serves_ready, (ServeHTTP_serves (PL := ledger_logic eq true) deps r). Qed.

(** It gives its connection back. *)
Lemma request_idle deps r s c es s' : ready s -> idle s -> run (ServeHTTP deps r) [] s = Some (c, es, s') -> idle s'.
Proof.
  intros Hs Hi Hr. pose proof (ServeHTTP_serves (PL := tidy_logic) deps r true [] (view s) Hi) as Hw.
  by destruct (solo_run _ _ _ _ _ _ _ Hw (proj1 Hs) Hr) as [(own & Hv) _].
Qed.

(** As long as nothing fails, every request of any sequence ends: none waits for a lock that an
    earlier one forgot, none loops. *)
Lemma requests_end deps rs s :
  ready s -> idle s -> reliable s ->
  exists cs s', serve_all (ServeHTTP deps) rs s = Some (cs, s') /\ length cs = length rs /\
                ready s' /\ idle s' /\ reliable s'.
Proof.
  revert s. induction rs as [|r rs IH]; intros s Hs Hi Hr; [by exists [], s|].
  pose proof (ServeHTTP_serves (PL := tidy_logic) deps r false [] (view s) Hi) as Hw.
  destruct (solo_total _ _ _ _ Hw (proj1 Hs) Hr) as (c & es & s1 & Hrun & _ & _ & Hr1).
  pose proof (request_ready _ _ _ _ _ _ Hs Hrun) as Hs1. pose proof (request_idle _ _ _ _ _ _ Hs Hi Hrun) as Hi1.
  destruct (IH s1 Hs1 Hi1 Hr1) as (cs & s' & Hall & Hlen & Hrest).
  exists (c :: cs), s'. cbn [serve_all length]. rewrite Hrun, Hall. split_and!; [done|congruence|apply Hrest..].
Qed.

(** C20: whatever a request asks for, and whatever fails while it runs, it leaves the database
    and the cache fit for the next one: rows under their keys, unique usernames and access
    keys, cached answers that agree with the logs, and no transaction open on any connection, so no
    write pending and no row locked. *)
Theorem request_leaves_ready deps r s c es s' :
  ready s -> idle s -> run (ServeHTTP deps r) [] s = Some (c, es, s') -> ready s' /\ idle s'.
Proof. intros Hs Hi Hr. split; [by eapply request_ready|by eapply request_idle]. Qed.
End Requests.
