(* ===== verification/AuditTrail.v ===== *)
(** The audit trail: every write that succeeds, whatever its route, starts a goroutine that
    stores who did what; nothing about the entry itself keeps the database from taking it. *)

From S2P Require Export Requests.
From Stdlib Require Import Permutation.

(** ** What a program may yield, whatever its operations do *)

Section Ends.
Context {U : UUIDLib}.

Fixpoint ends_with {A} (R : A -> Prop) (p : prog A) : Prop :=
  match p with
  | Ret a => R a
  | Do _ k => forall x, ends_with R (k x)
  | Go _ k => ends_with R k
  end.

Lemma ends_with_after {A C} (R : C -> Prop) (p : prog A) (f : A -> prog C) : (forall a, ends_with R (f a)) -> ends_with R (bind p f).
Proof. intros Hf. induction p as [A a|A X o k IH|A c IHc k IH]; simpl; auto. Qed.

Lemma ends_with_bind {A C} (Q : A -> Prop) (R : C -> Prop) (p : prog A) (f : A -> prog C) :
  ends_with Q p -> (forall a, Q a -> ends_with R (f a)) -> ends_with R (bind p f).
Proof. intros Hp Hf. induction p as [A a|A X o k IH|A c IHc k IH]; simpl in *; eauto. Qed.

Lemma ends_run `{PgLib} {B : Backend} {A} (R : A -> Prop) (p : prog A) es s a es' s' :
  ends_with R p -> run p es s = Some (a, es', s') -> R a.
Proof.
  revert es s. induction p as [A a0|A X o k IH|A c IHc k IH]; intros es s Hp; simpl in *; [by intros [= <- _ _]| |by apply IH].
  destruct (exec X o s) as [[x s1]|]; [|done]. by apply IH.
Qed.

(** The context of the same request, as far as its method and path go. *)
Definition same_target (c c' : Ctx) : Prop :=
  rq_Method (c_Request c') = rq_Method (c_Request c) /\ rq_Path (c_Request c') = rq_Path (c_Request c).

Definition answers (h : Ctx -> prog Ctx) : Prop := forall c, ends_with (same_target c) (h c).

(** A middleware that answers whenever the rest of its chain does. *)
Definition hands_on (h : HandlerFunc) : Prop := forall next, answers next -> answers (h next).

Lemma chain_answers hs : Forall hands_on hs -> answers (chain hs).
Proof. induction 1 as [|h hs Hh _ IH]; [done|]. by apply Hh. Qed.

Lemma hands_on_final h : answers h -> hands_on (final h).
Proof. by intros Hh next _. Qed.

Lemma keeps_error c0 c e : same_target c0 c -> ends_with (same_target c0) (Error c e).
Proof. intros Hc. unfold Error. destruct (response_Error e) as [[st code] m]. by do 2 (apply ends_with_after; intros ?). Qed.

Lemma keeps_OK c0 c j : same_target c0 c -> ends_with (same_target c0) (OK c j).
Proof. intros Hc. unfold OK. by do 2 (apply ends_with_after; intros ?). Qed.

Lemma keeps_Created c0 c j : same_target c0 c -> ends_with (same_target c0) (Created c j).
Proof. intros Hc. unfold Created. by do 2 (apply ends_with_after; intros ?). Qed.
End Ends.

(** Takes a handler apart, up to its answers. *)
Ltac kept :=
  try unfold hands_on in *; try unfold answers in *;
  repeat first
    [ progress intros
    | match goal with Hn : forall c, ends_with (same_target c) (?n c) |- ends_with _ (?n ?c) => exact (Hn c) end
    | apply keeps_error; done
    | apply keeps_OK; done
    | apply keeps_Created; done
    | apply ends_with_after
    | progress cbv beta zeta
    | case_match
    | done ].

Section Audit.
Context {U : UUIDLib} {UL : UUIDLaws} {P : PgLib} {JL : JsonbLaws} {ES : EncryptionService} {EL : EncryptionLaws}.
Context {HS : HashService} {HL : HashLaws} {SS : SignatureService} {SL : SignatureLaws} {TS : TokenService} {TL : TokenLaws}.
Context {UP : URLParser} {RU : RequestURI} {V : Validator} {VL : ValidatorLaws} {GF : GinFallback}.

(** The members of an entry's details, and the entry. *)
Definition audit_details (c : Ctx) : list (string * json) :=
  [("method", JStr (rq_Method (c_Request c))); ("path", JStr (rq_Path (c_Request c))); ("status", int_json (Status c))].

Definition audit_entry (id : uuid) (now : time) (action resource : string) (c : Ctx) : AuditLog :=
  mkAuditLog id (c_MerchantID c) action resource "" (json_print (JObj (audit_details c))) (ClientIP c) now.

(** *** What is written fits its columns *)

Definition plain (s : string) : bool := string_forallb is_plain s.
Definition short (s : string) : bool := plain s && (String.length s <=? 50)%nat.

(** The routes that write: method, path, action and kind of resource. *)
Definition writes : list (string * string * string * string) :=
  [("POST", "/api/v1/auth/register", AuditActionRegister, "merchant");
   ("POST", "/api/v1/auth/login", AuditActionLogin, "session");
   ("POST", "/api/v1/payments", AuditActionPayment, "transaction");
   ("POST", "/api/v1/payments/refund", AuditActionRefund, "transaction");
   ("POST", "/api/v1/wallets/topup", AuditActionTopup, "wallet");
   ("PUT", "/api/v1/merchants/me/webhook", AuditActionUpdateWebhook, "merchant");
   ("POST", "/api/v1/merchants/me/rotate-keys", AuditActionRotateKeys, "merchant")].

Lemma audited_writes c action resource :
  audited c = Some (action, resource) ->
  200 <= Status c < 300 /\ (rq_Method (c_Request c), rq_Path (c_Request c), action, resource) ∈ writes.
Proof.
  unfold audited, mapPathToAction. intros H.
  destruct ((Status c <? 200) || (300 <=? Status c)) eqn:Hst; [done|]. bool_prop.
  destruct (_ || _) in H; [done|]. split; [lia|]. unfold writes.
  repeat match type of H with
  | (if ?b then _ else _) = _ => destruct b eqn:Hr;
      [apply andb_true_iff in Hr as [Hp%String.eqb_eq Hm%String.eqb_eq]; rewrite Hp, Hm; injection H as <- <-; set_solver|clear Hr]
  end. done.
Qed.

Lemma audited_inv c action resource :
  audited c = Some (action, resource) ->
  200 <= Status c < 300 /\ plain (rq_Method (c_Request c)) = true /\ plain (rq_Path (c_Request c)) = true /\
  short action = true /\ short resource = true.
Proof.
  intros [Hs Hin]%audited_writes. split; [done|].
  assert (Hall : Forall (fun '(m, p, a, k) => plain m = true /\ plain p = true /\ short a = true /\ short k = true) writes)
    by (by repeat constructor).
  rewrite Forall_forall in Hall. exact (Hall _ Hin).
Qed.

Lemma short_varchar s : short s = true -> varchar 50 s = Ok s.
Proof. intros [Hp Hl%Nat.leb_le]%andb_true_iff. by apply varchar_plain. Qed.

Lemma details_flat c :
  200 <= Status c < 300 -> plain (rq_Method (c_Request c)) = true -> plain (rq_Path (c_Request c)) = true ->
  jsonb_flat (audit_details c) = true.
Proof.
  intros Hs Hm Hp. unfold jsonb_flat, audit_details. cbn [forallb fst snd jsonb_scalar int_json].
  rewrite (utf8_valid_plain _ Hm), (utf8_valid_plain _ Hp), (plain_no_nul _ Hm), (plain_no_nul _ Hp), int_lit_format; [done|].
  unfold in_int64, min_int64, max_int64. lia.
Qed.

(** The row an entry becomes. *)
Definition recorded (id : uuid) (now : time) (action resource : string) (c : Ctx) (row : AuditLog) : Prop :=
  al_ID row = id /\ al_MerchantID row = c_MerchantID c /\ al_Action row = action /\ al_ResourceType row = resource /\
  al_IPAddress row = ClientIP c /\ al_CreatedAt row = pg_time now /\
  exists members, json_parse (al_Details row) = Some (JObj members) /\ Permutation (audit_details c) members.

Lemma entry_stored id now action resource c :
  audited c = Some (action, resource) -> varchar 45 (ClientIP c) = Ok (ClientIP c) ->
  exists row, store_audit_log (audit_entry id now action resource c) = Ok row /\ recorded id now action resource c row.
Proof.
  intros (Hs & Hm & Hp & Ha & Hr)%audited_inv Hip.
  destruct (jsonb_object (audit_details c)) as (doc & members & Hdoc & Hparse & HP); [by apply details_flat| |].
  { repeat constructor; set_solver. }
  eexists. split.
  - unfold store_audit_log, audit_entry. cbn [al_Action al_ResourceType al_ResourceID al_Details al_IPAddress].
    rewrite (short_varchar _ Ha), (short_varchar _ Hr). cbn [result_bind].
    unfold jsonb_col. rewrite Hdoc, Hip. reflexivity.
  - unfold recorded. cbn. split_and!; try done. eauto.
Qed.

(** What keeps an entry out: its ID is taken, its merchant is unknown. *)
Definition admits (T : Tables) (id : uuid) (c : Ctx) : Prop :=
  audit_logs T !! id = None /\ forall m, c_MerchantID c = Some m -> is_Some (merchants T !! m).

Lemma persist_entry_wp id now action resource c v :
  audited c = Some (action, resource) -> varchar 45 (ClientIP c) = Ok (ClientIP c) ->
  free false v -> admits (v_tables v) id c ->
  wp solo false (persist_entry true (audit_entry id now action resource c))
    (fun _ _ _ v' => exists row, recorded id now action resource c row /\
       v_tables v' = apply_write (WAuditLog row) (v_tables v)) None [] v.
Proof.
  intros Ha Hip Hf [Hid Hm]. destruct (entry_stored id now _ _ _ Ha Hip) as (row & Hrow & Hrec).
  assert (Heff : forall ord t, stmt_eff ord t (InsertAuditLog (audit_entry id now action resource c)) (v_tables v)
                               = Ok (1, [WAuditLog row])).
  { intros ord t. simpl. rewrite Hrow. simpl. rewrite (proj2 (has_row_false _ _) Hid). simpl.
    destruct (c_MerchantID c) as [m|]; [|done]. by rewrite (proj2 (has_row_true _ _) (Hm m eq_refl)). }
  unfold persist_entry, AuditRepo.Create, exec_raw. do 2 apply wp_bind. apply wp_stmt; [done|..].
  - intros ord t c' a ws _ _ He. rewrite Heff in He. injection He as <- <-. split; [|done].
    exists row. done.
  - intros e c' _ _ [|(ord & t & _ & He)]; [done|]. by rewrite Heff in He.
Qed.

(** *** Every write leaves an entry *)

(** *** Answers of the routes *)

Lemma handlers_answer webhooks persistent :
  answers handle_Register /\ answers handle_Login /\
  answers (handle_ProcessPayment webhooks persistent) /\ answers (handle_ProcessRefund webhooks persistent) /\
  answers (handle_Topup webhooks persistent) /\ answers handle_GetBalance /\ answers handle_GetStats /\
  answers handle_ListTransactions /\ answers handle_GetProfile /\ answers handle_UpdateWebhookURL /\ answers handle_RotateKeys.
Proof.
  unfold handle_Register, handle_Login, handle_ProcessPayment, handle_ProcessRefund, handle_Topup, handle_GetBalance,
    handle_GetStats, handle_ListTransactions, handle_GetProfile, handle_UpdateWebhookURL, handle_RotateKeys,
    authenticated, with_body, respond.
  split_and!; kept.
Qed.

Lemma middleware_hands_on deps group persistent :
  hands_on HMACAuth /\ hands_on JWTAuth /\ hands_on (rl deps group) /\ hands_on Recovery /\ hands_on RequestLogger /\
  hands_on (MaxBodySize (Z.shiftl 1 20)) /\ hands_on (AuditLog_ persistent).
Proof.
  split_and!.
  - unfold HMACAuth, verify_signature. kept.
  - unfold JWTAuth. kept.
  - unfold rl. destruct (d_RateLimitStore deps); [|by intros next]. destruct (find _ _) as [[? rule]|]; [|by intros next].
    unfold RateLimiter. kept.
  - by intros next.
  - intros next Hn c. unfold RequestLogger. apply ends_with_after. intros _. eapply ends_with_bind; [apply Hn|]. intros c' Hc. kept.
  - unfold MaxBodySize. kept.
  - intros next Hn c. unfold AuditLog_. eapply ends_with_bind; [apply Hn|]. intros c' Hc. kept.
Qed.

(** The routes that are no GET write, and answer for the request they got. *)
Definition known_write (m p : string) : Prop := exists action resource, (m, p, action, resource) ∈ writes.

Definition accounted (r : string * string * list HandlerFunc) : Prop :=
  Forall hands_on (snd r) /\ (fst (fst r) = "GET" \/ known_write (fst (fst r)) (snd (fst r))).

Lemma answers_public_pages deps :
  answers (HealthCheck HealthCheckers) /\ answers (SwaggerUI (d_SwaggerPage deps)) /\ answers (SwaggerSpec (d_SwaggerSpec deps)).
Proof.
  split_and!; intros c; [unfold HealthCheck; by apply ends_with_after|done|]. unfold SwaggerSpec. by destruct (d_SwaggerSpec deps).
Qed.

Ltac route_known := first [by left | right; unfold known_write, writes; eexists _, _; repeat first [left | right]].

Lemma routes_accounted deps : Forall accounted (routes deps).
Proof.
  destruct (handlers_answer (d_WebhookSvc deps) (d_WebhookRepo deps)) as (? & ? & ? & ? & ? & ? & ? & ? & ? & ? & ?).
  destruct (answers_public_pages deps) as (? & ? & ?). destruct (middleware_hands_on deps "" true) as (? & ? & _).
  assert (forall group, hands_on (rl deps group)) by (intros group; by destruct (middleware_hands_on deps group true) as (? & ? & ? & _)).
  unfold routes, merchant_routes. rewrite !Forall_app. split_and!; [| | |destruct (d_MerchantSvc deps); [|by apply Forall_nil]].
  all: repeat (apply Forall_cons; split); [..|by apply Forall_nil];
    (split; [cbn [snd]; repeat (apply Forall_cons; split); [..|by apply Forall_nil]; auto using hands_on_final|cbn [fst snd]; route_known]).
Qed.

Lemma route_accounted deps m p hs : route deps m p = Some hs -> Forall hands_on hs /\ (m = "GET" \/ known_write m p).
Proof.
  unfold route. intros ([[m' p'] hs'] & Hf & ->)%fmap_Some. apply find_some in Hf as [Hin Heq]. cbn [fst snd] in *.
  apply andb_true_iff in Heq as [->%String.eqb_eq ->%String.eqb_eq].
  pose proof (routes_accounted deps) as Hr. rewrite Forall_forall in Hr. apply list_elem_of_In in Hin. exact (Hr _ Hin).
Qed.

Lemma global_hands_on deps : Forall hands_on (global_middleware deps).
Proof.
  destruct (middleware_hands_on deps "" (d_AuditRepo deps)) as (_ & _ & _ & ? & ? & ? & ?).
  unfold global_middleware. destruct (d_AuditSvc deps); cbn [app]; repeat (apply Forall_cons; split; [done|]); by apply Forall_nil.
Qed.

(** What the middleware makes of the table. *)
Lemma writes_mapped m p action resource :
  (m, p, action, resource) ∈ writes -> mapPathToAction p m = Some (action, resource) /\ m ∈ ["POST"; "PUT"].
Proof.
  intros Hin. assert (Hall : Forall (fun '(m, p, a, k) => mapPathToAction p m = Some (a, k) /\ m ∈ ["POST"; "PUT"]) writes)
    by (repeat (apply Forall_cons; split); [..|by apply Forall_nil]; (split; [reflexivity|set_solver])).
  rewrite Forall_forall in Hall. exact (Hall _ Hin).
Qed.

Definition trail (persistent : bool) (c : Ctx) (es : list event) : Prop :=
  forall action resource, audited c = Some (action, resource) ->
    exists before id now,
      es = before ++ [Drew id; Spawned (persist_entry persistent (audit_entry id now action resource c))].

Lemma loose_entry persistent entry : loose (persist_entry persistent entry).
Proof.
  pose (PC := loose_core). change (beside (persist_entry persistent entry)). unfold persist_entry, AuditRepo.Create. beside.
Qed.

Lemma audited_chain deps hs r es v :
  d_AuditSvc deps = true -> Forall (passes (PC := tidy_core)) hs -> unlocked v ->
  wp solo true (chain (global_middleware deps ++ hs) (new_Ctx r)) (fun c _ es' _ => trail (d_AuditRepo deps) c es') None es v.
Proof.
  intros Hsvc Hhs Hv. unfold global_middleware. rewrite Hsvc.
  apply wp_bind, wp_solo_now. intros k1 _. apply wp_bind.
  assert (Hin : forall es1, wp solo true (AuditLog_ (d_AuditRepo deps) (chain hs) (entry r))
    (fun c _ es' _ => trail (d_AuditRepo deps) c es') None es1 (set_clock k1 v)).
  { intros es1. unfold AuditLog_. apply wp_bind. eapply wp_mono; [|by apply (chain_serves (PC := tidy_core) hs Hhs (entry r))].
    intros c own es2 v2 _. destruct (audited c) as [[action resource]|] eqn:Ha; [|intros ??; congruence].
    apply wp_bind, wp_solo_uuid. intros k2 id _. apply wp_bind, wp_solo_now. intros k3 _. apply wp_bind. split.
    - eapply wp_mono; [|apply loose_entry]. done.
    - cbn [wp]. intros a res Ha'. rewrite Ha in Ha'. injection Ha' as <- <-. exists es2, id, k3.
      by rewrite <- app_assoc. }
  eapply wp_mono; [|apply Hin]. intros c own es2 v2 Ht. apply wp_bind, wp_solo_now. intros k4 _. exact Ht.
Qed.

Context {B : Backend} {BL : BackendLaws}.

(** C16: a write that succeeds on any route is audited.  Whatever route a request other than a
    GET took, it is one of the seven of [writes]; when it is answered with a status from 200 to
    299, it has started, last of all, the goroutine that stores an entry with the action and the
    kind of resource of that route, the authenticated merchant, the method, path and status and
    the client's address; and that goroutine, when nothing fails, stores it, unless its ID is
    taken, the merchant gone, or the address too long for its column. *)
Theorem writes_audited deps r s c es s' hs :
  ready s -> idle s -> d_AuditSvc deps = true ->
  route deps (rq_Method r) (rq_Path r) = Some hs -> rq_Method r <> "GET" ->
  run (ServeHTTP deps r) [] s = Some (c, es, s') -> 200 <= Status c < 300 ->
  exists action resource before id now,
    let child := persist_entry (d_AuditRepo deps) (audit_entry id now action resource c) in
    (rq_Method r, rq_Path r, action, resource) ∈ writes /\
    rq_Method (c_Request c) = rq_Method r /\ rq_Path (c_Request c) = rq_Path r /\
    es = before ++ [Drew id; Spawned child] /\
    forall s1, d_AuditRepo deps = true -> ready s1 -> idle s1 -> reliable s1 ->
      admits (tables s1) id c -> varchar 45 (ClientIP c) = Ok (ClientIP c) ->
      exists es1 s2 row, run child [] s1 = Some (tt, es1, s2) /\ recorded id now action resource c row /\
                         tables s2 = apply_write (WAuditLog row) (tables s1).
Proof.
  intros Hs Hi Hsvc Hroute Hget Hr Hst. destruct (route_accounted _ _ _ _ Hroute) as [Hhs [?|(action & resource & Hin)]]; [done|].
  unfold ServeHTTP in Hr. rewrite Hroute in Hr.
  destruct (ends_run _ _ _ _ _ _ _ (chain_answers _ (proj2 (Forall_app _ _ _) (conj (global_hands_on deps) Hhs)) (new_Ctx r)) Hr)
    as [Hm Hp]. cbn [c_Request new_Ctx] in Hm, Hp.
  assert (Ha : audited c = Some (action, resource)).
  { destruct (writes_mapped _ _ _ _ Hin) as [Hmap Hpost]. unfold audited. rewrite Hm, Hp, Hmap.
    rewrite (proj2 (Z.ltb_ge _ _)), (proj2 (Z.leb_gt _ _)) by lia. cbn [orb].
    by apply elem_of_cons in Hpost as [->| ->%list_elem_of_singleton]. }
  destruct (solo_run _ _ _ _ _ _ _ (audited_chain deps hs r [] (view s) Hsvc (route_passes (PL := tidy_logic) _ _ _ _ Hroute) Hi) (proj1 Hs) Hr)
    as [[own Htrail] _].
  destruct (Htrail _ _ Ha) as (before & id & now & Hes). exists action, resource, before, id, now.
  split_and!; [exact Hin|done|done|exact Hes|].
  intros s1 -> Hs1 Hi1 Hr1 Had Hip.
  destruct (solo_total _ _ [] s1 (persist_entry_wp id now _ _ c (view s1) Ha Hip (idle_free _ _ Hi1) Had) (proj1 Hs1) Hr1)
    as ([] & es1 & s2 & Hrun & (own2 & row & Hrec & HT) & _). exists es1, s2, row. done.
Qed.
End Audit.
