(* ===== verification/StartupTheorems.v ===== *)
(** From the configuration to the last request: where each setting comes from, when the server
    starts, and that it then serves. *)

From S2P Require Export Startup Requests.

(** ** Settings *)

Section Settings.
Context {VL : ViperLib} {VW : ViperLaws}.

(** The environment variable of each setting. *)
Definition variables : list (string * string) :=
  [("server.host", "SPG_SERVER_HOST"); ("server.port", "SPG_SERVER_PORT"); ("server.mode", "SPG_SERVER_MODE");
   ("database.host", "SPG_DATABASE_HOST"); ("database.port", "SPG_DATABASE_PORT"); ("database.user", "SPG_DATABASE_USER");
   ("database.password", "SPG_DATABASE_PASSWORD"); ("database.dbname", "SPG_DATABASE_DBNAME");
   ("database.sslmode", "SPG_DATABASE_SSLMODE"); ("database.max_conns", "SPG_DATABASE_MAX_CONNS");
   ("database.min_conns", "SPG_DATABASE_MIN_CONNS"); ("database.conn_max_lifetime", "SPG_DATABASE_CONN_MAX_LIFETIME");
   ("redis.host", "SPG_REDIS_HOST"); ("redis.port", "SPG_REDIS_PORT"); ("redis.password", "SPG_REDIS_PASSWORD");
   ("redis.db", "SPG_REDIS_DB"); ("jwt.secret", "SPG_JWT_SECRET"); ("jwt.expiry", "SPG_JWT_EXPIRY");
   ("jwt.issuer", "SPG_JWT_ISSUER"); ("aes.key", "SPG_AES_KEY"); ("log.level", "SPG_LOG_LEVEL");
   ("log.pretty", "SPG_LOG_PRETTY")].

(** The variable, else what the file says of the key, else the default. *)
Definition sourced (file : list (string * setting)) (key : string) : option setting :=
  match lookup_key key variables with
  | Some var => if negb (Getenv var =? "")%string then Some (SStr (Getenv var)) else
                match lookup_key key file with Some x => Some x | None => lookup_key key defaults end
  | None => None
  end.

(** The fields of a configuration: the key of each, and what it says of a setting that it was
    decoded from. *)
Definition fields (c : Config) : list (string * (setting -> Prop)) :=
  [("server.host", fun x => decode_string x = Ok (srv_Host (c_Server c)));
   ("server.port", fun x => decode_int x = Ok (srv_Port (c_Server c)));
   ("server.mode", fun x => decode_string x = Ok (srv_Mode (c_Server c)));
   ("database.host", fun x => decode_string x = Ok (db_Host (c_Database c)));
   ("database.port", fun x => decode_int x = Ok (db_Port (c_Database c)));
   ("database.user", fun x => decode_string x = Ok (db_User (c_Database c)));
   ("database.password", fun x => decode_string x = Ok (db_Password (c_Database c)));
   ("database.dbname", fun x => decode_string x = Ok (db_DBName (c_Database c)));
   ("database.sslmode", fun x => decode_string x = Ok (db_SSLMode (c_Database c)));
   ("database.max_conns", fun x => decode_int32 x = Ok (db_MaxConns (c_Database c)));
   ("database.min_conns", fun x => decode_int32 x = Ok (db_MinConns (c_Database c)));
   ("database.conn_max_lifetime", fun x => decode_duration x = Ok (db_ConnMaxLifetime (c_Database c)));
   ("redis.host", fun x => decode_string x = Ok (rd_Host (c_Redis c)));
   ("redis.port", fun x => decode_int x = Ok (rd_Port (c_Redis c)));
   ("redis.password", fun x => decode_string x = Ok (rd_Password (c_Redis c)));
   ("redis.db", fun x => decode_int x = Ok (rd_DB (c_Redis c)));
   ("jwt.secret", fun x => decode_string x = Ok (jw_Secret (c_JWT c)));
   ("jwt.expiry", fun x => decode_duration x = Ok (jw_Expiry (c_JWT c)));
   ("jwt.issuer", fun x => decode_string x = Ok (jw_Issuer (c_JWT c)));
   ("aes.key", fun x => decode_string x = Ok (ae_Key (c_AES c)));
   ("log.level", fun x => decode_string x = Ok (lg_Level (c_Log c)));
   ("log.pretty", fun x => decode_bool x = Ok (lg_Pretty (c_Log c)))].

(** How the field of a key reads a setting. *)
Definition reads {A} (decode : setting -> res A) (x : setting) : res unit := result_map (fun _ => tt) (decode x).

Definition readers : list (string * (setting -> res unit)) :=
  [("server.host", reads decode_string); ("server.port", reads decode_int); ("server.mode", reads decode_string);
   ("database.host", reads decode_string); ("database.port", reads decode_int); ("database.user", reads decode_string);
   ("database.password", reads decode_string); ("database.dbname", reads decode_string);
   ("database.sslmode", reads decode_string); ("database.max_conns", reads decode_int32);
   ("database.min_conns", reads decode_int32); ("database.conn_max_lifetime", reads decode_duration);
   ("redis.host", reads decode_string); ("redis.port", reads decode_int); ("redis.password", reads decode_string);
   ("redis.db", reads decode_int); ("jwt.secret", reads decode_string); ("jwt.expiry", reads decode_duration);
   ("jwt.issuer", reads decode_string); ("aes.key", reads decode_string); ("log.level", reads decode_string);
   ("log.pretty", reads decode_bool)].

(** What a field is read from. *)
Lemma field_sourced {A} (decode : setting -> res A) zero path file key var :
  lookup_key key variables = Some var -> env_name (viper_of path file) key = var -> is_Some (lookup_key key defaults) ->
  existsb (fun kv => (kv.1 =? key)%string) defaults = true ->
  exists x, sourced file key = Some x /\ cfg_field decode zero (viper_of path file) key = decode x.
Proof.
  intros Hvar Henv [d Hd] Hdef. unfold cfg_field, known_key. cbn [viper_of vp_config vp_defaults].
  rewrite Hdef, orb_true_r. cbn [negb]. rewrite Get_spec. unfold setting_of.
  rewrite Henv. cbn [viper_of vp_config vp_defaults]. unfold sourced. rewrite Hvar.
  destruct (negb _); [by eexists|]. destruct (lookup_key key file); [by eexists|]. rewrite Hd. by eexists.
Qed.

Ltac from_source :=
  match goal with
  | H : cfg_field ?decode ?zero (viper_of ?path ?file) ?key = _ |- _ =>
    let x := fresh "x" in let Hx := fresh "Hx" in let Hf := fresh "Hf" in
    destruct (field_sourced decode zero path file key _ eq_refl ltac:(vm_compute; reflexivity) ltac:(by eexists) eq_refl)
      as (x & Hx & Hf); rewrite Hf in H; clear Hf
  end.

Lemma Unmarshal_sourced path file cfg :
  Unmarshal (viper_of path file) = Ok cfg ->
  Forall (fun f => exists x, sourced file f.1 = Some x /\ f.2 x) (fields cfg).
Proof.
  unfold Unmarshal, unmarshal_Server, unmarshal_Database, unmarshal_Redis, unmarshal_JWT, unmarshal_AES, unmarshal_Log. intros H.
  repeat match goal with
    | H : result_bind _ _ = Ok _ |- _ => apply result_bind_Ok in H as (? & ? & ?)
    | H : Ok _ = Ok _ |- _ => injection H as <-
    end.
  unfold fields. cbn [c_Server c_Database c_Redis c_JWT c_AES c_Log].
  repeat from_source.
  repeat (apply Forall_cons; split; [by eexists|]); by apply Forall_nil.
Qed.

(** An error is that of a setting which its field cannot read. *)
Lemma Unmarshal_refused path file err :
  Unmarshal (viper_of path file) = Err err ->
  Exists (fun f => exists x, sourced file f.1 = Some x /\ f.2 x = Err err) readers.
Proof.
  unfold Unmarshal, unmarshal_Server, unmarshal_Database, unmarshal_Redis, unmarshal_JWT, unmarshal_AES, unmarshal_Log. intros H.
  repeat match goal with
    | H : result_bind _ _ = Err _ |- _ => apply result_bind_Err in H as [H|(? & _ & H)]; cbv beta in H
    end; try done;
    from_source; unfold readers, reads;
    repeat first [apply Exists_cons_hd; eexists; split; [eassumption|cbn [snd]; by rewrite H] | apply Exists_cons_tl].
Qed.

(** What [Load] makes of what the file says. *)
Definition loaded (file : list (string * setting)) (r : res Config) : Prop :=
  match r with
  | Ok cfg => Forall (fun f => exists x, sourced file f.1 = Some x /\ f.2 x) (fields cfg)
  | Err e => exists err, e = Errorf "unmarshaling config" err /\
               Exists (fun f => exists x err', sourced file f.1 = Some x /\ f.2 x = Err err') readers
  end.

End Settings.

(** ** The server *)

Section Server.
Context {U : UUIDLib} {UL : UUIDLaws} {P : PgLib} {JL : JsonbLaws} {PX : PgxPool} {VL : ViperLib}.
Context {A2 : Argon2} {AL : Argon2Laws} {J : JWT} {JW : JWTLaws}.
Context {UP : URLParser} {RU : RequestURI} {V : Validator} {VA : ValidatorLaws} {GF : GinFallback}.

(** The key is written as 64 hexadecimal digits. *)
Definition key_ok (hexKey : string) : bool := match NewAESEncryptionService hexKey with Ok _ => true | Err _ => false end.

Definition pool_ok (cfg : DatabaseConfig) : bool :=
  match ParseConfig (DSN cfg) with
  | Ok poolCfg => match NewWithConfig (pool_config cfg poolCfg) with Ok _ => true | Err _ => false end
  | Err _ => false
  end.

(** How the program ends up: it exits with the first message whose step fails. *)
Definition started (r : App + Fatal) : Prop :=
  match Load "" with
  | Err e => r = inr (mkFatal "failed to load config" e)
  | Ok cfg =>
    if negb (pool_ok (c_Database cfg)) then exists e, r = inr (mkFatal "Failed to connect to PostgreSQL" e)
    else if negb (key_ok (ae_Key (c_AES cfg))) then exists e, r = inr (mkFatal "Failed to initialize encryption service" e)
    else exists app, r = inl app /\ app_Addr app = srv_Host (c_Server cfg) +:+ ":" +:+ FormatInt (srv_Port (c_Server cfg)) /\
                     valid_key (app_EncSvc app)
  end.

Lemma start_wp cfg spec page Q es v :
  free false v ->
  (forall r es' c, v_clock v <= c ->
     (if negb (pool_ok (c_Database cfg)) then exists e, r = inr (mkFatal "Failed to connect to PostgreSQL" e)
      else if negb (key_ok (ae_Key (c_AES cfg))) then exists e, r = inr (mkFatal "Failed to initialize encryption service" e)
      else exists app, r = inl app /\ app_Addr app = srv_Host (c_Server cfg) +:+ ":" +:+ FormatInt (srv_Port (c_Server cfg)) /\
                       valid_key (app_EncSvc app)) -> Q r None es' (set_clock c v)) ->
  wp solo false (start cfg spec page) Q None es v.
Proof.
  intros Hf HQ. unfold start, NewPool, pool_ok in *.
  assert (Hsame : set_clock (v_clock v) v = v) by (by destruct v).
  assert (Hno : forall r, (forall es' c, v_clock v <= c -> Q r None es' (set_clock c v)) -> Q r None es v).
  { intros r Hr. rewrite <- Hsame. apply Hr. lia. }
  destruct (ParseConfig (DSN (c_Database cfg))) as [poolCfg|e]; [|apply Hno; intros; apply HQ; [done|by eexists]].
  destruct (NewWithConfig _) as [[]|e]; [|apply Hno; intros; apply HQ; [done|by eexists]].
  cbn [negb] in HQ. apply wp_bind, wp_bind, wp_stmt; [done|..].
  - intros ord now c [] ws _ Hc He. simpl in He. injection He as <-. split; [|done].
    change (set_tables (apply_writes [] (v_tables v)) (set_clock c v)) with (set_clock c v).
    apply wp_bind, wp_bind, wp_solo; [done|by intros _ _ [] []|]. intros c2 x v' Hc2 [-> Hx]. simpl in Hc2.
    destruct x as [[]|e]; [|by destruct Hx as [|[? _]]]. cbn [ok wp].
    change (set_clock c2 (set_clock c v)) with (set_clock c2 v).
    unfold key_ok in HQ. destruct (NewAESEncryptionService _) as [aes|e] eqn:Hk; apply HQ; [lia| |lia|by eexists].
    eexists. split; [done|]. split; [done|]. by eapply new_aes_valid.
  - intros e c _ _ [?|(ord & now & _ & He)]; [done|]. simpl in He. done.
Qed.

Context {B : Backend} {BL : BackendLaws}.

(** C21: main ends: with the message of the first step that fails, or with a server whose key
    has 32 bytes; it has written nothing.  And the server, with the services main wired,
    answers every sequence of requests as long as nothing fails: none waits for a lock that
    an earlier one forgot, none loops, and the world is ready for the next. *)
Theorem server_serves spec page s :
  ready s -> idle s -> reliable s ->
  exists r es s', run (main spec page) [] s = Some (r, es, s') /\ tables s' = tables s /\ started r /\
    forall app rs, r = inl app ->
      exists cs s2, serve_all (app_ServeHTTP app) rs s' = Some (cs, s2) /\ length cs = length rs /\ ready s2 /\ idle s2.
Proof.
  intros Hs Hi Hr.
  assert (Hw : wp solo false (main spec page) (fun r _ _ v' => started r /\ exists c, v' = set_clock c (view s)) None [] (view s)).
  { unfold main, started. destruct (Load "") as [cfg|e].
    - apply start_wp; [by apply idle_free|]. intros r es' c _ Ho. split; [exact Ho|by eexists].
    - split; [done|]. exists (v_clock (view s)). by destruct (view s). }
  destruct (solo_total _ _ _ _ Hw (ready_locked _ Hs) Hr) as (r & es & s' & Hrun & (own & Hst & c & Hv) & _ & Hr').
  exists r, es, s'. split; [done|]. split; [unfold tables; by rewrite Hv|]. split; [done|]. intros app rs ->.
  assert (Hk : valid_key (app_EncSvc app)).
  { unfold started in Hst. repeat case_match; try (by destruct Hst); try done. by destruct Hst as (app' & [= <-] & _ & Hk). }
  pose proof (aes_laws _ Hk). pose proof argon2_laws. pose proof (jwt_laws (app_TokenSvc app)).
  destruct (requests_end (ES := aes_service (app_EncSvc app)) (HS := argon2_service) (TS := jwt_service (app_TokenSvc app))
              (app_Deps app) rs s') as (cs & s2 & Hall & Hlen & Hs2 & Hi2 & _).
  - unfold ready, tables in *. rewrite Hv. destruct Hs as [Hl Hrest]. split; [by eapply (locks_ok_same (view s))|done].
  - unfold idle in *. by rewrite Hv.
  - done.
  - by exists cs, s2.
Qed.
End Server.
