(* ===== verification/RateLimits.v ===== *)
(** Rate limits: what the counter of one window admits of requests that run together. *)

From S2P Require Export Authentication.

Section RateLimits.
Context {U : UUIDLib} {P : PgLib}.

(** The window that an instant belongs to, and its end. *)
Definition window_id (window : duration) (now : time) : Z := Z.quot (Unix now) (RateLimitStore.window_seconds window).
Definition window_end (window : duration) (now : time) : time := (window_id window now + 1) * window.

Definition whole_seconds (window : duration) : Prop := exists n, 0 < n /\ window = n * Second.

Lemma window_spec window now :
  whole_seconds window -> 0 <= now -> window_id window now * window <= now < window_end window now.
Proof.
  intros (n & Hn & ->) Hnow. unfold window_end, window_id, RateLimitStore.window_seconds, Unix.
  rewrite Z.quot_mul by (unfold Second; lia). unfold Second.
  assert (0 <= now / 1000000000) by (apply Z.div_pos; lia). rewrite Z.quot_div_nonneg by lia.
  pose proof (Z.mul_div_le now 1000000000 ltac:(lia)). pose proof (Z.mul_succ_div_gt now 1000000000 ltac:(lia)).
  pose proof (Z.mul_div_le (now / 1000000000) n ltac:(lia)). pose proof (Z.mul_succ_div_gt (now / 1000000000) n ltac:(lia)).
  nia.
Qed.

Lemma window_same window now now' :
  whole_seconds window -> 0 <= now <= now' -> now' < window_end window now -> window_id window now' = window_id window now.
Proof.
  intros Hw Hle Hlt. pose proof (window_spec window now Hw ltac:(lia)). pose proof (window_spec window now' Hw ltac:(lia)).
  destruct Hw as (n & Hn & ->). unfold window_end, Second in *. nia.
Qed.

(** *** The counter *)

(** The requests of one client to one group, in one window. *)
Context (key : string) (rule : RateLimitRule) (wid : Z).
Abbreviation limit := (rl_Limit rule).
Abbreviation window := (rl_Window rule).
Abbreviation redisKey := (RateLimitStore.redis_key key wid).
Context (Hwhole : whole_seconds window) (Hshort : window < 2 ^ 62).

(** It has counted [n] of them, and is kept until the window ends. *)
Definition stands (n : Z) (v : View) : Prop :=
  match v_redis v !! redisKey with
  | None => n = 0
  | Some (s, e) => 0 < n /\ s = FormatInt n /\ forall end_, e = Some end_ -> (wid + 1) * window <= end_
  end.

Lemma stands_live n v : stands n v -> v_clock v < (wid + 1) * window ->
  live v redisKey = if n =? 0 then None else Some (FormatInt n).
Proof.
  unfold stands, live. destruct (v_redis v !! redisKey) as [[s e]|]; [|by intros ->]. intros (Hn & -> & He) Hc.
  rewrite (proj2 (Z.eqb_neq n 0)) by lia. destruct e as [e|]; [|done]. specialize (He e eq_refl).
  by destruct (Z.ltb_spec (v_clock v) e); [|lia].
Qed.

(** *** A request at the limiter *)

(** What the request that drew the [t]-th ticket is told. *)
Definition limit_status (t : Z) : Z := if t <? limit then StatusOK else StatusTooManyRequests.

(** It will be told [st], and only sees to the counter's expiry. *)
Fixpoint settled (st : Z) (p : prog Ctx) : Prop :=
  match p with
  | Ret c => Status c = st
  | Do o k =>
    (match o with Now | NewUUID => True | RedisExpire k ttl => k = redisKey /\ ttl = window + Second | _ => False end)
    /\ forall x, settled st (k x)
  | Go _ _ => False
  end.

(** It is about to draw a ticket. *)
Definition drawing (p : prog Ctx) : Prop :=
  match p with
  | @Do _ _ X o k =>
    match o in Op X return (X -> prog Ctx) -> Prop with
    | RedisIncr k => fun next => k = redisKey /\ forall t, 0 <= t < max_int64 -> settled (limit_status t) (next (Ok (t + 1)))
    | _ => fun _ => False
    end k
  | _ => False
  end.

(** It has just come. *)
Definition asking (p : prog Ctx) : Prop :=
  match p with
  | @Do _ _ X o k =>
    match o in Op X return (X -> prog Ctx) -> Prop with
    | Now => fun next => forall now, window_id window now = wid -> drawing (next now)
    | _ => fun _ => False
    end k
  | _ => False
  end.

Definition waiting (p : prog Ctx) : Prop := asking p \/ drawing p.

Lemma settled_error st c e : fst (fst (response_Error e)) = st -> settled st (Error c e).
Proof. intros <-. unfold Error. by destruct (response_Error e) as [[st' code] m]. Qed.

Lemma limiter_asks group c :
  key = extractIdentifier c +:+ ":" +:+ group -> c_Answer c = None -> asking (RateLimiter group rule Ret c).
Proof.
  intros Hkey Hc. unfold RateLimiter, RateLimitStore.Allow. rewrite <- Hkey. cbn [bind asking op]. intros now Hnow.
  change (Z.quot (Unix now) (RateLimitStore.window_seconds window)) with (window_id window now). rewrite Hnow.
  cbn [bind drawing op]. split; [done|]. intros t Ht. cbv beta iota zeta. cbn [bind].
  match goal with |- settled _ (bind (bind (if _ then _ else _) ?f) ?g) => assert (Htold : settled (limit_status t) (bind (f tt) g)) end.
  { cbn [bind ok Allowed]. unfold limit_status. destruct (Z.ltb_spec t limit), (Z.leb_spec (t + 1) limit); try lia; cbn [negb].
    - cbn [settled]. unfold Status, rate_limit_headers, Header. simpl. by rewrite Hc.
    - cbn [settled]. split; [done|]. intros x. by apply settled_error. }
  destruct (t + 1 =? 1); [|exact Htold]. cbn [bind settled]. split; [split; [done|]|by intros []].
  unfold add64. rewrite wrap64_id; [done|]. destruct Hwhole as (n & Hn & Heq).
  unfold in_int64, min_int64, max_int64, Second in *; lia.
Qed.

(** None of them waits. *)
Lemma turn_free (p : prog Ctx) X (o : Op X) k v w :
  p = Do o k -> waiting p \/ (exists st, settled st p) -> ~ waits_for o v w.
Proof.
  intros -> Hp Hw. destruct Hp as [[Hp|Hp]|[st [Ho _]]]; destruct o; try done; by destruct w.
Qed.

(** *** Requests that run together *)

Context {B : Backend} {BL : BackendLaws}.

(** Any of the goroutines performs its next operation, or the rest of the world, other requests
    among it, does something that leaves this counter alone. *)
Inductive crowd_step : list (prog Ctx) * St -> list (prog Ctx) * St -> Prop :=
| crowd_op ps s i X (o : Op X) k x s' :
    ps !! i = Some (Do o k) -> exec X o s = Some (x, s') -> crowd_step (ps, s) (<[i := k x]> ps, s')
| crowd_else ps s s' :
    v_clock (view s) <= v_clock (view s') -> v_redis (view s') !! redisKey = v_redis (view s) !! redisKey ->
    (reliable s -> reliable s') -> crowd_step (ps, s) (ps, s').

(** The tickets that were drawn: each goroutine has none or its own. *)
Definition turn (p : prog Ctx) (ticket : option Z) : Prop :=
  match ticket with Some t => settled (limit_status t) p | None => waiting p end.

Record queued (ps : list (prog Ctx)) (s : St) (tickets : list (option Z)) (n : nat) : Prop := {
  qu_turns : Forall2 turn ps tickets;
  qu_drawn : Permutation (omap id tickets) (seqZ 0 (Z.of_nat n));
  qu_stands : stands (Z.of_nat n) (view s);
  qu_reliable : reliable s
}.

Lemma draw_perm (tickets : list (option Z)) i t :
  tickets !! i = Some None -> Permutation (omap id (<[i := Some t]> tickets)) (t :: omap id tickets).
Proof.
  intros Hi. apply list_elem_of_split_length in Hi as (l1 & l2 & -> & ->).
  rewrite insert_app_r_alt, Nat.sub_diag by done. simpl. rewrite !omap_app. simpl. by rewrite Permutation_middle.
Qed.

(** What an operation of a goroutine does to the counter. *)
Section Turn.
Context (t0 : time) (v v' : View) (n : Z).
Context (Hn : 0 <= n) (Hs : stands n v) (Ht0 : 0 <= t0) (Hw : wid = window_id window t0).
Context (Hv : t0 <= v_clock v) (Hv' : v_clock v' < (wid + 1) * window).

Lemma within now : t0 <= now -> now < (wid + 1) * window -> window_id window now = wid.
Proof using Hwhole Ht0 Hw. intros H1 H2. rewrite Hw. apply window_same; [done|lia|]. unfold window_end. by rewrite <- Hw. Qed.

Lemma draw_ticket r : n < max_int64 -> op_spec false (RedisIncr redisKey) v r v' ->
  r = Ok (n + 1) /\ stands (n + 1) v' /\ v_clock v <= v_clock v'.
Proof.
  intros Hmax (v1 & (c & Hc & ->) & Ho). cbn [op_at] in Ho.
  assert (Hclock : v_clock v' = c).
  { destruct (ParseInt _) as [m|]; [destruct (m =? max_int64)|];
      [destruct Ho as [_ ->]|destruct Ho as [[_ ->]|[_ ->]]|destruct Ho as [_ ->]]; reflexivity. }
  rewrite Hclock in Hv'. rewrite (stands_live n (set_clock c v)) in Ho by done.
  assert (Hp : ParseInt (default "0" (if n =? 0 then None else Some (FormatInt n))) = Ok n).
  { destruct (Z.eqb_spec n 0) as [->|]; [done|]. apply parse_int_format. unfold in_int64, min_int64, max_int64 in *; lia. }
  rewrite Hp in Ho. destruct (Z.eqb_spec n max_int64); [lia|]. destruct Ho as [[[->|[[=] _]] ->]|[[[=] _] _]].
  split; [done|]. split; [|simpl; lia]. unfold stands. cbn [v_redis set_redis]. rewrite lookup_insert_eq.
  split; [lia|]. split; [done|]. unfold live_expiry. rewrite (stands_live n (set_clock c v)) by done.
  unfold stands in Hs. cbn [v_redis set_clock]. destruct (v_redis v !! redisKey) as [[s e]|]; [|done].
  destruct Hs as (_ & _ & He). by destruct (n =? 0).
Qed.

(** The expiry that is set lies past the window. *)
Lemma keep_ticket r : op_spec false (RedisExpire redisKey (window + Second)) v r v' ->
  stands n v' /\ v_clock v <= v_clock v'.
Proof.
  intros (v1 & (c & Hc & ->) & Ho). cbn [op_at] in Ho.
  assert (Hclock : v_clock v' = c) by (destruct Ho as [[_ ->]|[[[=] _] _]]; by destruct (live _ _)).
  split; [|lia]. rewrite Hclock in Hv'. destruct Ho as [[_ ->]|[[[=] _] _]].
  rewrite (stands_live n (set_clock c v)) by done. destruct (Z.eqb_spec n 0) as [|Hne]; [done|].
  unfold stands. cbn [v_redis set_redis]. rewrite lookup_insert_eq. split; [lia|]. split; [done|].
  intros end_ [= <-]. cbn [v_clock set_clock].
  pose proof (window_spec window c Hwhole ltac:(lia)) as Hspec. rewrite (within c ltac:(lia) ltac:(lia)) in Hspec.
  unfold Second in *. lia.
Qed.
End Turn.

Lemma waiting_next tickets n (i : nat) : Permutation (omap id tickets) (seqZ 0 (Z.of_nat n)) ->
  tickets !! i = Some (None (A := Z)) -> (n < length tickets)%nat.
Proof.
  intros Hp Hi. apply Permutation_length in Hp. rewrite length_seqZ, Nat2Z.id in Hp. rewrite <- Hp.
  apply list_elem_of_split_length in Hi as (l1 & l2 & -> & _). rewrite omap_app, !length_app.
  assert (Hl : forall l : list (option Z), (length (omap id l) <= length l)%nat).
  { intros l. induction l as [|[z|] l IH]; [done|apply le_n_S, IH|apply Nat.le_le_succ_r, IH]. }
  change (omap id (None :: l2)) with (omap id l2). pose proof (Hl l1). pose proof (Hl l2). cbn [length]. lia.
Qed.

Lemma queued_step t0 ps s tickets n ps' s' :
  queued ps s tickets n -> Z.of_nat (length ps) <= max_int64 -> 0 <= t0 <= v_clock (view s) -> wid = window_id window t0 ->
  v_clock (view s') < (wid + 1) * window -> crowd_step (ps, s) (ps', s') ->
  exists tickets' n', queued ps' s' tickets' n'.
Proof.
  intros [Hturns Hdrawn Hstands Hrel] Hlen Ht0 Hw Hv' Hstep.
  inversion Hstep as [ps0 s0 i X o k x s1 Hp E|ps0 s0 s1 Hc Hr Hrel']; simplify_eq.
  2:{ exists tickets, n. split; [done|done| |by apply Hrel']. unfold stands. by rewrite Hr. }
  destruct (Forall2_lookup_l _ _ _ _ _ Hturns Hp) as (ticket & Hi & Hturn).
  destruct (exec_reliable _ _ _ _ _ Hrel E) as [Ho Hrel'].
  assert (Hquiet : forall m, stands m (view s') -> turn (k x) ticket -> m = Z.of_nat n ->
            exists tickets' n', queued (<[i := k x]> ps) s' tickets' n').
  { intros m Hm Hnext ->. exists tickets, n. split; [|done|done|done].
    rewrite <- (list_insert_id tickets i ticket Hi). by apply Forall2_insert. }
  assert (Hidle : v_redis (view s') = v_redis (view s) -> turn (k x) ticket -> exists tickets' n', queued (<[i := k x]> ps) s' tickets' n').
  { intros Hr Hnext. apply (Hquiet (Z.of_nat n)); [|done|done]. unfold stands. by rewrite Hr. }
  destruct ticket as [t|]; [destruct Hturn as [Hop Hrest]|destruct Hturn as [Hask|Hdraw]].
  - destruct o; try done.
    + destruct Ho as (v1 & (c & _ & ->) & [_ Hv]). apply Hidle; [by rewrite Hv|apply Hrest].
    + destruct Ho as (v1 & (c & _ & ->) & Hv). apply Hidle; [by rewrite Hv|apply Hrest].
    + destruct Hop as [-> ->]. apply (Hquiet (Z.of_nat n)); [|apply Hrest|done].
      by eapply (keep_ticket t0); [| | | | | |exact Ho]; [lia|done|lia|done|lia|done].
  - destruct o; try done. destruct Ho as (v1 & (c & Hc & ->) & Ho). simpl in Ho. destruct Ho as [-> Hv].
    apply Hidle; [by rewrite Hv|]. right. apply Hask. rewrite Hv in Hv'. simpl in Hv'. by apply (within t0); simpl; lia.
  - destruct o; try done. destruct Hdraw as [-> Hnext]. pose proof (waiting_next _ _ _ Hdrawn Hi) as Hlt.
    rewrite <- (Forall2_length _ _ _ Hturns) in Hlt.
    destruct (draw_ticket (view s) (view s') (Z.of_nat n) ltac:(lia) Hstands Hv' _ ltac:(lia) Ho) as (-> & Hs & _).
    exists (<[i := Some (Z.of_nat n)]> tickets), (S n). split; [|..|exact Hrel'].
    + apply Forall2_insert; [done|]. apply Hnext. lia.
    + rewrite (draw_perm _ _ _ Hi), Hdrawn, Nat2Z.inj_succ, <- Z.add_1_r, seqZ_app by lia. simpl.
      by rewrite Permutation_app_comm.
    + by rewrite Nat2Z.inj_succ, <- Z.add_1_r.
Qed.

Lemma crowd_clock q q' : crowd_step q q' -> v_clock (view q.2) <= v_clock (view q'.2) /\ length q'.1 = length q.1.
Proof.
  intros [ps s i X o k x s1 Hp E|ps s s1 Hc Hr Hrel]; [|done].
  split; [by apply (op_clock true o _ x), exec_spec|]. simpl. by rewrite length_insert.
Qed.

(** While the window lasts, the tickets are drawn in order. *)
Lemma queued_run ps s q t0 :
  Forall waiting ps -> stands 0 (view s) -> reliable s -> Z.of_nat (length ps) <= max_int64 ->
  t0 = v_clock (view s) -> 0 <= t0 -> wid = window_id window t0 -> rtc crowd_step (ps, s) q ->
  v_clock (view q.2) < (wid + 1) * window -> length q.1 = length ps /\ exists tickets n, queued q.1 q.2 tickets n.
Proof.
  intros Hps Hs Hrel Hlen Ht0 Hpos Hw Hrun.
  assert (t0 <= v_clock (view q.2) /\ length q.1 = length ps /\
          (v_clock (view q.2) < (wid + 1) * window -> exists tickets n, queued q.1 q.2 tickets n)) as (_ & Hl & Hq); [|by split; [|apply Hq]].
  revert q Hrun. apply rtc_ind_r.
  - split_and!; [simpl; lia|done|]. intros _. exists (replicate (length ps) None), 0%nat. split; [| |exact Hs|exact Hrel].
    + simpl. clear Hlen. by induction Hps; constructor.
    + clear. simpl. by induction (length ps).
  - intros [ps1 s1] [ps2 s2] _ Hstep (Hc1 & Hl1 & IH). destruct (crowd_clock _ _ Hstep) as [Hc2 Hl2]. simpl in *.
    split_and!; [lia|congruence|]. intros Hend. destruct (IH ltac:(lia)) as (tickets & n & Hq).
    eapply (queued_step t0); [exact Hq|congruence|lia|exact Hw|exact Hend|exact Hstep].
Qed.

(** *** What they are told *)

(** It was let through. *)
Definition passed (p : prog Ctx) : bool := match p with Ret c => Status c =? StatusOK | _ => false end.

Lemma settled_passed t p : settled (limit_status t) p -> passed p = true -> t < limit.
Proof.
  destruct p as [c| |]; [|done..]. simpl. unfold limit_status. intros -> Hp. apply Z.eqb_eq in Hp.
  by destruct (Z.ltb_spec t limit).
Qed.

Lemma waiting_unfinished p : waiting p -> passed p = false.
Proof. by destruct p as [c| |]; intros [|]. Qed.

Lemma passed_tickets ps tickets : Forall2 turn ps tickets ->
  (length (List.filter passed ps) <= length (List.filter (fun t => (t <? limit)%Z) (omap id tickets)))%nat.
Proof.
  induction 1 as [|p ticket ps tickets Hp _ IH]; [done|]. cbn [List.filter]. destruct ticket as [t|].
  - change (omap id (Some t :: tickets)) with (t :: omap id tickets). cbn [List.filter turn] in *.
    destruct (passed p) eqn:Hpass; [|destruct (t <? limit); simpl; lia].
    rewrite (proj2 (Z.ltb_lt t limit)) by (by eapply settled_passed). simpl. lia.
  - change (omap id (None :: tickets)) with (omap id tickets). simpl in Hp. by rewrite (waiting_unfinished p).
Qed.

Lemma low_tickets l n : 0 <= limit -> Permutation l (seqZ 0 n) ->
  (length (List.filter (fun t => (t <? limit)%Z) l) <= Z.to_nat limit)%nat.
Proof.
  intros Hl Hp. rewrite <- (length_seqZ 0 limit). apply NoDup_incl_length.
  - apply List.NoDup_filter, NoDup_ListNoDup. rewrite Hp. apply NoDup_seqZ.
  - intros t [Ht Hlt]%filter_In. apply list_elem_of_In in Ht. rewrite Hp in Ht. apply list_elem_of_In, elem_of_seqZ.
    apply elem_of_seqZ in Ht. lia.
Qed.

(** Everyone answered: each holds one of the tickets. *)
Lemma told cs tickets n : Forall2 turn (map Ret cs) tickets -> Permutation (omap id tickets) (seqZ 0 (Z.of_nat n)) ->
  Permutation (map Status cs) (map limit_status (seqZ 0 (Z.of_nat (length cs)))).
Proof.
  intros Ht Hp. assert (Hs : map Status cs = map limit_status (omap id tickets) /\ length (omap id tickets) = length cs).
  { clear Hp. remember (map Ret cs) as ps eqn:Heq. revert cs Heq.
    induction Ht as [|p ticket ps tickets Hp _ IH]; intros [|c cs] [=]; [done|]. subst p.
    destruct ticket as [t|]; [|by destruct Hp].
    change (omap id (Some t :: tickets)) with (t :: omap id tickets). destruct (IH cs) as [Hs Hl]; [done|].
    simpl in Hp |- *. by rewrite Hs, Hp, Hl. }
  destruct Hs as [-> Hl]. pose proof (Permutation_length Hp) as Hlen. rewrite length_seqZ in Hlen.
  replace (Z.of_nat (length cs)) with (Z.of_nat n) by lia. by rewrite Hp.
Qed.

(** Nobody is kept waiting. *)
Lemma crowd_free p ticket s : turn p ticket -> (exists c, p = Ret c) \/ exists X (o : Op X) k, p = Do o k /\ exec X o s <> None.
Proof.
  intros Hp. destruct p as [c|X o k|c k]; [by left; exists c| |by destruct ticket; [|destruct Hp]].
  right. exists X, o, k. split; [done|]. intros [w Hw]%exec_blocked. eapply turn_free; [done| |exact Hw].
  destruct ticket; [right; by eexists|by left].
Qed.
End RateLimits.

(** ** The limiter of the router *)

Lemma default_limit group rule : (group, rule) ∈ DefaultRateLimitRules -> 1 <= rl_Limit rule.
Proof.
  unfold DefaultRateLimitRules. intros H.
  repeat (apply elem_of_cons in H as [[= -> ->]|H]; [simpl; lia|]). by apply not_elem_of_nil in H.
Qed.

Lemma default_rule group rule :
  (group, rule) ∈ DefaultRateLimitRules -> whole_seconds (rl_Window rule) /\ rl_Window rule < 2 ^ 62.
Proof.
  intros H. unfold DefaultRateLimitRules in H.
  repeat (apply elem_of_cons in H as [[= -> ->]|H];
    [split; [first [by exists 60 | by exists 3600]|done]|]). by apply not_elem_of_nil in H.
Qed.

Lemma rl_default {U : UUIDLib} deps group rule :
  d_RateLimitStore deps = true -> (group, rule) ∈ DefaultRateLimitRules -> rl deps group = RateLimiter group rule.
Proof.
  unfold rl. intros -> H. unfold DefaultRateLimitRules in *.
  repeat (apply elem_of_cons in H as [[= -> ->]|H]; [done|]). by apply not_elem_of_nil in H.
Qed.

Section Limits.
Context {U : UUIDLib} {P : PgLib} {B : Backend} {BL : BackendLaws}.

(** C30: requests of one client to a rate-limited group, any number of them at once and in any
    interleaving with each other and with the rest of the world, while Redis does not fail, within
    one window that has counted none of them yet.  At no moment have more than [Limit] of them been
    let through; none of them waits; and when all have their answer, as many as there are tickets
    below [Limit] were let through and all others were answered 429.  The client is whoever
    [extractIdentifier] says. *)
Theorem rate_limit_exact deps group rule identifier cs s ps s' :
  let key := identifier +:+ ":" +:+ group in
  let wid := window_id (rl_Window rule) (v_clock (view s)) in
  d_RateLimitStore deps = true -> (group, rule) ∈ DefaultRateLimitRules -> reliable s -> 0 <= v_clock (view s) ->
  Z.of_nat (length cs) <= max_int64 ->
  Forall (fun c => extractIdentifier c = identifier /\ c_Answer c = None) cs ->
  v_redis (view s) !! RateLimitStore.redis_key key wid = None ->
  rtc (crowd_step key wid) (map (rl deps group Ret) cs, s) (ps, s') ->
  v_clock (view s') < window_end (rl_Window rule) (v_clock (view s)) ->
  Z.of_nat (length (List.filter passed ps)) <= rl_Limit rule /\
  Forall (fun p => (exists c, p = Ret c) \/ exists X (o : Op X) k, p = Do o k /\ exec X o s' <> None) ps /\
  forall cs', ps = map Ret cs' ->
    Permutation (map Status cs') (map (limit_status rule) (seqZ 0 (Z.of_nat (length cs)))).
Proof.
  intros key wid Hstore Hrule Hrel Hpos Hlen Hcs Hnone Hrun Hend. rewrite (rl_default _ _ _ Hstore Hrule) in Hrun.
  destruct (default_rule _ _ Hrule) as [Hwhole Hshort]. pose proof (default_limit _ _ Hrule) as Hlim.
  assert (Hps : Forall (waiting key rule wid) (map (RateLimiter group rule Ret) cs)).
  { apply Forall_fmap. eapply Forall_impl; [exact Hcs|]. intros c [<- Hc]. left. by apply limiter_asks. }
  assert (Hs : stands key rule wid 0 (view s)) by (unfold stands; by rewrite Hnone).
  rewrite <- (length_map (RateLimiter group rule Ret)) in Hlen.
  destruct (queued_run key rule wid Hwhole _ _ _ _ Hps Hs Hrel Hlen eq_refl Hpos eq_refl Hrun Hend) as (Hl & tickets & n & [Ht Hp _ _]).
  simpl in Ht, Hl. split; [|split].
  - pose proof (passed_tickets _ _ _ _ _ Ht). pose proof (low_tickets rule _ _ ltac:(lia) Hp). lia.
  - apply Forall_forall. intros p [i Hi]%list_elem_of_lookup. destruct (Forall2_lookup_l _ _ _ _ _ Ht Hi) as (ticket & _ & Hturn).
    by eapply crowd_free.
  - intros cs' ->. rewrite !length_map in Hl. rewrite <- Hl. by apply (told _ _ _ _ _ _ Ht Hp).
Qed.
End Limits.
