(* ===== verification/Delivery.v ===== *)
(** Webhook deliveries: what a delivery posts, when it stops, what its log says in the end, and
    which deliveries a transaction starts. *)

From S2P Require Export AccountTheorems Tidy.

Section Delivery.
Context {U : UUIDLib} {P : PgLib} {UP : URLParser}.

(** ** The plan of a delivery

    The answers to its posts decide everything: it posts at once, and after each failure
    sleeps for the next interval and posts again, until a post is answered with a 2xx status
    or the intervals are used up. *)

Definition accepted (r : res Z) : bool := match r with Ok status => is_2xx status | Err _ => false end.

Fixpoint delivery_trace (url body : string) (attempt : nat) (rs : list (res Z)) : list event :=
  match rs with
  | [] => []
  | r :: rs =>
    match attempt with O => [] | S i => [Slept (nth i webhookRetryIntervals 0)] end
    ++ Posted url body r :: delivery_trace url body (S attempt) rs
  end.

(** The answers of a delivery that had [fuel] posts left. *)
Fixpoint conclusive (fuel : nat) (rs : list (res Z)) : Prop :=
  match fuel, rs with
  | O, [] => True
  | S fuel, r :: rs => if accepted r then rs = [] else conclusive fuel rs
  | _, _ => False
  end.

(** What the log holds in the end: the status of the last answer, the number of posts, the
    verdict, the last failure. *)
Record LogOutcome := mkLogOutcome {
  lo_HTTPStatus : option Z;
  lo_Attempt : Z;
  lo_Status : string;
  lo_LastError : option string
}.

Fixpoint outcome_of (http : option Z) (err : option string) (attempt : nat) (rs : list (res Z)) : LogOutcome :=
  match rs with
  | [] => mkLogOutcome http (Z.of_nat attempt) WebhookStatusFailed err
  | Ok status :: rs =>
    if is_2xx status then mkLogOutcome (Some status) (Z.of_nat (S attempt)) WebhookStatusDelivered None
    else outcome_of (Some status) (Some ("HTTP " +:+ FormatInt status)) (S attempt) rs
  | Err e :: rs => outcome_of http (Some (error_text e)) (S attempt) rs
  end.

Definition shows (T : Tables) (id : uuid) (o : LogOutcome) : Prop :=
  exists l, webhook_delivery_logs T !! id = Some l /\ wl_HTTPStatus l = lo_HTTPStatus o /\ wl_Attempt l = lo_Attempt o /\
            wl_Status l = lo_Status o /\ wl_LastError l = lo_LastError o /\ wl_NextRetryAt l = None.

(** The outcome fits its columns. *)
Definition storable (o : LogOutcome) : Prop :=
  nullable integer (lo_HTTPStatus o) = Ok (lo_HTTPStatus o) /\ integer (lo_Attempt o) = Ok (lo_Attempt o) /\
  varchar 20 (lo_Status o) = Ok (lo_Status o) /\ nullable text (lo_LastError o) = Ok (lo_LastError o).

(** ** The delivery follows the plan *)

Context (flt persistent : bool).

Definition set_updated (now : time) (l : WebhookDeliveryLog) : WebhookDeliveryLog :=
  mkWebhookDeliveryLog (wl_ID l) (wl_TransactionID l) (wl_MerchantID l) (wl_WebhookURL l) (wl_Payload l)
    (wl_HTTPStatus l) (wl_Attempt l) (wl_Status l) (wl_NextRetryAt l) (wl_LastError l) (wl_CreatedAt l) now.

Definition outcome_log (l : WebhookDeliveryLog) : LogOutcome :=
  mkLogOutcome (wl_HTTPStatus l) (wl_Attempt l) (wl_Status l) (wl_LastError l).

(** The log is kept, and nothing fails. *)
Definition logged (id : uuid) (v : View) : Prop :=
  flt = false /\ persistent = true /\ exists row, webhook_delivery_logs (v_tables v) !! id = Some row /\ wl_ID row = id.

Lemma update_wp l now Q own es v :
  free flt v ->
  (forall r v', free flt v' -> v_clock v <= v_clock v' ->
     (logged (wl_ID l) v -> logged (wl_ID l) v' /\
        (storable (outcome_log l) -> wl_NextRetryAt l = None -> shows (v_tables v') (wl_ID l) (outcome_log l))) ->
     Q r own es v') ->
  wp solo flt (exec_raw None (UpdateWebhookLog (set_updated now l))) Q own es v.
Proof.
  intros Hf HQ. apply wp_bind, wp_stmt; [done|..].
  - intros ord now' c n ws _ Hc He.
    assert (Hlog : logged (wl_ID l) v ->
      let v' := set_tables (apply_writes ws (v_tables v)) (set_clock c v) in
      logged (wl_ID l) v' /\
      (storable (outcome_log l) -> wl_NextRetryAt l = None -> shows (v_tables v') (wl_ID l) (outcome_log l))).
    { intros (Hfl & Hp & row & Hrow & Hid). cbn [stmt_eff] in He.
      apply result_bind_Ok in He as (http & H1 & He). apply result_bind_Ok in He as (att & H2 & He).
      apply result_bind_Ok in He as (status & H3 & He). apply result_bind_Ok in He as (last & H4 & He).
      simpl in He, H1, H2, H3, H4. rewrite Hrow in He. injection He as <- <-. cbn [apply_writes fold_left apply_write set_tables].
      split.
      - split_and!; [done..|]. eexists. simpl. rewrite Hid. split; [apply lookup_insert_eq|done].
      - intros (S1 & S2 & S3 & S4) Hnext. simpl in S1, S2, S3, S4. eexists. simpl. rewrite Hid.
        split; [apply lookup_insert_eq|]. simpl. rewrite Hnext. split_and!; congruence || done. }
    split; [apply HQ; [done|simpl; lia|done]|]. intros Hfl e _. apply HQ; [done|simpl; lia|done].
  - intros e c Hc _ Hwhy. apply HQ; [done|simpl; lia|]. intros Hl. split; [exact Hl|]. intros (H1 & H2 & H3 & H4) _.
    destruct Hl as (Hfl & _ & row & Hrow & _). destruct Hwhy as [?|(ord & now' & _ & He)]; [congruence|].
    cbn [stmt_eff] in He. simpl in H1, H2, H3, H4, He. rewrite H1, H2, H3, H4 in He. simpl in He. by rewrite Hrow in He.
Qed.

(** Keeping the log: only the times change in memory. *)
Lemma persistLog_wp l Q own es v :
  free flt v ->
  (forall now v', free flt v' -> v_clock v <= v_clock v' ->
     (logged (wl_ID l) v -> logged (wl_ID l) v' /\
        (storable (outcome_log l) -> wl_NextRetryAt l = None -> shows (v_tables v') (wl_ID l) (outcome_log l))) ->
     Q (set_updated now l) own es v') ->
  wp solo flt (persistLog persistent l) Q own es v.
Proof.
  intros Hf HQ. unfold persistLog. destruct persistent eqn:Hp.
  - apply wp_bind. unfold WebhookRepo.Update. apply wp_bind, wp_solo_now. intros now Hnow. cbv zeta.
    fold (set_updated now l). apply wp_bind, update_wp; [done|]. intros r v' Hf' Hc' Hlog. cbn [wp fst].
    apply HQ; [done|simpl in Hc'; lia|]. intros (H1 & H2 & H3). by apply Hlog.
  - cbn [wp]. replace l with (set_updated (wl_UpdatedAt l) l) by (by destruct l). apply HQ; [done|lia|].
    intros (_ & Hp' & _). congruence.
Qed.

(** An answer, and the waiting before it. *)
Lemma schedule_retry_wp attempt l Q own es v :
  (forall at_ c, v_clock v <= c -> Q (mkWebhookDeliveryLog (wl_ID l) (wl_TransactionID l) (wl_MerchantID l) (wl_WebhookURL l)
      (wl_Payload l) (wl_HTTPStatus l) (wl_Attempt l) (wl_Status l) at_ (wl_LastError l) (wl_CreatedAt l) (wl_UpdatedAt l))
      own es (set_clock c v)) ->
  wp solo flt (schedule_retry attempt l) Q own es v.
Proof.
  intros HQ. unfold schedule_retry. destruct (webhookRetryIntervals !! attempt).
  - apply wp_bind, wp_solo_now. intros c Hc. by apply HQ.
  - replace v with (set_clock (v_clock v) v) by (by destruct v). cbn [wp]. destruct l. by apply HQ.
Qed.

(** What is proved of the loop with [fuel] posts left, from any attempt on. *)
Definition loop_wp (url body : string) (fuel : nat) : Prop := forall attempt l Q own es v,
  free flt v -> wl_Attempt l = Z.of_nat attempt ->
  (forall rs v', conclusive fuel rs -> v_clock v <= v_clock v' ->
     (logged (wl_ID l) v -> storable (outcome_of (wl_HTTPStatus l) (wl_LastError l) attempt rs) ->
        shows (v_tables v') (wl_ID l) (outcome_of (wl_HTTPStatus l) (wl_LastError l) attempt rs)) ->
     Q tt own (es ++ delivery_trace url body attempt rs) v') ->
  wp solo flt (attempts persistent url body attempt fuel l) Q own es v.

Definition pause (attempt : nat) : list event :=
  match attempt with O => [] | S i => [Slept (nth i webhookRetryIntervals 0)] end.

(** Where the iteration that got [resp] has to end. *)
Definition goes_on (url body : string) (fuel attempt : nat) (l : WebhookDeliveryLog)
    (Q : unit -> option tx -> list event -> View -> Prop) own es v : Prop :=
  forall rs v', conclusive (S fuel) rs -> v_clock v <= v_clock v' ->
     (logged (wl_ID l) v -> storable (outcome_of (wl_HTTPStatus l) (wl_LastError l) attempt rs) ->
        shows (v_tables v') (wl_ID l) (outcome_of (wl_HTTPStatus l) (wl_LastError l) attempt rs)) ->
     Q tt own (es ++ delivery_trace url body attempt rs) v'.

(** A post that was not accepted: the log is kept and the loop goes on. *)
Lemma retry_wp url body fuel attempt resp l l' Q own es v :
  loop_wp url body fuel -> free flt v -> goes_on url body fuel attempt l Q own es v ->
  wl_ID l' = wl_ID l -> wl_Attempt l' = Z.of_nat (S attempt) -> accepted resp = false ->
  (forall rs, outcome_of (wl_HTTPStatus l) (wl_LastError l) attempt (resp :: rs) =
              outcome_of (wl_HTTPStatus l') (wl_LastError l') (S attempt) rs) ->
  wp solo flt (do log <- schedule_retry attempt l' ;; do log <- persistLog persistent log ;;
               attempts persistent url body (S attempt) fuel log) Q own ((es ++ pause attempt) ++ [Posted url body resp]) v.
Proof.
  intros IH Hf HQ Hid Ha Hacc Ho. apply wp_bind, schedule_retry_wp. intros at_ c2 Hc2.
  apply wp_bind, persistLog_wp; [done|]. intros now3 v3 Hf3 Hc3 Hlog3. simpl in Hc3.
  apply IH; [done|exact Ha|]. intros rs v4 Hcon Hc4 Hlog4. simpl in Hlog4.
  replace (((es ++ pause attempt) ++ [Posted url body resp]) ++ delivery_trace url body (S attempt) rs)
    with (es ++ delivery_trace url body attempt (resp :: rs)) by (by rewrite <- !app_assoc).
  apply HQ; [cbn [conclusive]; by rewrite Hacc|lia|]. intros Hl. rewrite Ho, <- Hid in *.
  apply Hlog4, Hlog3. exact Hl.
Qed.

(** One iteration from the post on. *)
Lemma post_wp url body fuel attempt l Q own es v :
  loop_wp url body fuel -> free flt v -> goes_on url body fuel attempt l Q own es v ->
  wp solo flt
    (do now <- op Now ;;
     do resp <- op (HTTPDo url body) ;;
     match resp with
     | Ok status =>
       if is_2xx status
       then do _ <- persistLog persistent (set_delivered (set_http_status (set_attempt l (Z.of_nat (attempt + 1)) now) status)) ;; Ret tt
       else
         do log <- schedule_retry attempt (set_last_error (set_http_status (set_attempt l (Z.of_nat (attempt + 1)) now) status) ("HTTP " +:+ FormatInt status)) ;;
         do log <- persistLog persistent log ;;
         attempts persistent url body (S attempt) fuel log
     | Err err =>
       do log <- schedule_retry attempt (set_last_error (set_attempt l (Z.of_nat (attempt + 1)) now) (error_text err)) ;;
       do log <- persistLog persistent log ;;
       attempts persistent url body (S attempt) fuel log
     end) Q own (es ++ pause attempt) v.
Proof.
  intros IH Hf HQ. apply wp_bind, wp_solo_now. intros now Hnow. apply wp_bind, wp_solo; [done|by intros _ _ [] []|].
  intros c1 resp v1 Hc1 [-> Hresp]. simpl in Hc1. cbn [event_of].
  assert (HQ' : goes_on url body fuel attempt l Q own es (set_clock c1 (set_clock now v))).
  { intros rs v' Hcon Hc. apply HQ; [done|simpl in Hc; lia]. }
  destruct resp as [status|e]; [destruct (is_2xx status) eqn:H2|].
  - apply wp_bind, persistLog_wp; [done|]. intros now3 v3 Hf3 Hc3 Hlog3. cbn [wp].
    replace ((es ++ pause attempt) ++ [Posted url body (Ok status)])
      with (es ++ delivery_trace url body attempt [Ok status]) by (by rewrite <- app_assoc).
    apply HQ'; [cbn [conclusive accepted]; by rewrite H2|done|]. intros Hl. destruct (Hlog3 Hl) as [_ Hshows].
    cbn [outcome_of]. rewrite H2. unfold outcome_log in Hshows. simpl in Hshows. rewrite Nat.add_1_r in Hshows. auto.
  - eapply retry_wp; [done|done|exact HQ'|done|simpl; by rewrite Nat.add_1_r|done|]. intros rs. cbn [outcome_of]. by rewrite H2.
  - eapply retry_wp; [done|done|exact HQ'|done|simpl; by rewrite Nat.add_1_r|done|]. done.
Qed.

Lemma attempts_wp url body fuel : url_Parse_error url = None -> loop_wp url body fuel.
Proof.
  intros Hurl. induction fuel as [|fuel IH]; intros attempt l Q own es v Hf Hatt HQ; cbn [attempts].
  { apply wp_bind, persistLog_wp; [done|]. intros now v' Hf' Hc' Hlog. cbn [wp].
    replace es with (es ++ delivery_trace url body attempt []) by (by rewrite app_nil_r).
    apply (HQ []); [done|done|]. intros Hl. destruct (Hlog Hl) as [_ Hshows]. unfold outcome_log in Hshows. simpl in Hshows.
    rewrite Hatt in Hshows. auto. }
  rewrite Hurl. destruct attempt as [|i].
  - cbn [bind]. rewrite <- (app_nil_r es). by apply (post_wp url body fuel 0).
  - apply wp_bind, wp_solo; [done|by intros _ _ [] []|]. intros c x v1 Hc (c' & Hc' & ->). simpl in Hc'.
    apply (post_wp url body fuel (S i)); [done|done|]. intros rs v' Hcon Hcl. apply HQ; [done|simpl in Hcl; lia].
Qed.
End Delivery.

Section Plan.
Context {U : UUIDLib} {P : PgLib} {UP : URLParser} {B : Backend} {BL : BackendLaws}.

(** What the log needs to be stored at all: a fresh identifier, the rows it refers to, a text
    and a JSON document its columns take. *)
Definition log_fits (T : Tables) (id txID merchantID : uuid) (url body : string) : Prop :=
  webhook_delivery_logs T !! id = None /\ is_Some (transactions T !! txID) /\ is_Some (merchants T !! merchantID) /\
  text url = Ok url /\ (exists doc, jsonb_col body = Ok doc).

Lemma insert_delivery_wp flt id txID merchantID url body now Q own es v :
  free flt v ->
  (forall r v', free flt v' -> v_clock v <= v_clock v' ->
     (flt = false -> log_fits (v_tables v) id txID merchantID url body -> logged flt true id v') -> Q r own es v') ->
  wp solo flt (WebhookRepo.Create (mkWebhookDeliveryLog id txID merchantID url body None 0 WebhookStatusPending None None now now))
    Q own es v.
Proof.
  intros Hf HQ. apply wp_bind, wp_stmt; [done|..].
  - intros ord now' c n ws _ Hc He.
    split; [|intros -> e _; by apply HQ].
    apply HQ; [done|done|]. intros Hfl (Hnew & [t Ht] & [m Hm] & Hurl & doc & Hdoc).
    cbn [stmt_eff] in He. unfold store_webhook_log in He. simpl in He. rewrite Hurl, Hdoc in He. simpl in He.
    unfold has_row in He. rewrite Hnew, Ht, Hm in He. simpl in He. injection He as <- <-.
    split_and!; [done..|]. eexists. split; [apply lookup_insert_eq|done].
  - intros e c Hc _ Hwhy. apply HQ; [done|done|]. intros Hfl (Hnew & [t Ht] & [m Hm] & Hurl & doc & Hdoc).
    destruct Hwhy as [?|(ord & now' & _ & He)]; [congruence|].
    cbn [stmt_eff] in He. unfold store_webhook_log in He. simpl in He. rewrite Hurl, Hdoc in He. simpl in He.
    unfold has_row in He. by rewrite Hnew, Ht, Hm in He.
Qed.

Abbreviation posts := (S (length webhookRetryIntervals)).

Lemma deliver_wp flt persistent url payload txID merchantID v :
  free flt v -> url_Parse_error url = None ->
  wp solo flt (deliverWithRetries persistent url payload txID merchantID)
    (fun _ _ es v' => exists id rs,
       es = Drew id :: delivery_trace url (json_print (payload_json payload)) 0 rs /\ conclusive posts rs /\
       (flt = false -> persistent = true -> log_fits (v_tables v) id txID merchantID url (json_print (payload_json payload)) ->
        storable (outcome_of None None 0 rs) -> shows (v_tables v') id (outcome_of None None 0 rs)))
    None [] v.
Proof.
  intros Hf Hurl. unfold deliverWithRetries. cbv zeta. apply wp_bind, wp_solo_uuid. intros c1 id Hc1.
  apply wp_bind, wp_solo_now. intros c2 Hc2.
  set (l := mkWebhookDeliveryLog _ _ _ _ _ _ _ _ _ _ _ _).
  assert (Hgo : forall v', free flt v' ->
    (flt = false -> persistent = true -> log_fits (v_tables v) id txID merchantID url (json_print (payload_json payload)) ->
     logged flt persistent id v') ->
    wp solo flt (attempts persistent url (json_print (payload_json payload)) 0 posts l)
      (fun _ _ es v' => exists id rs,
         es = Drew id :: delivery_trace url (json_print (payload_json payload)) 0 rs /\ conclusive posts rs /\
         (flt = false -> persistent = true -> log_fits (v_tables v) id txID merchantID url (json_print (payload_json payload)) ->
          storable (outcome_of None None 0 rs) -> shows (v_tables v') id (outcome_of None None 0 rs))) None ([] ++ [Drew id]) v').
  { intros v' Hf' Hlog. apply attempts_wp; [done|done|done|]. intros rs v2 Hcon _ Hshows.
    exists id, rs. split_and!; [done|done|]. intros Hfl Hp Hfits. apply Hshows. by apply Hlog. }
  destruct persistent.
  - apply wp_bind, wp_bind, insert_delivery_wp; [done|]. intros r v' Hf' _ Hlog. apply Hgo; [done|]. intros Hfl _. by apply Hlog.
  - apply Hgo; [done|]. done.
Qed.

(** C31: whatever fails, a delivery does what its plan says and nothing else: it posts the same
    payload to the same URL, at most 6 times, with pauses of 15 s, 1, 2, 5 and 10 minutes,
    until the first post that is answered with a 2xx status. *)
Theorem delivery_plan persistent url payload txID merchantID s es s' :
  ready s -> url_Parse_error url = None ->
  run (deliverWithRetries persistent url payload txID merchantID) [] s = Some (tt, es, s') ->
  exists id rs, es = Drew id :: delivery_trace url (json_print (payload_json payload)) 0 rs /\ conclusive 6 rs.
Proof.
  intros Hs Hurl Hr.
  destruct (solo_run _ _ _ _ _ _ _ (deliver_wp true persistent url payload txID merchantID (view s) (failing_free _) Hurl)
              (proj1 Hs) Hr) as [(own & id & rs & Hes & Hcon & _) _]. by exists id, rs.
Qed.

(** C32: as long as the database works, a delivery ends, and its log then holds what its posts
    came to: the status of the last answer, the number of posts, DELIVERED or FAILED, the
    last failure; for a log that could be stored and an outcome that fits its columns. *)
Theorem delivery_recorded url payload txID merchantID s :
  ready s -> idle s -> reliable s -> url_Parse_error url = None ->
  exists id rs s',
    run (deliverWithRetries true url payload txID merchantID) [] s =
      Some (tt, Drew id :: delivery_trace url (json_print (payload_json payload)) 0 rs, s') /\
    conclusive 6 rs /\
    (log_fits (tables s) id txID merchantID url (json_print (payload_json payload)) ->
     storable (outcome_of None None 0 rs) -> shows (tables s') id (outcome_of None None 0 rs)).
Proof.
  intros Hs Hi Hr Hurl.
  destruct (solo_total _ _ _ _ (deliver_wp false true url payload txID merchantID (view s) (idle_free _ _ Hi) Hurl) (proj1 Hs) Hr)
    as ([] & es & s' & Hrun & (own & id & rs & -> & Hcon & Hlog) & _). exists id, rs, s'. split_and!; [done|done|by apply Hlog].
Qed.
End Plan.

(** ** Which deliveries a transaction starts *)

Section Enqueue.
Context {U : UUIDLib} {P : PgLib} {ES : EncryptionService} {EL : EncryptionLaws} {HS : HashService} {HL : HashLaws}.
Context {TS : TokenService} {TL : TokenLaws} {SS : SignatureService} {UP : URLParser}.

(** The merchant's webhook, when it has one. *)
Definition webhook_of (T : Tables) (t : Transaction) : option (string * Merchant) :=
  match merchants T !! tx_MerchantID t with
  | Some m => match m_WebhookURL m with
              | Some url => if (url =? "")%string then None else Some (url, m)
              | None => None
              end
  | None => None
  end.

(** The delivery of [t] to [url], signed with the secret key. *)
Definition delivery_of (persistent : bool) (t : Transaction) (url secretKey currency : string) (now : time) : event :=
  Spawned (deliverWithRetries persistent url (signed_payload t secretKey currency now) (tx_ID t) (tx_MerchantID t)).

Lemma enqueue_wp flt persistent t Q own es v :
  free flt v ->
  (forall r k, (r = Ok tt -> webhook_of (v_tables v) t = None) -> (flt = false -> webhook_of (v_tables v) t = None \/
       exists url m e, webhook_of (v_tables v) t = Some (url, m) /\ Decrypt (m_SecretKeyEnc m) = Err e) -> Q r own es (set_clock k v)) ->
  (forall url m secretKey currency now k, webhook_of (v_tables v) t = Some (url, m) -> Decrypt (m_SecretKeyEnc m) = Ok secretKey ->
     (currency = "VND" \/ exists w, wallets (v_tables v) !! tx_WalletID t = Some w /\ currency = w_Currency w) ->
     Q (Ok tt) own (es ++ [delivery_of persistent t url secretKey currency now]) (set_clock k v)) ->
  wp solo flt (EnqueueWebhook persistent t) Q own es v.
Proof.
  intros Hf Hnone Hsome. unfold EnqueueWebhook. apply wp_bind, wp_merchant_by_id; [done|..].
  2:{ intros k e Hfl. apply (Hnone _ k); [done|congruence]. }
  intros k Hk. unfold webhook_of in *. destruct (merchants (v_tables v) !! tx_MerchantID t) as [m|] eqn:Hm; [|apply (Hnone _ k); auto].
  destruct (m_WebhookURL m) as [url|]; [|apply (Hnone _ k); auto].
  destruct (url =? "")%string; [apply (Hnone _ k); auto|].
  assert (Hgo : forall k2 currency,
    (currency = "VND" \/ exists w, wallets (v_tables v) !! tx_WalletID t = Some w /\ currency = w_Currency w) ->
    wp solo flt
      (do now <- op Now ;;
       check secretKey <- Decrypt (m_SecretKeyEnc m) catch err => fail err ;;
       Go (deliverWithRetries persistent url (signed_payload t secretKey currency now) (tx_ID t) (tx_MerchantID t)) (ok tt))
      Q own es (set_clock k2 v)).
  { intros k2 currency Hcur. apply wp_bind, wp_solo_now. intros k3 Hk3.
    destruct (Decrypt (m_SecretKeyEnc m)) as [secretKey|e] eqn:Hd.
    - split; [eapply wp_mono; [|apply (beside_deliverWithRetries (PC := loose_core))]; done|].
      exact (Hsome url m secretKey currency k3 k3 eq_refl Hd Hcur).
    - apply (Hnone _ k3); [done|]. intros _. right. by exists url, m, e. }
  apply wp_bind. eapply (wp_select flt _ _ (fun _ => lookup_list (wallets (v_tables v)) (tx_WalletID t))); [done|done|..].
  - intros k2 ord _ Hk2. refine (Hgo k2 _ _). unfold lookup_list.
    destruct (wallets (v_tables v) !! tx_WalletID t) as [w|]; [right; by exists w|by left].
  - intros k2 e _ _. refine (Hgo k2 "VND" _). by left.
Qed.
Context {SL : SignatureLaws} {B : Backend} {BL : BackendLaws}.

(** C33: enqueueing a transaction starts one delivery when its merchant has a webhook URL, and
    none otherwise.  The delivery is to that URL and names the transaction, its reference,
    status and amount; its signature verifies, under the merchant's secret key, the text of
    the payload's data member as it is sent. *)
Theorem webhook_enqueued persistent t s es s' :
  ready s -> run (EnqueueWebhook persistent t) [] s = Some (Ok tt, es, s') ->
  tables s' = tables s /\
  match webhook_of (tables s) t with
  | None => es = []
  | Some (url, m) =>
    exists secretKey payload,
      es = [Spawned (deliverWithRetries persistent url payload (tx_ID t) (tx_MerchantID t))] /\
      Decrypt (m_SecretKeyEnc m) = Ok secretKey /\
      Verify secretKey (json_print (data_json (pl_Data payload))) (pl_Signature payload) = true /\
      EventType payload = event_type (tx_TransactionType t) /\
      MerchantOrderID (pl_Data payload) = tx_ReferenceID t /\
      GatewayTransactionID (pl_Data payload) = uuid_String (tx_ID t) /\
      pd_Status (pl_Data payload) = tx_Status t /\ pd_Amount (pl_Data payload) = tx_Amount t
  end.
Proof.
  intros Hs Hr.
  assert (Hw : wp solo true (EnqueueWebhook persistent t)
    (fun r _ es v' => r = Ok tt -> v_tables v' = tables s /\
       match webhook_of (tables s) t with
       | None => es = []
       | Some (url, m) => exists secretKey currency now, Decrypt (m_SecretKeyEnc m) = Ok secretKey /\
                            es = [delivery_of persistent t url secretKey currency now]
       end) None [] (view s)).
  { apply enqueue_wp; [done|..].
    - intros r k Hn _ Hok. unfold tables. by rewrite (Hn Hok).
    - intros url m secretKey currency now k Hwh Hd _ _. unfold tables. rewrite Hwh. split; [done|].
      by exists secretKey, currency, now. }
  destruct (solo_run _ _ _ _ _ _ _ Hw (proj1 Hs) Hr) as [(own & Ho) _]. destruct (Ho eq_refl) as [HT Hes]. split; [exact HT|].
  destruct (webhook_of (tables s) t) as [[url m]|]; [|done].
  destruct Hes as (secretKey & currency & now & Hd & ->).
  exists secretKey, (signed_payload t secretKey currency now). split_and!; try done. by apply Verify_spec.
Qed.
End Enqueue.
