(* ===== verification/Reports.v ===== *)
(** Reports: the balance, list and statistics queries against what the tables hold. *)

From S2P Require Export AccountTheorems.
From Stdlib Require Import Ascii Sorted.

Section Balance.
Context {U : UUIDLib} {UL : UUIDLaws} {P : PgLib} {JL : JsonbLaws} {ES : EncryptionService} {B : Backend} {BL : BackendLaws}.

Lemma parse_digits_all s acc n : parse_digits s acc = Ok n -> string_forallb is_digit s = true.
Proof.
  revert acc. induction s as [|c s IH]; intros acc; simpl; [done|].
  destruct (digit_val c) as [d|] eqn:Hd; [|done]. case_match; [done|]. intros Hp.
  unfold is_digit at 1. rewrite Hd. simpl. by eapply IH.
Qed.

(** [Sscanf("%d")] reads whatever [strconv.ParseInt] does, as the same number. *)
Lemma sscanf_ParseInt s n : ParseInt s = Ok n -> Sscanf_d s = Ok n.
Proof.
  intros Hp. pose proof Hp as Hp'. unfold ParseInt in Hp'. destruct s as [|c s]; [done|].
  assert (Hbody : forall body un, ParseUint body = Ok un ->
            body <> "" /\ string_forallb is_digit body = true).
  { intros [|b body] un; [done|]. intros Hu. split; [done|]. by eapply parse_digits_all. }
  unfold Sscanf_d. destruct (c =? "+")%char eqn:Hplus; [|destruct (c =? "-")%char eqn:Hminus].
  - apply result_bind_Ok in Hp' as (un & Hu & _). apply Hbody in Hu as [Hne Hall].
    assert (Hskip : skip_space (String c s) = String c s) by (apply Ascii.eqb_eq in Hplus as ->; done).
    rewrite Hskip, Hplus. cbn [orb]. cbv iota beta. rewrite span_digits_all by done. by destruct s.
  - apply result_bind_Ok in Hp' as (un & Hu & _). apply Hbody in Hu as [Hne Hall].
    assert (Hskip : skip_space (String c s) = String c s) by (apply Ascii.eqb_eq in Hminus as ->; done).
    rewrite Hskip, Hplus, Hminus. cbn [orb]. cbv iota beta. rewrite span_digits_all by done. by destruct s.
  - apply result_bind_Ok in Hp' as (un & Hu & _). apply Hbody in Hu as [_ Hall].
    assert (Hc : is_digit c = true) by (simpl in Hall; by apply andb_true_iff in Hall as [? _]).
    assert (Hskip : skip_space (String c s) = String c s) by (cbn [skip_space]; by rewrite (is_digit_not_space _ Hc)).
    rewrite Hskip, Hplus, Hminus. cbn [orb]. cbv iota beta. rewrite span_digits_all by done. exact Hp.
Qed.

(** What the balance query answers, by the tables: the ledger's balance of the merchant's VND
    wallet. *)
Lemma balance_wp flt mid es v :
  free flt v ->
  wp solo flt (GetWalletBalance mid)
    (fun r _ _ v' => v_tables v' = v_tables v /\
       (flt = true \/
        (r = Err (ErrNotFound "wallet") /\ forall id w, wallets (v_tables v) !! id = Some w -> wallet_of mid "VND" w = false) \/
        exists id w, wallets (v_tables v) !! id = Some w /\ wallet_of mid "VND" w = true /\
          match balance (v_tables v) id with Some b => r = Ok (b, "VND") | None => True end)) None es v.
Proof.
  intros Hf. unfold GetWalletBalance, WalletRepo.GetByMerchantID. apply wp_bind.
  apply (wp_select_text flt _ _ "VND" (fun ord currency => rows ord (wallet_of mid currency) (wallets (v_tables v)))); [done|done|..].
  - intros c ord _ Hord Hc. pose proof (head_rows ord (wallet_of mid "VND") (wallets (v_tables v)) Hord) as Hh.
    destruct (head _) as [w|]; [|split; [done|]; right; left; by split].
    destruct Hh as (id & Hw & Hof).
    assert (Hres : forall r, match balance (v_tables v) id with Some b => r = Ok (b, "VND") | None => True end ->
      wp solo flt (Ret r) (fun r _ _ v' => v_tables v' = v_tables v /\
       (flt = true \/
        (r = Err (ErrNotFound "wallet") /\ forall id w, wallets (v_tables v) !! id = Some w -> wallet_of mid "VND" w = false) \/
        exists id w, wallets (v_tables v) !! id = Some w /\ wallet_of mid "VND" w = true /\
          match balance (v_tables v) id with Some b => r = Ok (b, "VND") | None => True end)) None es (set_clock c v)).
    { intros r Hr. split; [done|]. right. right. by exists id, w. }
    unfold balance in Hres. rewrite Hw in Hres. unfold open_balance in Hres.
    destruct (Decrypt _) as [s|]; [|by apply Hres].
    destruct (Sscanf_d s) as [b|] eqn:Hs; destruct (ParseInt s) as [b'|] eqn:Hp;
      try (apply sscanf_ParseInt in Hp); try (by apply Hres); [|congruence].
    apply Hres. unfold wallet_of in Hof. bool_prop. subst. congruence.
  - intros c e [Hfl|Hread] _; [split; [done|by left]|done].
Qed.

(** C36: on a server without failures the balance query answers with the balance the ledger
    holds for the merchant's VND wallet, whatever was booked before, and changes nothing. *)
Theorem balance_reported mid s id w b :
  ready s -> idle s -> reliable s ->
  wallets (tables s) !! id = Some w -> wallet_of mid "VND" w = true ->
  (forall id' w', wallets (tables s) !! id' = Some w' -> wallet_of mid "VND" w' = true -> id' = id) ->
  balance (tables s) id = Some b ->
  exists es s', run (GetWalletBalance mid) [] s = Some (Ok (b, "VND"), es, s') /\ tables s' = tables s.
Proof.
  intros Hs Hi Hr Hw Hof Honly Hb.
  destruct (solo_total _ _ _ _ (balance_wp false mid [] (view s) (idle_free _ _ Hi)) (ready_locked _ Hs) Hr)
    as (r & es & s' & Hrun & (own & HT & Ho) & _). exists es, s'. split; [|done].
  destruct Ho as [[=]|[[_ Hno]|(id' & w' & Hw' & Hof' & Ho)]].
  - by rewrite (Hno _ _ Hw) in Hof.
  - assert (id' = id) as -> by (by eapply Honly). unfold tables in Hb. rewrite Hb in Ho. by subst.
Qed.
End Balance.

(** ** What the database reads of the parameters *)

(** The seconds that are an instant of the database's calendar, 4714 BC to 294276. *)
Definition instant (z : Z) : bool := (-210866803200 <=? z) && (z <? 9224318016000).

Definition given {A} (f : A -> bool) (o : option A) : bool := match o with Some a => f a | None => true end.

Lemma text_read {A} s (k : string -> res A) :
  (let! s := text s in k s) = if readable s then k s else Err (sql_error "invalid byte sequence for encoding UTF8").
Proof. unfold text. by destruct (readable s). Qed.

Lemma timestamp_read {A} z (k : time -> res A) :
  (let! t := to_timestamp z in k t) = if instant z then k (z * Second) else Err (sql_error "timestamp out of range").
Proof. unfold to_timestamp. fold (instant z). by destruct (instant z). Qed.

(** The parameters of numbered clauses, whatever the numbers' sums. *)
Ltac take_args :=
  cbn [where_of test_of fst snd app];
  repeat match goal with
  | |- context[nth_arg ?l ?n] => let k := eval vm_compute in (Z.to_nat (n - 1)) in change (nth_arg l n) with (nth_error l k)
  end;
  cbn [nth_error given].

(** Whether the database reads a parameter. *)
Ltac read_args :=
  repeat (rewrite ?text_read, ?timestamp_read;
          match goal with |- context[if ?b then _ else _] => destruct b end;
          cbn -[text to_timestamp instant readable Z.mul Z.leb String.eqb]; try done);
  cbn [result_bind given].

(** ** Lists *)

Section Lists.
Context {U : UUIDLib} {P : PgLib}.

(** The transactions a list request asks for. *)
Definition listed (params : TransactionListParams) (t : Transaction) : bool :=
  bool_decide (tx_MerchantID t = lp_MerchantID params)
  && match lp_Status params with Some s => (tx_Status t =? s)%string | None => true end
  && match lp_Type params with Some s => (tx_TransactionType t =? s)%string | None => true end
  && match lp_From params with Some z => z * Second <=? tx_CreatedAt t | None => true end
  && match lp_To params with Some z => tx_CreatedAt t <=? z * Second | None => true end.

(** Filters that the database can read. *)
Definition filters_read (params : TransactionListParams) : bool :=
  given readable (lp_Status params) && given readable (lp_Type params)
  && given instant (lp_From params) && given instant (lp_To params).

(** The numbered clauses and their arguments say just that, whatever follows them. *)
Lemma where_listed params cs args idx extra :
  TransactionRepo.list_clauses params = (cs, args, idx) ->
  match where_of (args ++ extra) cs with
  | Ok f => filters_read params = true /\ forall t, f t = listed params t
  | Err _ => filters_read params = false
  end /\ length args = length cs /\ idx = Z.of_nat (length args) + 1.
Proof.
  unfold TransactionRepo.list_clauses, TransactionRepo.clause, listed, filters_read.
  destruct params as [mid [st|] [ty|] [from|] [to|] pg sz]; simpl; intros [= <- <- <-]; (split; [|done]);
    take_args; read_args; (split; [done|]); intros t; by rewrite ?andb_true_r, ?andb_assoc.
Qed.

Lemma rows_ext {K A} `{Countable K} ord (f g : A -> bool) (m : gmap K A) :
  (forall a, f a = g a) -> rows ord f m = rows ord g m.
Proof. intros Hfg. unfold rows. f_equal. by apply filter_ext. Qed.

Lemma nth_arg_app args extra n :
  nth_arg (args ++ extra) (Z.of_nat (length args) + 1 + Z.of_nat n) = nth_error extra n.
Proof.
  unfold nth_arg. replace (Z.to_nat _) with (length args + n)%nat by lia.
  rewrite nth_error_app2 by lia. f_equal. lia.
Qed.

(** Newest first. *)
Definition newest_first (l : list Transaction) : Prop :=
  StronglySorted (fun a b => tx_CreatedAt b <= tx_CreatedAt a) l.

Lemma insert_desc_perm {A} (key : A -> Z) a l : Permutation (insert_desc key a l) (a :: l).
Proof.
  induction l as [|b l IH]; simpl; [done|]. case_match; [|done]. rewrite IH. apply Permutation_swap.
Qed.

Lemma order_by_desc_perm {A} (key : A -> Z) l : Permutation (order_by_desc key l) l.
Proof. induction l as [|a l IH]; simpl; [done|]. rewrite insert_desc_perm. by apply Permutation_cons. Qed.

Lemma order_by_desc_sorted l : newest_first (order_by_desc tx_CreatedAt l).
Proof.
  unfold newest_first. induction l as [|a l IH]; simpl; [constructor|].
  induction (order_by_desc tx_CreatedAt l) as [|b l' IH']; simpl; [repeat constructor|].
  apply StronglySorted_inv in IH as [Hs Hb]. destruct (Z.ltb_spec (tx_CreatedAt a) (tx_CreatedAt b)).
  - constructor; [by apply IH'|]. rewrite insert_desc_perm. constructor; [lia|done].
  - constructor; [by constructor|]. constructor; [lia|]. eapply Forall_impl; [exact Hb|]. simpl. lia.
Qed.

Definition all_listed (params : TransactionListParams) (T : Tables) : list Transaction :=
  List.filter (listed params) (map snd (map_to_list (transactions T))).

(** The two statements of a page, by what they return. *)
Lemma count_eff ord now params cs args idx T :
  TransactionRepo.list_clauses params = (cs, args, idx) ->
  match stmt_eff ord now (CountTransactions cs args) T with
  | Ok x => filters_read params = true /\ x = (Z.of_nat (length (rows ord (listed params) (transactions T))), [])
  | Err _ => filters_read params = false
  end.
Proof.
  intros Hcl. destruct (where_listed params cs args idx [] Hcl) as (Hw & Hlen & _). rewrite app_nil_r in Hw.
  cbn [stmt_eff]. rewrite Hlen, Nat.eqb_refl. destruct (where_of args cs) as [f|]; [|done]. destruct Hw as [Hr Hw].
  cbn [result_bind]. by rewrite (rows_ext ord f (listed params)).
Qed.

Lemma page_eff ord now params cs args idx limit offset T :
  TransactionRepo.list_clauses params = (cs, args, idx) -> 0 <= limit -> filters_read params = true ->
  stmt_eff ord now (SelectTransactions cs idx (idx + 1) (args ++ [VInt limit; VInt offset])) T =
  if offset <? 0 then Err (sql_error "OFFSET must not be negative")
  else select (take (Z.to_nat limit) (drop (Z.to_nat offset)
                (order_by_desc tx_CreatedAt (rows ord (listed params) (transactions T))))).
Proof.
  intros Hcl Hl Hr. destruct (where_listed params cs args idx [VInt limit; VInt offset] Hcl) as (Hw & Hlen & ->).
  pose proof (nth_arg_app args [VInt limit; VInt offset] 0) as Hn0.
  pose proof (nth_arg_app args [VInt limit; VInt offset] 1) as Hn1.
  rewrite Z.add_0_r in Hn0. change (Z.of_nat 1) with 1 in Hn1. cbn [stmt_eff]. rewrite Hn0, Hn1. cbn [nth_error].
  rewrite length_app, Hlen. simpl length. rewrite Nat.eqb_refl.
  destruct (where_of _ cs) as [f|]; [|congruence]. destruct Hw as [_ Hw]. cbn [result_bind]. unfold page.
  rewrite (proj2 (Z.ltb_ge limit 0)) by lia. rewrite (rows_ext ord f (listed params)) by done. by destruct (offset <? 0).
Qed.

(** The position at which a page starts, in 64 bits. *)
Definition page_start (params : TransactionListParams) : Z :=
  wrap64 (wrap64 (lp_Page params - 1) * lp_PageSize params).

(** The answer to a list request: all the merchant's transactions that pass the filters, newest
    first, cut to the page; and how many there are. *)
Definition list_answer (params : TransactionListParams) (T : Tables) (r : res (list Transaction * Z)) : Prop :=
  if filters_read params && (0 <=? page_start params)
  then exists all, Permutation all (all_listed params T) /\ newest_first all /\
         r = Ok (take (Z.to_nat (lp_PageSize params)) (drop (Z.to_nat (page_start params)) all), Z.of_nat (length all))
  else exists e, r = Err (InternalError e).

Lemma list_wp flt params es v :
  free flt v -> 1 <= lp_PageSize params ->
  wp solo flt (ListTransactions params)
    (fun r _ _ v' => v_tables v' = v_tables v /\ (flt = true \/ list_answer params (v_tables v) r)) None es v.
Proof.
  intros Hf Hsize. unfold ListTransactions, TransactionRepo.List.
  destruct (TransactionRepo.list_clauses params) as [[cs args] idx] eqn:Hcl.
  change (mul64 (sub64 (lp_Page params) 1) (lp_PageSize params)) with (page_start params).
  unfold list_answer. apply wp_bind, wp_bind, wp_stmt; [done|..].
  - intros ord now c total ws Hord Hc He. pose proof (count_eff ord now _ _ _ _ (v_tables v) Hcl) as Hcount.
    rewrite He in Hcount. destruct Hcount as [Hread [= -> ->]]. rewrite Hread. cbn [andb].
    split; [|intros -> e _; split; [done|by left]]. apply wp_bind, wp_stmt; [done|..].
    + intros ord2 now2 c2 txns ws Hord2 Hc2 He2. rewrite (page_eff _ _ _ _ _ _ _ _ _ Hcl) in He2 by (done || lia).
      destruct (Z.ltb_spec (page_start params) 0) as [|Hpos]; [done|]. unfold select in He2. simplify_eq.
      split; [|intros -> e _; split; [done|by left]]. split; [done|]. right. rewrite (proj2 (Z.leb_le _ _) Hpos).
      exists (order_by_desc tx_CreatedAt (rows ord2 (listed params) (transactions (v_tables v)))). split_and!.
      * rewrite order_by_desc_perm. apply Hord2.
      * apply order_by_desc_sorted.
      * simpl. do 3 f_equal. apply Permutation_length. rewrite order_by_desc_perm. unfold rows. by rewrite (Hord _ _), (Hord2 _ _).
    + intros e c2 Hc2 _ [?|(ord2 & now2 & _ & He2)]; (split; [done|]); [by left|right].
      rewrite (page_eff _ _ _ _ _ _ _ _ _ Hcl) in He2 by (done || lia).
      destruct (Z.ltb_spec (page_start params) 0) as [Hneg|]; [|done]. rewrite (proj2 (Z.leb_gt _ _) Hneg). by eexists.
  - intros e c Hc _ [?|(ord & now & _ & He)]; (split; [done|]); [by left|right].
    pose proof (count_eff ord now _ _ _ _ (v_tables v) Hcl) as Hread. rewrite He in Hread. rewrite Hread. by eexists.
Qed.

Context {B : Backend} {BL : BackendLaws}.

(** C34: the query that [List] assembles, with its numbered placeholders, returns exactly the
    transactions the request's filters describe: the merchant's own, of the given status and
    type, in the given time, newest first, cut to the page, with their total number.  It is an
    error for filters that the database cannot read, and for a page whose start, in 64 bits,
    is negative. *)
Theorem list_exact params s :
  ready s -> idle s -> reliable s -> 1 <= lp_PageSize params ->
  exists r es s', run (ListTransactions params) [] s = Some (r, es, s') /\ tables s' = tables s /\
                  list_answer params (tables s) r.
Proof.
  intros Hs Hi Hr Hp.
  destruct (solo_total _ _ _ _ (list_wp false params [] (view s) (idle_free _ _ Hi) Hp) (ready_locked _ Hs) Hr)
    as (r & es & s' & Hrun & (own & HT & [[=]|Ho]) & _). exists r, es, s'. done.
Qed.
End Lists.

(** ** Statistics *)

Section Statistics.
Context {U : UUIDLib} {P : PgLib}.

Definition number (f : Transaction -> bool) (l : list Transaction) : Z := Z.of_nat (length (List.filter f l)).

Definition total (f : Transaction -> bool) (l : list Transaction) : Z :=
  fold_right (fun t z => if f t then tx_Amount t + z else z) 0 l.

Definition succeeded (typ : string) (t : Transaction) : bool :=
  (tx_TransactionType t =? typ)%string && (tx_Status t =? TransactionStatusSuccess)%string.

Definition in_status (status : string) (t : Transaction) : bool := (tx_Status t =? status)%string.

(** The merchant's transactions from the second [start] on. *)
Definition counted (mid : uuid) (start : option Z) (t : Transaction) : bool :=
  bool_decide (tx_MerchantID t = mid) &&
  match start with Some z => z * Second <=? tx_CreatedAt t | None => true end.

Definition stats_answer (mid : uuid) (start : option Z) (T : Tables) (r : res TransactionStats) : Prop :=
  let l := List.filter (counted mid start) (map snd (map_to_list (transactions T))) in
  let revenue := total (succeeded TransactionTypePayment) l in
  let refunded := total (succeeded TransactionTypeRefund) l in
  let topup := total (succeeded TransactionTypeTopup) l in
  if given instant start && in_int64b revenue && in_int64b refunded && in_int64b topup
  then r = Ok (mkTransactionStats (Z.of_nat (length l)) (number (in_status TransactionStatusSuccess) l)
                 (number (in_status TransactionStatusFailed) l) (number (in_status TransactionStatusReversed) l)
                 revenue refunded topup)
  else exists e, r = Err (InternalError e).

(** Where a period that ends at [now] begins, [None] for one the service does not know. *)
Definition period_of (period : string) (now : time) : option (option Z) :=
  if (period =? "day")%string then Some (Some (Unix (now - 24 * Hour)))
  else if (period =? "week")%string then Some (Some (Unix (now - 7 * 24 * Hour)))
  else if (period =? "month")%string then Some (Some (Unix (AddDate now 0 (-1) 0)))
  else if (period =? "all")%string || (period =? "")%string then Some None
  else None.

Lemma AddDate_days t days : AddDate t 0 0 days = t + days * (24 * Hour).
Proof.
  unfold AddDate. destruct (civil (t / (24 * Hour))) as [[y m] d] eqn:Hc.
  apply civil_spec in Hc as (Hm & _ & Hd). cbv zeta.
  replace ((m - 1 + 0) / 12) with 0 by (symmetry; apply Z.div_small; lia).
  replace ((m - 1 + 0) mod 12 + 1) with m by (rewrite Z.mod_small; lia).
  assert (Hlin : days_of_civil y m d = days_of_civil y m 1 + (d - 1)) by (unfold days_of_civil; lia).
  rewrite !Z.add_0_r. replace (days_of_civil y m 1 + (d + days - 1)) with (t / (24 * Hour) + days) by lia.
  pose proof (Z.div_mod t (24 * Hour) ltac:(unfold Hour, Minute, Second; lia)). lia.
Qed.

Lemma total_perm f l l' : Permutation l l' -> total f l = total f l'.
Proof. unfold total. induction 1; simpl; repeat case_match; lia. Qed.

Lemma number_perm f l l' : Permutation l l' -> number f l = number f l'.
Proof. unfold number. intros H. f_equal. apply Permutation_length. induction H; simpl; repeat case_match; auto using perm_swap; by etrans. Qed.

Lemma sum_success_total typ l : sum_success typ l = total (succeeded typ) l.
Proof.
  unfold sum_success, total, succeeded, TransactionStatusSuccess. induction l as [|t l IH]; simpl; [done|].
  case_match; simpl; by rewrite IH.
Qed.

(** The statement of the statistics, by what it returns. *)
Lemma stats_eff ord now mid start cs args idx T :
  is_order ord ->
  TransactionRepo.clause CreatedGe (option_map VInt start)
    (TransactionRepo.clause MerchantIDEq (Some (VUuid mid)) ([], [], 1)) = (cs, args, idx) ->
  stats_answer mid start T (match stmt_eff ord now (SelectStats cs args) T with Ok (st, _) => Ok st | Err e => Err (InternalError e) end).
Proof.
  intros Hord Hcl.
  assert (Hw : match where_of args cs with
               | Ok f => given instant start = true /\ forall t, f t = counted mid start t
               | Err _ => given instant start = false
               end /\ length args = length cs).
  { destruct start as [z|]; simpl in Hcl; injection Hcl as <- <- _; (split; [|done]); take_args; read_args;
      (split; [done|]); intros t; unfold counted; simpl; by rewrite ?andb_true_r. }
  destruct Hw as [Hw Hlen]. cbn [stmt_eff]. rewrite Hlen, Nat.eqb_refl. unfold stats_answer.
  destruct (where_of args cs) as [f|e]; [|rewrite Hw; cbn [andb]; by eexists]. destruct Hw as [-> Hf]. cbn [result_bind andb].
  rewrite (rows_ext ord f (counted mid start)) by done. cbv zeta. set (l := List.filter (counted mid start) (map snd (map_to_list (transactions T)))).
  assert (Hp : Permutation (rows ord (counted mid start) (transactions T)) l) by apply Hord.
  set (l' := rows ord (counted mid start) (transactions T)) in *. unfold stats_of. rewrite !sum_success_total.
  change "PAYMENT" with TransactionTypePayment. change "REFUND" with TransactionTypeRefund. change "TOPUP" with TransactionTypeTopup.
  rewrite !(total_perm _ _ _ Hp). unfold scan_int64.
  destruct (in_int64b (total (succeeded TransactionTypePayment) l)); [|by eexists].
  destruct (in_int64b (total (succeeded TransactionTypeRefund) l)); [|by eexists].
  destruct (in_int64b (total (succeeded TransactionTypeTopup) l)); [|by eexists]. simpl.
  change (count (fun t => (tx_Status t =? ?s)%string)) with (number (in_status s)).
  by rewrite (Permutation_length Hp), <- !(number_perm _ _ _ Hp).
Qed.

Lemma get_stats_wp flt mid start es v :
  free flt v ->
  wp solo flt (try stats <- TransactionRepo.GetStats mid start catch err => fail (InternalError err) ;; ok stats)
    (fun r _ _ v' => v_tables v' = v_tables v /\ v_clock v <= v_clock v' /\ (flt = true \/ stats_answer mid start (v_tables v) r)) None es v.
Proof.
  intros Hf. unfold TransactionRepo.GetStats.
  destruct (TransactionRepo.clause CreatedGe _ _) as [[cs args] idx] eqn:Hcl. apply wp_bind, wp_bind, wp_stmt; [done|..].
  - intros ord now c st ws Hord Hc He. pose proof (stats_eff ord now mid start cs args idx (v_tables v) Hord Hcl) as Ha.
    rewrite He in Ha. pose proof He as He'. cbn [stmt_eff] in He'. repeat case_match; try discriminate He'.
    apply result_bind_Ok in He' as (f & _ & (st' & _ & [= <- <-])%result_bind_Ok).
    split; [|intros -> e _]; (split; [done|]; split; [simpl; lia|]); [by right|by left].
  - intros e c Hc _ Hwhy. split; [done|]. split; [simpl; lia|]. destruct Hwhy as [?|(ord & now & Hord & He)]; [by left|right].
    pose proof (stats_eff ord now mid start cs args idx (v_tables v) Hord Hcl) as Ha. rewrite He in Ha.
    unfold stats_answer in *. destruct (given _ _ && _ && _ && _); [done|]. by eexists.
Qed.

Lemma stats_wp flt mid period es v :
  free flt v ->
  wp solo flt (GetDashboardStats mid period)
    (fun r _ _ v' => v_tables v' = v_tables v /\
       (flt = true \/ exists now, v_clock v <= now <= v_clock v' /\
          match period_of period now with
          | Some start => stats_answer mid start (v_tables v) r
          | None => r = Err (Validation "invalid period: must be day, week, month, or all")
          end)) None es v.
Proof.
  intros Hf. unfold GetDashboardStats, period_start, period_of.
  assert (Hnow : forall (start : time -> Z) es,
    wp solo flt (try periodStart <- (do now <- op Now ;; ok (Some (start now))) catch err => fail err ;;
                 try stats <- TransactionRepo.GetStats mid periodStart catch err => fail (InternalError err) ;; ok stats)
      (fun r _ _ v' => v_tables v' = v_tables v /\
         (flt = true \/ exists now, v_clock v <= now <= v_clock v' /\ stats_answer mid (Some (start now)) (v_tables v) r)) None es v).
  { intros start es'. apply wp_bind, wp_bind, wp_solo_now. intros k Hk. cbn [ok wp]. eapply wp_mono; [|by apply get_stats_wp].
    intros r own es2 v' (HT & Hc & Ha). simpl in Hc. split; [done|]. destruct Ha as [?|Ha]; [by left|right]. by exists k. }
  repeat case_match.
  - eapply wp_mono; [|apply (Hnow (fun now => Unix (AddDate now 0 0 (-1))))].
    intros r own es2 v' [HT [?|(k & Hk & Ha)]]; (split; [done|]); [by left|right]. exists k. split; [done|].
    rewrite AddDate_days in Ha. replace (k - 24 * Hour) with (k + -1 * (24 * Hour)) by lia. exact Ha.
  - eapply wp_mono; [|apply (Hnow (fun now => Unix (AddDate now 0 0 (-7))))].
    intros r own es2 v' [HT [?|(k & Hk & Ha)]]; (split; [done|]); [by left|right]. exists k. split; [done|].
    rewrite AddDate_days in Ha. replace (k - 7 * 24 * Hour) with (k + -7 * (24 * Hour)) by lia. exact Ha.
  - apply (Hnow (fun now => Unix (AddDate now 0 (-1) 0))).
  - eapply wp_mono; [|by apply get_stats_wp]. intros r own es2 v' (HT & Hc & Ha). split; [done|].
    destruct Ha as [?|Ha]; [by left|right]. exists (v_clock v). split; [lia|exact Ha].
  - split; [done|]. right. exists (v_clock v). split; [lia|done].
Qed.

Context {B : Backend} {BL : BackendLaws}.

(** C35: the statistics of the dashboard are the numbers and sums over exactly the merchant's
    transactions of the period, which ends now and began 24 hours, seven times as much, or a
    calendar month ago, or never; they are an error for a period of another name, for sums
    past 64 bits, and for a clock past the database's calendar. *)
Theorem stats_exact mid period s :
  ready s -> idle s -> reliable s ->
  exists r es s' now,
    run (GetDashboardStats mid period) [] s = Some (r, es, s') /\ tables s' = tables s /\
    v_clock (view s) <= now <= v_clock (view s') /\
    match period_of period now with
    | Some start => stats_answer mid start (tables s) r
    | None => r = Err (Validation "invalid period: must be day, week, month, or all")
    end.
Proof.
  intros Hs Hi Hr.
  destruct (solo_total _ _ _ _ (stats_wp false mid period [] (view s) (idle_free _ _ Hi)) (ready_locked _ Hs) Hr)
    as (r & es & s' & Hrun & (own & HT & [[=]|(now & Hnow & Ha)]) & _). exists r, es, s', now. done.
Qed.
End Statistics.
