(* ===== verification/HttpMoney.v ===== *)
(** The requests that move money, from HTTP to their answers: the middleware, the handlers and
    the service put together. *)

From S2P Require Export Money Delivery RateLimits Requests.

(** ** A goroutine of the service that runs alone *)

Section Alone.
Context {U : UUIDLib} {UL : UUIDLaws} {P : PgLib} {JL : JsonbLaws} {ES : EncryptionService}.

(** What is proved of a program under the ledger's discipline holds of it alone. *)
Lemma ledger_solo {A : Type} flt (p : prog A) Q own es v :
  good (ledger eq true) v -> wp (ledger eq true) flt p Q own es v ->
  wp solo flt p (fun r own es v' => Q r own es v' /\ good (ledger eq true) v') own es v.
Proof.
  revert flt own es v. induction p as [A a|A X o k IH|A c IHc k IH]; intros flt own es v Hg Hw.
  - by split.
  - destruct Hw as [Hown Hw]. split; [done|]. intros v1 Hk Hrely Hwl _.
    assert (Hr : d_rely (ledger eq true) v v1 /\ d_inv (ledger eq true) v1).
    { destruct Hrely as (c & _ & ->). destruct Hg as [_ Hi]. split; [by split|exact Hi]. }
    destruct Hr as [Hr Hi]. destruct (Hw v1 Hk Hr Hwl Hi) as [Hb Hs]. split; [done|].
    intros x v' Ho. destruct (Hs x v' Ho) as [Hgu Hk']. split; [done|]. apply IH; [|done]. split.
    + eapply ok_locked; [by eapply op_spec_keeps|done].
    + eapply (guar_inv (D := ledger eq true)); done.
  - destruct Hw as [Hc Hk]. split; [|by apply IH].
    eapply wp_mono; [|by apply (IHc _ true None [] v Hg Hc)]. done.
Qed.
End Alone.

(** ** The handlers *)

Section Handler.
Context {U : UUIDLib} {UL : UUIDLaws} {P : PgLib} {JL : JsonbLaws} {ES : EncryptionService} {EL : EncryptionLaws}.
Context {HS : HashService} {HL : HashLaws} {SS : SignatureService} {SL : SignatureLaws} {TS : TokenService} {TL : TokenLaws}.
Context {UP : URLParser} {RU : RequestURI} {V : Validator} {VL : ValidatorLaws} {GF : GinFallback}.

(** The routes that move money, and the kinds of their handlers. *)
Inductive Route := RPayment | RRefund | RTopup.

Definition route_path (rt : Route) : string :=
  match rt with
  | RPayment => "/api/v1/payments"
  | RRefund => "/api/v1/payments/refund"
  | RTopup => "/api/v1/wallets/topup"
  end.

Definition route_group (rt : Route) : string :=
  match rt with RPayment => "payments" | RRefund => "payments_refund" | RTopup => "wallets_topup" end.

Definition route_handler (rt : Route) (webhooks persistent : bool) : Ctx -> prog Ctx :=
  match rt with
  | RPayment => handle_ProcessPayment webhooks persistent
  | RRefund => handle_ProcessRefund webhooks persistent
  | RTopup => handle_Topup webhooks persistent
  end.

(** The context is answered with the envelope of [data]. *)
Definition answered_with (status : Z) (data : json) (c : Ctx) : Prop :=
  exists id now, c_Answer c = Some (mkAnswer status (JSON (SuccessResponse data id now))).

(** What the body of [c] asks for, on behalf of the merchant [mid]. *)
Inductive asks (c : Ctx) (mid : uuid) : Route -> Movement -> Prop :=
| asks_payment (body : PaymentBody) : ShouldBindJSON (rq_Body (c_Request c)) = Ok body ->
    asks c mid RPayment (Pay (mkPaymentRequest mid (pb_ReferenceID body) (pb_Amount body) (pb_Currency body) ""
                                (ClientIP c) (option_map sanitize (pb_ExtraData body))))
| asks_refund (body : RefundBody) : ShouldBindJSON (rq_Body (c_Request c)) = Ok body ->
    asks c mid RRefund (GiveBack (mkRefundRequest mid (fb_OriginalReferenceID body) (fb_Amount body)
                                    (sanitize (fb_Reason body)) "" (ClientIP c)))
| asks_topup (body : TopupBody) : ShouldBindJSON (rq_Body (c_Request c)) = Ok body ->
    asks c mid RTopup (PayIn (mkTopupRequest mid (tb_Amount body) (sanitize (tb_Currency body)))).

(** The body cannot be bound. *)
Definition malformed (c : Ctx) (rt : Route) (e : error) : Prop :=
  match rt with
  | RPayment => ShouldBindJSON (A := PaymentBody) (rq_Body (c_Request c)) = Err e
  | RRefund => ShouldBindJSON (A := RefundBody) (rq_Body (c_Request c)) = Err e
  | RTopup => ShouldBindJSON (A := TopupBody) (rq_Body (c_Request c)) = Err e
  end.

Lemma asks_valid c mid rt o : asks c mid rt o -> movement_valid o.
Proof.
  intros [body Hb|body Hb|body Hb]; [|done|by apply bound_topup in Hb as [Ha _]].
  apply bound_payment in Hb as (Ha & _ & _ & _ & Hr & _). by split.
Qed.

Definition transaction_answer (txn : Transaction) : Ctx -> Prop :=
  answered_with StatusCreated (TransactionResponse_json (toTransactionResponse txn)).

(** The merchant is told: the delivery of the transaction to its URL, signed with its secret,
    was started; only failures prevent that. *)
Definition notified (flt webhooks persistent : bool) (T : Tables) (txn : Transaction) (es : list event) : Prop :=
  flt = false -> webhooks = true -> forall url m secretKey,
  webhook_of T txn = Some (url, m) -> Decrypt (m_SecretKeyEnc m) = Ok secretKey ->
  exists currency now, delivery_of persistent txn url secretKey currency now ∈ es.

Lemma notified_more flt webhooks persistent T txn es es' :
  notified flt webhooks persistent T txn es -> notified flt webhooks persistent T txn (es ++ es').
Proof.
  intros Hn Hf Hw url m sk Hu Hd. destruct (Hn Hf Hw url m sk Hu Hd) as (currency & now & Hin).
  exists currency, now. apply elem_of_app. by left.
Qed.

(** How a handler ends, from the tables [T], and what it started. *)
Inductive handled (flt webhooks persistent : bool) (rt : Route) (c : Ctx) (mid : uuid) (T : Tables) : Ctx -> Tables -> list event -> Prop :=
| hd_malformed e c' es : malformed c rt e -> answers_error (Validation (error_text e)) c' ->
    handled flt webhooks persistent rt c mid T c' T es
| hd_error o e c' T' es : asks c mid rt o -> movement_outcome flt o T (Err e) T' -> answers_error e c' ->
    handled flt webhooks persistent rt c mid T c' T' es
| hd_done o txn c' T' es : asks c mid rt o -> movement_outcome flt o T (Ok txn) T' -> transaction_answer txn c' ->
    notified flt webhooks persistent T' txn es -> handled flt webhooks persistent rt c mid T c' T' es.

Lemma handled_more flt webhooks persistent rt c mid T c' T' es es' :
  handled flt webhooks persistent rt c mid T c' T' es -> handled flt webhooks persistent rt c mid T c' T' (es ++ es').
Proof.
  intros [e c1 es1 He Hc|o e c1 T1 es1 Hk Ho Hc|o txn c1 T1 es1 Hk Ho Hc Hn];
    [by eapply hd_malformed|by eapply hd_error|by eapply hd_done; [..|by apply notified_more]].
Qed.

(** Webhooks leave the tables alone. *)
Lemma respond_wp flt webhooks persistent c txn (R : Ctx -> Tables -> list event -> Prop) own es v :
  free flt v ->
  (forall c' es', transaction_answer txn c' -> notified flt webhooks persistent (v_tables v) txn es' -> R c' (v_tables v) es') ->
  wp solo flt (respond webhooks persistent c txn) (fun c' _ es v' => R c' (v_tables v') es) own es v.
Proof.
  intros Hf HR.
  assert (Hcreated : forall es k, notified flt webhooks persistent (v_tables v) txn es ->
    wp solo flt (Created c (TransactionResponse_json (toTransactionResponse txn)))
      (fun c' _ es v' => R c' (v_tables v') es) own es (set_clock k v)).
  { intros es' k Hn. apply wp_bind, wp_bind, wp_solo_uuid. intros k1 id Hk1. apply wp_bind, wp_solo_now. intros k2 Hk2.
    apply HR; [by eexists _, _|by apply notified_more]. }
  unfold respond. apply wp_bind. destruct webhooks.
  - apply wp_bind. apply enqueue_wp; [done|..].
    + intros r k _ Hnone. apply Hcreated. intros Hfl _ url m sk Hu Hd.
      destruct (Hnone Hfl) as [Hno|(url' & m' & e & Hu' & Hd')]; [congruence|].
      rewrite Hu in Hu'. injection Hu' as <- <-. congruence.
    + intros url m secretKey currency now k Hu Hd _. apply Hcreated. intros _ _ url' m' sk Hu' Hd'.
      rewrite Hu in Hu'. injection Hu' as <- <-. rewrite Hd in Hd'. injection Hd' as <-.
      exists currency, now. apply elem_of_app. right. by left.
  - pose proof (Hcreated es (v_clock v)) as H. destruct v. by apply H.
Qed.

(** A call of the service leaves no transaction open. *)
Lemma carry_out_tidy flt o es v :
  movement_valid o -> good (ledger eq true) v -> free flt v ->
  wp solo flt (carry_out o) (fun r _ _ v' => movement_outcome flt o (v_tables v) r (v_tables v') /\ free flt v') None es v.
Proof.
  intros Hv Hg Hf.
  assert (Hw : wp solo flt (carry_out o) (fun r _ _ v' => movement_outcome flt o (v_tables v) r (v_tables v')) None es v).
  { eapply wp_mono; [|apply ledger_solo; [exact Hg|apply carry_out_wp; [done|exact Hg|]]].
    - by intros r own es' v' [Ho _].
    - intros Hfl h Hh. by destruct (Hf Hfl h). }
  destruct flt; [by eapply wp_mono; [|exact Hw]|].
  apply wp_and; [exact Hw|]. eapply wp_mono; [|].
  2:{ destruct o as [req|req|req];
        [apply (serves_payment (PieceLogic := tidy_logic) req Hv false es v (Hf eq_refl))
        |apply (serves_refund (PieceLogic := tidy_logic) req false es v (Hf eq_refl))
        |apply (serves_topup (PieceLogic := tidy_logic) req Hv false es v (Hf eq_refl))]. }
  intros r own es' v' Hun _. exact Hun.
Qed.

(** The tail of the three handlers. *)
Lemma carried_wp flt webhooks persistent rt c c0 mid o es v :
  asks c mid rt o -> good (ledger eq true) v -> free flt v ->
  wp solo flt (do r <- carry_out o ;; match r with Ok result => respond webhooks persistent c0 result | Err err => Error c0 err end)
    (fun c' _ es v' => handled flt webhooks persistent rt c mid (v_tables v) c' (v_tables v') es) None es v.
Proof.
  intros Ha Hg Hf. apply wp_bind. eapply wp_mono; [|apply carry_out_tidy; [by eapply asks_valid|done|done]].
  intros [txn|e] own es' v' [Ho Hf'].
  - apply (respond_wp _ _ _ _ _ (handled flt webhooks persistent rt c mid (v_tables v))); [done|].
    intros c' es2 Hc' Hn. by eapply hd_done.
  - apply Error_answers. intros c' es2 k Hc' _. by eapply hd_error.
Qed.

Lemma handler_wp flt rt webhooks persistent c mid es v :
  good (ledger eq true) v -> free flt v -> c_MerchantID c = Some mid ->
  wp solo flt (route_handler rt webhooks persistent c)
    (fun c' _ es v' => handled flt webhooks persistent rt c mid (v_tables v) c' (v_tables v') es) None es v.
Proof.
  intros Hg Hf Hmid.
  assert (Hbad : forall e es, malformed c rt e -> wp solo flt (Error c (Validation (error_text e)))
    (fun c' _ es v' => handled flt webhooks persistent rt c mid (v_tables v) c' (v_tables v') es) None es v).
  { intros e es' He. apply Error_answers. intros c' es2 k Hc' _. by eapply hd_malformed. }
  destruct rt; cbn [route_handler]; unfold handle_ProcessPayment, handle_ProcessRefund, handle_Topup, authenticated, with_body;
    rewrite Hmid; destruct (ShouldBindJSON _) as [body|e] eqn:Hb; try (by apply Hbad).
  - pose proof (bound_payment _ _ Hb) as (_ & _ & _ & _ & _ & _ & ->). exact (carried_wp _ _ _ _ _ c _ _ es v (asks_payment c mid body Hb) Hg Hf).
  - pose proof (bound_refund _ _ Hb) as [_ ->]. exact (carried_wp _ _ _ _ _ c _ _ es v (asks_refund c mid body Hb) Hg Hf).
  - exact (carried_wp _ _ _ _ _ c _ _ es v (asks_topup c mid body Hb) Hg Hf).
Qed.
End Handler.

(** ** The rate limiter before them *)

Section Limiter.
Context {U : UUIDLib} {UL : UUIDLaws} {P : PgLib} {JL : JsonbLaws} {ES : EncryptionService}.
Context {HS : HashService} {SS : SignatureService} {TS : TokenService}.
Context {UP : URLParser} {RU : RequestURI} {V : Validator} {GF : GinFallback}.

(** Only the clock and keys outside the idempotency cache may differ. *)
Record same_ledger (v v' : View) : Prop := {
  sl_tables : v_tables v' = v_tables v;
  sl_txs : v_txs v' = v_txs v;
  sl_locks : v_locks v' = v_locks v;
  sl_cache k : v_redis v' !! (IdempotencyCache.prefix +:+ k) = v_redis v !! (IdempotencyCache.prefix +:+ k)
}.

Lemma same_ledger_good v v' : same_ledger v v' -> good (ledger eq true) v -> good (ledger eq true) v'.
Proof.
  intros [HT Hx Hl Hc] (Hw & Hwf & Hcache). split; [|split; [by rewrite HT|]].
  - by eapply locks_ok_same.
  - intros key s e. rewrite Hc, HT. apply Hcache.
Qed.

Lemma same_ledger_trans v1 v2 v3 : same_ledger v1 v2 -> same_ledger v2 v3 -> same_ledger v1 v3.
Proof. intros [A1 B1 C1 D1] [A2 B2 C2 D2]. split; congruence || (intros k; by rewrite D2, D1). Qed.

Lemma same_ledger_clock v k : same_ledger v (set_clock k v).
Proof. done. Qed.

Lemma same_ledger_redis v key entry : foreign key -> same_ledger v (set_redis key entry v).
Proof. intros Hf. split; [done..|]. intros k. simpl. by rewrite lookup_insert_ne. Qed.

Lemma same_ledger_free flt v v' : same_ledger v v' -> free flt v -> free flt v'.
Proof. intros Hs Hf Hfl h. unfold tx_open. rewrite (sl_txs _ _ Hs). by apply Hf. Qed.

Lemma nonce_foreign m n : foreign (nonce_key m n).
Proof. intros k [=]. Qed.

(** The counter of the client's group stood at the limit, by the instant [late]. *)
Definition over_limit (deps : RouterDeps) (group : string) (v : View) (c : Ctx) (late : time) : Prop :=
  exists rule now s e n, d_RateLimitStore deps = true /\ (group, rule) ∈ DefaultRateLimitRules /\ v_clock v <= now <= late /\
    v_redis v !! RateLimitStore.redis_key (extractIdentifier c +:+ ":" +:+ group) (window_id (rl_Window rule) now) = Some (s, e) /\
    ParseInt s = Ok n /\ rl_Limit rule <= n.

Lemma over_limit_late deps group v c t t' : over_limit deps group v c t -> t <= t' -> over_limit deps group v c t'.
Proof. intros (rule & now & s & e & n & ? & ? & ? & ? & ? & ?) Hle. exists rule, now, s, e, n. split_and!; try done; lia. Qed.

Lemma live_row v k s : live v k = Some s -> exists e, v_redis v !! k = Some (s, e).
Proof. unfold live. intros H. repeat case_match; simplify_eq; eauto. Qed.

(** The commands of the limiter: nothing but a counter changes, and the count is one more than
    what was kept. *)
Lemma count_wp flt k Q own es v :
  foreign k ->
  (forall x v', same_ledger v v' -> v_clock v <= v_clock v' ->
     (forall count, x = Ok count -> count = 1 \/ exists s e, v_redis v !! k = Some (s, e) /\ ParseInt s = Ok (count - 1)) ->
     Q x own es v') ->
  wp solo flt (op (RedisIncr k)) Q own es v.
Proof.
  intros Hk HQ. apply wp_solo; [done|by intros _ _ [] []|]. intros c x v' Hc Hat. simpl in Hat. rewrite app_nil_r.
  destruct (ParseInt (default "0" (live (set_clock c v) k))) as [n|e] eqn:Hp.
  2:{ destruct Hat as [(e' & -> & _) ->]. by apply HQ. }
  destruct (n =? max_int64); [destruct Hat as [(e' & -> & _) ->]; by apply HQ|].
  assert (Hn : forall count, Ok (n + 1) = Ok (E := error) count -> count = 1 \/ exists s e, v_redis v !! k = Some (s, e) /\ ParseInt s = Ok (count - 1)).
  { intros count [= <-]. destruct (live (set_clock c v) k) as [s|] eqn:Hl.
    - right. apply live_row in Hl as [e He]. exists s, e. split; [exact He|]. by rewrite Z.add_simpl_r.
    - left. change (ParseInt (default "0" None)) with (Ok (E := error) 0) in Hp. injection Hp as <-. done. }
  assert (Hs : forall en, same_ledger v (set_redis k en (set_clock c v))).
  { intros en. eapply same_ledger_trans; [apply (same_ledger_clock v c)|by apply same_ledger_redis]. }
  destruct Hat as [[[->|[_ (e & -> & _)]] ->]|[[_ (e & -> & _)] ->]]; by apply HQ.
Qed.

Lemma expire_wp flt k ttl Q own es v :
  foreign k -> (forall x v', same_ledger v v' -> v_clock v <= v_clock v' -> Q x own es v') ->
  wp solo flt (op (RedisExpire k ttl)) Q own es v.
Proof.
  intros Hk HQ. apply wp_solo; [done|by intros _ _ [] []|]. intros c x v' Hc Hat. simpl in Hat. rewrite app_nil_r.
  assert (Hs : forall en, same_ledger v (set_redis k en (set_clock c v))).
  { intros en. eapply same_ledger_trans; [apply (same_ledger_clock v c)|by apply same_ledger_redis]. }
  destruct Hat as [[_ ->]|[_ ->]]; [destruct (live _ k)|]; by apply HQ.
Qed.

(** The limiter lets the rest of the chain run on the same request and merchant, or refuses
    for its reason. *)
Lemma rl_wp flt deps group next c (R : Ctx -> Tables -> time -> list event -> Prop) es v :
  (forall c' v', same_ledger v v' -> v_clock v <= v_clock v' -> c_Request c' = c_Request c -> c_MerchantID c' = c_MerchantID c ->
     wp solo flt (next c') (fun c _ es v' => R c (v_tables v') (v_clock v') es) None es v') ->
  (forall c' late es', answers_error ErrRateLimitExceeded c' -> over_limit deps group v c late -> R c' (v_tables v) late es') ->
  wp solo flt (rl deps group next c) (fun c _ es v' => R c (v_tables v') (v_clock v') es) None es v.
Proof.
  intros Hnext Hno. unfold rl. destruct (d_RateLimitStore deps) eqn:Hstore; [|by apply Hnext].
  destruct (find _ _) as [[g rule]|] eqn:Hfind; [|by apply Hnext].
  apply find_some in Hfind as [Hin%list_elem_of_In Hg]. apply String.eqb_eq in Hg. simpl in Hg. subst g.
  unfold RateLimiter, RateLimitStore.Allow.
  assert (Hforeign : forall key wid, foreign (RateLimitStore.redis_key key wid)) by (intros key wid k [=]).
  apply wp_bind, wp_bind, wp_solo_now. intros now Hnow. apply wp_bind. apply count_wp; [apply Hforeign|].
  intros x v1 Hv1 Hc1 Hcount. simpl in Hc1. assert (Hs1 : same_ledger v v1) by (eapply same_ledger_trans; [apply (same_ledger_clock v now)|exact Hv1]).
  destruct x as [count|e]; [|by apply Hnext; [|lia|..]].
  assert (Hfin : forall v2 result, same_ledger v v2 -> now <= v_clock v2 -> (Allowed result = false -> rl_Limit rule < count) ->
    wp solo flt (let c := rate_limit_headers result c in
                 if negb (Allowed result) then
                   do now <- op Now ;;
                   let retryAfter := sub64 (ResetAt result) (Unix now) in
                   Error (Header "Retry-After" (FormatInt (if retryAfter <? 1 then 1 else retryAfter)) c) ErrRateLimitExceeded
                 else next c) (fun c _ es v' => R c (v_tables v') (v_clock v') es) None es v2).
  { intros v2 result Hv2 Hc2 Hover. cbv zeta. destruct (Allowed result); cbn [negb]; [by apply Hnext; [|lia|..]|].
    apply wp_bind, wp_solo_now. intros k Hk. apply Error_answers. intros c' es' k' Hc' Hk'. simpl. rewrite (sl_tables _ _ Hv2).
    apply Hno; [done|]. destruct (Hcount count eq_refl) as [->|(s & e & Hrow & Hp)].
    - pose proof (default_limit _ _ Hin). specialize (Hover eq_refl). lia.
    - specialize (Hover eq_refl). simpl in Hk'. exists rule, now, s, e, (count - 1). split_and!; [done..|lia|exact Hrow|done|lia]. }
  apply wp_bind. destruct (count =? 1).
  - apply wp_bind, expire_wp; [apply Hforeign|]. intros x v2 Hv2 Hc2. apply Hfin; [by eapply same_ledger_trans|lia|].
    intros Ha. simpl in Ha. by apply Z.leb_gt in Ha.
  - apply Hfin; [done|lia|]. intros Ha. simpl in Ha. by apply Z.leb_gt in Ha.
Qed.
End Limiter.

(** ** The routes *)

Section Routes.
Context {U : UUIDLib} {UL : UUIDLaws} {P : PgLib} {JL : JsonbLaws} {ES : EncryptionService} {EL : EncryptionLaws}.
Context {HS : HashService} {HL : HashLaws} {SS : SignatureService} {SL : SignatureLaws} {TS : TokenService} {TL : TokenLaws}.
Context {UP : URLParser} {RU : RequestURI} {V : Validator} {VL : ValidatorLaws} {GF : GinFallback}.

(** The request may act for the merchant [mid]: it is signed, or carries a token, at an instant
    between its arrival at [v] and [late]; the rest of the chain sees the context given. *)
Inductive admitted (rt : Route) (v : View) (c : Ctx) (late : time) : uuid -> Ctx -> Prop :=
| ad_signed m timestamp body now : rt <> RTopup -> signed_by (v_tables v) c m timestamp body ->
    v_clock v <= now <= late -> drifted now timestamp = false -> admitted rt v c late (m_ID m) (as_merchant m body c)
| ad_bearer claims now : rt = RTopup -> v_clock v <= now <= late -> bearer now c claims ->
    admitted rt v c late (tc_MerchantID claims) (as_bearer claims c).

(** Every way a request to a money route can end, and why: not signed, without a valid token,
    too frequent, or handled for the merchant it acts for. *)
Inductive verdict (flt : bool) (deps : RouterDeps) (rt : Route) (r : Request) (v : View) (late : time) : Ctx -> Tables -> list event -> Prop :=
| vd_unsigned e c es : rt <> RTopup -> unsigned flt v (entry r) late e -> answers_error e c ->
    verdict flt deps rt r v late c (v_tables v) es
| vd_untokened now c es : rt = RTopup -> v_clock v <= now <= late -> (forall claims, ~ bearer now (entry r) claims) ->
    answers_error ErrInvalidToken c -> verdict flt deps rt r v late c (v_tables v) es
| vd_limited mid c0 c es : admitted rt v (entry r) late mid c0 -> over_limit deps (route_group rt) v c0 late ->
    answers_error ErrRateLimitExceeded c -> verdict flt deps rt r v late c (v_tables v) es
| vd_handled mid c0 c T es : admitted rt v (entry r) late mid c0 ->
    handled flt (d_WebhookSvc deps) (d_WebhookRepo deps) rt c0 mid (v_tables v) c T es -> verdict flt deps rt r v late c T es.

Lemma unsigned_late flt v k c t t' e :
  unsigned flt (set_clock k v) c t e -> v_clock v <= k -> t <= t' -> unsigned flt v c t' e.
Proof.
  intros He Hk Ht. destruct He as [name Hin Hn|e Hp|now ts Hn Hp Hd|e Hr|Hr Hun|m Hm Ha|m now Hm Hn Hl|m e Hm Hd|e Hb|m sk ts body Hm Hd Hp Hb Hs|e Hf];
    simpl in *.
  - by eapply us_header.
  - by eapply us_number.
  - eapply us_drift; [|done..]. lia.
  - by apply us_text.
  - by apply us_unknown.
  - by eapply us_suspended.
  - eapply us_nonce; [done| |done]. lia.
  - by eapply us_sealed.
  - by eapply us_body.
  - by eapply us_signature.
  - by apply us_fault.
Qed.

Lemma admitted_late rt v c t t' mid c0 : admitted rt v c t mid c0 -> t <= t' -> admitted rt v c t' mid c0.
Proof.
  intros [m ts body now Hrt Hs Hn Hd|claims now Hrt Hn Hb] Hle.
  - eapply ad_signed; [done|exact Hs| |exact Hd]. lia.
  - eapply ad_bearer; [done| |exact Hb]. lia.
Qed.

Lemma verdict_late flt deps rt r v c T t t' es es' :
  verdict flt deps rt r v t c T es -> t <= t' -> verdict flt deps rt r v t' c T (es ++ es').
Proof.
  intros [e c1 es1 Hrt He Hc|now c1 es1 Hrt Hn Hb Hc|mid c0 c1 es1 Ha Ho Hc|mid c0 c1 T1 es1 Ha Hh] Hle.
  - eapply vd_unsigned; [done| |done]. eapply unsigned_late; [|reflexivity|done]. by destruct v.
  - eapply vd_untokened; [done| |done..]. lia.
  - eapply vd_limited; [by eapply admitted_late| |done]. by eapply over_limit_late.
  - eapply vd_handled; [by eapply admitted_late|by apply handled_more].
Qed.

Lemma over_limit_earlier deps group v v1 c t :
  over_limit deps group v1 c t -> v_clock v <= v_clock v1 ->
  (forall key wid, v_redis v1 !! RateLimitStore.redis_key key wid = v_redis v !! RateLimitStore.redis_key key wid) ->
  over_limit deps group v c t.
Proof.
  intros (rule & now & s & e & n & ? & ? & ? & Hrow & ? & ?) Hc Hr. rewrite Hr in Hrow.
  exists rule, now, s, e, n. split_and!; try done; lia.
Qed.

(** What follows the authentication: the limiter, then the handler. *)
Lemma route_tail_wp flt deps rt r v v1 mid c0 es :
  good (ledger eq true) v -> free flt v -> same_ledger v v1 -> v_clock v <= v_clock v1 ->
  (forall key wid, v_redis v1 !! RateLimitStore.redis_key key wid = v_redis v !! RateLimitStore.redis_key key wid) ->
  (forall late, v_clock v1 <= late -> admitted rt v (entry r) late mid c0) -> c_MerchantID c0 = Some mid ->
  wp solo flt (rl deps (route_group rt) (route_handler rt (d_WebhookSvc deps) (d_WebhookRepo deps)) c0)
    (fun c _ es v' => verdict flt deps rt r v (v_clock v') c (v_tables v') es) None es v1.
Proof.
  intros Hg Hf Hs Hc Hr Ha Hmid. apply (rl_wp flt deps _ _ _ (fun c T t es => verdict flt deps rt r v t c T es)).
  - intros c' v2 Hv2 Hc2 Hreq Hm. assert (Hs2 : same_ledger v v2) by (by eapply same_ledger_trans).
    eapply wp_mono; [|apply wp_clock; [exact Hc2|]; apply (handler_wp flt rt _ _ c' mid);
      [by eapply same_ledger_good|by eapply same_ledger_free|congruence]].
    intros c2 own es2 v3 [Hh Hv3]. eapply vd_handled; [by apply Ha|]. rewrite (sl_tables _ _ Hs2) in Hh.
    destruct Hh as [e c3 es3 He Hc3|o e c3 T3 es3 Hk Ho Hc3|o txn c3 T3 es3 Hk Ho Hc3 Hno].
    + eapply hd_malformed; [|exact Hc3]. unfold malformed in *. by rewrite Hreq in He.
    + eapply hd_error; [|exact Ho|exact Hc3]. destruct Hk; unfold ClientIP in *; rewrite Hreq in *; by constructor.
    + eapply hd_done; [|exact Ho|exact Hc3|exact Hno]. destruct Hk; unfold ClientIP in *; rewrite Hreq in *; by constructor.
  - intros c' late es2 Hc' Ho. rewrite (sl_tables _ _ Hs). eapply vd_limited; [|by eapply over_limit_earlier|exact Hc'].
    apply Ha. destruct Ho as (rule & now & _ & _ & _ & _ & _ & Hn & _). lia.
Qed.

Lemma nonce_keeps_counters v mid nonce entry k key wid :
  v_redis (set_redis (nonce_key mid nonce) entry (set_clock k v)) !! RateLimitStore.redis_key key wid =
  v_redis v !! RateLimitStore.redis_key key wid.
Proof. simpl. by rewrite lookup_insert_ne. Qed.

Lemma signed_route_wp flt deps rt r es v :
  good (ledger eq true) v -> free flt v -> rt <> RTopup ->
  route deps "POST" (route_path rt) =
    Some [HMACAuth; rl deps (route_group rt); final (route_handler rt (d_WebhookSvc deps) (d_WebhookRepo deps))] ->
  rq_Method r = "POST" -> rq_Path r = route_path rt ->
  wp solo flt (ServeHTTP deps r) (fun c _ es v' => verdict flt deps rt r v (v_clock v') c (v_tables v') es) None es v.
Proof.
  intros Hg Hf Hrt Hroute Hm Hp. unfold ServeHTTP. rewrite Hm, Hp, Hroute.
  apply (global_wp flt deps _ r (fun c T t es => verdict flt deps rt r v t c T es)); [intros; by eapply verdict_late|].
  intros k es' Hk. apply HMACAuth_wp; [|done|].
  - intros e c' es2 v' He Hc HT Hv'. simpl in HT. rewrite HT. eapply vd_unsigned; [done| |done].
    eapply unsigned_late; [exact He|exact Hk|done].
  - intros m ts body k1 k2 v1 es2 Hs Hk1 Hk2 Hd Hv1 _. simpl in Hs, Hk1. cbn [foldr chain final].
    apply (route_tail_wp flt deps rt r v v1 (m_ID m)); try done.
    + destruct Hv1 as [[_ ->]| ->]; [done|]. eapply same_ledger_trans; [apply (same_ledger_clock v k2)|].
      by apply (same_ledger_redis (set_clock k2 v)), nonce_foreign.
    + destruct Hv1 as [[_ ->]| ->]; simpl; lia.
    + intros key wid. destruct Hv1 as [[_ ->]| ->]; [done|]. apply (nonce_keeps_counters (set_clock k v)).
    + intros late Hl. eapply ad_signed; [done|exact Hs| |exact Hd]. destruct Hv1 as [[_ ->]| ->]; simpl in Hl; lia.
Qed.

(** A request to a money route is decided. *)
Lemma verdict_wp flt deps rt r es v :
  good (ledger eq true) v -> free flt v -> rq_Method r = "POST" -> rq_Path r = route_path rt ->
  wp solo flt (ServeHTTP deps r) (fun c _ es v' => verdict flt deps rt r v (v_clock v') c (v_tables v') es) None es v.
Proof.
  intros Hg Hf Hm Hp. destruct rt; [by apply signed_route_wp..|].
  unfold ServeHTTP. rewrite Hm, Hp.
  change (route deps "POST" (route_path RTopup))
    with (Some [JWTAuth; rl deps (route_group RTopup); final (route_handler RTopup (d_WebhookSvc deps) (d_WebhookRepo deps))]).
  apply (global_wp flt deps _ r (fun c T t es => verdict flt deps RTopup r v t c T es)); [intros; by eapply verdict_late|].
  intros k es' Hk. apply JWTAuth_wp.
  - intros claims k1 Hk1 Hb. simpl in Hk1. cbn [foldr chain final].
    apply (route_tail_wp flt deps RTopup r v _ (tc_MerchantID claims)); try done; [simpl; lia|].
    intros late Hl. eapply ad_bearer; [done| |exact Hb]. simpl in Hl. lia.
  - intros c' es2 now k1 Hc Hn Hb. simpl in Hn |- *. eapply vd_untokened; [done| |exact Hb|exact Hc]. lia.
Qed.
End Routes.
