(* ===== verification/Codecs.v ===== *)
(** What is written can be read back: ciphers, cached answers; and what must not be confused is
    not: canonical strings, idempotency keys. *)

From S2P Require Export EncryptionService SignatureService AccountTheorems.
From Stdlib Require Import Ascii.

Section Codecs.
Context {U : UUIDLib} {UL : UUIDLaws} {P : PgLib} {JL : JsonbLaws}.

(** C37: an answer that was stored reads back, from Redis as it was marshalled and from
    PostgreSQL as JSONB keeps it, as the transaction that was answered, without the fields
    its JSON leaves out. *)
Theorem cached_answer_roundtrip t row data kept :
  in_int64 (tx_Amount t) -> store_transaction t = Ok row -> Marshal_Transaction t = Ok data -> jsonb_col data = Ok kept ->
  Unmarshal_Transaction data = Ok (visible t) /\ unmarshalCachedTransaction data = Ok (visible t) /\
  unmarshalCachedTransaction kept = Ok (visible t).
Proof.
  intros Ha Hs Hm Hj. destruct (stored_json _ _ _ Hs Ha Hm) as [Hsafe _]. split_and!.
  - by apply Unmarshal_Marshal.
  - by eapply unmarshal_marshal.
  - by eapply unmarshal_jsonb.
Qed.

Context {B : Backend} {BL : BackendLaws}.

Lemma gcm_seal_length key nonce plaintext :
  String.length (gcm_seal key nonce plaintext) = (String.length nonce + String.length plaintext + 16)%nat.
Proof.
  unfold gcm_seal. rewrite !str_length_app, !length_string_of, gcm_ctr_length, length_bytes_of, gcm_tag_length. lia.
Qed.

(** C38: with any key the constructor takes, whatever the entropy source yields, encrypting
    ends in a lowercase hexadecimal text of 2 * (28 + length) digits that decrypts to the
    plaintext, or in an error when no random bytes came; it touches no table. *)
Theorem encryption_roundtrip hexKey aes plaintext s r es s' :
  NewAESEncryptionService hexKey = Ok aes -> locks_ok (view s) ->
  run (aes_Encrypt aes plaintext) [] s = Some (r, es, s') ->
  tables s' = tables s /\
  match r with
  | Ok cipher => aes_Decrypt aes cipher = Ok plaintext /\ string_forallb is_lower_hex cipher = true /\
                 String.length cipher = (2 * (28 + String.length plaintext))%nat
  | Err e => exists e', e = Errorf "generating nonce" e'
  end.
Proof.
  intros Hk Hwl Hr. apply new_aes_valid in Hk.
  assert (Hw : wp solo true (aes_Encrypt aes plaintext)
    (fun r _ _ v' => v_tables v' = v_tables (view s) /\
      match r with
      | Ok cipher => aes_Decrypt aes cipher = Ok plaintext /\ string_forallb is_lower_hex cipher = true /\
                     String.length cipher = (2 * (28 + String.length plaintext))%nat
      | Err e => exists e', e = Errorf "generating nonce" e'
      end) None [] (view s)).
  { unfold aes_Encrypt. rewrite new_cipher_valid by done. apply wp_bind, wp_solo_rand.
    - intros c nonce Hc Hn. split; [done|]. split_and!; [by apply aes_decrypt_seal|apply hex_encode_lower|].
      rewrite hex_encode_length, gcm_seal_length, Hn. unfold nonceSize. lia.
    - intros c e Hc _ _. split; [done|]. by eexists. }
  destruct (solo_run _ _ _ _ _ _ _ Hw Hwl Hr) as [(own & Ho) _]. exact Ho.
Qed.

(** *** Signatures *)

(** C39: the text that is signed determines the request: as long as method, path and nonce hold
    no bar, no other method, path, timestamp, nonce or body has the same canonical string. *)
Theorem canonical_injective m p t n b m' p' t' n' b' :
  has_char "|" m = false -> has_char "|" m' = false -> has_char "|" p = false -> has_char "|" p' = false ->
  has_char "|" n = false -> has_char "|" n' = false -> in_int64 t -> in_int64 t' ->
  hmac_BuildCanonicalString m p t n b = hmac_BuildCanonicalString m' p' t' n' b' ->
  m = m' /\ p = p' /\ t = t' /\ n = n' /\ b = b'.
Proof.
  intros Hm Hm' Hp Hp' Hn Hn' Ht1 Ht2 H. unfold hmac_BuildCanonicalString in H.
  apply bar_inj in H as [-> H]; [|done..]. apply bar_inj in H as [-> H]; [|done..].
  apply bar_inj in H as [Ht H]; [|apply format_no_bar..]. apply bar_inj in H as [-> ->]; [|done..].
  by apply FormatInt_inj in Ht.
Qed.

(** The same string for a nonce that holds a bar and for a shorter nonce with a longer body. *)
Example canonical_ambiguous :
  hmac_BuildCanonicalString "POST" "/api/v1/payments" 7 "abc|{" "}" =
  hmac_BuildCanonicalString "POST" "/api/v1/payments" 7 "abc" "{|}".
Proof. reflexivity. Qed.

(** *** Idempotency keys *)

Context {RU : RequestURI} {V : Validator} {VL : ValidatorLaws}.

(** The key under which an answer is kept names one merchant, one reference, and whether it
    was paid or refunded: payments the API accepts never share a key with another reference,
    another merchant's, or any refund. *)
Theorem idempotency_keys_distinct r (body : PaymentBody) mid mid' ref' :
  ShouldBindJSON r = Ok body ->
  BuildIdempotencyKey mid (pb_ReferenceID body) <> BuildRefundIdempotencyKey mid' ref' /\
  (BuildIdempotencyKey mid (pb_ReferenceID body) = BuildIdempotencyKey mid' ref' -> mid = mid' /\ pb_ReferenceID body = ref').
Proof.
  intros Hb. split; [|apply BuildIdempotencyKey_inj].
  intros [_ Hr]%refund_key_as_payment_key. apply bound_payment in Hb as (_ & _ & _ & Hs & _).
  by rewrite Hr in Hs.
Qed.
End Codecs.
