(* ===== verification/Instances.v ===== *)
(** Concrete third-party functions, on which the development's parameters are instantiated:
    16-byte UUIDs in their canonical text, a JSONB column that keeps its document, timestamps
    cut to microseconds, a key derivation of the right length, tokens that sign their claims,
    the validator the documentation describes. *)

From S2P Require Export Payments EncryptionService HashService SignatureService TokenService Router Server.
From Stdlib Require Import Ascii.

(** ** UUIDs *)

Definition uuid16 : Type := { s : string | String.length s = 16%nat }.

Definition format_uuid (s : string) : string :=
  let h := hex_encode s in
  str_take 8 h +:+ "-" +:+ str_take 4 (str_drop 8 h) +:+ "-" +:+ str_take 4 (str_drop 12 h) +:+ "-"
  +:+ str_take 4 (str_drop 16 h) +:+ "-" +:+ str_drop 20 h.

Definition mk_uuid (s : string) : option uuid16 :=
  match decide (String.length s = 16%nat) with left H => Some (exist _ s H) | right _ => None end.

Definition parse_uuid (t : string) : res uuid16 :=
  let invalid := ErrLeaf "invalid UUID format" in
  let h := str_take 8 t +:+ str_take 4 (str_drop 9 t) +:+ str_take 4 (str_drop 14 t)
           +:+ str_take 4 (str_drop 19 t) +:+ str_drop 24 t in
  match hex_decode h with
  | Ok s => match mk_uuid s with Some u => Ok u | None => Err invalid end
  | Err _ => Err invalid
  end.

(** The UUID whose last byte is [n]. *)
Definition uuid_n (n : Z) : uuid16 :=
  exist _ (string_of (zeros 15 ++ [n])) eq_refl.

#[export] Instance UUID16 : UUIDLib := {
  uuid := uuid16;
  uuid_Nil := uuid_n 0;
  uuid_String u := format_uuid (proj1_sig u);
  uuid_Parse := parse_uuid
}.

Lemma parse_format_uuid u : parse_uuid (format_uuid (proj1_sig u)) = Ok u.
Proof.
  destruct u as [s Hs]. simpl proj1_sig. unfold parse_uuid.
  assert (Hh : String.length (hex_encode s) = 32%nat) by (by rewrite hex_encode_length, Hs).
  match goal with |- context [hex_decode ?t] => assert (t = hex_encode s) as -> end.
  { unfold format_uuid. revert Hh. generalize (hex_encode s). intros h Hh.
    do 32 (destruct h as [|? h]; [discriminate Hh|]). destruct h; [|discriminate Hh]. reflexivity. }
  rewrite hex_decode_encode. unfold mk_uuid. destruct (decide _) as [H|]; [|done].
  by rewrite (proof_irrel H Hs).
Qed.

#[export] Instance UUID16Laws : UUIDLaws.
Proof.
  split.
  - apply parse_format_uuid.
  - intros [s Hs]. simpl. unfold format_uuid.
    assert (Hh : String.length (hex_encode s) = 32%nat) by (by rewrite hex_encode_length, Hs).
    revert Hh. generalize (hex_encode s). intros h Hh.
    do 32 (destruct h as [|? h]; [discriminate Hh|]). destruct h; [|discriminate Hh]. reflexivity.
  - intros [s Hs]. simpl. unfold format_uuid. pose proof (hex_encode_lower s) as Hl.
    rewrite <- (str_take_drop 8 (hex_encode s)) in Hl.
    assert (Hall : forall t, string_forallb is_lower_hex t = true -> string_forallb is_uuid_char t = true).
    { intros t. apply string_forallb_impl. intros c Hc. unfold is_uuid_char. by rewrite Hc. }
    assert (Htk : forall n t, string_forallb is_lower_hex t = true -> string_forallb is_lower_hex (str_take n t) = true
                               /\ string_forallb is_lower_hex (str_drop n t) = true).
    { intros n t Ht. rewrite <- (str_take_drop n t), string_forallb_app in Ht. by apply andb_true_iff in Ht. }
    pose proof (hex_encode_lower s) as H0.
    rewrite !string_forallb_app. repeat (apply andb_true_iff; split); try reflexivity; apply Hall;
      repeat first [apply Htk | apply H0].
Qed.

(** ** The database server *)

#[export] Instance PgKeep : PgLib := {
  jsonb s := match json_parse s with Some v => Some (json_print v) | None => None end;
  pg_time t := t / 1000 * 1000
}.

Lemma jsonb_flat_ok l : jsonb_flat l = true -> json_ok (JObj l) = true.
Proof.
  unfold jsonb_flat. cbn [json_ok]. intros H. rewrite forallb_forall in *. intros [k v] Hin.
  specialize (H _ Hin). simpl in *. bool_prop. rewrite H. simpl.
  destruct v; simpl in *; try done. by bool_prop.
Qed.

#[export] Instance PgKeepLaws : JsonbLaws.
Proof.
  split. intros l Hl _. pose proof (json_parse_print _ (jsonb_flat_ok _ Hl)) as Hp.
  exists (json_print (JObj l)), l. unfold jsonb, PgKeep. rewrite Hp. done.
Qed.

(** ** Key derivation: HMAC-SHA256 cut or padded to the length asked for *)

Fixpoint fit (n : nat) (s : string) : string :=
  match n, s with
  | O, _ => ""
  | S n, String c s => String c (fit n s)
  | S n, EmptyString => String "0" (fit n "")
  end.

Lemma fit_length n s : String.length (fit n s) = n.
Proof. revert s. induction n as [|n IH]; intros [|c s]; simpl; [done|done|f_equal; apply IH..]. Qed.

#[export] Instance Argon2Fit : Argon2 := {
  argon2_Version := 19;
  argon2_IDKey password salt _ _ _ keyLen := fit (Z.to_nat keyLen) (hmac_sha256 salt password)
}.

#[export] Instance Argon2FitLaws : Argon2Laws.
Proof. split; [done|]. intros. apply fit_length. Qed.

(** ** Tokens: the claims in base64, a dot, their HMAC *)

Definition signed_token (claims : list (string * json)) (secret : string) : string :=
  let payload := b64_encode (json_print (JObj claims)) in payload +:+ "." +:+ hmac_Sign secret payload.

Definition parse_token (now : time) (token : string) (keyFunc : bool -> string -> res string)
    : res (list (string * json) * bool) :=
  let! key := keyFunc true "HS256" in
  match split_at "." token with
  | [payload; signature] =>
    if negb (hmac_Sign key payload =? signature)%string then Err (ErrLeaf "signature is invalid") else
    let! text := b64_decode payload in
    match json_parse text with
    | Some (JObj claims) =>
      match claim "exp" claims with
      | Some (JNum lit) =>
        let! e := ParseInt lit in
        if now <? e * Second then Ok (claims, true) else Err (ErrLeaf "token is expired")
      | _ => Err (ErrLeaf "token has no expiry")
      end
    | _ => Err (ErrLeaf "token is malformed")
    end
  | _ => Err (ErrLeaf "token is malformed")
  end.

#[export] Instance TokenJWT : JWT := {
  jwt_SignedString claims secret :=
    if json_ok (JObj claims) then Ok (signed_token claims secret) else Err (ErrLeaf "unsupported claim");
  jwt_Parse := parse_token
}.

Lemma no_dot s f : string_forallb f s = true -> f "."%char = false -> has_char "." s = false.
Proof.
  unfold has_char. intros Hs Hf. induction s as [|c s IH]; [done|]. simpl in Hs |- *.
  apply andb_true_iff in Hs as [Hc Hs]. rewrite IH, orb_false_r by done.
  change (Ascii.eqb "."%char c = false). apply Ascii.eqb_neq. congruence.
Qed.

Lemma parse_signed claims secret now keyFunc e :
  json_ok (JObj claims) = true -> keyFunc true "HS256" = Ok secret -> claim "exp" claims = Some (int_json e) ->
  parse_token now (signed_token claims secret) keyFunc =
  let! e := ParseInt (FormatInt e) in
  if now <? e * Second then Ok (claims, true) else Err (ErrLeaf "token is expired").
Proof.
  intros Hj Hk He. unfold parse_token, signed_token. rewrite Hk. cbn [result_bind].
  assert (H1 : has_char "." (b64_encode (json_print (JObj claims))) = false) by (by eapply no_dot; [apply b64_encode_chars|]).
  assert (H2 : has_char "." (hmac_Sign secret (b64_encode (json_print (JObj claims)))) = false)
    by (by eapply no_dot; [apply hex_encode_lower|]).
  pose proof (split_at_join "." (b64_encode (json_print (JObj claims))) [hmac_Sign secret (b64_encode (json_print (JObj claims)))]) as Hs.
  unfold strings_join in Hs. rewrite Hs by (repeat constructor; done).
  rewrite String.eqb_refl. cbn [negb]. rewrite b64_decode_encode. cbn [result_bind].
  by rewrite json_parse_print, He.
Qed.

(** The expiry of claims that were signed is a 64-bit integer. *)
Lemma find_ok k claims v : json_ok (JObj claims) = true -> claim k claims = Some v -> json_ok v = true.
Proof.
  unfold claim. intros Hj Hc. destruct (List.find _ _) as [[k' v']|] eqn:Hf; [|done]. simpl in Hc. simplify_eq.
  apply find_some in Hf as [Hin _]. cbn [json_ok] in Hj. rewrite forallb_forall in Hj. specialize (Hj _ Hin).
  simpl in Hj. by bool_prop.
Qed.

Lemma signed_expiry claims e :
  json_ok (JObj claims) = true -> claim "exp" claims = Some (int_json e) -> ParseInt (FormatInt e) = Ok e.
Proof.
  intros Hj Hc. apply (find_ok _ _ _ Hj) in Hc. simpl in Hc. unfold int_lit in Hc.
  destruct (ParseInt (FormatInt e)) as [z|] eqn:Hp; [|done]. f_equal. by apply parse_int_exact.
Qed.

#[export] Instance TokenJWTLaws : JWTLaws.
Proof.
  split.
  - intros claims secret token e now keyFunc _ Hs Hk He Hlt. simpl in *. destruct (forallb _ _) eqn:Hj; [|done]. simplify_eq.
    exists claims. split; [|done]. rewrite (parse_signed _ _ _ _ e), (signed_expiry claims e) by done. simpl.
    by rewrite (proj2 (Z.ltb_lt _ _)).
  - intros claims secret token e now keyFunc _ Hs Hk He Hlt. simpl in *. destruct (forallb _ _) eqn:Hj; [|done]. simplify_eq.
    rewrite (parse_signed _ _ _ _ e), (signed_expiry claims e) by done. simpl.
    rewrite (proj2 (Z.ltb_ge _ _)) by done. eauto.
  - intros now token keyFunc r H. simpl in H. unfold parse_token in H.
    apply result_bind_Ok in H as (key & Hk & _). eauto.
Qed.

(** ** Reading requests *)

(** URLs of the two schemes parse. *)
#[export] Instance HTTPSchemes : RequestURI := {
  ParseRequestURI s :=
    if String.prefix "http://" s then Ok "http" else if String.prefix "https://" s then Ok "https"
    else Err (ErrLeaf "invalid URI for request")
}.
#[export] Instance ParsesAll : URLParser := { url_Parse_error _ := None }.

#[export] Instance TagValidator : Validator := {
  ValidateStruct fs := if forallb field_valid fs then None else Some (ErrLeaf "Field validation failed")
}.
#[export] Instance TagValidatorLaws : ValidatorLaws.
Proof. split. intros fs. unfold ValidateStruct, TagValidator. by destruct (forallb _ _). Qed.

#[export] Instance Gin404 : GinFallback := {
  noRoute := answer_with StatusNotFound (Data "text/plain" "404 page not found");
  gin_redirect _ := None
}.
