(* ===== verification/Columns.v ===== *)
(** When the database takes what the payment service books: the values fit their columns and
    name rows that exist.  Then an insert is refused only when the drawn identifier is taken,
    and the answer cannot be stored only when the clock stands outside the years that JSON
    timestamps can name. *)

From S2P Require Export Payments.

(** ** Values *)

Definition column (n : nat) (s : string) : Prop :=
  utf8_valid s = true /\ has_nul s = false /\ (rune_count s <= n)%nat.

Definition text_column (s : string) : Prop := utf8_valid s = true /\ has_nul s = false.

Lemma column_varchar n s : column n s -> varchar n s = Ok s.
Proof.
  intros (H1 & H2 & H3). unfold varchar, text, readable. rewrite H1, H2. simpl.
  by destruct (Nat.leb_spec (rune_count s) n); [|lia].
Qed.

Lemma text_column_ok s : text_column s -> text s = Ok s.
Proof. intros [H1 H2]. unfold text, readable. by rewrite H1, H2. Qed.

Lemma plain_column n s : string_forallb is_plain s = true -> (String.length s <= n)%nat -> column n s.
Proof.
  intros Hp Hn. split_and!; [by apply utf8_valid_plain|by apply plain_no_nul|].
  pose proof (rune_count_length s). lia.
Qed.

Lemma column_app n m p s :
  string_forallb is_plain p = true -> column n s -> (String.length p + n <= m)%nat -> column m (p +:+ s).
Proof.
  intros Hp (H1 & H2 & H3) Hm. split_and!.
  - by rewrite utf8_valid_plain_app.
  - unfold has_nul in *. rewrite string_existsb_app, H2. apply plain_no_nul in Hp. unfold has_nul in Hp. by rewrite Hp.
  - rewrite rune_count_app. pose proof (rune_count_length p). lia.
Qed.

Lemma column_readable n s : column n s -> readable s = true.
Proof. intros (H1 & H2 & _). unfold readable. by rewrite H1, H2. Qed.

Lemma readable_plain s : string_forallb is_plain s = true -> readable s = true.
Proof. intros Hp. unfold readable. by rewrite (utf8_valid_plain _ Hp), (plain_no_nul _ Hp). Qed.

Lemma readable_app p s : string_forallb is_plain p = true -> readable (p +:+ s) = readable s.
Proof.
  intros Hp. unfold readable, has_nul. rewrite (utf8_valid_plain_app _ _ Hp), string_existsb_app.
  apply plain_no_nul in Hp. unfold has_nul in Hp. by rewrite Hp.
Qed.

(** Idempotency keys are as readable as the reference they end in. *)
Lemma payment_key_readable `{UUIDLaws} m ref : readable (BuildIdempotencyKey m ref) = readable ref.
Proof. unfold BuildIdempotencyKey. rewrite readable_app by apply uuid_plain. by rewrite readable_app. Qed.

Lemma refund_key_readable `{UUIDLaws} m ref : readable (BuildRefundIdempotencyKey m ref) = readable ref.
Proof. unfold BuildRefundIdempotencyKey. rewrite readable_app by apply uuid_plain. by rewrite readable_app. Qed.

(** Printed numbers. *)
Lemma FormatInt_plain z : string_forallb is_plain (FormatInt z) = true.
Proof.
  assert (Hd : forall n, 0 <= n -> string_forallb is_plain (format_uint n) = true).
  { intros n Hn. eapply string_forallb_impl; [apply digit_is_plain|by apply format_uint_digits]. }
  unfold FormatInt. destruct (Z.ltb_spec z 0); [|by apply Hd]. cbn [string_forallb]. rewrite Hd by lia. done.
Qed.

Lemma dec_digits_length f n acc k :
  0 <= n < 10 ^ Z.of_nat k -> (0 < k)%nat -> (String.length (dec_digits f n acc) <= k + String.length acc)%nat.
Proof.
  revert n acc k. induction f as [|f IH]; intros n acc k Hn Hk; cbn [dec_digits]; [lia|].
  destruct (Z.eqb_spec (n / 10) 0) as [|Hne]; [simpl; lia|].
  destruct k as [|[|k]]; [lia|change (10 ^ Z.of_nat 1) with 10 in Hn; rewrite Z.div_small in Hne; lia|].
  etrans; [apply (IH _ _ (S k))|simpl; lia]; [|lia].
  replace (10 ^ Z.of_nat (S (S k))) with (10 * 10 ^ Z.of_nat (S k)) in Hn by (rewrite <- Z.pow_succ_r; [f_equal|]; lia).
  split; [apply Z.div_pos; lia|apply Z.div_lt_upper_bound; lia].
Qed.

Lemma FormatInt_length z : in_int64 z -> (String.length (FormatInt z) <= 20)%nat.
Proof.
  unfold in_int64, min_int64, max_int64, FormatInt, format_uint. intros Hz.
  destruct (Z.ltb_spec z 0); cbn [String.length].
  - pose proof (dec_digits_length (S (Z.to_nat (Z.log2 (- z)))) (- z) "" 19). simpl in *. lia.
  - pose proof (dec_digits_length (S (Z.to_nat (Z.log2 z))) z "" 19). simpl in *. lia.
Qed.

(** ** Transactions *)

Section Fits.
Context {U : UUIDLib} {UL : UUIDLaws} {P : PgLib} {JL : JsonbLaws} {ES : EncryptionService} {EL : EncryptionLaws}.

Record txn_fits (T : Tables) (t : Transaction) : Prop := {
  xf_merchant : is_Some (merchants T !! tx_MerchantID t);
  xf_wallet : is_Some (wallets T !! tx_WalletID t);
  xf_original o : tx_OriginalTransactionID t = Some o -> is_Some (transactions T !! o);
  xf_reference : column 100 (tx_ReferenceID t);
  xf_amount : Z.abs (tx_Amount t) < 10 ^ 18;
  xf_encrypted : string_forallb is_lower_hex (tx_AmountEncrypted t) = true;
  xf_type : column 20 (tx_TransactionType t);
  xf_status : column 20 (tx_Status t);
  xf_signature : column 255 (tx_Signature t);
  xf_ip : column 45 (tx_ClientIP t);
  xf_extra x : tx_ExtraData t = Some x -> text_column x;
  xf_processed : tx_ProcessedAt t = Some (tx_CreatedAt t)
}.

Lemma fits_stored T t : txn_fits T t -> exists row, store_transaction t = Ok row.
Proof.
  intros []. unfold store_transaction. rewrite !column_varchar by done. simpl.
  unfold decimal_20_2. assert ((Z.abs (tx_Amount t) <? 10 ^ 18) = true) as -> by (by apply Z.ltb_lt). simpl.
  rewrite text_plain by (eapply string_forallb_impl; [apply hex_plain|done]). simpl.
  destruct (tx_ExtraData t) as [x|]; simpl; [|eauto]. rewrite text_column_ok by auto. simpl. eauto.
Qed.

Lemma fits_jsonb T t data : txn_fits T t -> Marshal_Transaction t = Ok data -> jsonb data <> None.
Proof.
  intros Hf Hm. destruct (fits_stored _ _ Hf) as [row Hrow].
  assert (Hamt : in_int64 (tx_Amount t)).
  { pose proof (xf_amount _ _ Hf). unfold in_int64, min_int64, max_int64. lia. }
  destruct (stored_json _ _ _ Hrow Hamt Hm) as [Hj Hfl].
  rewrite (Marshal_Transaction_ok _ Hj) in Hm.
  assert (data = json_print (JObj (transaction_fields t))) as -> by congruence.
  destruct (jsonb_object _ Hfl) as (s' & l' & -> & _); [|done].
  pose proof (transaction_fields_nodup t) as Hnd. unfold folded_keys in Hnd.
  rewrite <- (map_map fst fold_key) in Hnd. by apply NoDup_fmap_1 in Hnd.
Qed.

(** What may still refuse a booking that fits. *)
Definition unlucky (T : Tables) (key : option string) (txn : Transaction) : Prop :=
  is_Some (transactions T !! tx_ID txn) \/ (key <> None /\ json_year (tx_CreatedAt txn) = false).

Lemma fits_marshal T txn e :
  txn_fits T txn -> Marshal_Transaction txn = Err e -> json_year (tx_CreatedAt txn) = false.
Proof.
  intros Hf Hm. destruct (json_year (tx_CreatedAt txn)) eqn:E; [exfalso|done].
  unfold Marshal_Transaction, time_to_json in Hm. rewrite (xf_processed _ _ Hf), E in Hm. done.
Qed.

Lemma fits_refused T key txn e :
  txn_fits T txn -> (forall k, key = Some k -> column 255 k /\ idempotency_logs T !! k = None) ->
  booking_refused T key txn e -> unlucky T key txn.
Proof.
  intros Hf Hkey Href. destruct Href as [e Hi|e Hk Hm|e k data -> Hm Hl].
  - left. destruct Hi as [[e' He']|[?|[Hno|[Hno|(o & Ho & Hno)]]]]; [|done|..].
    + destruct (fits_stored _ _ Hf). congruence.
    + destruct (xf_merchant _ _ Hf). congruence.
    + destruct (xf_wallet _ _ Hf). congruence.
    + destruct (xf_original _ _ Hf _ Ho). congruence.
  - right. split; [done|]. by eapply fits_marshal.
  - exfalso. destruct (Hkey k eq_refl) as [Hc Hno]. destruct Hl as [[e' He']|[Hj|[l Hl]]].
    + rewrite column_varchar in He'; done.
    + by eapply fits_jsonb.
    + apply key_log_short in Hl; [congruence|apply Hc].
Qed.

(** *** What the requests must satisfy *)

(** The wallet a request will find: the only one of the merchant in that currency. *)
Definition only_wallet (T : Tables) (f : Wallet -> bool) (w : Wallet) : Prop :=
  wallets T !! w_ID w = Some w /\ f w = true /\
  forall id w', wallets T !! id = Some w' -> f w' = true -> w' = w.

(** The currency that a wallet was found under is readable. *)
Lemma wallet_readable T mid cur id w :
  wf_tables T -> wallets T !! id = Some w -> wallet_of mid cur w = true -> readable cur = true.
Proof.
  intros Hwf Hw Hof. pose proof (wf_wallet_text _ Hwf _ _ Hw) as Hc. simpl in Hc.
  unfold wallet_of in Hof. apply andb_true_iff in Hof as [_ Hof%String.eqb_eq]. congruence.
Qed.

Record payment_fits (req : PaymentRequest) (T : Tables) : Prop := {
  py_merchant : is_Some (merchants T !! pr_MerchantID req);
  py_reference : column 100 (pr_ReferenceID req);
  py_signature : column 255 (pr_Signature req);
  py_ip : column 45 (pr_ClientIP req);
  py_extra x : pr_ExtraData req = Some x -> text_column x;
  py_amount : pr_Amount req < 10 ^ 18
}.

Lemma payment_txn_fits req T txn :
  payment_fits req T -> 0 < pr_Amount req -> payment_txn req txn -> is_Some (wallets T !! tx_WalletID txn) ->
  txn_fits T txn.
Proof.
  intros [] Hpos (id & wid & enc & now & [_ Hhex] & ->) Hw. split; simpl in *; try done.
  - lia.
  - by apply plain_column; [|simpl; lia].
  - by apply plain_column; [|simpl; lia].
Qed.

Lemma payment_key_column req T : payment_fits req T ->
  column 255 (BuildIdempotencyKey (pr_MerchantID req) (pr_ReferenceID req)).
Proof.
  intros Hf. apply (column_app 101); [apply uuid_plain| |rewrite uuid_String_length; lia].
  apply (column_app 100); [done|apply py_reference with T, Hf|simpl; lia].
Qed.

(** The reference of the refund needs seven characters more than that of the payment; the
    wallet that paid is there, and its balance can be read. *)
Record refund_fits (req : RefundRequest) (orig : Transaction) (T : Tables) : Prop := {
  rv_merchant : is_Some (merchants T !! rr_MerchantID req);
  rv_wallet : exists w b, wallets T !! tx_WalletID orig = Some w /\ open_balance w = Ok b;
  rv_reference : column 93 (rr_OriginalReferenceID req);
  rv_signature : column 255 (rr_Signature req);
  rv_ip : column 45 (rr_ClientIP req);
  rv_reason : text_column (rr_Reason req);
  rv_amount : tx_Amount orig < 10 ^ 18
}.

Lemma refund_amount_range req orig amount :
  0 < tx_Amount orig -> refund_amount req orig = Ok amount -> 0 < amount <= tx_Amount orig.
Proof. intros Hpos. unfold refund_amount. repeat case_match; intros; simplify_eq; bool_prop; lia. Qed.

Lemma refund_txn_fits req orig amount T txn :
  refund_fits req orig T -> 0 < amount <= tx_Amount orig -> transactions T !! tx_ID orig = Some orig ->
  refund_txn req orig amount txn -> txn_fits T txn.
Proof.
  intros [Hm (w & b & Hw & _) Hr Hs Hi Hre Ha] Hamt Ho (id & enc & now & [_ Hhex] & ->). split; simpl in *; try done.
  - intros o [= <-]. done.
  - apply (column_app 93 100 "REFUND-"); [done|done|simpl; lia].
  - lia.
  - by apply plain_column; [|simpl; lia].
  - by apply plain_column; [|simpl; lia].
  - intros x [= <-]. done.
Qed.

Lemma refund_key_column req orig T : refund_fits req orig T ->
  column 255 (BuildRefundIdempotencyKey (rr_MerchantID req) (rr_OriginalReferenceID req)).
Proof.
  intros Hf. apply (column_app 101); [apply uuid_plain| |rewrite uuid_String_length; lia].
  apply (column_app 93); [done|apply rv_reference with orig T, Hf|simpl; lia].
Qed.

Record topup_fits (req : TopupRequest) (T : Tables) : Prop := {
  tp_merchant : is_Some (merchants T !! tr_MerchantID req);
  tp_amount : tr_Amount req < 10 ^ 18
}.

Lemma take_plain n s :
  string_forallb is_plain s = true ->
  string_forallb is_plain (str_take n s) = true /\ (String.length (str_take n s) <= n)%nat.
Proof.
  revert n. induction s as [|c s IH]; intros [|n]; simpl; try (split; [done|lia]).
  intros [-> Hs]%andb_true_iff. destruct (IH n Hs) as [-> Hl]. split; [done|lia].
Qed.

Lemma topup_reference_column merchantID now : in_int64 (UnixMilli now) -> column 100 (topup_reference merchantID now).
Proof.
  intros Hn. unfold topup_reference. destruct (take_plain 8 _ (uuid_plain merchantID)) as [Hp Hl].
  apply (column_app 29); [done| |simpl; lia]. apply (column_app 21); [done| |lia].
  apply (column_app 20); [done| |simpl; lia]. apply plain_column; [apply FormatInt_plain|by apply FormatInt_length].
Qed.

Lemma topup_txn_fits req T txn :
  topup_fits req T -> 0 < tr_Amount req -> topup_txn req txn -> is_Some (wallets T !! tx_WalletID txn) ->
  in_int64 (UnixMilli (tx_CreatedAt txn)) -> txn_fits T txn.
Proof.
  intros [] Hpos (id & wid & enc & now & [_ Hhex] & ->) Hw Hnow. split; simpl in *; try done.
  - by apply topup_reference_column.
  - lia.
  - by apply plain_column; [|simpl; lia].
  - by apply plain_column; [|simpl; lia].
  - by apply plain_column; [|simpl; lia].
  - by apply plain_column; [|simpl; lia].
Qed.
End Fits.
