(* ===== verification/PaymentTheorems.v ===== *)
(** The payment service's contract, for a call that runs alone: the effect of success, the
    absence of effects on failure, replays, what decides the answer when nothing fails. *)

From S2P Require Export Columns Money.

Section Contract.
Context {U : UUIDLib} {UL : UUIDLaws} {P : PgLib} {JL : JsonbLaws} {ES : EncryptionService} {EL : EncryptionLaws}.
Context {B : Backend} {BL : BackendLaws}.

Abbreviation payment_key req := (BuildIdempotencyKey (pr_MerchantID req) (pr_ReferenceID req)).
Abbreviation refund_key req := (BuildRefundIdempotencyKey (rr_MerchantID req) (rr_OriginalReferenceID req)).

(** C7: a payment that answers with a new transaction, whatever failures occurred on the way,
    has charged the merchant's wallet in that currency by exactly the amount, which the
    wallet covered; it has stored exactly one transaction, the one it returns, and its answer
    under the idempotency key; it has changed no other wallet, transaction or table. *)
Theorem payment_charges req s txn es s' :
  payment_valid req -> ready s -> run (ProcessPayment req) [] s = Some (Ok txn, es, s') ->
  idempotency_logs (tables s) !! payment_key req = None ->
  payment_txn req txn /\
  (exists w b, wallets (tables s) !! tx_WalletID txn = Some w /\
     wallet_of (pr_MerchantID req) (pr_Currency req) w = true /\
     balance (tables s) (tx_WalletID txn) = Some b /\ 0 < pr_Amount req <= b /\
     balance (tables s') (tx_WalletID txn) = Some (b - pr_Amount req)) /\
  booked_alone txn (- pr_Amount req) (tables s) (tables s') /\
  (forall id, id <> tx_ID txn -> transactions (tables s') !! id = transactions (tables s) !! id) /\
  answered (tables s') (payment_key req) (Ok (visible txn)).
Proof.
  intros Hv Hs Hr Hun. apply (payment_run _ _ _ _ _ Hv Hs) in Hr as [Ho%outcome_eq _].
  inversion Ho as [k r Hk Ha|txn' T' Hu Hst|e' Href|e' Hf He|txn' err T' Hf Hu Hst]; subst; simplify_eq.
  { apply answered_short in Ha as (l & Hl & _); [congruence|by apply payment_key_short]. }
  destruct Hst as (Htxn & Hpos & (w & b & Hw & Hof & Hb & Hle) & Hbook).
  pose proof (booking_alone _ _ _ _ _ _ Hbook) as Hba.
  split_and!; [done| |done| |by eapply booking_answered].
  - exists w, b. destruct (ba_balance _ _ _ _ Hba) as (b' & Hb1 & Hb2).
    assert (Hbal : balance (tables s) (tx_WalletID txn) = Some b) by (unfold balance; by rewrite Hw, Hb).
    split_and!; [done..|]. rewrite Hb2. assert (b' = b) as -> by congruence.
    rewrite wrap64_id; [done|]. pose proof (balance_range _ _ _ Hbal).
    unfold in_int64, min_int64, max_int64 in *. lia.
  - intros id Hne. by eapply booking_rows.
Qed.

(** A payment that answers with an error has changed no table; the one exception is a
    lost answer to COMMIT, when the whole booking, and nothing else, may be in place. *)
Theorem payment_error_atomic req s e es s' :
  payment_valid req -> ready s -> run (ProcessPayment req) [] s = Some (Err e, es, s') ->
  tables s' = tables s \/
  (exists err txn, e = InternalError (Errorf "commit tx" err) /\ payment_step req txn (tables s) (tables s')).
Proof.
  intros Hv Hs Hr. apply (payment_run _ _ _ _ _ Hv Hs) in Hr as [Ho%outcome_eq _].
  inversion Ho; subst; eauto 10.
Qed.

(** C8: repeating a payment's reference never charges again: whatever the second request's
    amount, and whatever fails during it, the tables stay as they are, and the answer is the
    first transaction as it was cached (amount cipher and signature left out), or an error. *)
Theorem payment_idempotent req req' s txn es s1 r es' s2 :
  payment_valid req -> payment_valid req' -> 0 < pr_Amount req' ->
  pr_MerchantID req' = pr_MerchantID req -> pr_ReferenceID req' = pr_ReferenceID req ->
  ready s -> run (ProcessPayment req) [] s = Some (Ok txn, es, s1) ->
  run (ProcessPayment req') [] s1 = Some (r, es', s2) ->
  tables s2 = tables s1 /\ (r = Ok (visible txn) \/ exists e, r = Err e /\ registered e).
Proof.
  intros Hv Hv' Hpos Hm Href Hs Hr1 Hr2.
  apply (payment_run _ _ _ _ _ Hv Hs) in Hr1 as [Ho%outcome_eq Hs1].
  apply (payment_run _ _ _ _ _ Hv' Hs1) in Hr2 as [Ho'%outcome_eq _].
  assert (Hans : answered (tables s1) (payment_key req') (Ok (visible txn))).
  { rewrite Hm, Href. inversion Ho as [k r0 Hk Ha|t0 T' Hu Hst| | |]; subst; simplify_eq.
    - destruct Ha as (l & Hl & Hu). exists l. split; [done|]. by rewrite (unmarshal_visible _ _ Hu).
    - destruct Hst as (_ & _ & _ & Hb). by eapply booking_answered. }
  pose proof (payment_key_short _ Hv') as Hsh.
  assert (Hno : idempotency_logs (tables s1) !! payment_key req' <> None).
  { apply answered_short in Hans as (l & -> & _); done. }
  inversion Ho' as [k r0 Hk Ha|t0 T' Hu%unanswered_log Hst|e Hf|e Hf He|t0 err T' Hf Hu%unanswered_log Hst]; subst; simplify_eq.
  - split; [done|]. left. by eapply answered_unique.
  - inversion Hf as [? Hu%unreadable_error|?|Hu%unanswered_log|? ? Hu%unanswered_log|? ? Hu%unanswered_log|? ? ? ? Hu%unanswered_log];
      subst; first [lia | by destruct Hno | by eauto].
  - split; [done|]. right. eauto.
Qed.

(** Without failures the wallet decides, and what the database can store. *)
Lemma payment_settled req T w b r T' :
  wf_tables T -> payment_valid req -> 0 < pr_Amount req -> idempotency_logs T !! payment_key req = None ->
  only_wallet T (wallet_of (pr_MerchantID req) (pr_Currency req)) w -> open_balance w = Ok b ->
  movement_outcome false (Pay req) T r T' ->
  if negb (readable (pr_ReferenceID req)) then (exists e, r = Err (InternalError e)) /\ T' = T
  else if b <? pr_Amount req then r = Err ErrInsufficientFunds /\ T' = T
  else payment_fits req T ->
    (exists txn, r = Ok txn /\ payment_step req txn T T') \/
    (exists e txn, r = Err e /\ payment_txn req txn /\ T' = T /\ unlucky T (Some (payment_key req)) txn).
Proof.
  intros Hwf Hv Hpos Hun (Hw & Hof & Honly) Hb Ho. rewrite <- (payment_key_readable (pr_MerchantID req)).
  pose proof (wallet_readable _ _ _ _ _ Hwf Hw Hof) as Hcur.
  inversion Ho as [k r' Hk Ha|txn' T1 Hu Hst|e' Href|e' Hf|txn' err T1 Hf]; subst; simplify_eq.
  - apply answered_short in Ha as (l & Hl & _); [simpl in Hk; congruence|]. simpl in Hk. simplify_eq. by apply payment_key_short.
  - rewrite (unanswered_readable _ _ Hu). cbn [negb]. pose proof Hst as (_ & _ & (w' & b' & Hw' & Hof' & Hb' & Hle) & _).
    assert (w' = w) as -> by eauto. assert (b' = b) by congruence. destruct (Z.ltb_spec b (pr_Amount req)); [lia|]. eauto.
  - cbn [movement_refused] in Href.
    inversion Href as [e Hread|?|Hu _ Hno|w' e Hu Hw' Hof' He|w' b' Hu Hw' Hof' Hb'|w' b' txn e Hu Hw' Hof' Hb' Hle' Htxn Hwid Hrows];
      subst; try rewrite (unanswered_readable _ _ Hu); cbn [negb].
    + destruct Hread as (t & err & [->| ->%list_elem_of_singleton]%elem_of_cons & Ht & ->); [|congruence]. rewrite Ht. cbn [negb]. eauto.
    + lia.
    + by rewrite (Hno _ _ Hw) in Hof.
    + assert (w' = w) as -> by eauto. congruence.
    + assert (w' = w) as -> by eauto. assert (b' = b) by congruence. by destruct (Z.ltb_spec b (pr_Amount req)); [|lia].
    + assert (w' = w) as -> by eauto. assert (b' = b) by congruence. destruct (Z.ltb_spec b (pr_Amount req)); [lia|].
      intros Hfit. right. exists e', txn. split_and!; [done..|].
      eapply fits_refused; [| |exact Hrows].
      * eapply payment_txn_fits; [done|lia|done|]. rewrite Hwid. eauto.
      * intros k [= <-]. split; [by eapply payment_key_column|done].
Qed.

(** C22: when nothing fails and nobody is in a transaction, a payment ends, and the wallet decides: a
    payment it does not cover is answered PAY_001 and changes nothing; a covered one, whose
    fields fit their columns, is booked, unless the drawn identifier is taken, or the clock
    stands outside the years 0 to 9999.  A reference that the database cannot read is answered
    SYS_001, with no effect, before the wallet is looked at. *)
Theorem payment_decided req s w b :
  payment_valid req -> ready s -> idle s -> reliable s -> 0 < pr_Amount req ->
  idempotency_logs (tables s) !! payment_key req = None ->
  only_wallet (tables s) (wallet_of (pr_MerchantID req) (pr_Currency req)) w -> open_balance w = Ok b ->
  exists r es s', run (ProcessPayment req) [] s = Some (r, es, s') /\
    if negb (readable (pr_ReferenceID req)) then (exists e, r = Err (InternalError e)) /\ tables s' = tables s
    else if b <? pr_Amount req then r = Err ErrInsufficientFunds /\ tables s' = tables s
    else payment_fits req (tables s) ->
      (exists txn, r = Ok txn /\ payment_step req txn (tables s) (tables s')) \/
      (exists e txn, r = Err e /\ payment_txn req txn /\ tables s' = tables s /\
         unlucky (tables s) (Some (payment_key req)) txn).
Proof.
  intros Hv Hs Hi Hr Hpos Hun Hw Hb.
  destruct (run_total (carry_out (Pay req)) (movement_outcome false (Pay req) (tables s)) [] s) as (r & es & s' & Hrun & Ho & _);
    [intros Hg Hal; by apply carry_out_wp|done..|].
  exists r, es, s'. split; [done|]. eapply payment_settled; [apply Hs|done..].
Qed.
End Contract.
