(* ===== verification/HttpTheorems.v ===== *)
(** What the answers to payments, refunds and top-ups over HTTP mean, and that requests in
    order are carried out. *)

From S2P Require Export HttpMoney PaymentTheorems.

(** ** Requests in order *)

(** The references that the handlers let through are ones the database can read. *)
Lemma safe_readable s : string_forallb is_safe_char s = true -> readable s = true.
Proof.
  intros Hs. apply readable_plain. eapply string_forallb_impl; [|exact Hs]. intros c Hc. unfold is_safe_char in Hc.
  rewrite !orb_true_iff, !Ascii.eqb_eq in Hc. destruct Hc as [[[[Hc|Hc]| ->]| ->]| ->]; [|by apply digit_is_plain|done..].
  unfold is_alpha, is_plain in *. bool_prop. apply andb_true_iff. rewrite !Z.ltb_lt. lia.
Qed.

Section InOrder.
Context {U : UUIDLib} {UL : UUIDLaws} {P : PgLib} {ES : EncryptionService} {SS : SignatureService} {SL : SignatureLaws}.
Context {TS : TokenService}.

(** A signature that stays good from the arrival at [v] until [late]. *)
Record signed_afresh (v : View) (c : Ctx) (late : time) (m : Merchant) (timestamp : Z) (body : string) : Prop := {
  sa_signed : signed_by (v_tables v) c m timestamp body;
  sa_headers name : name ∈ [HeaderAccessKey; HeaderSignature; HeaderTimestamp; HeaderNonce] -> GetHeader c name <> "";
  sa_nonce : v_redis v !! nonce_key (uuid_String (m_ID m)) (GetHeader c HeaderNonce) = None;
  sa_drift now : v_clock v <= now <= late -> drifted now timestamp = false
}.

(** The request may act for the merchant at any instant of that time. *)
Inductive entitled (rt : Route) (v : View) (c : Ctx) (late : time) : uuid -> Ctx -> Prop :=
| en_signed m timestamp body : rt <> RTopup -> signed_afresh v c late m timestamp body ->
    entitled rt v c late (m_ID m) (as_merchant m body c)
| en_bearer claims : rt = RTopup -> (forall now, v_clock v <= now <= late -> bearer now c claims) ->
    entitled rt v c late (tc_MerchantID claims) (as_bearer claims c).

(** No window's counter of the client stands at the limit. *)
Definition under_limit (group : string) (v : View) (c : Ctx) : Prop :=
  forall rule wid s e n, (group, rule) ∈ DefaultRateLimitRules ->
    v_redis v !! RateLimitStore.redis_key (extractIdentifier c +:+ ":" +:+ group) wid = Some (s, e) ->
    ParseInt s = Ok n -> n < rl_Limit rule.

Lemma under_not_over deps group v c late : under_limit group v c -> ~ over_limit deps group v c late.
Proof. intros Hu (rule & now & s & e & n & _ & Hin & _ & Hrow & Hp & Hle). specialize (Hu _ _ _ _ _ Hin Hrow Hp). lia. Qed.

(** Access keys are unique. *)
Lemma keyed_unique T c m m' : wf_tables T -> keyed T c m -> keyed T c m' -> m' = m.
Proof.
  intros Hwf [[id Hm] Hk] [[id' Hm'] Hk']. destruct (decide (id' = m_ID m)) as [->|Hne].
  - rewrite (wf_merchant _ Hwf _ _ Hm) in Hm'. congruence.
  - destruct (wf_unique _ Hwf _ _ Hm _ _ Hm' Hne). congruence.
Qed.

Lemma signed_keyed T c m timestamp body : signed_by T c m timestamp body -> keyed T c m.
Proof. intros []. by split. Qed.

Lemma bearer_unique now c claims claims' : bearer now c claims -> bearer now c claims' -> claims' = claims.
Proof. intros [_ H]%bearer_header [_ H']%bearer_header. congruence. Qed.

(** Whoever is let in is the one entitled. *)
Lemma entitled_admitted rt v c late mid c0 mid' c1 :
  wf_tables (v_tables v) -> entitled rt v c late mid c0 -> admitted rt v c late mid' c1 -> mid' = mid /\ c1 = c0.
Proof.
  intros Hwf [m ts body Hrt Hs|claims Hrt Hb] [m' ts' body' now Hrt' Hs' Hn Hd|claims' now Hrt' Hn Hb']; try done.
  - apply sa_signed in Hs. assert (m' = m) as -> by (eapply keyed_unique; [done|by eapply signed_keyed..]).
    pose proof (sb_body _ _ _ _ _ Hs) as Hb. pose proof (sb_body _ _ _ _ _ Hs') as Hb'.
    rewrite Hb in Hb'. by injection Hb' as ->.
  - by rewrite (bearer_unique _ _ _ _ (Hb now Hn) Hb').
Qed.

(** No reason is found against a fresh signature. *)
Lemma afresh_not_unsigned v c late m timestamp body e :
  wf_tables (v_tables v) -> signed_afresh v c late m timestamp body -> ~ unsigned false v c late e.
Proof.
  intros Hwf [Hs Hh Hnonce Hdrift] He. pose proof (signed_keyed _ _ _ _ _ Hs) as Hk.
  assert (Hm : forall m', keyed (v_tables v) c m' -> m' = m) by (intros; by eapply keyed_unique).
  destruct Hs as [_ _ Hact Hts Hbody (sk & Hsec & Hsig)].
  destruct He as [name Hin Hn|e Hp|now ts Hn Hp Hd|e Hr|Hr Hun|m' Hm' Ha|m' now Hm' Hn Hl|m' e Hm' Hd|e Hb|m' sk' ts body' Hm' Hd Hp Hb Hs'|e Hf].
  - by apply (Hh name).
  - congruence.
  - rewrite Hts in Hp. injection Hp as <-. rewrite (Hdrift now Hn) in Hd. done.
  - destruct Hk as [[id Hm0] Hak]. destruct (wf_merchant_texts _ Hwf _ _ Hm0) as [_ Hread]. congruence.
  - by apply (Hun m).
  - apply Hm in Hm' as ->. congruence.
  - apply Hm in Hm' as ->. apply Hl. unfold live. simpl. by rewrite Hnonce.
  - apply Hm in Hm' as ->. congruence.
  - congruence.
  - apply Hm in Hm' as ->. apply Hs'. congruence.
  - done.
Qed.
End InOrder.

Section Theorems.
Context {U : UUIDLib} {UL : UUIDLaws} {P : PgLib} {JL : JsonbLaws} {ES : EncryptionService} {EL : EncryptionLaws}.
Context {HS : HashService} {HL : HashLaws} {SS : SignatureService} {SL : SignatureLaws} {TS : TokenService} {TL : TokenLaws}.
Context {UP : URLParser} {RU : RequestURI} {V : Validator} {VL : ValidatorLaws} {GF : GinFallback}.
Context {B : Backend} {BL : BackendLaws}.

(** *** Whatever fails *)

Lemma verdict_run deps rt r s c es s' :
  ready s -> rq_Method r = "POST" -> rq_Path r = route_path rt -> run (ServeHTTP deps r) [] s = Some (c, es, s') ->
  verdict true deps rt r (view s) (v_clock (view s')) c (tables s') es.
Proof.
  intros Hs Hm Hp Hr.
  destruct (solo_run _ _ _ _ _ _ _ (verdict_wp true deps rt r [] (view s) (proj1 (ready_good eq true s) Hs) (failing_free _) Hm Hp)
              (ready_locked _ Hs) Hr) as [(own & Hv) _]. exact Hv.
Qed.

Lemma asks_unique c mid rt m m' : asks c mid rt m -> asks c mid rt m' -> m' = m.
Proof. intros [b Hb|b Hb|b Hb] Ha; inversion Ha as [b' Hb'|b' Hb'|b' Hb']; subst; rewrite Hb in Hb'; by injection Hb' as ->. Qed.

Lemma asks_bound c mid rt m e : asks c mid rt m -> ~ malformed c rt e.
Proof. intros [b Hb|b Hb|b Hb]; unfold malformed; congruence. Qed.

(** The status that an answer shows. *)
Lemma transaction_status txn c : transaction_answer txn c -> Status c = StatusCreated.
Proof. intros (id & now & Hc). unfold Status. by rewrite Hc. Qed.

Lemma refusal_not_created c : refusal c -> Status c <> StatusCreated.
Proof. unfold refusal, StatusCreated. lia. Qed.

(** A request that is not answered 201 is answered with an error. *)
Lemma verdict_error flt deps rt r v late c T es :
  verdict flt deps rt r v late c T es ->
  (refusal c /\ (T = v_tables v \/
     exists mid c0 m txn, admitted rt v (entry r) late mid c0 /\ asks c0 mid rt m /\ movement_step m txn (v_tables v) T)) \/
  (exists mid c0 m txn, admitted rt v (entry r) late mid c0 /\ asks c0 mid rt m /\ transaction_answer txn c /\
     movement_outcome flt m (v_tables v) (Ok txn) T).
Proof.
  intros [e c1 es1 Hrt He Hc|now c1 es1 Hrt Hn Hb Hc|mid c0 c1 es1 Ha Ho Hc|mid c0 c1 T1 es1 Ha Hh].
  - left. split; [by eapply unsigned_refusal|by left].
  - left. split; [by apply (answers_refusal ErrInvalidToken)|by left].
  - left. split; [by apply (answers_refusal ErrRateLimitExceeded)|by left].
  - destruct Hh as [e c2 es2 Hmal Hc|m e c2 T2 es2 Hk Ho Hc|m txn c2 T2 es2 Hk Ho Hc _].
    + left. split; [by apply (answers_refusal (Validation (error_text e)))|by left].
    + left. split; [eapply answers_refusal; [by eapply registered_refusal, movement_error|exact Hc]|].
      inversion Ho as [k r' Hkey Hx| | | |txn err T3 _ Hu Hstep]; subst; try (by left). right. by exists mid, c0, m, txn.
    + right. by exists mid, c0, m, txn.
Qed.

(** C10: a POST to /api/v1/payments, /payments/refund or /wallets/topup that is answered 201
    came from a merchant: an active one that signed exactly this request, or the holder of a
    token for a top-up.  The transaction in the answer is the one this request booked as its
    body asks, or the one already kept for that reference, and then nothing changed.  Any
    other answer has status 400 or more and has changed no table, unless the answer to COMMIT
    was lost, when what the body asked for, and nothing else, may be booked. *)
Theorem money_answered deps rt r s c es s' :
  ready s -> rq_Method r = "POST" -> rq_Path r = route_path rt -> run (ServeHTTP deps r) [] s = Some (c, es, s') ->
  if Status c =? StatusCreated then
    exists mid c0 m txn, admitted rt (view s) (entry r) (v_clock (view s')) mid c0 /\ asks c0 mid rt m /\ transaction_answer txn c /\
      (movement_step m txn (tables s) (tables s') \/
       exists key, movement_key m = Some key /\ answered (tables s) key (Ok txn) /\ tables s' = tables s)
  else
    400 <= Status c /\
    (tables s' = tables s \/
     exists mid c0 m txn, admitted rt (view s) (entry r) (v_clock (view s')) mid c0 /\ asks c0 mid rt m /\
       movement_step m txn (tables s) (tables s')).
Proof.
  intros Hs Hm Hp Hr. destruct (verdict_error _ _ _ _ _ _ _ _ _ (verdict_run _ _ _ _ _ _ _ Hs Hm Hp Hr))
    as [[Hc Ho]|(mid & c0 & m & txn & Ha & Hk & Hc & Ho)].
  - rewrite (proj2 (Z.eqb_neq _ _) (refusal_not_created _ Hc)). split; [exact Hc|].
    destruct Ho as [HT|Hstep]; [by left|by right].
  - rewrite (transaction_status _ _ Hc). exists mid, c0, m, txn. split_and!; [done..|].
    inversion Ho as [key r' Hkey Hx|txn' T' Hu Hstep| | |]; subst; [right; by exists key|by left].
Qed.

(** *** When nothing fails *)

Lemma verdict_total deps rt r s :
  ready s -> idle s -> reliable s -> rq_Method r = "POST" -> rq_Path r = route_path rt ->
  exists c es s', run (ServeHTTP deps r) [] s = Some (c, es, s') /\
    verdict false deps rt r (view s) (v_clock (view s')) c (tables s') es.
Proof.
  intros Hs Hi Hr Hm Hp.
  destruct (solo_total _ _ _ _ (verdict_wp false deps rt r [] (view s) (proj1 (ready_good eq true s) Hs) (idle_free _ _ Hi) Hm Hp)
              (ready_locked _ Hs) Hr) as (c & es & s' & Hrun & (own & Hv) & _). by exists c, es, s'.
Qed.

(** A request in order is answered as the payment service decides. *)
Lemma verdict_served deps rt r v late c T es mid c0 m :
  wf_tables (v_tables v) -> verdict false deps rt r v late c T es ->
  entitled rt v (entry r) late mid c0 -> under_limit (route_group rt) v c0 -> asks c0 mid rt m ->
  exists result, movement_outcome false m (v_tables v) result T /\
    match result with
    | Ok txn => transaction_answer txn c /\ notified false (d_WebhookSvc deps) (d_WebhookRepo deps) T txn es
    | Err e => answers_error e c
    end.
Proof.
  intros Hwf Hv Hen Hun Hk.
  destruct Hv as [e c1 es1 Hrt He Hc|now c1 es1 Hrt Hn Hb Hc|mid1 c1 c2 es1 Ha Ho Hc|mid1 c1 c2 T1 es1 Ha Hh].
  - destruct Hen as [m0 ts body _ Hs0|claims -> Hb]; [|done]. by destruct (afresh_not_unsigned _ _ _ _ _ _ _ Hwf Hs0 He).
  - destruct Hen as [m0 ts body Hrt' _|claims _ Hb']; [done|]. by destruct (Hb claims); auto.
  - destruct (entitled_admitted _ _ _ _ _ _ _ _ Hwf Hen Ha) as [-> ->]. by destruct (under_not_over _ _ _ _ _ Hun Ho).
  - destruct (entitled_admitted _ _ _ _ _ _ _ _ Hwf Hen Ha) as [-> ->].
    destruct Hh as [e c3 es3 Hmal Hc|m' e c3 T3 es3 Hk' Ho Hc|m' txn c3 T3 es3 Hk' Ho Hc Hno].
    + by destruct (asks_bound _ _ _ _ _ Hk Hmal).
    + rewrite (asks_unique _ _ _ _ _ Hk Hk') in Ho. by exists (Err e).
    + rewrite (asks_unique _ _ _ _ _ Hk Hk') in Ho. by exists (Ok txn).
Qed.

(** C11: when nothing fails, a POST to one of the three routes ends, and its answer has its
    reason: the error of a check of the signature or token that the request fails; RATE_001
    when the counter of the client stood at the limit; PAY_002 when the body cannot be bound;
    else what the payment service answers the request that the body makes on behalf of that
    merchant.  A request whose signature is fresh or whose token is valid all the time, whose
    client is under the limit, and whose body can be bound, is never turned away before the
    service; if it is answered 201, the delivery of the transaction to the merchant's webhook
    is started, when webhooks are served, the merchant has one and its sealed secret opens. *)
Theorem money_decided deps rt r s :
  ready s -> idle s -> reliable s -> rq_Method r = "POST" -> rq_Path r = route_path rt ->
  exists c es s', run (ServeHTTP deps r) [] s = Some (c, es, s') /\
    verdict false deps rt r (view s) (v_clock (view s')) c (tables s') es /\
    forall mid c0 m, entitled rt (view s) (entry r) (v_clock (view s')) mid c0 -> under_limit (route_group rt) (view s) c0 ->
      asks c0 mid rt m ->
      exists result, movement_outcome false m (tables s) result (tables s') /\
        match result with
        | Ok txn => transaction_answer txn c /\ notified false (d_WebhookSvc deps) (d_WebhookRepo deps) (tables s') txn es
        | Err e => answers_error e c
        end.
Proof.
  intros Hs Hi Hr Hm Hp. destruct (verdict_total deps rt r s Hs Hi Hr Hm Hp) as (c & es & s' & Hrun & Hv).
  exists c, es, s'. split_and!; [exact Hrun|exact Hv|]. intros mid c0 m.
  by apply (verdict_served deps rt r (view s) _ _ _ _ mid c0 m (proj1 (proj2 Hs)) Hv).
Qed.

(** C12: when nothing fails, a payment that an active merchant signed in time, with a nonce
    that is not kept and a client under its limit, whose body can be bound and whose reference
    is new, is carried out if the wallet covers it and its fields fit their columns: it is
    answered 201 with the transaction that is booked, and its delivery to the merchant's
    webhook, if there is one, is started, unless the drawn identifier is taken or the clock out
    of the JSON years.  If the wallet does not cover it, it is answered PAY_001 and nothing
    changes. *)
Theorem payment_accepted deps r s m timestamp body pb w b :
  ready s -> idle s -> reliable s -> rq_Method r = "POST" -> rq_Path r = "/api/v1/payments" ->
  under_limit "payments" (view s) (as_merchant m body (entry r)) ->
  ShouldBindJSON (A := PaymentBody) (mkReader body None) = Ok pb ->
  let req := mkPaymentRequest (m_ID m) (pb_ReferenceID pb) (pb_Amount pb) (pb_Currency pb) "" (ClientIP (entry r))
               (option_map sanitize (pb_ExtraData pb)) in
  idempotency_logs (tables s) !! BuildIdempotencyKey (m_ID m) (pb_ReferenceID pb) = None ->
  only_wallet (tables s) (wallet_of (m_ID m) (pb_Currency pb)) w -> open_balance w = Ok b ->
  exists c es s', run (ServeHTTP deps r) [] s = Some (c, es, s') /\
    (signed_afresh (view s) (entry r) (v_clock (view s')) m timestamp body ->
     if b <? pb_Amount pb then answers_error ErrInsufficientFunds c /\ tables s' = tables s
     else payment_fits req (tables s) ->
       (exists txn, transaction_answer txn c /\ payment_step req txn (tables s) (tables s') /\
          notified false (d_WebhookSvc deps) (d_WebhookRepo deps) (tables s') txn es) \/
       (exists e txn, answers_error e c /\ registered e /\ payment_txn req txn /\ tables s' = tables s /\
          unlucky (tables s) (Some (BuildIdempotencyKey (m_ID m) (pb_ReferenceID pb))) txn)).
Proof.
  intros Hs Hi Hr Hm Hp Hun Hb req Hkey Hw Hbal.
  destruct (verdict_total deps RPayment r s Hs Hi Hr Hm Hp) as (c & es & s' & Hrun & Hv).
  exists c, es, s'. split; [exact Hrun|]. intros Hsig.
  pose proof (asks_payment (as_merchant m body (entry r)) (m_ID m) pb Hb) as Hk.
  assert (Hen : entitled RPayment (view s) (entry r) (v_clock (view s')) (m_ID m) (as_merchant m body (entry r)))
    by (by eapply en_signed).
  destruct (verdict_served _ _ _ _ _ _ _ _ _ _ _ (proj1 (proj2 Hs)) Hv Hen Hun Hk) as (result & Ho & Hans).
  pose proof (bound_payment _ _ Hb) as (_ & Hpos & _ & Href%safe_readable & _).
  pose proof (payment_settled req (tables s) w b result (tables s') (proj1 (proj2 Hs)) (asks_valid _ _ _ _ Hk) Hpos Hkey Hw Hbal Ho) as Hset.
  cbn [pr_Amount pr_ReferenceID req] in Hset. rewrite Href in Hset. cbn [negb] in Hset. destruct (b <? pb_Amount pb); [by destruct Hset as [-> HT]|].
  intros Hfit. destruct (Hset Hfit) as [(txn & -> & Hstep)|(e & txn & -> & Htxn & HT & Hbad)]; [left; exists txn; by destruct Hans|].
  right. exists e, txn. split_and!; [done|by eapply movement_error|done..].
Qed.
End Theorems.
