(* ===== verification/RefundTheorems.v ===== *)
(** The contract of refunds and top-ups, for a call that runs alone. *)

From S2P Require Export Columns Money.

Section Contract.
Context {U : UUIDLib} {UL : UUIDLaws} {P : PgLib} {JL : JsonbLaws} {ES : EncryptionService} {EL : EncryptionLaws}.
Context {B : Backend} {BL : BackendLaws}.

Abbreviation refund_key req := (BuildRefundIdempotencyKey (rr_MerchantID req) (rr_OriginalReferenceID req)).

(** ** Refunds *)

(** C17: a refund that answers with a new transaction, whatever failures occurred on the way,
    is of a successful payment of that merchant under that reference, which it marks
    reversed; the amount it returns is the one requested, or the whole payment's, positive
    and at most the payment's; it is added to the wallet that had paid, exactly one
    transaction is stored, and no other row changes. *)
Theorem refund_credits req s txn es s' :
  ready s -> ledger_ok (tables s) -> run (ProcessRefund req) [] s = Some (Ok txn, es, s') ->
  (rune_count (rr_OriginalReferenceID req) <= 100)%nat ->
  idempotency_logs (tables s) !! refund_key req = None ->
  exists o orig,
    tx_MerchantID orig = rr_MerchantID req /\ tx_ReferenceID orig = rr_OriginalReferenceID req /\
    refund_effect txn o orig (default (tx_Amount orig) (rr_Amount req)) (tables s) (tables s') /\
    booked_alone txn (default (tx_Amount orig) (rr_Amount req)) (tables s) (tables s') /\
    tx_WalletID txn = tx_WalletID orig /\
    answered (tables s') (refund_key req) (Ok (visible txn)).
Proof.
  intros Hs Hok Hr Hlen Hun. apply (refund_run _ _ _ _ _ Hs) in Hr as [Ho%outcome_eq _].
  inversion Ho as [k r Hk Ha|t T' Hu Hst|e Hf|e Hf He|t err T' Hf Hu Hst]; subst; simplify_eq.
  { apply answered_short in Ha as (l & Hl & _); [congruence|by apply refund_key_short]. }
  destruct Hst as (Tr & -> & Hst).
  destruct (refund_has_effect _ _ _ _ _ Hok (ltac:(reflexivity)) Hst) as (o & orig & amount & Hb & He).
  assert (Horig : tx_MerchantID orig = rr_MerchantID req /\ tx_ReferenceID orig = rr_OriginalReferenceID req
                  /\ refund_amount req orig = Ok amount /\ tx_WalletID txn = tx_WalletID orig).
  { destruct Hst as (orig' & amount' & (? & ? & ? & _ & Htx) & Horig' & _ & Hm & Href & Hamt & _).
    pose proof (re_original _ _ _ _ _ _ He) as Ho1.
    destruct (re_row _ _ _ _ _ _ He) as (row & Hrow & _ & _ & _ & _ & Hra & Hro).
    apply store_transaction_inv in Hrow as (_ & _ & _ & Ha & Hoo & _). rewrite Hra in Ha. rewrite Hro in Hoo.
    rewrite Htx in Ha, Hoo |- *. simpl in Ha, Hoo |- *. simplify_eq.
    done. }
  destruct Horig as (Hm & Href & Hamt & Hwid).
  assert (Hdef : default (tx_Amount orig) (rr_Amount req) = amount).
  { unfold refund_amount in Hamt. destruct (rr_Amount req) as [a|]; simpl; [|congruence].
    repeat case_match; congruence. }
  exists o, orig. rewrite Hdef. split_and!; [done..|by eapply booking_alone|done|by eapply booking_answered].
Qed.

(** A refund that answers with an error has changed no table, unless the answer to COMMIT
    was lost. *)
Theorem refund_error_atomic req s e es s' :
  ready s -> run (ProcessRefund req) [] s = Some (Err e, es, s') ->
  tables s' = tables s \/
  (exists err txn, e = InternalError (Errorf "commit tx" err) /\
                   refund_step req txn (tables s) (tables s) (tables s')).
Proof.
  intros Hs Hr. apply (refund_run _ _ _ _ _ Hs) in Hr as [Ho%outcome_eq _].
  inversion Ho as [k r Hk Ha|t T' Hu Hst|e' Hf|e' Hf He|t err T' Hf Hu (Tr & -> & Hst)]; subst; eauto 10.
Qed.

(** C18: a payment is refunded at most once: after a refund was answered with a transaction,
    any other request to refund that reference changes nothing, whatever its amount, and is
    answered with that transaction as it was cached, or an error. *)
Theorem refund_idempotent req req' s txn es s1 r es' s2 :
  (rune_count (rr_OriginalReferenceID req) <= 100)%nat ->
  rr_MerchantID req' = rr_MerchantID req -> rr_OriginalReferenceID req' = rr_OriginalReferenceID req ->
  ready s -> run (ProcessRefund req) [] s = Some (Ok txn, es, s1) ->
  run (ProcessRefund req') [] s1 = Some (r, es', s2) ->
  tables s2 = tables s1 /\ (r = Ok (visible txn) \/ exists e, r = Err e /\ registered e).
Proof.
  intros Hlen Hm Href Hs Hr1 Hr2.
  apply (refund_run _ _ _ _ _ Hs) in Hr1 as [Ho%outcome_eq Hs1].
  apply (refund_run _ _ _ _ _ Hs1) in Hr2 as [Ho'%outcome_eq _].
  assert (Hans : answered (tables s1) (refund_key req') (Ok (visible txn))).
  { rewrite Hm, Href. inversion Ho as [k r0 Hk Ha|t0 T' Hu (Tr & -> & Hst)| | |]; subst; simplify_eq.
    - destruct Ha as (l & Hl & Hu). exists l. split; [done|]. by rewrite (unmarshal_visible _ _ Hu).
    - destruct Hst as (orig & amount & _ & _ & _ & _ & _ & _ & Hb). by eapply booking_answered. }
  assert (Hsh : (rune_count (refund_key req') <= 255)%nat) by (apply refund_key_short; congruence).
  assert (Hno : idempotency_logs (tables s1) !! refund_key req' <> None).
  { apply answered_short in Hans as (l & -> & _); done. }
  inversion Ho' as [k r0 Hk Ha|t0 T' Hu%unanswered_log Hst|e Hf|e Hf He|t0 err T' Hf Hu%unanswered_log Hst]; subst; simplify_eq.
  - split; [done|]. left. by eapply answered_unique.
  - inversion Hf; subst; first
      [ match goal with H : unanswered _ _ |- _ => apply unanswered_log in H; by destruct Hno end
      | match goal with H : unreadable _ _ |- _ => apply unreadable_error in H; by eauto end ].
  - split; [done|]. right. eauto.
Qed.

(** What a refund request is told about its original, in the order of the checks. *)
Definition refund_verdict (req : RefundRequest) (T : Tables) (orig : Transaction) : option error :=
  if negb (IsRefundable orig) then Some ErrInvalidRefund
  else if some_row (live_refund_of (tx_ID orig)) (transactions T) then Some ErrDuplicateTransaction
  else match refund_amount req orig with Err e => Some e | Ok _ => None end.

(** A refund that was booked passed every check. *)
Lemma refund_step_passed req txn T T' :
  ledger_ok T -> refund_step req txn T T T' ->
  exists orig, transactions T !! tx_ID orig = Some orig /\
    txn_of (rr_MerchantID req) (rr_OriginalReferenceID req) orig = true /\ refund_verdict req T orig = None.
Proof.
  intros Hok (orig & amount & Htx & Ht & Hrf & Hm & Hre & Ha & Hb). exists orig. split; [done|]. split.
  { unfold txn_of. by rewrite bool_decide_eq_true_2, Hre, String.eqb_refl. }
  unfold refund_verdict. rewrite Hrf, Ha. simpl. destruct (some_row _ _) eqn:Hsome; [exfalso|done].
  apply some_row_true in Hsome as (id & t & Hid & Hl). unfold live_refund_of in Hl.
  rewrite !andb_true_iff, bool_decide_eq_true, String.eqb_eq in Hl. destruct Hl as [[Hoid Hty] _].
  destruct (lo_refund _ Hok _ _ Hid Hty) as (o & orig' & Ho' & Hoo & _ & _ & _ & _ & _ & Hlog). simplify_eq.
  rewrite Hm, Hre in Hlog. by eapply booking_not_logged.
Qed.

(** The rows a refund request may find under its reference. *)
Definition originals (req : RefundRequest) (T : Tables) : list (uuid * Transaction) :=
  filter (fun kv => txn_of (rr_MerchantID req) (rr_OriginalReferenceID req) kv.2 = true) (map_to_list (transactions T)).

Lemma originals_elem req T id t :
  (id, t) ∈ originals req T <->
  transactions T !! id = Some t /\ txn_of (rr_MerchantID req) (rr_OriginalReferenceID req) t = true.
Proof. unfold originals. rewrite list_elem_of_filter, elem_of_map_to_list. simpl. tauto. Qed.

(** The rest of a refund whose original passed every check. *)
Lemma verdict_passed req T orig :
  refund_verdict req T orig = None -> exists amount, refund_amount req orig = Ok amount /\ tx_TransactionType orig = TransactionTypePayment.
Proof.
  unfold refund_verdict, IsRefundable. destruct (tx_TransactionType orig =? TransactionTypePayment)%string eqn:Ht; [|done].
  apply String.eqb_eq in Ht. repeat case_match; intros; simplify_eq; eauto.
Qed.

(** Why a refund of a known original is turned down: the verdict, or what its wallet and its
    rows are like. *)
Lemma refused_verdict req T e :
  ledger_ok T -> idempotency_logs T !! refund_key req = None -> refund_refused eq req T T e ->
  (readable (rr_OriginalReferenceID req) = false /\ exists err, e = InternalError err) \/
  readable (rr_OriginalReferenceID req) = true /\
  ((originals req T = [] /\ e = ErrNotFound "original transaction") \/
  exists orig, (tx_ID orig, orig) ∈ originals req T /\
    match refund_verdict req T orig with
    | Some e' => e = e'
    | None => refund_fits req orig T ->
              exists amount txn, refund_txn req orig amount txn /\ unlucky T (Some (refund_key req)) txn
    end).
Proof.
  intros Hok Hun Href.
  assert (Horig : forall orig, original eq req T orig -> (tx_ID orig, orig) ∈ originals req T).
  { intros orig (Tr & -> & Ht & Hf). by apply originals_elem. }
  assert (Hclear : forall orig amount, cleared eq req T orig amount ->
            (tx_ID orig, orig) ∈ originals req T /\ refund_verdict req T orig = None /\ refund_amount req orig = Ok amount).
  { intros orig amount (Ho & Hrf & (Tx & -> & Hno) & Ha). split; [by apply Horig|]. split; [|done].
    unfold refund_verdict. by rewrite Hrf, Hno, Ha. }
  rewrite <- (refund_key_readable (rr_MerchantID req)).
  destruct (readable (refund_key req)) eqn:Hread; [right; split; [done|]|left; split; [done|]].
  2:{ inversion Href as [e1 (t & err & _ & _ & ->)|Hu|? Hu|? Hu|? ? Hu|? ? Hu|? ? ? ? Hu|? ? ? ? Hu]; subst;
        [by eexists|apply unanswered_readable in Hu; congruence..]. }
  inversion Href as [e1 Ht|_ Hno|o _ Ho Hrf|o _ Ho Hrf Hex|o e1 _ Ho Hrf (Tx & -> & Hno) Ha|o a _ Hcl Hw|o a w e1 _ Hcl Hw Hb|o a t e1 _ Hcl Ht Hrows]; subst.
  - destruct Ht as (t & err & Hin & Ht & _). rewrite refund_key_readable in Hread. exfalso.
    apply elem_of_cons in Hin as [->| ->%list_elem_of_singleton]; [rewrite refund_key_readable in Ht|]; congruence.
  - left. split; [|done]. destruct (originals req T) as [|[id t] l] eqn:Hl; [done|exfalso].
    assert (Hin : (id, t) ∈ originals req T) by (rewrite Hl; left). apply originals_elem in Hin as [Ht Hf].
    by rewrite (Hno _ _ Ht) in Hf.
  - right. exists o. split; [by apply Horig|]. unfold refund_verdict. by rewrite Hrf.
  - right. exists o. split; [by apply Horig|]. unfold refund_verdict. by rewrite Hrf, Hex.
  - right. exists o. split; [by apply Horig|]. unfold refund_verdict. by rewrite Hrf, Hno, Ha.
  - right. exists o. apply Hclear in Hcl as (Ho & -> & Ha). split; [done|]. intros Hf.
    destruct (rv_wallet _ _ _ Hf) as (w & b & Hw' & _). congruence.
  - right. exists o. apply Hclear in Hcl as (Ho & -> & Ha). split; [done|]. intros Hf.
    destruct (rv_wallet _ _ _ Hf) as (w' & b & Hw' & Hb'). congruence.
  - right. exists o. apply Hclear in Hcl as (Ho & Hv & Ha). rewrite Hv. split; [done|]. intros Hf. exists a, t. split; [done|].
    pose proof Ho as [Hot _]%originals_elem. destruct (verdict_passed _ _ _ Hv) as (_ & _ & Hty).
    assert (Hpos : 0 < tx_Amount o) by (eapply lo_amount; eauto).
    eapply fits_refused; [| |exact Hrows].
    + by eapply refund_txn_fits; [|eapply refund_amount_range| |].
    + intros k [= <-]. split; [by eapply refund_key_column|done].
Qed.


(** ** Top-ups *)

(** C23: a top-up that answers with a transaction adds exactly its amount, which is positive,
    to the merchant's wallet in that currency; it stores the transaction it returns, and changes
    no other row and no log.  Nothing checks that the sum fits 64 bits: past the largest integer
    the wallet is left with the negative balance that the sum wraps around to. *)
Theorem topup_credits req s txn es s' :
  in_int64 (tr_Amount req) -> ready s -> run (ProcessTopup req) [] s = Some (Ok txn, es, s') ->
  topup_txn req txn /\ 0 < tr_Amount req /\
  (exists w b, wallets (tables s) !! tx_WalletID txn = Some w /\
     wallet_of (tr_MerchantID req) (tr_Currency req) w = true /\
     balance (tables s) (tx_WalletID txn) = Some b /\
     balance (tables s') (tx_WalletID txn) =
       Some (if b + tr_Amount req <=? max_int64 then b + tr_Amount req else b + tr_Amount req - 2 ^ 64)) /\
  booked_alone txn (tr_Amount req) (tables s) (tables s') /\
  (forall id, id <> tx_ID txn -> transactions (tables s') !! id = transactions (tables s) !! id) /\
  idempotency_logs (tables s') = idempotency_logs (tables s).
Proof.
  intros Hv Hs Hr. apply (topup_run _ _ _ _ _ Hv Hs) in Hr as [Ho%outcome_eq _].
  inversion Ho as [k r Hk Ha|t T' Hu Hst|e Hf|e Hf He|t err T' Hf Hu Hst]; subst; simplify_eq.
  destruct Hst as (Htxn & Hpos & (w & Hw & Hof) & Hbook).
  pose proof (booking_alone _ _ _ _ _ _ Hbook) as Hba.
  split_and!; [done|done| |done| |by eapply booking_no_logs].
  - destruct (ba_balance _ _ _ _ Hba) as (b & Hb1 & Hb2). exists w, b. split_and!; [done..|].
    rewrite Hb2. f_equal. pose proof (balance_range _ _ _ Hb1). unfold in_int64, min_int64 in *.
    destruct (Z.leb_spec (b + tr_Amount req) max_int64).
    + apply wrap64_id. unfold in_int64, min_int64, max_int64 in *. lia.
    + apply wrap64_over. unfold max_int64 in *. lia.
  - intros id Hne. by eapply booking_rows.
Qed.

(** C24: when nothing fails and nobody is in a transaction, a top-up ends.  One that is not positive is
    answered PAY_002, one of a merchant without a wallet PAY_004, and neither changes anything;
    one for a wallet whose balance can be read is booked, if the amount fits its column, unless
    the drawn identifier is taken, or the clock does not fit 64 bits in milliseconds.  A currency
    that the database cannot read is answered SYS_001, with no effect. *)
Theorem topup_decided req s :
  in_int64 (tr_Amount req) -> ready s -> idle s -> reliable s ->
  exists r es s', run (ProcessTopup req) [] s = Some (r, es, s') /\
    if tr_Amount req <=? 0 then r = Err ErrInvalidAmount /\ tables s' = tables s
    else if negb (readable (tr_Currency req)) then (exists e, r = Err (InternalError e)) /\ tables s' = tables s
    else
      (no_wallet (tables s) (wallet_of (tr_MerchantID req) (tr_Currency req)) ->
       r = Err (ErrNotFound "wallet") /\ tables s' = tables s) /\
      (forall w b,
         only_wallet (tables s) (wallet_of (tr_MerchantID req) (tr_Currency req)) w -> open_balance w = Ok b ->
         topup_fits req (tables s) ->
         (exists txn, r = Ok txn /\ topup_step req txn (tables s) (tables s')) \/
         (exists e txn, r = Err e /\ tables s' = tables s /\ topup_txn req txn /\
            (is_Some (transactions (tables s) !! tx_ID txn) \/ ~ in_int64 (UnixMilli (tx_CreatedAt txn))))).
Proof.
  intros Hv Hs Hi Hr.
  destruct (run_total (ProcessTopup req) (topup_outcome eq false req (tables s)) [] s) as (r & es & s' & Hrun & Ho & _);
    [intros Hg Hal; by apply ProcessTopup_wp; [apply _|..]|done..|].
  exists r, es, s'. split; [done|]. apply outcome_eq in Ho. destruct (Z.leb_spec (tr_Amount req) 0) as [Hle|Hpos].
  { inversion Ho as [k r' Hk Ha|txn T' Hu Hst|e Href|e Hf|txn err T' Hf]; subst; simplify_eq; [exfalso|].
    - destruct Hst as (_ & Hpos & _). lia.
    - unfold ProcessTopup in Hrun. destruct (Z.leb_spec (tr_Amount req) 0); [|lia]. simpl in Hrun. by simplify_eq. }
  pose proof (proj1 (proj2 Hs)) as Hwf. change (wf_tables (tables s)) in Hwf.
  destruct (readable (tr_Currency req)) eqn:Hread; cbn [negb].
  2:{ inversion Ho as [k r' Hk Ha|txn T' Hu Hst|e Href|e Hf|txn err T' Hf]; subst; simplify_eq.
      - destruct Hst as (_ & _ & (w & Hw & Hof) & _). pose proof (wallet_readable _ _ _ _ _ Hwf Hw Hof). congruence.
      - inversion Href as [e1 (t & err & _ & _ & ->)|?|Hr'|w e' Hw Hof He|w txn e' Hw Hof]; subst; [by eauto|lia|congruence|..];
          pose proof (wallet_readable _ _ _ _ _ Hwf Hw Hof); congruence. }
  split.
  - intros Hno. inversion Ho as [k r' Hk Ha|txn T' Hu Hst|e Href|e Hf|txn err T' Hf]; subst; simplify_eq.
    + destruct Hst as (_ & _ & (w & Hw & Hof) & _). by rewrite (Hno _ _ Hw) in Hof.
    + inversion Href as [e1 [Ht _]%unreadable_refused|?|?|w e' Hw Hof He|w txn e' Hw Hof]; subst; [congruence|lia|done|by rewrite (Hno _ _ Hw) in Hof..].
  - intros w b (Hw & Hof & Honly) Hb Hfit.
    inversion Ho as [k r' Hk Ha|txn T' Hu Hst|e Href|e Hf|txn err T' Hf]; subst; simplify_eq; [by eauto|].
    inversion Href as [e1 [Ht _]%unreadable_refused|?|_ Hno|w' e' Hw' Hof' He|w' txn e' Hw' Hof' Htxn Hwid Hrows]; subst.
    + congruence.
    + lia.
    + by rewrite (Hno _ _ Hw) in Hof.
    + assert (w' = w) as -> by eauto. congruence.
    + right. exists e, txn. split_and!; [done..|].
      destruct (decide (in_int64 (UnixMilli (tx_CreatedAt txn)))) as [Hms|]; [left|by right].
      assert (Hf : txn_fits (tables s) txn) by (apply (topup_txn_fits req); [done..|rewrite Hwid; eauto|done]).
      by destruct (fits_refused _ None _ _ Hf ltac:(done) Hrows) as [|[? _]].
Qed.

(** A top-up that answers with an error has changed no table, unless the answer to COMMIT
    was lost; one whose amount is not positive is answered with PAY_002. *)
Theorem topup_error_atomic req s e es s' :
  in_int64 (tr_Amount req) -> ready s -> run (ProcessTopup req) [] s = Some (Err e, es, s') ->
  (tables s' = tables s \/
   (exists err txn, e = InternalError (Errorf "commit tx" err) /\ topup_step req txn (tables s) (tables s'))) /\
  (tr_Amount req <= 0 -> e = ErrInvalidAmount /\ s' = s).
Proof.
  intros Hv Hs Hr. split.
  - apply (topup_run _ _ _ _ _ Hv Hs) in Hr as [Ho%outcome_eq _].
    inversion Ho; subst; eauto 10.
  - intros Hle. unfold ProcessTopup in Hr. destruct (Z.leb_spec (tr_Amount req) 0); [|lia].
    simpl in Hr. by simplify_eq.
Qed.
End Contract.
