(* ===== verification/PaymentConcurrency.v ===== *)
(** The gateway under load: any number of HTTP requests, whatever they ask for, and of calls of
    the payment service run as goroutines, with the webhook deliveries and audit entries they
    start; their operations interleave in any order, with failures at any point, and the
    process may be stopped and restarted. *)

From S2P Require Export Payments Beside.

Section Concurrent.
Context {U : UUIDLib} {UL : UUIDLaws} {P : PgLib} {JL : JsonbLaws} {ES : EncryptionService} {EL : EncryptionLaws}.
Context {HS : HashService} {HL : HashLaws} {SS : SignatureService} {TS : TokenService} {TL : TokenLaws}.
Context {UP : URLParser} {RU : RequestURI} {V : Validator} {VL : ValidatorLaws} {GF : GinFallback}.
Context {B : Backend} {BL : BackendLaws}.

(** The goroutine of one request; its answer goes to the client. *)
Definition answered_by {A} (p : prog A) : prog unit := do _ <- p ;; Ret tt.

Inductive request : prog unit -> Prop :=
| rq_http deps r : request (answered_by (ServeHTTP deps r))
| rq_payment req : payment_valid req -> request (answered_by (ProcessPayment req))
| rq_refund req : request (answered_by (ProcessRefund req))
| rq_topup req : in_int64 (tr_Amount req) -> request (answered_by (ProcessTopup req)).

(** A stretch of the server's life: from a state where no request runs, requests arrive and
    interleave; or the process stops, with whatever was running, and is started again. *)
Inductive era (s s' : St) : Prop :=
| era_serves ps : rtc (pool_step request) ([], s) (ps, s') -> era s s'
| era_restarts : restarted (view s) (view s') -> era s s'.

(** A state that may be reached from [s]. *)
Definition reachable : St -> St -> Prop := rtc era.

Lemma request_serves {PL : PieceLogic} p : request p -> serves p.
Proof.
  assert (Ha : forall A (q : prog A), serves q -> serves (answered_by q)).
  { intros A q Hq. apply serves_before; [done|]. intros _. apply beside_ret. }
  intros []; apply Ha; [apply ServeHTTP_serves|by apply serves_payment|apply serves_refund|by apply serves_topup].
Qed.

Lemma request_safe p v :
  request p -> locks_ok v -> d_inv (ledger ledger_steps false) v -> safe (ledger ledger_steps false) None p v.
Proof.
  intros Hp Hwl Hi. exists []. pose (L := ledger_logic ledger_steps false).
  eapply wp_mono; [|apply (request_serves (PL := L) p Hp); by split]. done.
Qed.

Lemma served_steps s ps s' :
  ready s -> rtc (pool_step request) ([], s) (ps, s') -> ledger_steps (tables s) (tables s') /\ ready s'.
Proof.
  intros (Hwl & Hwf & Hc) Hsteps.
  destruct (pool_safe (ledger ledger_steps false)) with (stale := fun _ : tx => True) (served := request) (ps := @nil (prog unit)) (s := s) (ps' := ps) (s' := s')
    as [Hok' Hrel].
  - intros v v' [[HT|Hs] _] _; simpl; (split; [|done]).
    + by rewrite HT.
    + by apply rtc_once.
  - intros p v Hp Hw Hi. by apply request_safe.
  - done.
  - by apply pool_ok_nil.
  - destruct Hok' as [Hwl' [Hwf' Hc'] _]. split; [|by split]. by destruct Hrel.
Qed.

(** What was committed stays, and the cache says nothing new. *)
Lemma restarted_ready s s' : ready s -> restarted (view s) (view s') -> tables s' = tables s /\ ready s' /\ idle s'.
Proof.
  intros (_ & Hwf & Hc) [HT Hx Hl Hr _]. split; [done|].
  split; [|intros h; unfold tx_open; rewrite Hx; destruct (v_txs (view s) !! h); simpl; tauto]. split_and!.
  - split.
    + intros h ws x l Ht. rewrite Hx in Ht. by destruct (v_txs (view s) !! h).
    + intros l h. rewrite Hl. by rewrite lookup_empty.
  - unfold tables. by rewrite HT.
  - intros key v e He. rewrite HT. by eapply Hc, Hr.
Qed.

Lemma reachable_steps s s' :
  ready s -> reachable s s' -> ledger_steps (tables s) (tables s') /\ ready s'.
Proof.
  intros Hs Hr. induction Hr as [s|s s1 s' He _ IH]; [split; [reflexivity|done]|].
  assert (H1 : ledger_steps (tables s) (tables s1) /\ ready s1).
  { destruct He as [ps Hps|Hre]; [by eapply served_steps|].
    destruct (restarted_ready _ _ Hs Hre) as (-> & H1 & _). split; [reflexivity|done]. }
  destruct H1 as [H1 Hs1]. destruct (IH Hs1) as [H2 Hs']. split; [by etrans|done].
Qed.

(** C1: in every reachable state, however the requests interleave, whatever fails, and whenever
    the process was stopped and restarted, each wallet's balance is its initial balance plus what the transactions stored since add up
    to (payments negative, refunds and top-ups positive), modulo 2^64: no update is lost,
    none is applied twice, none is half applied. *)
Theorem concurrent_conservation s s' id b :
  ready s -> reachable s s' -> balance (tables s) id = Some b ->
  balance (tables s') id =
    Some (wrap64 (b + (ledger_sum id (transactions (tables s')) - ledger_sum id (transactions (tables s))))).
Proof. intros Hs Hr Hb. destruct (reachable_steps _ _ Hs Hr) as [Hst _]. by apply steps_conserve. Qed.

(** C2: in every reachable state, also after restarts, a merchant's reference names at most one payment, and every
    refund is of a payment it has marked reversed, of the same merchant and wallet, with a
    positive amount at most the payment's; no other refund is of that payment. *)
Theorem concurrent_integrity s s' :
  ready s -> ledger_ok (tables s) -> reachable s s' ->
  (forall id1 id2 t1 t2,
     transactions (tables s') !! id1 = Some t1 -> transactions (tables s') !! id2 = Some t2 ->
     tx_TransactionType t1 = TransactionTypePayment -> tx_TransactionType t2 = TransactionTypePayment ->
     tx_MerchantID t1 = tx_MerchantID t2 -> tx_ReferenceID t1 = tx_ReferenceID t2 -> id1 = id2) /\
  (forall id t, transactions (tables s') !! id = Some t -> tx_TransactionType t = TransactionTypeRefund ->
     exists o orig, tx_OriginalTransactionID t = Some o /\ transactions (tables s') !! o = Some orig /\
       tx_TransactionType orig = TransactionTypePayment /\ tx_Status orig = TransactionStatusReversed /\
       tx_MerchantID t = tx_MerchantID orig /\ tx_WalletID t = tx_WalletID orig /\
       0 < tx_Amount t <= tx_Amount orig /\
       forall id' t', transactions (tables s') !! id' = Some t' -> tx_TransactionType t' = TransactionTypeRefund ->
         tx_OriginalTransactionID t' = Some o -> id' = id).
Proof.
  intros Hs Hok Hr. destruct (reachable_steps _ _ Hs Hr) as [Hst _].
  pose proof (steps_keep_ok _ _ Hok Hst) as Hok'. split.
  - intros id1 id2 t1 t2 H1 H2 Ht1 Ht2 Hm Href. by eapply payment_unique.
  - intros id t Ht Hty.
    destruct (lo_refund _ Hok' _ _ Ht Hty) as (o & orig & Ho & Horig & Hpay & Hrev & Hm & Hw & Ha & _).
    exists o, orig. split_and!; try done.
    + eapply lo_amount; eauto.
    + intros id' t' Ht' Hty' Ho'. by eapply refund_unique.
Qed.

(** *** Overdrafts *)

(** The sum that a step books overflows: the only way to a negative balance. *)
Definition overflows (id : uuid) (T T' : Tables) : Prop :=
  exists b, balance T id = Some b /\
            max_int64 < b + (ledger_sum id (transactions T') - ledger_sum id (transactions T)).

Lemma booking_posts txn delta reversed key T T' id :
  booking txn delta reversed key T T' ->
  tx_TransactionType txn = TransactionTypePayment \/ tx_TransactionType txn = TransactionTypeRefund \/
  tx_TransactionType txn = TransactionTypeTopup ->
  ledger_sum id (transactions T') - ledger_sum id (transactions T) = posted id txn.
Proof.
  intros Hb Hty. rewrite (booking_sum _ _ _ _ _ _ id Hb) by (intros row Hs; by eapply stored_signed). lia.
Qed.

(** A credit overdraws nothing, unless it overflows. *)
Lemma credit_nonneg txn delta reversed key T T' id b :
  booking txn delta reversed key T T' -> 0 < delta -> posted id txn = (if decide (tx_WalletID txn = id) then delta else 0) ->
  tx_TransactionType txn = TransactionTypeRefund \/ tx_TransactionType txn = TransactionTypeTopup ->
  balance T id = Some b -> 0 <= b -> overflows id T T' \/ exists b', balance T' id = Some b' /\ 0 <= b'.
Proof.
  intros Hb Hpos Hpost Hty Hbal Hge. pose proof (booking_posts _ _ _ _ _ _ id Hb (or_intror Hty)) as Hsum.
  rewrite (balance_booking _ _ _ _ _ _ id Hb), Hbal. simpl.
  destruct (decide (tx_WalletID txn = id)) as [Heq|Hne]; [|right; rewrite decide_False by congruence; eauto].
  rewrite decide_True by done. destruct (Z_lt_le_dec max_int64 (b + delta)).
  - left. exists b. split; [done|]. lia.
  - right. eexists. split; [done|]. rewrite wrap64_id; [lia|].
    unfold in_int64, min_int64, max_int64 in *. lia.
Qed.

Lemma step_nonneg T T' id b :
  ledger_ok T -> ledger_step T T' -> balance T id = Some b -> 0 <= b ->
  overflows id T T' \/ exists b', balance T' id = Some b' /\ 0 <= b'.
Proof.
  intros Hok [req txn Hv Hs|req txn Tr HP Hs|req txn Hv Hs|x Hx ->] Hbal Hge.
  - right. destruct Hs as (_ & Hpos & (w & b0 & Hw & _ & Hb0 & Hle) & Hb).
    rewrite (balance_booking _ _ _ _ _ _ id Hb), Hbal. case_decide as Hd; simpl; [|eauto].
    subst id. assert (b0 = b) as -> by (unfold balance in Hbal; rewrite Hw, Hb0 in Hbal; congruence).
    eexists. split; [done|]. pose proof (balance_range _ _ _ Hbal).
    rewrite wrap64_id; [lia|]. unfold in_int64, min_int64, max_int64 in *. lia.
  - destruct (refund_has_effect _ _ _ _ _ Hok HP Hs) as (o & orig & amount & Hb & He).
    destruct Hs as (? & ? & (? & ? & ? & _ & Htx) & _). destruct (re_row _ _ _ _ _ _ He) as (row & Hrow & _ & Hty & _ & _ & Ha & _).
    eapply credit_nonneg; [exact Hb|apply (re_amount _ _ _ _ _ _ He)| |left; by rewrite Htx|done|done].
    apply store_transaction_inv in Hrow as (_ & _ & _ & Ha' & _). unfold posted, signed.
    rewrite <- Ha', Ha. by rewrite Htx.
  - destruct Hs as ((? & ? & ? & ? & _ & Htx) & Hpos & _ & Hb).
    eapply credit_nonneg; [exact Hb|exact Hpos| |right; by rewrite Htx|done|done].
    unfold posted, signed. by rewrite Htx.
  - destruct Hx as [_ Hx]. right. exists b. split; [|done]. rewrite <- Hbal. unfold balance.
    destruct x; simpl in *; try done. rewrite lookup_insert_ne; [done|].
    intros Heq. unfold balance in Hbal. by rewrite <- Heq, Hx in Hbal.
Qed.

(** C4: no interleaving of requests, nor a restart amid them, overdraws a wallet: a balance that was not negative stays
    so in every reachable state, or else some credit on the way did not fit 64 bits. *)
Theorem no_overdraft s s' id b :
  ready s -> ledger_ok (tables s) -> reachable s s' -> balance (tables s) id = Some b -> 0 <= b ->
  (exists b', balance (tables s') id = Some b' /\ 0 <= b') \/
  (exists T T', ledger_steps (tables s) T /\ ledger_step T T' /\ ledger_steps T' (tables s') /\ overflows id T T').
Proof.
  intros Hs Hok Hr Hb Hge. destruct (reachable_steps _ _ Hs Hr) as [Hst _]. clear Hs Hr.
  revert b Hok Hb Hge. induction Hst as [T|T1 T2 T3 H12 H23 IH]; intros b Hok Hb Hge; [eauto|].
  destruct (step_nonneg _ _ _ _ Hok H12 Hb Hge) as [Hover|(b' & Hb' & Hge')].
  { right. exists T1, T2. split_and!; [done..]. }
  destruct (IH b' (step_keeps_ok _ _ Hok H12) Hb' Hge') as [?|(T & T' & Hp & Hrest)]; [by left|].
  right. exists T, T'. split; [|done]. by eapply rtc_l.
Qed.
End Concurrent.
