(* ===== verification/LockOrder.v ===== *)
(** The order in which the gateway takes row locks, as a discipline: a goroutine waits only for
    a lock that outranks all it holds, or, when it keeps no connection, for one; and it has
    returned its connection when it ends.  Wallets come first, then
    the new transaction, the original it reverses, the idempotency key.  Every request keeps
    it ([order_logic], the third [PieceLogic]); [Drain] concludes that requests never
    deadlock. *)

From S2P Require Export Pieces PaymentService.

Section LockOrder.
Context {U : UUIDLib} {P : PgLib}.

(** A transaction's row ranks higher once it is committed. *)
Definition rank (T : Tables) (l : lock) : nat :=
  match l with
  | inl (inl _) => 1
  | inl (inr id) => if has_row (transactions T) id then 3 else 2
  | inr _ => 4
  end.

Definition outranks (own : option tx) (v : View) (l : lock) : Prop :=
  forall h l', own = Some h -> v_locks v !! l' = Some h -> (rank (v_tables v) l' < rank (v_tables v) l)%nat.

(** No connection is kept. *)
Definition released (own : option tx) (v : View) : Prop := forall h, own = Some h -> ~ tx_open h v.

Definition patiently (own : option tx) (v : View) (w : wait) : Prop :=
  match w with ForLock l => outranks own v l | ForConn => released own v end.

(** Rows sit under their primary keys. *)
Definition keyed (T : Tables) : Prop :=
  (forall id w, wallets T !! id = Some w -> w_ID w = id) /\
  (forall id t, transactions T !! id = Some t -> tx_ID t = id).

Definition grows (T T' : Tables) : Prop :=
  (keyed T -> keyed T') /\ forall id, is_Some (transactions T !! id) -> is_Some (transactions T' !! id).

Definition ordered : Discipline := {|
  d_inv v := keyed (v_tables v);
  d_guar v v' := grows (v_tables v) (v_tables v');
  d_rely v v' := grows (v_tables v) (v_tables v');
  d_tables := grows;
  d_waits := patiently;
  d_done := released
|}.

#[export] Instance grows_preorder : PreOrder grows.
Proof. split; [by intros T|]. intros T1 T2 T3 [H1 G1] [H2 G2]. split; auto. Qed.

Lemma released_kept own v v' : released own v -> own_kept own v v' -> released own v'.
Proof. intros Hr Hk h ->. unfold tx_open. rewrite (kept_tx _ _ _ Hk). by apply Hr. Qed.

#[export] Instance ordered_laws : DisciplineLaws ordered.
Proof.
  split; simpl; try (intros; reflexivity).
  - by intros v v' Hi [Hk _]; apply Hk.
  - by intros v v' -> _.
  - done.
  - by intros v1 v2 v3 ? ?; etrans.
  - done.
  - intros own v v' Hr Hk _. by eapply released_kept.
  - apply _.
Qed.

(** *** Every operation lets the tables grow *)

Lemma apply_write_grows x T : grows T (apply_write x T).
Proof.
  split.
  - intros [HW HT]. split; intros id r.
    + destruct x; simpl; try apply HW.
      * rewrite lookup_insert_Some. intros [[<- <-]|[_ H]]; [done|by apply HW].
      * rewrite lookup_alter_Some. intros [(-> & w & Hw & ->)|[_ H]]; [by apply HW in Hw|by apply HW].
    + destruct x; simpl; try apply HT.
      * rewrite lookup_insert_Some. intros [[<- <-]|[_ H]]; [done|by apply HT].
      * rewrite lookup_alter_Some. intros [(-> & t & Ht & ->)|[_ H]]; [by apply HT in Ht|by apply HT].
  - intros id Hs. destruct x; simpl; try done.
    + rewrite lookup_insert_is_Some'. auto.
    + by rewrite lookup_alter_is_Some.
Qed.

Lemma apply_writes_grows ws T : grows T (apply_writes ws T).
Proof.
  unfold apply_writes. revert T. induction ws as [|x ws IH]; intros T; cbn [fold_left]; [done|].
  etrans; [apply apply_write_grows|apply IH].
Qed.

Lemma op_at_grows {X} flt (o : Op X) v x v' : op_at flt o v x v' -> grows (v_tables v) (v_tables v').
Proof.
  destruct o as [| | | | | |A conn s| | | | | | | |]; simpl; try (intros; by repeat case_match; des; subst);
    try (intros; repeat case_match; des; subst; try done; apply apply_writes_grows).
  unfold pg_spec. intros Ho. repeat case_match; des; subst; try done.
  all: repeat case_match; des; subst; try done; try apply apply_writes_grows.
Qed.

(** The rule of one operation. *)
Lemma wp_ordered {X} (o : Op X) Q own es v :
  owns own o ->
  (forall v1, calm ordered own v v1 -> good ordered v1 ->
     (forall w, waits_for o v1 w -> patiently own v1 w) /\
     forall x v', op_at true o v1 x v' -> Q x (own_after own o x) (es ++ event_of o x) v') ->
  wp ordered true (op o) Q own es v.
Proof.
  intros Hown H. apply wp_op; [apply _|done|]. intros v1 Hc Hg.
  destruct (H v1 Hc Hg) as [Hw Hs]. split; [by split; [|apply Hw]|].
  intros x v' Ho. split; [by apply (op_at_grows true o v1 x v')|]. intros _. by apply Hs.
Qed.

(** *** Inside a transaction *)

(** The transaction [h] holds the locks [ls], none of a rank above [n]; the transactions [cs]
    are committed. *)
Record stage (h : tx) (n : nat) (ls : list lock) (cs : list uuid) (v : View) : Prop := {
  st_rank l : v_locks v !! l = Some h -> (rank (v_tables v) l <= n)%nat;
  st_held l : l ∈ ls -> v_locks v !! l = Some h;
  st_committed id : id ∈ cs -> is_Some (transactions (v_tables v) !! id)
}.

Lemma rank_kept h v v' l : kept h v v' -> v_locks v !! l = Some h -> rank (v_tables v') l = rank (v_tables v) l.
Proof.
  intros Hk Hl. pose proof (kept_row _ _ _ Hk l Hl) as Hr. destruct l as [[id|id]|key]; simpl in *; try done.
  unfold has_row. by destruct (transactions (v_tables v) !! id), (transactions (v_tables v') !! id).
Qed.

Lemma stage_calm h n ls cs v v' : stage h n ls cs v -> calm ordered (Some h) v v' -> stage h n ls cs v'.
Proof.
  intros [Hr Hh Hc] [Hk [_ Hg]]. split.
  - intros l Hl%Hk. rewrite (rank_kept h v v') by done. by apply Hr.
  - intros l Hl. by apply Hk, Hh.
  - intros id Hid. by apply Hg, Hc.
Qed.

Lemma stage_weaken h n n' ls ls' cs cs' v :
  (n <= n')%nat -> ls' ⊆ ls -> cs' ⊆ cs -> stage h n ls cs v -> stage h n' ls' cs' v.
Proof. intros Hn Hls Hcs [Hr Hh Hc]. split; [|auto..]. intros l Hl. specialize (Hr l Hl). lia. Qed.

Lemma stage_locks h n m ls cs new ws v :
  stage h n ls cs v -> (n <= m)%nat -> (forall l, l ∈ new -> l ∈ ls \/ (rank (v_tables v) l <= m)%nat) ->
  stage h m (new ++ ls) cs (add_locks h new (set_tx h (Open ws) v)).
Proof.
  intros [H1 H2 H3] Hnm Hnew. rewrite set_tx_locks. split.
  - intros l. change (v_locks (set_tx ?a ?b ?c)) with (v_locks c). rewrite add_locks_lookup. simpl.
    case_decide as Hd; [intros _|intros Hh; specialize (H1 l Hh); lia].
    destruct (Hnew l Hd) as [Hls|Hle]; [|done]. specialize (H1 l (H2 l Hls)). lia.
  - intros l Hin. change (v_locks (set_tx ?a ?b ?c)) with (v_locks c). rewrite add_locks_lookup.
    case_decide; [done|]. apply elem_of_app in Hin as [?|?]; [done|by apply H2].
  - done.
Qed.

(** A statement of the transaction, which locks rows it has locked already or that outrank
    all it holds. *)
Lemma wp_stage {A : Type} (s : sql A) h n m ls cs Q es v :
  stage h n ls cs v -> (n <= m)%nat ->
  (forall v1, stage h n ls cs v1 -> keyed (v_tables v1) -> forall l, l ∈ stmt_locks s (seen (Some h) v1) ->
     l ∈ ls \/ (n < rank (v_tables v1) l)%nat /\
                forall ord now a ws, stmt_eff ord now s (seen (Some h) v1) = Ok (a, ws) -> (rank (v_tables v1) l <= m)%nat) ->
  (forall ord now T a ws v', is_order ord -> keyed T -> stmt_eff ord now s T = Ok (a, ws) ->
     stage h m (stmt_locks s T ++ ls) cs v' -> Q (Ok a) (Some h) es v') ->
  (forall e v', stage h n ls cs v' -> Q (Err e) (Some h) es v') ->
  wp ordered true (op (Pg (Some h) s)) Q (Some h) es v.
Proof.
  intros Hv Hnm Hl HQ HE. apply wp_ordered; [done|]. intros v1 Hc [_ Hk].
  pose proof (stage_calm _ _ _ _ _ _ Hv Hc) as Hv1. split.
  - intros [l|]; [|by intros []]. intros [Hin (h' & Hh' & Hne)] h0 l' [= <-] Hl'.
    destruct (Hl v1 Hv1 Hk l Hin) as [Hls|[Hlt _]]; [by rewrite (st_held _ _ _ _ _ Hv1 l Hls) in Hh'|].
    pose proof (st_rank _ _ _ _ _ Hv1 l' Hl'). lia.
  - intros x v'. simpl. rewrite app_nil_r. unfold pg_spec. intros Ho.
    destruct (v_txs v1 !! h) as [[ws| |]|] eqn:Ht; [|by destruct Ho as [(e & -> & _) ->]; apply HE..].
    assert (Hab : stage h n ls cs (set_tx h Aborted v1)).
    { by destruct Hv1. }
    assert (Hseen : seen (Some h) v1 = apply_writes ws (v_tables v1)) by (unfold seen; by rewrite Ht).
    destruct Ho as [(ord & now & Hord & _ & Ho)|[(_ & e & -> & _) ->]]; [|by apply HE].
    destruct (stmt_eff _ _ _ _) as [[a ws']|e] eqn:Es; destruct Ho as [-> ->]; [|by apply HE].
    eapply HQ; [exact Hord|by apply (apply_writes_grows ws (v_tables v1)), Hk|exact Es|].
    rewrite Hseen. apply stage_locks with (n := n); [done|done|]. rewrite <- Hseen. intros l Hin.
    destruct (Hl v1 Hv1 Hk l Hin) as [Hls|[_ Hle]]; [by left|right]. eapply Hle. by rewrite Hseen.
Qed.

(** *** The statements of the payment service *)

Section Statements.
Context (h : tx) (cs : list uuid) (Q : res unit -> option tx -> list event -> View -> Prop) (es : list event).

(** A statement that locks at most [l], beyond what is held. *)
Lemma wp_stage_exec {p : prog (res unit)} (s : sql Z) n m ls v :
  (exists what, p = exec_stmt what (Some h) s) \/ (exists what missing, p = exec_one what missing (Some h) s) ->
  stage h n ls cs v -> (n <= m)%nat ->
  (forall v1, stage h n ls cs v1 -> keyed (v_tables v1) -> forall l, l ∈ stmt_locks s (seen (Some h) v1) ->
     l ∈ ls \/ (n < rank (v_tables v1) l)%nat /\
                forall ord now a ws, stmt_eff ord now s (seen (Some h) v1) = Ok (a, ws) -> (rank (v_tables v1) l <= m)%nat) ->
  (forall r v', stage h m ls cs v' -> Q r (Some h) es v') ->
  wp ordered true p Q (Some h) es v.
Proof.
  intros Hp Hv Hnm Hl HQ.
  assert (Hweak : forall n' ls' v', stage h n' ls' cs v' -> (n' <= m)%nat -> ls ⊆ ls' -> stage h m ls cs v').
  { intros n' ls' v' Hv' ??. by eapply stage_weaken; [| | |exact Hv']. }
  destruct Hp as [[what ->]|(what & missing & ->)]; apply wp_bind;
    (eapply wp_stage; [exact Hv|exact Hnm|exact Hl|..]).
  - intros ord now T a ws v' _ _ _ Hv'. apply HQ. eapply Hweak; [exact Hv'|done|set_solver].
  - intros e v' Hv'. apply HQ. by eapply Hweak.
  - intros ord now T a ws v' _ _ _ Hv'. cbn [wp]. destruct (a =? 0); apply HQ; (eapply Hweak; [exact Hv'|done|set_solver]).
  - intros e v' Hv'. apply HQ. by eapply Hweak.
Qed.

Lemma stage_UpdateBalance id enc n ls v :
  stage h n ls cs v -> LWallet id ∈ ls -> (forall r v', stage h n ls cs v' -> Q r (Some h) es v') ->
  wp ordered true (WalletRepo.UpdateBalance h id enc) Q (Some h) es v.
Proof.
  intros Hv Hin HQ. eapply wp_stage_exec; [right; eauto|exact Hv|done| |done].
  intros v1 _ _ l Hl. apply list_elem_of_singleton in Hl as ->. by left.
Qed.

(** The new transaction's row is not committed: its ID is free. *)
Lemma stage_Create txn n ls v :
  stage h n ls cs v -> (n < 2)%nat -> (forall r v', stage h 2 ls cs v' -> Q r (Some h) es v') ->
  wp ordered true (TransactionRepo.Create h txn) Q (Some h) es v.
Proof.
  intros Hv Hn HQ. eapply (wp_stage_exec _ _ 2); [left; eauto|exact Hv|lia| |done].
  intros v1 _ _ l Hl. apply list_elem_of_singleton in Hl as ->. right. simpl. split; [case_match; lia|].
  intros ord now a ws Hs. apply result_bind_Ok in Hs as (? & _ & Hs). apply result_bind_Ok in Hs as (? & Hr & _).
  apply require_none in Hr. destruct (has_row (transactions (v_tables v1)) (tx_ID txn)) eqn:Hc; [|done].
  apply has_row_true in Hc. apply has_row_false in Hr. unfold seen in Hr.
  repeat case_match; try (by rewrite Hr in Hc; destruct Hc).
  apply (apply_writes_grows writes) in Hc. rewrite Hr in Hc. by destruct Hc.
Qed.

Lemma stage_UpdateStatus id status n ls v :
  stage h n ls cs v -> id ∈ cs -> (n < 3)%nat -> (forall r v', stage h 3 ls cs v' -> Q r (Some h) es v') ->
  wp ordered true (TransactionRepo.UpdateStatus h id status) Q (Some h) es v.
Proof.
  intros Hv Hin Hn HQ. apply wp_bind, wp_now; [apply _|]. intros v1 Hc _.
  eapply (wp_stage_exec _ _ 3); [right; eauto|by eapply stage_calm|lia| |done].
  intros v2 Hv2 _ l Hl. apply list_elem_of_singleton in Hl as ->. right.
  pose proof (st_committed _ _ _ _ _ Hv2 id Hin) as Hs%has_row_true. simpl. rewrite Hs. split; [lia|done].
Qed.

Lemma stage_LogCreate log n ls v :
  stage h n ls cs v -> (n < 4)%nat -> (forall r v', stage h 4 ls cs v' -> Q r (Some h) es v') ->
  wp ordered true (IdempotencyRepo.Create h log) Q (Some h) es v.
Proof.
  intros Hv Hn HQ. eapply (wp_stage_exec _ _ 4); [left; eauto|exact Hv|lia| |done].
  intros v1 _ _ l Hl. right. simpl in Hl. destruct (varchar 255 (il_Key log)) as [k|]; [|by apply not_elem_of_nil in Hl].
  apply list_elem_of_singleton in Hl as ->. split; [simpl; lia|done].
Qed.

(** COMMIT and ROLLBACK, whatever they answer, release all. *)
Lemma wp_close (o : Op (res unit)) v :
  o = PgCommit h \/ o = PgRollback h ->
  (forall r v', released (Some h) v' -> Q r (Some h) es v') -> wp ordered true (op o) Q (Some h) es v.
Proof.
  intros Ho HQ. apply wp_ordered; [by destruct Ho as [->| ->]|]. intros v1 Hc _.
  split; [destruct Ho as [->| ->]; by intros [] []|]. intros x v' Hat.
  assert (Q x (Some h) es v'); [|by destruct Ho as [->| ->]; simpl; rewrite app_nil_r]. apply HQ.
  assert (Hclose : forall u, released (Some h) (close_tx h u)).
  { intros u h' [= <-]. apply close_closes. }
  destruct Ho as [->| ->]; simpl in Hat; destruct (v_txs v1 !! h) as [[ws| |]|] eqn:Ht; des; subst; try apply Hclose;
    (intros h' [= <-] Hh; unfold tx_open in Hh; by rewrite Ht in Hh).
Qed.
End Statements.

(** SELECT ... FOR UPDATE, the first lock. *)
Definition locks_wallets (s : sql (list Wallet)) : Prop :=
  (forall T l, l ∈ stmt_locks s T -> exists id, l = LWallet id) /\
  forall ord now T a ws w, is_order ord -> keyed T -> stmt_eff ord now s T = Ok (a, ws) -> w ∈ a ->
    LWallet (w_ID w) ∈ stmt_locks s T.

Lemma locks_by_id id : locks_wallets (SelectWalletByID id true).
Proof.
  split.
  - intros T l ->%list_elem_of_singleton. eauto.
  - intros ord now T a ws w _ [HW _] [= <- <-] Hin. unfold lookup_list in Hin.
    destruct (wallets T !! id) as [w'|] eqn:Hw; [|by apply not_elem_of_nil in Hin].
    apply list_elem_of_singleton in Hin as ->. rewrite (HW _ _ Hw). by apply list_elem_of_singleton.
Qed.

Lemma locks_by_merchant mid cur : locks_wallets (SelectWalletByMerchant mid cur true).
Proof.
  split.
  - intros T l Hl. apply list_elem_of_In, in_map_iff in Hl as (w & <- & _). eauto.
  - intros ord now T a ws w Hord _ (_ & -> & ->)%select_text_Ok Hin. apply list_elem_of_In, (in_map (fun w => LWallet (w_ID w))), list_elem_of_In.
    unfold rows in Hin. by rewrite (Hord _ _) in Hin.
Qed.

Lemma stage_wallet what s h cs Q es v :
  locks_wallets s -> stage h 0 [] cs v ->
  (forall w v', stage h 1 [LWallet (w_ID w)] cs v' -> Q (Ok (Some w)) (Some h) es v') ->
  (forall v', stage h 1 [] cs v' -> Q (Ok None) (Some h) es v') ->
  (forall e v', stage h 1 [] cs v' -> Q (Err e) (Some h) es v') ->
  wp ordered true (query_opt what (Some h) s) Q (Some h) es v.
Proof.
  intros [Hlw Hret] Hv HS HN HE. unfold query_opt, query_row. do 2 apply wp_bind.
  eapply wp_stage; [exact Hv|exact (le_S 0 0 (le_n 0))|..].
  - intros v1 _ _ l Hl. destruct (Hlw _ _ Hl) as [id ->]. right. simpl. split; [lia|done].
  - intros ord now T a ws v' Hord Hk Hs Hv'. destruct a as [|w a]; cbn [wp or_nil].
    + apply HN. eapply stage_weaken; [| | |exact Hv']; [done|set_solver..].
    + apply HS. eapply stage_weaken; [| | |exact Hv']; [done| |done]. intros l ->%list_elem_of_singleton.
      apply elem_of_app. left. eapply Hret; [exact Hord|exact Hk|exact Hs|]. left.
  - intros e v' Hv'. cbn [wp or_nil]. apply stage_weaken with (n' := 1%nat) (ls' := []) (cs' := cs) in Hv'; [|lia|done..].
    unfold or_nil. case_match; [by apply HN|by apply HE].
Qed.
End LockOrder.
