(* ===== verification/Orderly.v ===== *)
(** Requests take their locks in order and leave none: the third [PieceLogic], for the
    discipline of [LockOrder]. *)

From S2P Require Export LockOrder Ledger.

Section Orderly.
Context {U : UUIDLib} {P : PgLib}.

(** A piece that runs where the goroutine holds no lock, and one that opens a transaction. *)
Definition orderly_beside {A : Type} (p : prog A) : Prop := forall own es v, released own v ->
  wp ordered true p (fun _ own' _ v' => own' = own /\ released own v') own es v.

Definition orderly_serves {A : Type} (p : prog A) : Prop := forall es v,
  wp ordered true p (fun _ own' _ v' => released own' v') None es v.

Lemma released_txs own v v' : v_txs v' = v_txs v -> released own v -> released own v'.
Proof. unfold released, tx_open. by intros ->. Qed.

Lemma released_calm own v v' : released own v -> calm ordered own v v' -> released own v'.
Proof. intros Hr [Hk _]. by eapply released_kept. Qed.

Lemma released_none v : released None v.
Proof. by intros h. Qed.

Lemma released_connect own v : released own v -> may_connect ordered true own v.
Proof. intros Hr v1 Hc _ _. split; [done|]. by eapply released_calm. Qed.

Lemma harmless_owns {X} (o : Op X) own x : harmless o -> owns own o /\ own_after own o x = own.
Proof. destruct o; try done. by destruct conn. Qed.

Lemma orderly_op {X} (o : Op X) : harmless o -> orderly_beside (op o).
Proof.
  intros Ho own es v Hv. apply wp_ordered; [destruct o; try done; by destruct conn|].
  intros v1 Hc [Hlk _]. pose proof (released_calm _ _ _ Hv Hc) as Hv1. split.
  - intros [l|] _; [|done]. intros h l' Hown Hl'. by destruct (Hv1 h Hown (lk_open _ Hlk _ _ Hl')).
  - intros x v' Hat. destruct (harmless_owns o own x Ho) as [_ ->]. split; [done|].
    eapply released_txs; [by eapply harmless_locks|done].
Qed.

Lemma orderly_bind {A B : Type} (p : prog A) (f : A -> prog B) :
  orderly_beside p -> (forall a, orderly_beside (f a)) -> orderly_beside (bind p f).
Proof.
  intros Hp Hf own es v Hv. apply wp_bind. eapply wp_mono; [|by apply Hp].
  intros a own' es' v' [-> Hv']. by apply Hf.
Qed.

Lemma orderly_go {A : Type} (c : prog unit) (k : prog A) : orderly_beside c -> orderly_beside k -> orderly_beside (Go c k).
Proof.
  intros Hc Hk own es v Hv. split; [|by apply Hk]. eapply wp_mono; [|apply Hc, released_none].
  by intros ???? [-> ?].
Qed.

Lemma orderly_serves_of {A : Type} (p : prog A) : orderly_beside p -> orderly_serves p.
Proof. intros Hp es v. eapply wp_mono; [|apply Hp, released_none]. by intros ???? [-> ?]. Qed.

Lemma orderly_after {A B : Type} (p : prog A) (f : A -> prog B) :
  orderly_beside p -> (forall a, orderly_serves (f a)) -> orderly_serves (bind p f).
Proof.
  intros Hp Hf es v. apply wp_bind. eapply wp_mono; [|apply Hp, released_none]. intros a own' es' v' [-> _]. apply Hf.
Qed.

Lemma orderly_before {A B : Type} (p : prog A) (f : A -> prog B) :
  orderly_serves p -> (forall a, orderly_beside (f a)) -> orderly_serves (bind p f).
Proof.
  intros Hp Hf es v. apply wp_bind. eapply wp_mono; [|apply Hp]. intros a own' es' v' Hv'.
  eapply wp_mono; [|by apply Hf]. by intros ???? [-> ?].
Qed.

(** *** A whole transaction *)

(** What the body comes to: the rollback that follows returns the connection. *)
Definition over {A : Type} (h : tx) : A -> option tx -> list event -> View -> Prop := fun _ own _ _ => own = Some h.

Lemma orderly_tx {A : Type} what (body : tx -> prog (res A)) cs es v :
  (forall id, id ∈ cs -> is_Some (transactions (v_tables v) !! id)) ->
  (forall h es v, stage h 0 [] cs v -> wp ordered true (body h) (over h) (Some h) es v) ->
  wp ordered true (try h <- Transactor.Begin catch err => fail (InternalError (Errorf what err)) ;;
                   defer (op (PgRollback h)) (body h)) (fun _ own' _ v' => released own' v') None es v.
Proof.
  intros Hcs Hb. apply wp_bind, wp_ordered; [done|]. intros v1 [_ [_ Hg]] [Hl _].
  split; [intros [l|]; [by intros []|intros _; apply released_none]|].
  intros x v2 [[(_ & e & -> & _) ->]|(h & -> & Hf & ->)]; [apply released_none|]. simpl.
  rewrite app_nil_r. apply wp_defer. eapply wp_mono; [|apply Hb].
  - intros r own' es' v' ->. apply wp_close; [by right|]. intros ? v3 Hv3. exact Hv3.
  - split; [|set_solver|intros id Hid; by apply Hg, Hcs].
    intros l Hh. simpl in Hh. apply (lk_open _ Hl) in Hh. unfold tx_open in Hh. simpl in *. by rewrite Hf in Hh.
Qed.
End Orderly.

(** *** The payment service *)

Section Service.
Context {U : UUIDLib} {P : PgLib} {ES : EncryptionService} {EL : EncryptionLaws}.
Context {HS : HashService} {HL : HashLaws} {TS : TokenService} {TL : TokenLaws}.

Lemma stage_encrypt h n ls cs plaintext Q es v :
  stage h n ls cs v -> (forall r es v', stage h n ls cs v' -> Q r (Some h) es v') ->
  wp ordered true (Encrypt plaintext) Q (Some h) es v.
Proof. intros Hv HQ. apply Encrypt_wp; [apply _|..]; intros; apply HQ; by eapply stage_calm. Qed.

Lemma over_cache_set key value ttl h es v :
  wp ordered true (IdempotencyCache.Set_ key value ttl) (over h) (Some h) es v.
Proof. apply wp_bind, wp_ordered; [done|]. intros v1 Hc _. split; [by intros [] []|]. by intros []. Qed.

(** A failed step ends the body; a step that may fail is followed by the next. *)
Ltac fails := exact (eq_refl (Some _)).
Ltac step rule := apply wp_bind; eapply rule; [eassumption|..].

Lemma persist_payment_stage h key enc txn now es v :
  stage h 1 [LWallet (tx_WalletID txn)] [] v -> wp ordered true (persist_payment h key enc txn now) (over h) (Some h) es v.
Proof.
  intros Hv. unfold persist_payment. step stage_UpdateBalance; [by left|]. intros [[]|e] v1 H1; [|fails].
  step stage_Create; [lia|]. intros [[]|e] v2 H2; [|fails]. destruct (Marshal_Transaction txn); [|fails].
  step stage_LogCreate; [lia|]. intros [[]|e] v3 H3; [|fails].
  apply wp_bind, wp_close; [by left|]. intros [[]|e] v4 _; [|fails].
  apply wp_bind. eapply wp_mono; [|apply over_cache_set]. by intros ???? H.
Qed.
Lemma persist_refund_stage h key enc orig txn now es v :
  stage h 1 [LWallet (tx_WalletID txn)] [tx_ID orig] v ->
  wp ordered true (persist_refund h key enc orig txn now) (over h) (Some h) es v.
Proof.
  intros Hv. unfold persist_refund. step stage_UpdateBalance; [by left|]. intros [[]|e] v1 H1; [|fails].
  step stage_Create; [lia|]. intros [[]|e] v2 H2; [|fails].
  step stage_UpdateStatus; [by left|lia|]. intros [[]|e] v3 H3; [|fails]. destruct (Marshal_Transaction txn); [|fails].
  step stage_LogCreate; [lia|]. intros [[]|e] v4 H4; [|fails].
  apply wp_bind, wp_close; [by left|]. intros [[]|e] v5 _; [|fails].
  apply wp_bind. eapply wp_mono; [|apply over_cache_set]. by intros ???? H.
Qed.

Lemma persist_topup_stage h enc txn es v :
  stage h 1 [LWallet (tx_WalletID txn)] [] v -> wp ordered true (persist_topup h enc txn) (over h) (Some h) es v.
Proof.
  intros Hv. unfold persist_topup. step stage_UpdateBalance; [by left|]. intros [[]|e] v1 H1; [|fails].
  step stage_Create; [lia|]. intros [[]|e] v2 H2; [|fails].
  apply wp_bind, wp_close; [by left|]. intros [[]|e] v3 _; fails.
Qed.

(** The balance and the amount are encrypted, the transaction gets its time and ID. *)
Lemma sealed_stage {A : Type} h n ls cs (b a : string) what1 what2 (k : string -> string -> time -> uuid -> prog (res A)) es v :
  stage h n ls cs v ->
  (forall be ae now id es' v', stage h n ls cs v' -> wp ordered true (k be ae now id) (over h) (Some h) es' v') ->
  wp ordered true
    (try be <- Encrypt b catch err => fail (what1 err) ;;
     try ae <- Encrypt a catch err => fail (what2 err) ;;
     do now <- op Now ;; do id <- op NewUUID ;; k be ae now id) (over h) (Some h) es v.
Proof.
  intros Hv Hk. step stage_encrypt. intros [be|e] es1 v1 H1; [|fails].
  step stage_encrypt. intros [ae|e] es2 v2 H2; [|fails].
  apply wp_bind, wp_now; [apply _|]. intros v3 H3 _. apply wp_bind, wp_uuid; [apply _|]. intros id v4 H4 _.
  apply Hk. eapply stage_calm; [|exact H4]. by eapply stage_calm.
Qed.

Lemma payment_stage req key h es v :
  stage h 0 [] [] v -> wp ordered true (payment_in_tx req key h) (over h) (Some h) es v.
Proof.
  intros Hv. unfold payment_in_tx. apply wp_bind. eapply stage_wallet; [apply locks_by_merchant|exact Hv|..].
  - intros w v1 H1. destruct (open_balance w) as [b|]; [|fails]. cbv beta iota. destruct (b <? _); [fails|].
    apply (sealed_stage h 1 [LWallet (w_ID w)] []); [exact H1|]. intros. by apply persist_payment_stage.
  - intros v1 H1. fails.
  - intros e v1 H1. fails.
Qed.

Lemma refund_stage req key orig amount h es v :
  stage h 0 [] [tx_ID orig] v -> wp ordered true (refund_in_tx req key orig amount h) (over h) (Some h) es v.
Proof.
  intros Hv. unfold refund_in_tx. apply wp_bind. eapply stage_wallet; [apply locks_by_id|exact Hv|..].
  - intros w v1 H1. destruct (open_balance w) as [b|]; [|fails]. cbv beta iota.
    apply (sealed_stage h 1 [LWallet (w_ID w)] [tx_ID orig]); [exact H1|]. intros. by apply persist_refund_stage.
  - intros v1 H1. fails.
  - intros e v1 H1. fails.
Qed.

Lemma topup_stage req h es v :
  stage h 0 [] [] v -> wp ordered true (topup_in_tx req h) (over h) (Some h) es v.
Proof.
  intros Hv. unfold topup_in_tx. apply wp_bind. eapply stage_wallet; [apply locks_by_merchant|exact Hv|..].
  - intros w v1 H1. destruct (open_balance w) as [b|]; [|fails]. cbv beta iota.
    apply (sealed_stage h 1 [LWallet (w_ID w)] []); [exact H1|]. intros. by apply persist_topup_stage.
  - intros v1 H1. fails.
  - intros e v1 H1. fails.
Qed.

Definition order_core : PieceCore.
Proof.
  refine {| beside := @orderly_beside _ _; serves := @orderly_serves _ _ |}.
  - intros A a own es v Hv. done.
  - apply @orderly_bind.
  - apply @orderly_go.
  - apply @orderly_op.
  - intros text own es v Hv. apply Encrypt_wp; [apply _|..]; intros; (split; [done|by eapply released_calm]).
  - intros password own es v Hv. apply Hash_wp; [apply _|..]; intros; (split; [done|by eapply released_calm]).
  - intros mid key own es v Hv. apply Generate_wp; [apply _|..]; intros; (split; [done|by eapply released_calm]).
  - apply @orderly_serves_of.
  - apply @orderly_after.
  - apply @orderly_before.
Defined.
Lemma order_check_idempotency key k : orderly_serves k -> orderly_serves (check_idempotency key k).
Proof.
  intros Hk. pose (PC := order_core). change (serves (check_idempotency key k)). change (serves k) in Hk.
  unfold check_idempotency, IdempotencyCache.Get, IdempotencyRepo.Get. serves; done.
Qed.

(** The original of a refund is a committed row. *)
Lemma order_refund req : orderly_serves (ProcessRefund req).
Proof.
  apply order_check_idempotency. intros es v. apply wp_bind.
  assert (Hno : forall e (es : list event) v, wp ordered true (fail (A := Transaction) e) (fun _ own' _ v' => released own' v') None es v)
    by (intros; apply released_none).
  unfold TransactionRepo.GetByReference. apply wp_query_opt; [apply _|apply released_connect, released_none|done|by intros ????? (_ & _ & ->)%select_text_Ok| |by intros; apply Hno].
  intros ord now l v1 Hord _ [_ Hk] (_ & Hl & _)%select_text_Ok. destruct l as [|orig l]; [apply Hno|]. cbn [head].
  assert (Horig : is_Some (transactions (v_tables v1) !! tx_ID orig)).
  { destruct (rows_elem ord (txn_of (rr_MerchantID req) (rr_OriginalReferenceID req)) (transactions (v_tables v1)) orig Hord)
      as [(id & Hid & _) _]; [rewrite <- Hl; left|]. rewrite (proj2 Hk _ _ Hid). by eexists. }
  destruct (negb _); [apply Hno|]. apply wp_bind. unfold TransactionRepo.CheckRefundExists. apply wp_bind.
  apply wp_read; [apply _|apply released_connect, released_none|done|intros ????? [= _ <-]; done| |by intros; apply Hno].
  intros ord' now' b v2 _ [_ [_ Hg]] _ _. cbn [wp]. destruct b; [apply Hno|]. destruct (refund_amount req orig); [|apply Hno].
  apply (orderly_tx _ _ [tx_ID orig]).
  - intros id ->%list_elem_of_singleton. by apply Hg.
  - intros. by apply refund_stage.
Qed.

Definition order_logic : PieceLogic.
Proof.
  refine {| piece_core := order_core |}.
  - intros req _. unfold ProcessPayment. case_match; [by intros es v; apply released_none|].
    apply order_check_idempotency. intros es v. apply (orderly_tx _ _ []); [set_solver|]. intros. by apply payment_stage.
  - apply order_refund.
  - intros req _ es v. unfold ProcessTopup. case_match; [apply released_none|].
    apply (orderly_tx _ _ []); [set_solver|]. intros. by apply topup_stage.
Defined.
End Service.
