(* ===== verification/Drain.v ===== *)
(** Requests end: when no more arrive, whichever goroutine moves next, the running ones come
    to an end, and leave no transaction open; none waits for ever.  Every goroutine takes its locks
    in the order of [LockOrder], so that the waiting ones do not wait in a circle, and asks the
    pool for a connection only when it has none; every program is finite. *)

From S2P Require Export Orderly PaymentConcurrency.

(** ** A pool of programs cannot move for ever *)

Section Finite.
Context {U : UUIDLib}.

Abbreviation pool := (list (prog unit)).

(** What a goroutine may become in one move, and those it starts. *)
Definition next (p q : prog unit) (cs : pool) : Prop :=
  match p with
  | Ret _ => False
  | Do o k => exists x, q = k x /\ cs = []
  | Go c k => q = k /\ cs = [c]
  end.

Definition moves_to (ps qs : pool) : Prop :=
  exists p q cs rest, ps ≡ₚ p :: rest /\ next p q cs /\ qs ≡ₚ q :: cs ++ rest.

Lemma cons_Permutation_cases {A : Type} (p q : A) ps rest :
  p :: ps ≡ₚ q :: rest -> (p = q /\ ps ≡ₚ rest) \/ exists r, ps ≡ₚ q :: r /\ rest ≡ₚ p :: r.
Proof.
  intros Hp. apply Permutation_cons_inv_r in Hp as (k1 & k2 & Heq & Hr). destruct k1 as [|p' k1]; simplify_eq/=.
  - left. by rewrite Hr.
  - right. exists (k1 ++ k2). split; [by rewrite Permutation_middle|done].
Qed.

Lemma sn_Permutation ps qs : ps ≡ₚ qs -> sn moves_to ps -> sn moves_to qs.
Proof.
  intros Hp [Hs]. constructor. intros rs (p & q & cs & rest & H1 & H2 & H3). apply Hs.
  exists p, q, cs, rest. by rewrite Hp.
Qed.

Fixpoint goroutine_ind (Q : prog unit -> Prop) (HR : forall u, Q (Ret u))
    (HD : forall X (o : Op X) k, (forall x, Q (k x)) -> Q (Do o k))
    (HG : forall c k, Q c -> Q k -> Q (Go c k)) (p : prog unit) : Q p :=
  match p with
  | Ret u => HR u
  | Do o k => HD _ o k (fun x => goroutine_ind Q HR HD HG (k x))
  | Go c k => HG c k (goroutine_ind Q HR HD HG c) (goroutine_ind Q HR HD HG k)
  end.

Lemma goroutine_step_ind (Q : prog unit -> Prop) :
  (forall p, (forall q cs, next p q cs -> Q q /\ Forall Q cs) -> Q p) -> forall p, Q p.
Proof.
  intros H p. induction p as [u|X o k IH|c k IHc IHk] using goroutine_ind; apply H; intros q cs Hn.
  - done.
  - destruct Hn as (x & -> & ->). split; [apply IH|done].
  - destruct Hn as [-> ->]. split; [done|by constructor].
Qed.

Lemma sn_cons p ps : sn moves_to ps -> sn moves_to (p :: ps).
Proof.
  revert ps. induction p as [p IH] using goroutine_step_ind. intros ps Hps.
  induction Hps as [ps Hps IHps]. constructor. intros rs (p' & q & cs & rest & H1 & H2 & H3).
  apply cons_Permutation_cases in H1 as [[<- Hr]|(r & Hps' & Hr)].
  - destruct (IH q cs H2) as [Hq Hcs]. apply (sn_Permutation (q :: cs ++ rest)); [done|]. apply Hq.
    assert (Hrest : sn moves_to rest) by (eapply sn_Permutation; [exact Hr|by constructor]).
    clear H2 H3. induction Hcs as [|c cs Hc _ IHcs]; [done|]. by apply Hc.
  - apply (sn_Permutation (p :: q :: cs ++ r)).
    + rewrite H3, Hr, <- Permutation_middle. apply perm_swap.
    + apply IHps. exists p', q, cs, r. done.
Qed.

Lemma sn_pool ps : sn moves_to ps.
Proof.
  induction ps as [|p ps IH]; [|by apply sn_cons].
  constructor. intros qs (p & q & cs & rest & Hp & _). by apply Permutation_nil_cons in Hp.
Qed.
End Finite.

(** ** Whoever waits, waits for somebody who can move *)

Section Waiting.
Context {U : UUIDLib} {P : PgLib} {B : Backend} {BL : BackendLaws}.

(** Moves of the goroutines that run, without new arrivals. *)
Definition moves : list (prog unit) * St -> list (prog unit) * St -> Prop := pool_step (fun _ => False).

Lemma moves_next ps s qs s' : moves (ps, s) (qs, s') -> moves_to ps qs.
Proof.
  assert (Hins : forall i p q cs, ps !! i = Some p -> next p q cs -> moves_to ps (<[i := q]> ps ++ cs)).
  { intros i p q cs Hp Hn. apply list_elem_of_split_length in Hp as (l1 & l2 & -> & ->).
    rewrite insert_app_r_alt, Nat.sub_diag by done. simpl. exists p, q, cs, (l1 ++ l2). split; [by rewrite Permutation_middle|]. split; [done|].
    rewrite <- Permutation_middle. by rewrite (Permutation_app_comm cs). }
  intros Hm. inversion Hm as [ps0 s0 i X o k x s1 Hp E|ps0 s0 i c k Hp|? ? ? []]; simplify_eq.
  - rewrite <- (app_nil_r (<[i := k x]> ps)). eapply Hins; [exact Hp|]. by exists x.
  - by eapply Hins.
Qed.

Lemma moves_sn ps s : sn moves (ps, s).
Proof.
  revert s. induction (sn_pool ps) as [ps _ IH]. intros s. constructor. intros [qs s'] Hm. apply IH.
  by eapply moves_next.
Qed.
(** A goroutine that can move: its operation, if any, does not wait. *)
Definition can_move (s : St) (p : prog unit) : bool :=
  match p with
  | Ret _ => false
  | Do o _ => match exec _ o s with Some _ => true | None => false end
  | Go _ _ => true
  end.

Lemma moves_dec ps s : red moves (ps, s) \/ nf moves (ps, s).
Proof.
  destruct (Exists_dec (can_move s) ps) as [Hm|Hm]; [left|right].
  - apply Exists_exists in Hm as (p & [i Hp]%list_elem_of_lookup & Hm).
    destruct p as [u|X o k|c k]; simpl in Hm; [done| |].
    + destruct (exec X o s) as [[x s']|] eqn:E; [|done]. eexists. by eapply step_op.
    + eexists. by eapply step_go.
  - intros [[qs s'] Hs]. apply Hm, Exists_exists.
    inversion Hs as [ps0 s0 i X o k x s1 Hp E|ps0 s0 i c k Hp|? ? ? []]; simplify_eq.
    + eexists. split; [by eapply list_elem_of_lookup_2|]. simpl. by rewrite E.
    + eexists. split; [by eapply list_elem_of_lookup_2|]. done.
Qed.

(** Nobody can move: then nobody waits either. *)
Section Stuck.
Context (ps : list (prog unit)) (s : St).
Context (Hok : pool_ok ordered (fun _ => False) ps (view s)) (Hnf : nf moves (ps, s)).

Lemma stuck_waits i X (o : Op X) k : ps !! i = Some (Do o k) -> exists w, waits_for o (view s) w.
Proof.
  intros Hp. destruct (exec X o s) as [[x s']|] eqn:E; [|by apply exec_blocked in E].
  destruct Hnf. eexists. by eapply step_op.
Qed.

(** The goroutine of an open transaction waits for a lock, never for a connection. *)
Lemma stuck_owner h : tx_open h (view s) ->
  exists i X (o : Op X) k l, ps !! i = Some (Do o k) /\ waits_for o (view s) (ForLock l) /\ outranks (Some h) (view s) l.
Proof.
  intros Hh. destruct Hok as [Hlk Hi [owners Hw]]. destruct (ow_open _ _ _ _ _ Hw _ Hh) as [[]|[j Hj]].
  destruct (owned_goroutine _ _ _ _ _ _ _ Hw Hj) as [q Hq].
  destruct (ow_safe _ _ _ _ _ Hw _ _ _ Hq Hj) as [es Hs]. destruct q as [u|X o k|c k]; simpl in Hs.
  - by destruct (Hs h eq_refl).
  - destruct (stuck_waits _ _ _ _ Hq) as [w Hwt]. destruct Hs as [_ Hs].
    destruct (Hs (view s)) as [Hout _]; [apply kept_refl|reflexivity|done|done|].
    destruct (Hout w Hwt) as [_ Hp]. destruct w as [l|]; [by exists j, X, o, k, l|]. by destruct (Hp h eq_refl).
  - destruct Hnf. eexists. by eapply step_go.
Qed.

(** A lock that somebody waits for is held in an open transaction. *)
Lemma lock_holder {X} (o : Op X) l : waits_for o (view s) (ForLock l) ->
  exists h, v_locks (view s) !! l = Some h /\ tx_open h (view s).
Proof.
  intros Hl. assert (exists h, v_locks (view s) !! l = Some h) as [h Hh].
  { destruct o; try done. destruct Hl as (_ & h & Hh & _). eauto. }
  exists h. split; [done|]. by apply (lk_open _ (po_locked _ _ _ _ Hok) l).
Qed.

Lemma stuck_no_lock n X (o : Op X) l :
  waits_for o (view s) (ForLock l) -> (4 < rank (v_tables (view s)) l + n)%nat -> False.
Proof.
  revert X o l. induction n as [|n IH]; intros X o l Hl Hn.
  { unfold rank in Hn. repeat case_match; lia. }
  destruct (lock_holder _ _ Hl) as (h & Hlh & Hh). destruct (stuck_owner h Hh) as (i & X' & o' & k & l' & _ & Hl' & Hr).
  specialize (Hr h l eq_refl Hlh). apply (IH X' o' l' Hl'). lia.
Qed.

Lemma stuck_idle : idle s.
Proof.
  intros h Hh. destruct (stuck_owner h Hh) as (i & X & o & k & l & _ & Hl & _).
  apply (stuck_no_lock 4 X o l Hl). unfold rank. repeat case_match; lia.
Qed.

Lemma stuck_done : Forall (eq (Ret tt)) ps.
Proof.
  apply Forall_lookup. intros i p Hp. destruct p as [[]|X o k|c k]; [done|exfalso..].
  - destruct (stuck_waits _ _ _ _ Hp) as [[l|] Hw].
    + destruct (lock_holder _ _ Hw) as (h & _ & Hh). by apply (stuck_idle h).
    + destruct o; try done. by destruct Hw as [h ?%stuck_idle]. destruct conn; [done|]. by destruct Hw as [h ?%stuck_idle].
  - destruct Hnf. eexists. by eapply step_go.
Qed.
End Stuck.
End Waiting.

(** ** Requests drain *)

Section Drain.
Context {U : UUIDLib} {UL : UUIDLaws} {P : PgLib} {JL : JsonbLaws} {ES : EncryptionService} {EL : EncryptionLaws}.
Context {HS : HashService} {HL : HashLaws} {SS : SignatureService} {TS : TokenService} {TL : TokenLaws}.
Context {UP : URLParser} {RU : RequestURI} {V : Validator} {VL : ValidatorLaws} {GF : GinFallback}.
Context {B : Backend} {BL : BackendLaws}.

Lemma ordered_pool served ps s ps' s' :
  (forall p, served p -> request p) -> rtc (pool_step served) (ps, s) (ps', s') ->
  pool_ok ordered (fun _ => False) ps (view s) -> pool_ok ordered (fun _ => False) ps' (view s').
Proof.
  intros Hserved Hsteps Hok.
  destruct (pool_safe ordered (fun v v' Hg _ => Hg) (fun _ => False) served ps s ps' s') as [Hok' _]; [|done..].
  intros p v Hp _ _. exists []. apply (request_serves (PL := order_logic) p (Hserved p Hp)).
Qed.

Lemma requests_ordered s ps s' :
  ready s -> idle s -> rtc (pool_step request) ([], s) (ps, s') -> pool_ok ordered (fun _ => False) ps (view s').
Proof.
  intros (Hlk & Hwf & _) Hi Hsteps. apply (ordered_pool _ _ _ _ _ (fun _ H => H) Hsteps).
  apply pool_ok_nil; [done| |exact Hi]. split; [apply (wf_wallet _ Hwf)|apply (wf_transaction _ Hwf)].
Qed.

(** C5: requests end.  Whatever the running requests are, with the webhook deliveries and audit
    entries they have started, and whatever fails: once no more arrive, no schedule keeps the
    goroutines moving for ever, and as long as some have not finished one can move: no deadlock,
    over locks or over connections, however few the pool has.  When all have finished, every
    connection is back in the pool, with no transaction open on it. *)
Theorem requests_drain s ps s' :
  ready s -> idle s -> rtc (pool_step request) ([], s) (ps, s') ->
  sn moves (ps, s') /\
  forall ps' s'', rtc moves (ps, s') (ps', s'') ->
    red moves (ps', s'') \/ (Forall (eq (Ret tt)) ps' /\ idle s'').
Proof.
  intros Hs Hi Hsteps. split; [apply moves_sn|]. intros ps' s'' Hm.
  destruct (moves_dec ps' s'') as [|Hnf]; [by left|right].
  pose proof (requests_ordered _ _ _ Hs Hi Hsteps) as H0.
  apply (ordered_pool (fun _ => False) _ _ _ _ (fun _ => False_ind _) Hm) in H0.
  split; [by eapply stuck_done|by eapply stuck_idle].
Qed.
End Drain.
