(* ===== verification/Shutdown.v ===== *)
(** The life of the server process after main has started it (cmd/api/main.go): it listens
    until a signal arrives, then [srv.Shutdown] closes the listener and waits for the requests
    that are being served, at most ten seconds; the deferred [pool.Close] waits until every
    connection is back in the pool; then the process exits, with whatever the goroutines that
    requests have started were doing.

    A listener that fails is fatal: the process ends at once, as when it is killed; that is the
    restart of [PaymentConcurrency.era].

    [http.Server] and the pool are libraries: what is used of them is the rule of [life] that
    stands for the call. *)

From S2P Require Export Drain.

Section Shutdown.
Context {U : UUIDLib} {UL : UUIDLaws} {P : PgLib} {JL : JsonbLaws} {ES : EncryptionService} {EL : EncryptionLaws}.
Context {HS : HashService} {HL : HashLaws} {SS : SignatureService} {TS : TokenService} {TL : TokenLaws}.
Context {UP : URLParser} {RU : RequestURI} {V : Validator} {VL : ValidatorLaws} {GF : GinFallback}.
Context {B : Backend} {BL : BackendLaws}.

(** [context.WithTimeout(context.Background(), 10*time.Second)] *)
Definition shutdown_timeout : duration := 10 * Second.

(** Serving; [srv.Shutdown], until the deadline at most; the deferred [pool.Close]; gone. *)
Inductive phase := Listening | Draining (deadline : time) | Closing | Exited.

(** Goroutines that serve a connection, and those started with [go]. *)
Inductive role := Handler | Background.

Definition process : Type := phase * list (role * prog unit) * St.

(** [srv.Shutdown] has nothing to wait for. *)
Definition served (gs : list (role * prog unit)) : Prop := Forall (fun g => g.1 = Handler -> g.2 = Ret tt) gs.

Inductive life : process -> process -> Prop :=
| life_move ph gs s gs' s' n :
    ph <> Exited -> moves (gs.*2, s) (gs'.*2, s') -> gs'.*1 = gs.*1 ++ replicate n Background ->
    life (ph, gs, s) (ph, gs', s')
| life_arrive gs s p :
    request p -> life (Listening, gs, s) (Listening, gs ++ [(Handler, p)], s)
| life_signal gs s :
    life (Listening, gs, s) (Draining (v_clock (view s) + shutdown_timeout), gs, s)
| life_shutdown deadline gs s :
    served gs \/ deadline <= v_clock (view s) -> life (Draining deadline, gs, s) (Closing, gs, s)
| life_exit gs s s' :
    idle s -> restarted (view s) (view s') -> life (Closing, gs, s) (Exited, [], s').

(** Up to its exit, what the server does is what a pool of requests does. *)
Lemma moves_pool served a b : moves a b -> pool_step served a b.
Proof. intros []; [by eapply step_op|by eapply step_go|done]. Qed.

Lemma life_pool s q :
  rtc life (Listening, [], s) q -> q.1.1 <> Exited -> rtc (pool_step request) ([], s) (q.1.2.*2, q.2).
Proof.
  revert q. apply (rtc_ind_r (fun q => q.1.1 <> Exited -> rtc (pool_step request) ([], s) (q.1.2.*2, q.2))); [done|].
  intros q q' _ Hl IH Hne. destruct Hl as [ph gs s0 gs' s1 n Hph Hm _|gs s0 p Hp|gs s0|d gs s0 _|]; simpl in *.
  - eapply rtc_r; [by apply IH|by apply moves_pool].
  - eapply rtc_r; [by apply IH|]. rewrite fmap_app. by apply step_arrive.
  - by apply IH.
  - by apply IH.
  - done.
Qed.

(** Each move of the goroutines is one of the process. *)
Lemma life_moves ph gs s qs s' :
  ph <> Exited -> moves (gs.*2, s) (qs, s') -> exists gs', gs'.*2 = qs /\ life (ph, gs, s) (ph, gs', s').
Proof.
  intros Hph Hm. assert (exists n, length qs = (length gs + n)%nat) as [n Hn].
  { inversion Hm; simplify_eq; [exists 0%nat|exists 1%nat]; rewrite ?length_app, length_insert, length_fmap; simpl; lia. }
  assert (Hlen : length (gs.*1 ++ replicate n Background) = length qs).
  { rewrite length_app, length_fmap, length_replicate. lia. }
  assert (Hsnd : (zip (gs.*1 ++ replicate n Background) qs).*2 = qs) by (apply snd_zip; lia).
  exists (zip (gs.*1 ++ replicate n Background) qs). split; [done|].
  apply life_move with n; [done|by rewrite Hsnd|]. apply fst_zip. lia.
Qed.

Lemma life_plays ph gs s qs s' :
  ph <> Exited -> rtc moves (gs.*2, s) (qs, s') -> exists gs', gs'.*2 = qs /\ rtc life (ph, gs, s) (ph, gs', s').
Proof.
  intros Hph Hm. remember (gs.*2, s) as a eqn:Ha. remember (qs, s') as b eqn:Hb. revert gs s Ha.
  induction Hm as [a|a [qs1 s1] b Hab _ IH]; intros gs s ->; [simplify_eq; eauto using rtc_refl|].
  destruct (life_moves ph gs s qs1 s1 Hph Hab) as (gs1 & <- & Hl).
  destruct (IH Hb gs1 s1 eq_refl) as (gs' & <- & Hr). exists gs'. split; [done|]. by eapply rtc_l.
Qed.

Lemma life_arrives gs s ps :
  Forall request ps -> rtc life (Listening, gs, s) (Listening, gs ++ (pair Handler <$> ps), s).
Proof.
  intros Hps. revert gs. induction Hps as [|p ps Hp _ IH]; intros gs; [by rewrite app_nil_r|].
  eapply rtc_l; [by apply life_arrive|]. specialize (IH (gs ++ [(Handler, p)])). by rewrite <- app_assoc in IH.
Qed.

(** After the signal. *)
Definition leaving (ph : phase) : Prop := ph = Closing \/ exists d, ph = Draining d.

Lemma leaving_next ph gs s p : leaving ph -> life (ph, gs, s) p ->
  (exists gs' s' n, p = (ph, gs', s') /\ moves (gs.*2, s) (gs'.*2, s') /\ gs'.*1 = gs.*1 ++ replicate n Background) \/
  (exists d, ph = Draining d /\ p = (Closing, gs, s) /\ (served gs \/ d <= v_clock (view s))) \/
  (exists s', ph = Closing /\ p = (Exited, [], s') /\ idle s /\ restarted (view s) (view s')).
Proof. intros Hph Hl. inversion Hl; simplify_eq; try (destruct Hph as [|[? ?]]; done); eauto 12. Qed.

(** *** It ends *)

Lemma exited_sn gs s : sn life (Exited, gs, s).
Proof. constructor. intros p Hl. inversion Hl; simplify_eq; done. Qed.

Lemma phase_sn ph : (forall gs s p, life (ph, gs, s) p -> sn life p \/
    exists gs' s', p = (ph, gs', s') /\ moves (gs.*2, s) (gs'.*2, s')) -> forall gs s, sn life (ph, gs, s).
Proof.
  intros Hnext gs s. remember (gs.*2, s) as m eqn:Hm. revert gs s Hm.
  assert (Hsn : sn moves m) by (destruct m; apply moves_sn). induction Hsn as [m _ IH]. intros gs s ->. constructor. intros p Hl.
  destruct (Hnext _ _ _ Hl) as [|(gs' & s' & -> & Hs)]; [done|]. by eapply IH.
Qed.

Lemma closing_sn gs s : sn life (Closing, gs, s).
Proof.
  apply phase_sn. intros gs1 s1 p Hl.
  apply leaving_next in Hl as [(gs' & s' & n & -> & Hm & _)|[(d & [=] & _)|(s' & _ & -> & _)]];
    [right; eauto|left; apply exited_sn|by left].
Qed.

Lemma draining_sn d gs s : sn life (Draining d, gs, s).
Proof.
  apply phase_sn. intros gs1 s1 p Hl.
  apply leaving_next in Hl as [(gs' & s' & n & -> & Hm & _)|[(d' & _ & -> & _)|(s' & [=] & _)]];
    [right; eauto|left; apply closing_sn|right; eauto].
Qed.

(** *** How far it has come *)

Lemma restarted_idle s s' : restarted (view s) (view s') -> idle s'.
Proof. intros [_ Hx _ _ _] h. unfold tx_open. rewrite Hx. destruct (v_txs (view s) !! h); simpl; tauto. Qed.

(** Time goes on, and what has finished stays so. *)
Lemma moves_on gs s gs' s' n :
  moves (gs.*2, s) (gs'.*2, s') -> gs'.*1 = gs.*1 ++ replicate n Background ->
  v_clock (view s) <= v_clock (view s') /\ (served gs -> served gs') .
Proof.
  intros Hm H1. split.
  - inversion Hm as [ps0 s0 i X o k x s1 Hp E| |]; simplify_eq; [|lia..]. by apply (op_clock true o _ x), exec_spec.
  - intros Hs. apply Forall_lookup. intros i [ro q] Hi Hro. simpl in Hro. subst ro. simpl.
    assert (Hi1 : gs'.*1 !! i = Some Handler) by (by rewrite list_lookup_fmap, Hi).
    assert (Hi2 : gs'.*2 !! i = Some q) by (by rewrite list_lookup_fmap, Hi).
    rewrite H1 in Hi1. apply lookup_app_Some in Hi1 as [Hi1|[_ [? _]%lookup_replicate]]; [|done].
    apply list_lookup_fmap_Some in Hi1 as ([ro p] & Heq & Hg). simpl in Heq. subst ro.
    pose proof (Forall_lookup_1 _ _ _ _ Hs Hg eq_refl) as Hp. simpl in Hp. subst p.
    assert (Hg2 : gs.*2 !! i = Some (Ret tt)) by (by rewrite list_lookup_fmap, Hg).
    pose proof (lookup_lt_Some _ _ _ Hg2) as Hlt.
    inversion Hm as [ps0 s0 j X o k x s1 Hp E|ps0 s0 j c k Hp|? ? ? []]; simplify_eq;
      (destruct (decide (j = i)) as [->|Hne]; [congruence|]).
    + match goal with H : _ = gs'.*2 |- _ => rewrite <- H, list_lookup_insert_ne in Hi2 by done end. congruence.
    + match goal with H : _ = gs'.*2 |- _ =>
        rewrite <- H, lookup_app_l, list_lookup_insert_ne in Hi2 by (rewrite ?length_insert; done) end. congruence.
Qed.
(** The states of a shutdown. *)
Lemma shutdown_states s d gs0 s0 p :
  ready s -> rtc life (Listening, [], s) (Draining d, gs0, s0) -> rtc life (Draining d, gs0, s0) p ->
  (exists ph gs1 s1 n, p = (ph, gs1, s1) /\ (ph = Draining d \/ ph = Closing /\ (served gs1 \/ d <= v_clock (view s1))) /\
     gs1.*1 = gs0.*1 ++ replicate n Background /\ rtc life (Listening, [], s) p) \/
  (exists s'', p = (Exited, [], s'') /\ ready s'' /\ idle s'' /\ reachable s s'').
Proof.
  intros Hs Hpre Hl. revert p Hl. apply rtc_ind_r.
  { left. exists (Draining d), gs0, s0, 0%nat. split_and!; [done|by left|by rewrite app_nil_r|done]. }
  intros q q' _ Hl [(ph & gs1 & s1 & n & -> & Hph & H1 & Hp)|(s1 & -> & _)]; [|by inversion Hl].
  assert (Hlv : leaving ph) by (destruct Hph as [->|[-> _]]; [right; by exists d|by left]).
  pose proof (rtc_r _ _ _ Hp Hl) as Hp'.
  apply (leaving_next _ _ _ _ Hlv) in Hl as [(gs2 & s2 & m & -> & Hm & H2)|[(d' & -> & -> & Hw)|(s2 & -> & -> & _ & Hr)]].
  - left. exists ph, gs2, s2, (n + m)%nat. destruct (moves_on _ _ _ _ _ Hm H2) as [Hc Hsv]. split_and!; [done| | |done].
    + destruct Hph as [?|[? [?|?]]]; [by left|right; split; auto|right; split; [done|right; lia]].
    + by rewrite H2, H1, <- app_assoc, replicate_add.
  - left. destruct Hph as [[= ->]|[? _]]; [|done]. exists Closing, gs1, s1, n. split_and!; [done|by right|done..].
  - right. exists s2. assert (reachable s s2) as Hreach.
    { eapply rtc_l; [|apply rtc_once, era_restarts, Hr]. eapply era_serves. by apply (life_pool s (Closing, gs1, s1)). }
    split; [done|]. split; [by apply (reachable_steps s)|]. split; [by eapply restarted_idle|done].
Qed.

(** A handler that was running is at its place, and done once all are. *)
Lemma served_handler (gs0 gs1 : list (role * prog unit)) n i p :
  gs1.*1 = gs0.*1 ++ replicate n Background -> served gs1 -> gs0 !! i = Some (Handler, p) -> gs1 !! i = Some (Handler, Ret tt).
Proof.
  intros H1 Hs Hi. assert (Hi1 : gs1.*1 !! i = Some Handler).
  { rewrite H1, lookup_app_l; [by rewrite list_lookup_fmap, Hi|]. rewrite length_fmap. by eapply lookup_lt_Some. }
  apply list_lookup_fmap_Some in Hi1 as ([ro q] & Heq & Hq). simpl in Heq. subst ro.
  pose proof (Forall_lookup_1 _ _ _ _ Hs Hq eq_refl) as He. simpl in He. by subst q.
Qed.

(** C6: a signal stops the server, and not before its requests are answered.  From the signal on,
    whatever the requests and the goroutines they have started still do and whatever fails, no
    schedule keeps the process alive for ever, and until it has exited it can go on.  When it
    exits, every connection is back in the pool, and each request that was being served at the
    signal has been answered, unless ten seconds have passed since.  The exit leaves a state that a
    run of the server may leave, with no transaction open: what the theorems about reachable
    states show holds of it. *)
Theorem shutdown_completes s gs0 s0 d :
  (forall s, exists s', restarted (view s) (view s')) -> ready s -> idle s ->
  rtc life (Listening, [], s) (Listening, gs0, s0) -> life (Listening, gs0, s0) (Draining d, gs0, s0) ->
  sn life (Draining d, gs0, s0) /\
  (forall p, rtc life (Draining d, gs0, s0) p ->
     red life p \/ exists s'', p = (Exited, [], s'') /\ ready s'' /\ idle s'' /\ reachable s s'') /\
  (forall ph gs1 s1 s'', rtc life (Draining d, gs0, s0) (ph, gs1, s1) -> life (ph, gs1, s1) (Exited, [], s'') ->
     idle s1 /\
     (v_clock (view s1) < v_clock (view s0) + 10 * Second ->
      forall i p, gs0 !! i = Some (Handler, p) -> gs1 !! i = Some (Handler, Ret tt))).
Proof.
  intros Hexit Hs Hset Hpre Hsig. pose proof (rtc_r _ _ _ Hpre Hsig) as Hdr. split; [apply draining_sn|]. split.
  - intros p Hl. destruct (shutdown_states s d gs0 s0 p Hs Hdr Hl) as [(ph & gs1 & s1 & n & -> & Hph & _ & Hp)|]; [left|by right].
    assert (Hne : ph <> Exited) by (by destruct Hph as [->|[-> _]]).
    apply (life_pool s (ph, gs1, s1)) in Hp as Hpool; [simpl in Hpool|done].
    pose proof (requests_ordered _ _ _ Hs Hset Hpool) as Hok.
    destruct (moves_dec gs1.*2 s1) as [[[qs s2] Hm]|Hnf].
    { destruct (life_moves ph gs1 s1 qs s2) as (gs2 & _ & Hl2); [done..|]. by eexists. }
    destruct Hph as [->|[-> _]].
    + exists (Closing, gs1, s1). apply life_shutdown. left.
      pose proof (stuck_done _ _ Hok Hnf) as Hall. rewrite Forall_fmap in Hall. eapply Forall_impl; [exact Hall|]. by intros.
    + destruct (Hexit s1) as [s2 Hr]. exists (Exited, [], s2). apply life_exit; [by eapply stuck_idle|done].
  - intros ph gs1 s1 s'' Hl Hx.
    destruct (shutdown_states s d gs0 s0 _ Hs Hdr Hl) as [(ph' & gs1' & s1' & n & [= <- <- <-] & Hph & H1 & _)|(s2 & [= -> -> ->] & _)];
      [|by inversion Hx].
    inversion Hx; simplify_eq; try done. split; [done|]. intros Hlt i p Hi.
    destruct Hph as [|[_ [Hsv|Hd]]]; [done|by eapply served_handler|].
    inversion Hsig; simplify_eq. unfold shutdown_timeout in *. lia.
Qed.
End Shutdown.
