(* ===== verification/Bank.v ===== *)
(** What the gateway promises, without tables, ciphers and statements: a bank whose accounts
    hold amounts and whose book holds entries.  The theorem of this file is that every state
    the gateway reaches, under any interleaving and any failures, is one this bank reaches. *)

From S2P Require Export PaymentConcurrency.

(** ** The abstract bank *)

Section Bank.
Context {U : UUIDLib}.

Inductive Kind :=
| Payment
| Refund (original : uuid)
| Topup.

Record Entry := mkEntry {
  e_Kind : Kind;
  e_Merchant : uuid;
  e_Account : uuid;
  e_Reference : string;
  e_Amount : Z;
  e_Refunded : bool
}.

Record Bank := mkBank {
  accounts : gmap uuid Z;
  entries : gmap uuid Entry
}.

Definition refund_entry (e : Entry) : Entry :=
  mkEntry (e_Kind e) (e_Merchant e) (e_Account e) (e_Reference e) (e_Amount e) true.

(** A payment needs an account that covers it and a reference its merchant has not paid under;
    a refund needs a payment that was not refunded, and returns at most its amount to the
    account it came from.  Credits wrap around at 64 bits. *)
Inductive bank_step (b : Bank) : Bank -> Prop :=
| bank_pay id merchant account reference amount balance :
    entries b !! id = None -> accounts b !! account = Some balance -> 0 < amount <= balance ->
    (forall id' e, entries b !! id' = Some e -> e_Kind e = Payment -> e_Merchant e = merchant -> e_Reference e <> reference) ->
    bank_step b (mkBank (<[account := balance - amount]> (accounts b))
                        (<[id := mkEntry Payment merchant account reference amount false]> (entries b)))
| bank_refund id original e reference amount balance :
    entries b !! id = None -> entries b !! original = Some e -> e_Kind e = Payment -> e_Refunded e = false ->
    accounts b !! e_Account e = Some balance -> 0 < amount <= e_Amount e ->
    bank_step b (mkBank (<[e_Account e := wrap64 (balance + amount)]> (accounts b))
                        (<[id := mkEntry (Refund original) (e_Merchant e) (e_Account e) reference amount false]>
                           (<[original := refund_entry e]> (entries b))))
| bank_topup id merchant account reference amount balance :
    entries b !! id = None -> accounts b !! account = Some balance -> 0 < amount ->
    bank_step b (mkBank (<[account := wrap64 (balance + amount)]> (accounts b))
                        (<[id := mkEntry Topup merchant account reference amount false]> (entries b)))
| bank_open account balance :
    accounts b !! account = None -> bank_step b (mkBank (<[account := balance]> (accounts b)) (entries b)).
End Bank.

(** ** The bank a database holds *)

Section Refinement.
Context {U : UUIDLib} {UL : UUIDLaws} {P : PgLib} {JL : JsonbLaws} {ES : EncryptionService} {EL : EncryptionLaws}.

Definition kind_of (t : Transaction) : option Kind :=
  if (tx_TransactionType t =? TransactionTypePayment)%string then Some Payment
  else if (tx_TransactionType t =? TransactionTypeRefund)%string then Refund <$> tx_OriginalTransactionID t
  else if (tx_TransactionType t =? TransactionTypeTopup)%string then Some Topup
  else None.

Definition entry_of (t : Transaction) : option Entry :=
  k ← kind_of t;
  Some (mkEntry k (tx_MerchantID t) (tx_WalletID t) (tx_ReferenceID t) (tx_Amount t)
          (tx_Status t =? TransactionStatusReversed)%string).

Definition account_of (w : Wallet) : option Z := match open_balance w with Ok b => Some b | Err _ => None end.

Definition bank_of (T : Tables) : Bank := mkBank (omap account_of (wallets T)) (omap entry_of (transactions T)).

Lemma account_lookup T id : accounts (bank_of T) !! id = balance T id.
Proof. simpl. rewrite lookup_omap. unfold balance. by destruct (wallets T !! id). Qed.

Lemma entry_lookup T id : entries (bank_of T) !! id = transactions T !! id ≫= entry_of.
Proof. simpl. by rewrite lookup_omap. Qed.

Lemma bank_eq (b b' : Bank) :
  (forall id, accounts b !! id = accounts b' !! id) -> (forall id, entries b !! id = entries b' !! id) -> b = b'.
Proof. destruct b, b'. simpl. intros H1 H2. f_equal; by apply map_eq. Qed.

(** What a booking does to the bank. *)
Lemma booking_accounts txn delta reversed key T T' b :
  booking txn delta reversed key T T' -> balance T (tx_WalletID txn) = Some b ->
  forall id, accounts (bank_of T') !! id = <[tx_WalletID txn := wrap64 (b + delta)]> (accounts (bank_of T)) !! id.
Proof.
  intros Hb Hbal id. rewrite account_lookup, (balance_booking _ _ _ _ _ _ id Hb).
  destruct (decide (id = tx_WalletID txn)) as [->|Hne].
  - by rewrite lookup_insert_eq, Hbal.
  - by rewrite lookup_insert_ne, account_lookup.
Qed.

Lemma booking_balance txn delta reversed key T T' :
  booking txn delta reversed key T T' -> exists b, balance T (tx_WalletID txn) = Some b.
Proof.
  intros (w & b & _ & _ & _ & _ & _ & Hw & Hb & _). exists b. unfold balance. by rewrite Hw, Hb.
Qed.

(** A stored transaction of a fixed type and status becomes the entry it describes. *)
Lemma stored_entry t row kind :
  store_transaction t = Ok row -> tx_Status t = TransactionStatusSuccess -> kind_of t = Some kind ->
  exists reference, tx_ReferenceID row = reference /\
    entry_of row = Some (mkEntry kind (tx_MerchantID t) (tx_WalletID t) reference (tx_Amount t) false).
Proof.
  intros Hs Hst Hk. apply store_transaction_inv in Hs as (_ & Hm & Hw & Ha & Ho & _ & Hty & Hst' & _).
  assert (Htype : tx_TransactionType row = tx_TransactionType t).
  { apply varchar_short in Hty; [done|]. unfold kind_of in Hk.
    destruct (String.eqb_spec (tx_TransactionType t) TransactionTypePayment) as [->|]; [simpl; lia|].
    destruct (String.eqb_spec (tx_TransactionType t) TransactionTypeRefund) as [->|]; [simpl; lia|].
    by destruct (String.eqb_spec (tx_TransactionType t) TransactionTypeTopup) as [->|]; [simpl; lia|]. }
  rewrite Hst in Hst'. apply varchar_short in Hst'; [|simpl; lia].
  eexists. split; [done|]. unfold entry_of, kind_of in *. rewrite Htype, Ho, Hk, Hm, Hw, Ha, Hst'. done.
Qed.

Lemma booking_entries txn delta key T T' kind :
  booking txn delta None key T T' -> tx_Status txn = TransactionStatusSuccess -> kind_of txn = Some kind ->
  entries (bank_of T) !! tx_ID txn = None /\
  exists row, transactions T' !! tx_ID txn = Some row /\
  forall id, entries (bank_of T') !! id =
    <[tx_ID txn := mkEntry kind (tx_MerchantID txn) (tx_WalletID txn) (tx_ReferenceID row) (tx_Amount txn) false]>
      (entries (bank_of T)) !! id.
Proof.
  intros Hb Hst Hk. apply booking_transactions in Hb as (row & at_ & Hs & Hfresh & _ & Hrow & Hother).
  split; [by rewrite entry_lookup, Hfresh|]. exists row. split; [done|]. intros id. rewrite entry_lookup.
  destruct (stored_entry _ _ _ Hs Hst Hk) as (ref & <- & He).
  destruct (decide (id = tx_ID txn)) as [->|Hne].
  - by rewrite Hrow, lookup_insert_eq.
  - rewrite Hother, lookup_insert_ne, entry_lookup by done. by destruct (transactions T !! id).
Qed.
Lemma payment_refines req txn T T' :
  ledger_ok T -> payment_valid req -> payment_step req txn T T' -> bank_step (bank_of T) (bank_of T').
Proof.
  intros Hok Hv Hstep. pose proof (payment_keeps_ok _ _ _ _ Hok Hv Hstep) as Hok'.
  destruct Hstep as ((id & wid & enc & now & _ & Htxn) & Hpos & (w & b & Hw & _ & Hb & Hle) & Hbook).
  assert (Hbal : balance T (tx_WalletID txn) = Some b) by (unfold balance; by rewrite Hw, Hb).
  destruct (booking_entries _ _ _ _ _ Payment Hbook) as (Hfresh & row & Hrow & Hent); [by rewrite Htxn..|].
  destruct (booking_transactions _ _ _ _ _ _ Hbook) as (row' & at_ & Hs & Hnew & _ & Hrow' & Hother).
  assert (row' = row) as -> by congruence.
  assert (Hfields : tx_TransactionType row = TransactionTypePayment /\ tx_MerchantID row = pr_MerchantID req).
  { split; [destruct (stored_signed _ _ Hs) as [-> _]; [left|]; by rewrite Htxn|].
    apply store_transaction_inv in Hs as (_ & -> & _). by rewrite Htxn. }
  eassert (Heq : bank_of T' = _); [|rewrite Heq; apply (bank_pay _ (tx_ID txn) (tx_MerchantID txn) (tx_WalletID txn) (tx_ReferenceID row) (tx_Amount txn) b)].
  - apply bank_eq; intros k; simpl accounts; simpl entries.
    + rewrite (booking_accounts _ _ _ _ _ _ _ Hbook Hbal). do 2 f_equal. rewrite Htxn. simpl. rewrite wrap64_id; [lia|].
      pose proof (balance_range _ _ _ Hbal). unfold in_int64, min_int64, max_int64 in *. lia.
    + apply Hent.
  - exact Hfresh.
  - by rewrite account_lookup.
  - rewrite Htxn. simpl. lia.
  - intros id' e He Hk Hm Href. rewrite entry_lookup in He. destruct (transactions T !! id') as [t|] eqn:Ht; [|done].
    simpl in He. unfold entry_of in He. destruct (kind_of t) as [k|] eqn:Hkt; [|done]. simpl in He. injection He as <-.
    simpl in Hk, Hm, Href. subst k. assert (Hty : tx_TransactionType t = TransactionTypePayment).
    { unfold kind_of in Hkt. destruct (String.eqb_spec (tx_TransactionType t) TransactionTypePayment); [done|].
      destruct (_ =? TransactionTypeRefund)%string; [by destruct (tx_OriginalTransactionID t)|]. by destruct (_ =? _)%string. }
    assert (Hne : id' <> tx_ID txn) by congruence.
    assert (Ht' : transactions T' !! id' = Some t) by (rewrite Hother, Ht by done; done).
    apply Hne. destruct Hfields as [Hrty Hrm]. eapply (payment_unique T' id' (tx_ID txn) t row); try done.
    rewrite Hm, Hrm. by rewrite Htxn.
Qed.

Lemma topup_refines req txn T T' : topup_step req txn T T' -> bank_step (bank_of T) (bank_of T').
Proof.
  intros ((id & wid & enc & now & _ & Htxn) & Hpos & _ & Hbook). destruct (booking_balance _ _ _ _ _ _ Hbook) as [b Hbal].
  destruct (booking_entries _ _ _ _ _ Topup Hbook) as (Hfresh & row & Hrow & Hent); [by rewrite Htxn..|].
  eassert (Heq : bank_of T' = _); [|rewrite Heq; apply (bank_topup _ (tx_ID txn) (tx_MerchantID txn) (tx_WalletID txn) (tx_ReferenceID row) (tx_Amount txn) b)].
  - apply bank_eq; intros k; simpl accounts; simpl entries; [|apply Hent].
    rewrite (booking_accounts _ _ _ _ _ _ _ Hbook Hbal). by rewrite Htxn.
  - exact Hfresh.
  - by rewrite account_lookup.
  - by rewrite Htxn.
Qed.

Lemma refund_refines req txn Tr T T' :
  ledger_ok T -> persists Tr T -> refund_step req txn Tr T T' -> bank_step (bank_of T) (bank_of T').
Proof.
  intros Hok HP Hstep. destruct (refund_has_effect _ _ _ _ _ Hok HP Hstep) as (o & orig & amount & Hbook & He).
  destruct He as [Horig Hpay Hopen Hamt [at_ Hrev] Hfresh (row & Hs & Hrow & Hty & Hm & Hw & Ha & Hro) _ Hothers].
  destruct (booking_balance _ _ _ _ _ _ Hbook) as [b Hbal].
  assert (Hwid : tx_WalletID txn = tx_WalletID orig) by (apply store_transaction_inv in Hs as (_ & _ & <- & _); done).
  set (e := mkEntry Payment (tx_MerchantID orig) (tx_WalletID orig) (tx_ReferenceID orig) (tx_Amount orig) false).
  assert (Hkind : forall t, tx_TransactionType t = TransactionTypePayment -> kind_of t = Some Payment) by (intros t Ht; unfold kind_of; by rewrite Ht).
  assert (Hent : entry_of orig = Some e).
  { unfold entry_of. by rewrite (Hkind _ Hpay), Hopen. }
  assert (Hstat : tx_Status row = TransactionStatusSuccess).
  { destruct Hstep as (? & ? & (? & ? & ? & _ & Htx) & _). apply store_transaction_inv in Hs as (_&_&_&_&_&_&_&Hst&_).
    rewrite Htx in Hst. apply varchar_short in Hst; [done|simpl; lia]. }
  eassert (Heq : bank_of T' = _); [|rewrite Heq; apply (bank_refund _ (tx_ID txn) o e (tx_ReferenceID row) amount b)].
  - apply bank_eq; intros k; simpl accounts; simpl entries.
    + rewrite (booking_accounts _ _ _ _ _ _ _ Hbook Hbal). by rewrite Hwid.
    + change (omap entry_of (transactions T')) with (entries (bank_of T')). rewrite entry_lookup.
      destruct (decide (k = tx_ID txn)) as [->|Hne].
      * rewrite lookup_insert_eq, Hrow. simpl. unfold entry_of, kind_of. rewrite Hty, Hro, Hm, Hw, Ha, Hstat. done.
      * rewrite lookup_insert_ne by done. destruct (decide (k = o)) as [->|Hno].
        -- rewrite lookup_insert_eq, Hrev. simpl. unfold entry_of. by rewrite (Hkind (set_status TransactionStatusReversed at_ orig) Hpay).
        -- rewrite lookup_insert_ne by done. rewrite Hothers by done. by rewrite <- entry_lookup.
  - by rewrite entry_lookup, Hfresh.
  - rewrite entry_lookup, Horig. exact Hent.
  - done.
  - done.
  - rewrite account_lookup. simpl. by rewrite <- Hwid.
  - done.
Qed.

Lemma step_refines T T' : ledger_ok T -> ledger_step T T' -> rtc bank_step (bank_of T) (bank_of T').
Proof.
  intros Hok [req txn Hv Hs|req txn Tr HP Hs|req txn _ Hs|x Hx ->].
  - by eapply rtc_once, payment_refines.
  - by eapply rtc_once, refund_refines.
  - by eapply rtc_once, topup_refines.
  - destruct Hx as [_ Hx]. destruct x as [| w| | | | | |]; try done. unfold bank_of. simpl.
    rewrite omap_insert. destruct (account_of w) as [b|] eqn:Hw.
    + apply rtc_once. apply (bank_open (bank_of T)). by rewrite account_lookup; unfold balance; rewrite Hx.
    + rewrite delete_id; [done|]. rewrite lookup_omap, Hx. done.
Qed.

Lemma steps_refine T T' : ledger_ok T -> ledger_steps T T' -> rtc bank_step (bank_of T) (bank_of T').
Proof.
  intros Hok Hs. induction Hs as [|T T1 T' H1 _ IH]; [done|].
  etrans; [by apply step_refines|]. apply IH. by eapply step_keeps_ok.
Qed.

Context {HS : HashService} {HL : HashLaws} {SS : SignatureService} {TS : TokenService} {TL : TokenLaws}.
Context {UP : URLParser} {RU : RequestURI} {V : Validator} {VL : ValidatorLaws} {GF : GinFallback}.
Context {B : Backend} {BL : BackendLaws}.

(** C3: the gateway refines the abstract bank: whatever requests run, however their operations
    interleave, whatever fails and whenever the process is stopped and started again, the
    accounts and the book that the database holds are reached from the initial ones by payments, refunds, top-ups and openings of the bank. *)
Theorem gateway_refines_bank s s' :
  ready s -> ledger_ok (tables s) -> reachable s s' -> rtc bank_step (bank_of (tables s)) (bank_of (tables s')).
Proof. intros Hs Hok Hr. destruct (reachable_steps _ _ Hs Hr) as [Hst _]. by apply steps_refine. Qed.
End Refinement.
