(* ===== verification/Demo.v ===== *)
(** A small world to evaluate the program in: one merchant, its wallet, a server that the
    constants below decide; and how a computed run becomes a fact about [run]. *)

From S2P Require Export Instances Concurrency PaymentConcurrency Drain.

Section Computed.
Context {U : UUIDLib} {P : PgLib} {B : Backend}.

Definition answer {A} (p : prog A) (s : St) : option A := (fun x => x.1.1) <$> run p [] s.
Definition trace {A} (p : prog A) (s : St) : list event := default [] ((fun x => x.1.2) <$> run p [] s).
Definition after {A} (p : prog A) (s : St) : St := default s (snd <$> run p [] s).

Lemma run_answer {A} (p : prog A) s a : answer p s = Some a -> run p [] s = Some (a, trace p s, after p s).
Proof.
  unfold answer, trace, after. destruct (run p [] s) as [[[a' es] s']|]; simpl; [|done]. by intros [= ->].
Qed.

Definition ends {A} (p : prog A) (s : St) : bool := match answer p s with Some _ => true | None => false end.

Lemma run_some {A} (p : prog A) s : ends p s = true -> exists a, run p [] s = Some (a, trace p s, after p s).
Proof. unfold ends. destruct (answer p s) as [a|] eqn:E; [|done]. intros _. exists a. by apply run_answer. Qed.

Lemma run_answered {A X} (p : prog A) s (f : A -> X) x :
  f <$> answer p s = Some x -> exists a, run p [] s = Some (a, trace p s, after p s) /\ f a = x.
Proof.
  destruct (answer p s) as [a|] eqn:E; [|done]. intros [= <-]. exists a. split; [by apply run_answer|done].
Qed.

Lemma run_reliable {BL : BackendLaws} {A} (p : prog A) es s a es' s' :
  reliable s -> run p es s = Some (a, es', s') -> reliable s'.
Proof.
  revert es s a. induction p as [A a0|A X o k IH|A c IHc k IH]; intros es s a Hr; cbn [run].
  - by intros [= _ _ <-].
  - destruct (exec X o s) as [[x s1]|] eqn:E; [|done]. apply IH. by destruct (exec_reliable _ _ _ _ _ Hr E).
  - by apply IH.
Qed.

Lemma run_same {A} (p : prog A) es s a es' s' a2 es2 s2 :
  run p es s = Some (a, es', s') -> run p es s = Some (a2, es2, s2) -> a = a2 /\ es' = es2 /\ s' = s2.
Proof. intros -> [= -> -> ->]. done. Qed.

Definition said_ok {A} (x : option (res A)) : bool := match x with Some (Ok _) => true | _ => false end.
Definition said_err {A} (x : option (res A)) : bool := match x with Some (Err _) => true | _ => false end.

Lemma run_ok {A} (p : prog (res A)) s :
  said_ok (answer p s) = true -> exists a, run p [] s = Some (Ok a, trace p s, after p s).
Proof. destruct (answer p s) as [[a|]|] eqn:E; try done. intros _. exists a. by apply run_answer. Qed.

Lemma run_err {A} (p : prog (res A)) s :
  said_err (answer p s) = true -> exists e, run p [] s = Some (Err e, trace p s, after p s).
Proof. destruct (answer p s) as [[|e]|] eqn:E; try done. intros _. exists e. by apply run_answer. Qed.

(** A schedule: which goroutine performs its next operation; one that waits is passed over. *)
Fixpoint play (schedule : list nat) (ps : list (prog unit)) (s : St) : list (prog unit) * St :=
  match schedule with
  | [] => (ps, s)
  | i :: schedule =>
    match ps !! i with
    | Some (Do o k) =>
      match exec _ o s with
      | Some (x, s') => play schedule (<[i := k x]> ps) s'
      | None => play schedule ps s
      end
    | Some (Go c k) => play schedule (<[i := k]> ps ++ [c]) s
    | _ => play schedule ps s
    end
  end.

Lemma play_steps served schedule ps s : rtc (pool_step served) (ps, s) (play schedule ps s).
Proof.
  revert ps s. induction schedule as [|i schedule IH]; intros ps s; [done|]. cbn [play].
  destruct (ps !! i) as [[|X o k|c k]|] eqn:Hi; try apply IH.
  - destruct (exec X o s) as [[x s']|] eqn:E; [|apply IH].
    eapply rtc_l; [by eapply step_op|apply IH].
  - eapply rtc_l; [by eapply step_go|apply IH].
Qed.

Lemma arrive (served : prog unit -> Prop) qs ps s :
  Forall served qs -> rtc (pool_step served) (ps, s) (ps ++ qs, s).
Proof.
  revert ps. induction qs as [|q qs IH]; intros ps Hq; [by rewrite app_nil_r|].
  inversion Hq; subst. eapply rtc_l; [by apply step_arrive|].
  replace (ps ++ q :: qs) with ((ps ++ [q]) ++ qs) by (by rewrite <- app_assoc). by apply IH.
Qed.
End Computed.

(** An equation between closed terms, checked by evaluating both sides. *)
Ltac evaluate := match goal with |- ?a = ?b => vm_cast_no_check (eq_refl b) end.

(** ** The world *)

Definition demo_key : AESEncryptionService := mkAES (string_of (zeros 32)).

#[export] Instance DemoEncryption : EncryptionService := aes_service demo_key.
#[export] Instance DemoEncryptionLaws : EncryptionLaws.
Proof. by apply aes_laws. Qed.

#[export] Instance DemoHash : HashService := argon2_service.
#[export] Instance DemoHashLaws : HashLaws := argon2_laws.
#[export] Instance DemoTokens : TokenService := jwt_service (mkJWT "jwt secret" (24 * Hour) "gateway").
#[export] Instance DemoTokenLaws : TokenLaws := jwt_laws _.

Definition demo_sealed (z : Z) : string :=
  hex_encode (gcm_seal (aes_key demo_key) (string_of (zeros 12)) (FormatInt z)).

Definition seal (text : string) : string := hex_encode (gcm_seal (aes_key demo_key) (string_of (zeros 12)) text).

Definition demo_hash (password : string) : string :=
  encode_hash "0123456789abcdef" (argon2_IDKey password "0123456789abcdef" argon2Time argon2Memory argon2Threads argon2KeyLen).

(** The merchant [shop], whose password is [correct horse] and whose secret key is [s3cret]. *)
Definition demo_merchant : Merchant :=
  mkMerchant (uuid_n 1) "shop" (demo_hash "correct horse") "Shop" "access" (seal "s3cret")
    (Some "http://shop.example/hook") MerchantStatusActive 0 0.
Definition demo_wallet (b : Z) : Wallet := mkWallet (uuid_n 2) (uuid_n 1) "VND" (demo_sealed b) None 0 0.
Definition demo_tables (b : Z) : Tables :=
  apply_writes [WMerchant demo_merchant; WWallet (demo_wallet b)] empty_tables.

Definition demo_env (faults : nat -> option Fault) : Env :=
  mkEnv (fun _ => 1000000) (fun n => uuid_n (10 + Z.of_nat n)) (fun n k => byte_of (Z.of_nat (n + k)))
    faults (fun _ => O) 1 (fun _ => inl 200).

Definition no_faults : nat -> option Fault := fun _ => None.

(** A server with balance [b] at 2023-11-14T22:13:20Z. *)
Definition demo_with (faults : nat -> option Fault) (b : Z) : @St _ ServerBackend :=
  mkServer (demo_env faults) 0 (mkView (demo_tables b) ∅ ∅ ∅ (1700000000 * Second)).
Definition demo : Z -> @St _ ServerBackend := demo_with no_faults.

Definition demo_payment (ref : string) (amount : Z) : PaymentRequest :=
  mkPaymentRequest (uuid_n 1) ref amount "VND" "" "10.0.0.1" None.
Definition demo_refund (ref : string) (amount : option Z) : RefundRequest :=
  mkRefundRequest (uuid_n 1) ref amount "broken" "" "10.0.0.1".
Definition demo_topup (amount : Z) : TopupRequest := mkTopupRequest (uuid_n 1) amount "VND".

(** A request over HTTP, with the given headers; and one the merchant signed. *)
Definition headers (l : list (string * string)) (name : string) : string :=
  default "" (snd <$> List.find (fun h => (h.1 =? name)%string) l).

Definition demo_http (method path body : string) (hs : list (string * string)) : Request :=
  mkRequest method path (headers hs) (fun _ => None) "10.0.0.1" (mkReader body None).

Definition demo_signed (path body nonce : string) : Request :=
  demo_http "POST" path body
    [(HeaderAccessKey, "access"); (HeaderTimestamp, "1700000000"); (HeaderNonce, nonce);
     (HeaderSignature, Sign "s3cret" (BuildCanonicalString "POST" path 1700000000 nonce body))].

Definition payment_body (ref : string) (amount : Z) : string :=
  json_print (JObj [("reference_id", JStr ref); ("amount", int_json amount); ("currency", JStr "VND")]).

(** The process is killed and started again. *)
Definition reboot (s : @St _ ServerBackend) : @St _ ServerBackend :=
  mkServer (sv_env s) (sv_tick s)
    (mkView (v_tables (view s)) ((fun _ => Closed) <$> v_txs (view s)) ∅ (v_redis (view s)) (v_clock (view s))).

Lemma reboot_restarts s : restarted (view s) (view (reboot s)).
Proof. split; simpl; try done. intros h. apply lookup_fmap. Qed.

(** The server as main.go wires it. *)
Definition main_deps : RouterDeps := mkRouterDeps true true true true true true None "".

Lemma demo_row_wallet b id w : wallets (demo_tables b) !! id = Some w -> id = uuid_n 2 /\ w = demo_wallet b.
Proof.
  unfold demo_tables, apply_writes. cbn [fold_left apply_write wallets empty_tables].
  rewrite lookup_insert_Some. intros [[<- <-]|[_ H]]; [done|]. by rewrite lookup_empty in H.
Qed.

Lemma demo_row_merchant b id m : merchants (demo_tables b) !! id = Some m -> id = uuid_n 1 /\ m = demo_merchant.
Proof.
  unfold demo_tables, apply_writes. cbn [fold_left apply_write merchants empty_tables].
  rewrite lookup_insert_Some. intros [[<- <-]|[_ H]]; [done|]. by rewrite lookup_empty in H.
Qed.

Lemma demo_no_transaction b : transactions (demo_tables b) = ∅.
Proof. done. Qed.
Lemma demo_no_log b : idempotency_logs (demo_tables b) = ∅.
Proof. done. Qed.

Lemma demo_wf b : wf_tables (demo_tables b).
Proof.
  split.
  - by intros id m [-> ->]%demo_row_merchant.
  - by intros id m [-> ->]%demo_row_merchant id' m' [-> ->]%demo_row_merchant.
  - intros id w [-> ->]%demo_row_wallet. done.
  - intros id t. rewrite demo_no_transaction. by rewrite lookup_empty.
  - intros id t. rewrite demo_no_log. by rewrite lookup_empty.
  - by intros id m [-> ->]%demo_row_merchant.
  - by intros id w [-> ->]%demo_row_wallet.
  - intros id t. rewrite demo_no_transaction. by rewrite lookup_empty.
Qed.

Lemma demo_ready faults b : ready (demo_with faults b).
Proof.
  split_and!.
  - by apply locks_ok_idle.
  - apply demo_wf.
  - intros k s e H. simpl in H. by rewrite lookup_empty in H.
Qed.

Lemma demo_ok b : ledger_ok (demo_tables b).
Proof. split; [apply demo_wf|..]; intros id t; rewrite demo_no_transaction; by rewrite lookup_empty. Qed.

Lemma demo_idle faults b : idle (demo_with faults b).
Proof. intros h Hh. unfold tx_open in Hh. simpl in Hh. by rewrite lookup_empty in Hh. Qed.

(** Idleness can be computed. *)
Definition idleb (s : @St _ ServerBackend) : bool :=
  forallb (fun kv => negb (is_open kv.2)) (map_to_list (v_txs (view s))).

Lemma idleb_idle s : idleb s = true -> idle s.
Proof.
  unfold idleb. rewrite forallb_forall. intros Hall h Hh. unfold tx_open in Hh.
  destruct (v_txs (view s) !! h) as [t|] eqn:Ht; [|done].
  apply elem_of_map_to_list, list_elem_of_In, Hall in Ht. by destruct t.
Qed.

Lemma demo_reliable b : reliable (demo b).
Proof. intros n _. done. Qed.

Lemma demo_only_wallet b f :
  f (demo_wallet b) = true -> forall id w, wallets (demo_tables b) !! id = Some w -> f w = true -> w = demo_wallet b.
Proof. intros _ id w [_ ->]%demo_row_wallet. done. Qed.

(** A payment leaves the world ready for the next request. *)
Lemma payment_again req s r :
  payment_valid req -> ready s -> ledger_ok (tables s) -> answer (ProcessPayment req) s = Some r ->
  ready (after (ProcessPayment req) s) /\ ledger_ok (tables (after (ProcessPayment req) s)).
Proof.
  intros Hv Hs Hok Hr. apply run_answer, (payment_run _ _ _ _ _ Hv Hs) in Hr as [Ho Hs']. split; [done|].
  apply outcome_eq in Ho. inversion Ho as [k r' Hk Ha HT|txn T' Hu Hst|e Hf|e Hf He|txn err T' Hf Hu Hst]; subst; try congruence;
    eapply step_keeps_ok; [exact Hok|by eapply ls_payment|exact Hok|by eapply ls_payment].
Qed.

Lemma demo_payment_valid ref amount :
  (String.length ref <= 100)%nat -> in_int64 amount -> payment_valid (demo_payment ref amount).
Proof. intros Hr Ha. split; [done|]. simpl. pose proof (rune_count_length ref). lia. Qed.

(** A payment of that merchant, as it is kept. *)
Definition demo_txn : Transaction :=
  mkTransaction (uuid_n 5) "ORD-1" (uuid_n 1) (uuid_n 2) 250 "" TransactionTypePayment TransactionStatusSuccess
    "" "10.0.0.1" None None (1700000000 * Second) (Some (1700000000 * Second)).
