(* ===== verification/PaymentWitnesses.v ===== *)
(** The payment service's theorems at concrete requests, on the world of [Demo]. *)

From S2P Require Import Demo PaymentTheorems RefundTheorems Shutdown.

Local Abbreviation ord1 := (demo_payment "ORD-1" 250).
Local Abbreviation paid := (after (ProcessPayment ord1) (demo 1000)).

Lemma ord1_valid : payment_valid ord1.
Proof. apply demo_payment_valid; [simpl; lia|unfold in_int64, min_int64, max_int64; lia]. Qed.

Lemma ord1_answer : exists txn, run (ProcessPayment ord1) [] (demo 1000) = Some (Ok txn, trace (ProcessPayment ord1) (demo 1000), paid).
Proof. apply run_ok. evaluate. Qed.

Lemma paid_ready : ready paid /\ ledger_ok (tables paid).
Proof.
  destruct ord1_answer as [txn Hr].
  eapply payment_again; [apply ord1_valid|apply demo_ready|apply demo_ok|unfold answer; by rewrite Hr].
Qed.

Lemma paid_reliable : reliable paid.
Proof. destruct ord1_answer as [txn Hr]. exact (run_reliable _ _ _ _ _ _ (demo_reliable _) Hr). Qed.

Lemma payment_charges_witness :
  exists txn, said_ok (answer (ProcessPayment ord1) (demo 1000)) = true /\
              booked_alone txn (- 250) (demo_tables 1000) (tables paid).
Proof.
  destruct ord1_answer as [txn Hr]. exists txn. split; [evaluate|].
  destruct (payment_charges ord1 (demo 1000) txn _ _ ord1_valid (demo_ready _ _) Hr) as (_ & _ & H & _);
    [apply lookup_empty|exact H].
Defined.

Lemma payment_error_atomic_witness :
  tables (after (ProcessPayment (demo_payment "ORD-1" 0)) (demo 1000)) = demo_tables 1000 \/
  exists err txn, ErrInvalidAmount = InternalError (Errorf "commit tx" err) /\
    payment_step (demo_payment "ORD-1" 0) txn (demo_tables 1000) (tables (after (ProcessPayment (demo_payment "ORD-1" 0)) (demo 1000))).
Proof.
  apply (payment_error_atomic (demo_payment "ORD-1" 0) (demo 1000) ErrInvalidAmount
           (trace (ProcessPayment (demo_payment "ORD-1" 0)) (demo 1000))).
  - apply demo_payment_valid; [simpl; lia|unfold in_int64, min_int64, max_int64; lia].
  - apply demo_ready.
  - apply run_answer. evaluate.
Defined.

(** The answer to the COMMIT of a top-up is lost: the booking is in place. *)
Definition uncertain : @St _ ServerBackend := demo_with (fun n => if (n =? 8)%nat then Some (FAfter "connection lost") else None) 1000.
Local Abbreviation five := (PayIn (demo_topup 5)).

Lemma money_error_atomic_witness :
  exists e txn, answer (carry_out five) uncertain = Some (Err e) /\
    movement_step five txn (demo_tables 1000) (tables (after (carry_out five) uncertain)).
Proof.
  destruct (run_err (carry_out five) uncertain) as [e Hr]; [evaluate|].
  destruct (money_error_atomic five uncertain e (trace (carry_out five) uncertain) (after (carry_out five) uncertain))
    as [HT|(err & txn & He & Hstep)].
  - cbn. unfold in_int64, min_int64, max_int64. lia.
  - exact (demo_ready _ _).
  - exact Hr.
  - exfalso. assert (Hn : size (transactions (tables (after (carry_out five) uncertain))) = 1%nat) by evaluate.
    rewrite HT in Hn. discriminate Hn.
  - exists e, txn. split; [unfold answer; rewrite Hr; reflexivity|exact Hstep].
Defined.

(** The second request, for another amount, changes nothing. *)
Lemma payment_idempotent_witness :
  tables (after (ProcessPayment (demo_payment "ORD-1" 999)) paid) = tables paid.
Proof.
  destruct ord1_answer as [txn Hr].
  destruct (run_ok (ProcessPayment (demo_payment "ORD-1" 999)) paid) as [txn' Hr']; [evaluate|].
  apply (payment_idempotent ord1 (demo_payment "ORD-1" 999) (demo 1000) txn _ paid (Ok txn') _ _
           ord1_valid ltac:(apply demo_payment_valid; [simpl; lia|unfold in_int64, min_int64, max_int64; lia])
           eq_refl eq_refl eq_refl (demo_ready _ _) Hr Hr').
Defined.

(** One more than the balance, and all that is there. *)
Lemma payment_decided_witness :
  (exists es s', run (ProcessPayment (demo_payment "ORD-1" 1001)) [] (demo 1000) = Some (Err ErrInsufficientFunds, es, s') /\
                 tables s' = demo_tables 1000) /\
  exists r es s', run (ProcessPayment (demo_payment "ORD-1" 1000)) [] (demo 1000) = Some (r, es, s') /\
    ((exists txn, r = Ok txn /\ payment_step (demo_payment "ORD-1" 1000) txn (demo_tables 1000) (tables s')) \/
     (exists e txn, r = Err e /\ payment_txn (demo_payment "ORD-1" 1000) txn /\ tables s' = demo_tables 1000 /\
        unlucky (demo_tables 1000) (Some (BuildIdempotencyKey (uuid_n 1) "ORD-1")) txn)).
Proof.
  assert (Hd : forall n, 0 < n <= 1001 -> payment_valid (demo_payment "ORD-1" n)).
  { intros n Hn. apply demo_payment_valid; [simpl; lia|unfold in_int64, min_int64, max_int64; lia]. }
  assert (Hw : only_wallet (demo_tables 1000) (wallet_of (uuid_n 1) "VND") (demo_wallet 1000)).
  { split; [apply lookup_insert_eq|]. split; [evaluate|]. apply demo_only_wallet. evaluate. }
  split.
  - destruct (payment_decided (demo_payment "ORD-1" 1001) (demo 1000) (demo_wallet 1000) 1000) as (r & es & s' & Hrun & Hr & HT);
      [apply Hd; lia|apply demo_ready|apply demo_idle|apply demo_reliable|done|apply lookup_empty|exact Hw|evaluate|].
    exists es, s'. rewrite Hr in Hrun. exact (conj Hrun HT).
  - destruct (payment_decided (demo_payment "ORD-1" 1000) (demo 1000) (demo_wallet 1000) 1000) as (r & es & s' & Hrun & Hr);
      [apply Hd; lia|apply demo_ready|apply demo_idle|apply demo_reliable|done|apply lookup_empty|exact Hw|evaluate|].
    exists r, es, s'. refine (conj Hrun (Hr _)).
    split; try (split_and!; [evaluate|evaluate|simpl; lia]).
    + exists demo_merchant. apply lookup_insert_eq.
    + done.
    + simpl. lia.
Defined.

(** ** Refunds *)

Local Abbreviation ref1 := (demo_refund "ORD-1" (Some 100)).
Local Abbreviation refunded := (after (ProcessRefund ref1) paid).

Lemma ref1_answer : exists txn, run (ProcessRefund ref1) [] paid = Some (Ok txn, trace (ProcessRefund ref1) paid, refunded).
Proof. apply run_ok. evaluate. Qed.

Lemma paid_unrefunded :
  idempotency_logs (tables paid) !! BuildRefundIdempotencyKey (rr_MerchantID ref1) (rr_OriginalReferenceID ref1) = None.
Proof. evaluate. Qed.

Lemma refund_credits_witness :
  exists txn o orig,
    refund_effect txn o orig 100 (tables paid) (tables refunded) /\ booked_alone txn 100 (tables paid) (tables refunded).
Proof.
  destruct ref1_answer as [txn Hr]. destruct paid_ready as [Hs Hok]. exists txn.
  destruct (refund_credits ref1 paid txn _ _ Hs Hok Hr) as (o & orig & _ & _ & H1 & H2 & _);
    [simpl; lia|apply paid_unrefunded|].
  exists o, orig. split; [exact H1|exact H2].
Defined.

Lemma refund_error_atomic_witness :
  let s' := after (ProcessRefund (demo_refund "ORD-2" None)) (demo 1000) in
  tables s' = demo_tables 1000 \/
  exists err txn, ErrNotFound "original transaction" = InternalError (Errorf "commit tx" err) /\
    refund_step (demo_refund "ORD-2" None) txn (demo_tables 1000) (demo_tables 1000) (tables s').
Proof.
  apply (refund_error_atomic (demo_refund "ORD-2" None) (demo 1000) (ErrNotFound "original transaction")
           (trace (ProcessRefund (demo_refund "ORD-2" None)) (demo 1000))).
  - apply demo_ready.
  - apply run_answer. evaluate.
Defined.

Lemma refund_idempotent_witness :
  tables (after (ProcessRefund (demo_refund "ORD-1" None)) refunded) = tables refunded.
Proof.
  destruct ref1_answer as [txn Hr].
  destruct (run_ok (ProcessRefund (demo_refund "ORD-1" None)) refunded) as [txn' Hr']; [evaluate|].
  apply (refund_idempotent ref1 (demo_refund "ORD-1" None) paid txn _ refunded (Ok txn') _ _
           ltac:(simpl; lia) eq_refl eq_refl (proj1 paid_ready) Hr Hr').
Defined.

(** The payment can be refunded. *)
Definition refundable (T : Tables) : bool :=
  match originals ref1 T with
  | [(_, o)] =>
    match refund_verdict ref1 T o, wallets T !! tx_WalletID o, merchants T !! uuid_n 1 with
    | None, Some w, Some _ => match open_balance w with Ok _ => (tx_Amount o <? 10 ^ 18) | _ => false end
    | _, _, _ => false
    end
  | _ => false
  end.

Lemma refundable_fits T :
  refundable T = true ->
  exists id o, originals ref1 T = [(id, o)] /\ refund_verdict ref1 T o = None /\ refund_fits ref1 o T.
Proof.
  unfold refundable. destruct (originals ref1 T) as [|[id o] [|? ?]]; [done| |done].
  destruct (refund_verdict ref1 T o) eqn:Hv; [done|].
  destruct (wallets T !! tx_WalletID o) as [w|] eqn:Hw; [|done].
  destruct (merchants T !! uuid_n 1) as [m|] eqn:Hm; [|done].
  destruct (open_balance w) as [b|] eqn:Hb; [|done]. intros Ha%Z.ltb_lt. exists id, o. split; [done|]. split; [done|].
  split; [by exists m|by exists w, b|..|exact Ha].
  all: try (split_and!; [evaluate|evaluate|simpl; lia]).
  split; evaluate.
Qed.


(** ** Top-ups *)

Local Abbreviation top := (demo_topup 500).

(** A small top-up, and one past the largest integer. *)
Lemma topup_credits_witness :
  (exists txn, booked_alone txn 500 (demo_tables 1000) (tables (after (ProcessTopup top) (demo 1000)))) /\
  exists txn, balance (tables (after (ProcessTopup top) (demo max_int64))) (tx_WalletID txn) = Some (max_int64 + 500 - 2 ^ 64).
Proof.
  assert (Ha : in_int64 (tr_Amount top)) by (unfold in_int64, min_int64, max_int64; simpl; lia). split.
  - destruct (run_ok (ProcessTopup top) (demo 1000)) as [txn Hr]; [evaluate|]. exists txn.
    apply (topup_credits top (demo 1000) txn _ _ Ha (demo_ready _ _) Hr).
  - destruct (run_ok (ProcessTopup top) (demo max_int64)) as [txn Hr]; [evaluate|]. exists txn.
    destruct (topup_credits top (demo max_int64) txn _ _ Ha (demo_ready _ _) Hr) as (_ & _ & (w & b & _ & _ & Hb & Hb') & _).
    assert (Hw : option_map (fun x => result_map tx_WalletID x) (answer (ProcessTopup top) (demo max_int64)) = Some (Ok (uuid_n 2)))
      by (evaluate).
    unfold answer in Hw. rewrite Hr in Hw. injection Hw as Hw. rewrite Hw in Hb.
    assert (Hmax : balance (demo_tables max_int64) (uuid_n 2) = Some max_int64) by evaluate.
    change (tables (demo max_int64)) with (demo_tables max_int64) in Hb.
    rewrite Hmax in Hb. injection Hb as <-. exact Hb'.
Defined.

Lemma topup_decided_witness :
  exists r es s', run (ProcessTopup top) [] (demo 1000) = Some (r, es, s') /\
    ((exists txn, r = Ok txn /\ topup_step top txn (demo_tables 1000) (tables s')) \/
     (exists e txn, r = Err e /\ tables s' = demo_tables 1000 /\ topup_txn top txn /\
        (is_Some (transactions (demo_tables 1000) !! tx_ID txn) \/ ~ in_int64 (UnixMilli (tx_CreatedAt txn))))).
Proof.
  assert (Ha : in_int64 (tr_Amount top)) by (unfold in_int64, min_int64, max_int64; simpl; lia).
  destruct (topup_decided top (demo 1000) Ha (demo_ready _ _) (demo_idle _ _) (demo_reliable _)) as (r & es & s' & Hrun & Hr).
  exists r, es, s'. refine (conj Hrun (proj2 Hr (demo_wallet 1000) 1000 _ _ _)).
  - split; [apply lookup_insert_eq|]. split; [evaluate|]. apply demo_only_wallet. evaluate.
  - evaluate.
  - split; [exists demo_merchant; apply lookup_insert_eq|simpl; lia].
Defined.

Lemma topup_error_atomic_witness :
  ErrInvalidAmount = ErrInvalidAmount /\ after (ProcessTopup (demo_topup (-5))) (demo 1000) = demo 1000.
Proof.
  apply (topup_error_atomic (demo_topup (-5)) (demo 1000) ErrInvalidAmount []).
  - unfold in_int64, min_int64, max_int64; simpl; lia.
  - apply demo_ready.
  - reflexivity.
  - simpl; lia.
Defined.

(** ** Interleavings: two payments under one reference, a top-up, and a payment over HTTP with
    the webhook delivery and the audit entry it starts, their steps alternating *)

Definition crowd : list (prog unit) :=
  [answered_by (ProcessPayment ord1); answered_by (ProcessPayment ord1); answered_by (ProcessTopup top);
   answered_by (ServeHTTP main_deps (demo_signed "/api/v1/payments" (payment_body "ORD-2" 100) "n1"))].

Definition alternating : list nat := concat (repeat [0; 1; 2; 3; 4; 5]%nat 60).

Lemma crowd_requests : Forall request crowd.
Proof.
  repeat constructor.
  1-2: apply ord1_valid. all: unfold min_int64, max_int64; simpl; lia.
Qed.

Lemma crowd_arrives s : rtc (pool_step request) ([], s) (crowd, s).
Proof. apply (arrive request crowd []), crowd_requests. Qed.

(** The pool has two connections.  One payment waits for the wallet that the top-up has locked,
    the other and the request over HTTP wait for a connection; all will end. *)
Definition queue : list (prog unit) * @St _ ServerBackend := play (concat (repeat [0; 1; 2; 3; 4; 5]%nat 5)) crowd (demo 1000).

Lemma queue_reachable : rtc (pool_step request) ([], demo 1000) (queue.1, queue.2).
Proof.
  transitivity (crowd, demo 1000); [apply crowd_arrives|].
  unfold queue. rewrite <- surjective_pairing. apply play_steps.
Qed.

(** The process is killed while they wait; the clients ask again. *)
Definition crowded : @St _ ServerBackend := (play alternating crowd (reboot queue.2)).2.

Lemma crowded_reachable : reachable (demo 1000) crowded.
Proof.
  eapply rtc_l; [apply (era_serves _ queue.2 queue.1), queue_reachable|].
  eapply rtc_l; [apply (era_restarts _ (reboot queue.2)), reboot_restarts|]. apply rtc_once.
  apply (era_serves _ _ (play alternating crowd (reboot queue.2)).1).
  transitivity (crowd, reboot queue.2); [apply crowd_arrives|].
  unfold crowded. rewrite <- surjective_pairing. apply play_steps.
Qed.

Lemma requests_drain_witness :
  map (can_move queue.2) queue.1 = [false; false; true; false] /\ sn moves (queue.1, queue.2) /\
  (red moves (queue.1, queue.2) \/ (Forall (eq (Ret tt)) queue.1 /\ idle queue.2)).
Proof.
  split; [evaluate|].
  destruct (requests_drain (demo 1000) queue.1 queue.2 (demo_ready _ _) (demo_idle _ _) queue_reachable) as [Hsn Hend].
  split; [exact Hsn|]. by apply Hend.
Defined.

Lemma queue_life : exists gs, gs.*2 = queue.1 /\ rtc life (Listening, [], demo 1000) (Listening, gs, queue.2).
Proof.
  pose proof (play_steps (fun _ => False) (concat (repeat [0; 1; 2; 3; 4; 5]%nat 5)) crowd (demo 1000)) as Hm.
  destruct (life_plays Listening (pair Handler <$> crowd) (demo 1000) queue.1 queue.2) as (gs & Hgs & Hl); [done| |].
  { rewrite <- surjective_pairing. exact Hm. }
  exists gs. split; [exact Hgs|]. transitivity (Listening, pair Handler <$> crowd, demo 1000); [|exact Hl].
  apply (life_arrives [] (demo 1000) crowd crowd_requests).
Qed.

(** The signal comes while they wait. *)
Lemma shutdown_completes_witness :
  exists gs d, gs.*2 = queue.1 /\ life (Listening, gs, queue.2) (Draining d, gs, queue.2) /\
    sn life (Draining d, gs, queue.2) /\ red life (Draining d, gs, queue.2).
Proof.
  destruct queue_life as (gs & Hgs & Hl). exists gs, (v_clock (view queue.2) + shutdown_timeout).
  pose proof (life_signal gs queue.2) as Hsig. split; [exact Hgs|]. split; [exact Hsig|].
  destruct (shutdown_completes (demo 1000) gs queue.2 _ ltac:(intros s; eexists; apply reboot_restarts)
              (demo_ready _ _) (demo_idle _ _) Hl Hsig) as (Hsn & Hend & _).
  split; [exact Hsn|]. destruct (Hend _ (rtc_refl _ _)) as [Hr|(s' & [=] & _)]. exact Hr.
Defined.

Lemma concurrent_conservation_witness :
  balance (tables crowded) (uuid_n 2) =
    Some (wrap64 (1000 + (ledger_sum (uuid_n 2) (transactions (tables crowded)) - 0))) /\
  balance (tables crowded) (uuid_n 2) = Some 1150.
Proof.
  split; [|evaluate].
  apply (concurrent_conservation (demo 1000) crowded (uuid_n 2) 1000 (demo_ready _ _) crowded_reachable).
  evaluate.
Defined.

(** One of the two payments was booked, and it is the only one. *)
Lemma concurrent_integrity_witness :
  exists id1 t1, transactions (tables crowded) !! id1 = Some t1 /\ tx_TransactionType t1 = TransactionTypePayment /\
    forall id2 t2, transactions (tables crowded) !! id2 = Some t2 -> tx_TransactionType t2 = TransactionTypePayment ->
      tx_MerchantID t1 = tx_MerchantID t2 -> tx_ReferenceID t1 = tx_ReferenceID t2 -> id1 = id2.
Proof.
  destruct (some_row_true (fun t => tx_TransactionType t =? TransactionTypePayment)%string (transactions (tables crowded)))
    as (id1 & t1 & H1 & Hty%String.eqb_eq); [evaluate|].
  exists id1, t1. split_and!; [exact H1|exact Hty|]. intros id2 t2 H2 Hty2.
  exact (proj1 (concurrent_integrity (demo 1000) crowded (demo_ready _ _) (demo_ok _) crowded_reachable) _ _ _ _ H1 H2 Hty Hty2).
Defined.

Lemma no_overdraft_witness :
  (exists b', balance (tables crowded) (uuid_n 2) = Some b' /\ 0 <= b') \/
  (exists T T', ledger_steps (demo_tables 1000) T /\ ledger_step T T' /\ ledger_steps T' (tables crowded) /\ overflows (uuid_n 2) T T').
Proof.
  apply (no_overdraft (demo 1000) crowded (uuid_n 2) 1000 (demo_ready _ _) (demo_ok _) crowded_reachable);
    [evaluate|lia].
Defined.
