(* ===== verification/AccountWitnesses.v ===== *)
(** The theorems of [AccountTheorems] at concrete requests, on the world of [Demo]. *)

From S2P Require Import Demo AccountTheorems.

Local Abbreviation alice := (mkRegisterRequest "alice" "correct horse" "Alice" None).
Local Abbreviation joined := (after (Register alice) (demo 1000)).

Lemma joined_answer :
  exists resp, run (Register alice) [] (demo 1000) = Some (Ok resp, trace (Register alice) (demo 1000), joined).
Proof. apply run_ok. evaluate. Qed.

Lemma joined_reliable : reliable joined.
Proof. destruct joined_answer as [resp Hr]. exact (run_reliable _ _ _ _ _ _ (demo_reliable _) Hr). Qed.

Lemma joined_idle : idle joined.
Proof. apply idleb_idle. evaluate. Qed.

Lemma register_creates_witness :
  exists resp m w, account alice resp m w /\ tables joined = apply_writes [WMerchant m; WWallet w] (demo_tables 1000) /\
                   balance (tables joined) (w_ID w) = Some 0.
Proof.
  destruct joined_answer as [resp Hr].
  destruct (register_creates alice (demo 1000) resp _ _ (demo_ready _ _) Hr) as (m & w & H1 & _ & _ & H2 & H3 & _).
  exists resp, m, w. split; [exact H1|]. split; [exact H2|exact H3].
Defined.

(** A lost connection at the insertion of the wallet leaves a merchant without one. *)
Definition cut_at (k : nat) : nat -> option Fault :=
  fun n => if (n =? k)%nat then Some (FBefore "connection lost") else None.
Definition orphaned : @St _ ServerBackend := after (Register alice) (demo_with (cut_at 10) 1000).

Lemma register_error_witness :
  (exists e, answer (Register alice) (demo_with (cut_at 10) 1000) = Some (Err e) /\
     register_failed true alice (demo_tables 1000) (trace (Register alice) (demo_with (cut_at 10) 1000)) e (tables orphaned)) /\
  size (merchants (tables orphaned)) = 2%nat /\ size (wallets (tables orphaned)) = 1%nat.
Proof.
  split; [|split; evaluate].
  destruct (run_err (Register alice) (demo_with (cut_at 10) 1000)) as [e Hr]; [evaluate|]. exists e.
  split; [unfold answer; rewrite Hr; reflexivity|].
  exact (proj1 (register_error alice (demo_with (cut_at 10) 1000) e _ _ (demo_ready _ _) Hr)).
Defined.

Lemma register_taken_witness :
  exists es s', run (Register (mkRegisterRequest "shop" "another one" "Shop 2" None)) [] (demo 1000) =
                  Some (Err (Validation "username already exists"), es, s') /\ tables s' = demo_tables 1000.
Proof.
  apply (register_taken _ (demo 1000) (uuid_n 1) demo_merchant (demo_ready _ _) (demo_idle _ _) (demo_reliable _));
    [reflexivity|apply lookup_insert_eq|reflexivity].
Defined.

Lemma login_decides_witness :
  (exists es s', run (Login "shop" "wrong horse") [] (demo 1000) = Some (Err ErrInvalidCredentials, es, s') /\
                 tables s' = demo_tables 1000) /\
  (exists es s', run (Login "stranger" "correct horse") [] (demo 1000) = Some (Err ErrInvalidCredentials, es, s') /\
                 tables s' = demo_tables 1000).
Proof.
  split.
  - destruct (login_decides "shop" "wrong horse" (demo 1000) (demo_ready _ _) (demo_idle _ _) (demo_reliable _))
      as (r & es & s' & Hr & HT & Ho).
    change (readable "shop") with true in Ho. cbv iota in Ho.
    assert (Hm : merchant_named (demo_tables 1000) "shop" = Some demo_merchant) by evaluate.
    change (tables (demo 1000)) with (demo_tables 1000) in Ho. rewrite Hm in Ho. unfold login_answer in Ho.
    assert (Hv : HashVerify "wrong horse" (m_PasswordHash demo_merchant) = Ok false) by evaluate. rewrite Hv in Ho.
    subst r. exists es, s'. exact (conj Hr HT).
  - destruct (login_decides "stranger" "correct horse" (demo 1000) (demo_ready _ _) (demo_idle _ _) (demo_reliable _))
      as (r & es & s' & Hr & HT & Ho).
    change (readable "stranger") with true in Ho. cbv iota in Ho.
    assert (Hm : merchant_named (demo_tables 1000) "stranger" = None) by evaluate.
    change (tables (demo 1000)) with (demo_tables 1000) in Ho. rewrite Hm in Ho.
    subst r. exists es, s'. exact (conj Hr HT).
Defined.

Lemma register_then_login_witness :
  exists resp token expiry es s', run (Login "alice" "correct horse") [] joined = Some (Ok (token, expiry), es, s') /\
    issued (rs_MerchantID resp) (rs_AccessKey resp) token expiry.
Proof.
  destruct joined_answer as [resp Hr]. exists resp.
  destruct (register_then_login alice (demo 1000) resp _ _ (demo_ready _ _) Hr joined_idle joined_reliable ltac:(simpl; lia))
    as (r & es & s' & Hl & _ & [(token & expiry & -> & Hi)|(err & ->)]).
  - exists token, expiry, es, s'. split; [exact Hl|exact Hi].
  - exfalso. assert (Hok : said_ok (answer (Login "alice" "correct horse") joined) = true) by evaluate.
    unfold answer in Hok. simpl rg_Username in Hl. simpl rg_Password in Hl. rewrite Hl in Hok. discriminate Hok.
Defined.

Definition shop : uuid := uuid_n 1.

Lemma rotate_replaces_witness :
  exists m m', tables (after (RotateKeys shop) (demo 1000)) = apply_write (WMerchant m') (demo_tables 1000) /\
               rewritten m m' /\ m_AccessKey m = "access" /\ m_AccessKey m' <> "access".
Proof.
  destruct (run_ok (RotateKeys shop) (demo 1000)) as [resp Hr]; [evaluate|].
  destruct (rotate_replaces shop (demo 1000) resp _ _ (demo_ready _ _) Hr) as (_ & m & m' & Hm & HT & Hw & _ & Hk & _).
  exists m, m'. split; [exact HT|]. split; [exact Hw|]. destruct (demo_row_merchant 1000 _ _ Hm) as [_ ->]. split; [reflexivity|].
  rewrite Hk. intros Heq.
  assert (Hn : option_map (result_map (fun r => rk_AccessKey r =? "access")%string) (answer (RotateKeys shop) (demo 1000)) = Some (Ok false))
    by evaluate.
  unfold answer in Hn. rewrite Hr in Hn. simpl in Hn. rewrite Heq in Hn. discriminate Hn.
Defined.

Lemma webhook_updates_witness :
  updates (demo_tables 1000) (tables (after (UpdateWebhookURL shop None) (demo 1000))) shop (webhook_set None tt).
Proof.
  destruct (run_ok (UpdateWebhookURL shop None) (demo 1000)) as [[] Hr]; [evaluate|].
  exact (proj2 (webhook_updates shop None (demo 1000) (Ok tt) _ _ (demo_ready _ _) Hr)).
Defined.
