(* ===== verification/RequestWitnesses.v ===== *)
(** The theorems on whole requests at concrete requests, on the world of [Demo]: who is let in,
    how often, and what remains. *)

From S2P Require Import Demo Requests HttpTheorems AuditTrail.

(** A request nobody signed. *)
Definition anonymous : Request := demo_http "POST" "/api/v1/payments" (payment_body "ORD-1" 250) [].

Lemma demo_unsigned r : GetHeader (entry r) HeaderAccessKey <> "access" ->
  forall m timestamp body, ~ signed_by (demo_tables 1000) (entry r) m timestamp body.
Proof.
  intros Hne m timestamp body [[id Hm] Hk _ _ _ _]. apply Hne. rewrite <- Hk.
  by destruct (demo_row_merchant 1000 _ _ Hm) as [_ ->].
Qed.

Lemma unsigned_refused_witness :
  exists c, answer (ServeHTTP main_deps anonymous) (demo 1000) = Some c /\ 400 <= Status c /\
            tables (after (ServeHTTP main_deps anonymous) (demo 1000)) = demo_tables 1000.
Proof.
  destruct (run_some (ServeHTTP main_deps anonymous) (demo 1000)) as [c Hr]; [evaluate|].
  destruct (unsigned_refused main_deps anonymous (demo 1000) c _ _ (demo_ready _ _) eq_refl (or_introl eq_refl)
              (demo_unsigned anonymous ltac:(discriminate)) Hr) as [HT Hc].
  exists c. split; [unfold answer; rewrite Hr; reflexivity|]. split; [exact Hc|exact HT].
Defined.

(** A signed request, and the same again. *)
Definition signed_request : Request := demo_signed "/api/v1/payments" (payment_body "ORD-1" 250) "n-1".
Local Abbreviation gate := (HMACAuth Ret (entry signed_request)).

Lemma gate_once : ready (after gate (demo 1000)) /\ reliable (after gate (demo 1000)) /\ tables (after gate (demo 1000)) = demo_tables 1000.
Proof.
  destruct (run_some gate (demo 1000)) as [c Hr]; [evaluate|]. split; [|split; [|evaluate]].
  - exact (gate_ready (entry signed_request) (demo 1000) c _ _ (demo_ready _ _) Hr).
  - exact (gate_reliable (entry signed_request) (demo 1000) c _ _ (demo_ready _ _) (demo_idle _ _) (demo_reliable _) Hr).
Qed.

Lemma replay_refused_witness :
  exists c3, answer gate (after gate (demo 1000)) = Some c3 /\ refusal c3.
Proof.
  destruct (run_answered gate (demo 1000) unanswered_ctx true) as (c1 & Hr1 & Hun); [evaluate|].
  destruct (run_some gate (after gate (demo 1000))) as [c3 Hr3]; [evaluate|].
  exists c3. split; [unfold answer; rewrite Hr3; reflexivity|].
  refine (replay_refused (entry signed_request) c1 (trace gate (demo 1000)) (demo 1000) (after gate (demo 1000))
           (entry signed_request) c3 (trace gate (after gate (demo 1000))) (after gate (demo 1000)) (after gate (after gate (demo 1000))) 1700000000
           (demo_ready _ _) (demo_idle _ _) (demo_reliable _) ltac:(apply Z.leb_le; evaluate) Hr1 Hun (proj1 gate_once) _ _ _ _ Hr3 _ _ _).
  - apply idleb_idle. evaluate.
  - exact (proj1 (proj2 gate_once)).
  - split; reflexivity.
  - split; [apply Z.le_refl|reflexivity|].
    intros id id' m m' Hm Hm' _. rewrite (proj2 (proj2 gate_once)) in Hm, Hm'.
    destruct (demo_row_merchant 1000 _ _ Hm) as [_ ->]. destruct (demo_row_merchant 1000 _ _ Hm') as [_ ->].
    reflexivity.
  - apply Z.ltb_lt. evaluate.
  - evaluate.
  - apply Z.leb_le. evaluate.
Defined.

(** The condition of the theorem is needed: a timestamp 60 seconds ahead is accepted, and
    120.5 seconds later, when the nonce has expired, it is accepted again. *)
Definition ahead : Request :=
  demo_http "POST" "/api/v1/payments" (payment_body "ORD-1" 250)
    [(HeaderAccessKey, "access"); (HeaderTimestamp, "1700000060"); (HeaderNonce, "n-1");
     (HeaderSignature, Sign "s3cret" (BuildCanonicalString "POST" "/api/v1/payments" 1700000060 "n-1" (payment_body "ORD-1" 250)))].

Definition later (k : time) (s : @St _ ServerBackend) : @St _ ServerBackend :=
  mkServer (sv_env s) (sv_tick s) (set_clock (v_clock (view s) + k) (view s)).

Example replay_window :
  (unanswered_ctx <$> answer (HMACAuth Ret (entry ahead)) (demo 1000)) = Some true /\
  (unanswered_ctx <$> answer (HMACAuth Ret (entry ahead))
     (later (120500 * Millisecond) (after (HMACAuth Ret (entry ahead)) (demo 1000)))) = Some true.
Proof. split; evaluate. Qed.

Definition untokened : Request := demo_http "GET" "/api/v1/wallets/balance" "" [].

Lemma untokened_refused_witness :
  exists c, answer (ServeHTTP main_deps untokened) (demo 1000) = Some c /\ 400 <= Status c.
Proof.
  destruct (run_some (ServeHTTP main_deps untokened) (demo 1000)) as [c Hr]; [evaluate|].
  destruct (untokened_refused main_deps untokened (demo 1000) c _ _ (demo_ready _ _) ltac:(apply list_elem_of_here)
              ltac:(intros now claims _ (token & _ & Hh & _); discriminate Hh) Hr) as [_ Hc].
  exists c. split; [unfold answer; rewrite Hr; reflexivity|exact Hc].
Defined.

(** Seven registrations from one address within an hour, one operation of each at a time. *)
Definition registrations : list Ctx := repeat (entry (demo_http "POST" "/api/v1/auth/register" "" [])) 7.
Local Abbreviation hourly := (mkRateLimitRule 5 Hour).
Local Abbreviation hour := (window_id Hour (v_clock (view (demo 1000)))).

Fixpoint take_turns (schedule : list nat) (ps : list (prog Ctx)) (s : @St _ ServerBackend) : list (prog Ctx) * St :=
  match schedule with
  | [] => (ps, s)
  | i :: schedule =>
    match ps !! i with
    | Some (Do o k) =>
      match exec _ o s with Some (x, s') => take_turns schedule (<[i := k x]> ps) s' | None => take_turns schedule ps s end
    | _ => take_turns schedule ps s
    end
  end.

Lemma turns_steps key wid schedule ps s : rtc (crowd_step key wid) (ps, s) (take_turns schedule ps s).
Proof.
  revert ps s. induction schedule as [|i schedule IH]; intros ps s; [done|]. cbn [take_turns].
  destruct (ps !! i) as [[|X o k|c k]|] eqn:Hi; try apply IH.
  destruct (exec X o s) as [[x s']|] eqn:E; [|apply IH]. eapply rtc_l; [by eapply crowd_op|apply IH].
Qed.

Definition finished (p : prog Ctx) : bool := match p with Ret _ => true | _ => false end.

Lemma finished_ret ps : forallb finished ps = true -> exists cs, ps = map Ret cs.
Proof.
  induction ps as [|[c|?|?] ps IH]; simpl; [by exists []| |done..]. intros H. destruct (IH H) as [cs ->]. by exists (c :: cs).
Qed.

Local Abbreviation together := (take_turns (concat (repeat (seq 0 7) 12)) (map (rl main_deps "auth_register" Ret) registrations) (demo 1000)).

Lemma rate_limit_exact_witness :
  exists cs s', rtc (crowd_step "10.0.0.1:auth_register" hour) (map (rl main_deps "auth_register" Ret) registrations, demo 1000) (map Ret cs, s') /\
    Permutation (map Status cs) [200; 200; 200; 200; 200; 429; 429].
Proof.
  destruct (finished_ret together.1) as [cs Hcs]; [evaluate|]. exists cs, together.2.
  assert (Hrun : rtc (crowd_step "10.0.0.1:auth_register" hour) (map (rl main_deps "auth_register" Ret) registrations, demo 1000) (together.1, together.2)).
  { rewrite <- surjective_pairing. apply turns_steps. }
  split; [rewrite <- Hcs; exact Hrun|].
  apply (rate_limit_exact main_deps "auth_register" hourly "10.0.0.1" registrations (demo 1000) together.1 together.2); [..|exact Hcs].
  - reflexivity.
  - unfold DefaultRateLimitRules. do 3 apply list_elem_of_further. apply list_elem_of_here.
  - apply demo_reliable.
  - apply Z.leb_le. evaluate.
  - apply Z.leb_le. evaluate.
  - repeat constructor.
  - reflexivity.
  - exact Hrun.
  - apply Z.ltb_lt. evaluate.
Defined.

(** A connection lost while the transaction is open. *)
Definition cut : @St _ ServerBackend := demo_with (fun n => if (n =? 14)%nat then Some (FBefore "connection lost") else None) 1000.

Lemma request_leaves_ready_witness :
  ready (after (ServeHTTP main_deps signed_request) cut) /\ idle (after (ServeHTTP main_deps signed_request) cut).
Proof.
  destruct (run_some (ServeHTTP main_deps signed_request) cut) as [c Hr]; [evaluate|].
  exact (request_leaves_ready main_deps signed_request cut c _ _ (demo_ready _ _) (demo_idle _ _) Hr).
Defined.

(** The entry of a payment, stored in the state the request leaves. *)
Local Abbreviation paid := (after (ServeHTTP main_deps signed_request) (demo 1000)).

Lemma paid_admits id c :
  c_MerchantID c = Some (m_ID demo_merchant) -> admits (tables paid) id c.
Proof.
  intros Hm. assert (Hlogs : audit_logs (tables paid) = ∅) by evaluate. split.
  - rewrite Hlogs. apply lookup_empty.
  - rewrite Hm. intros m [= <-]. apply has_row_true. evaluate.
Qed.

Lemma writes_audited_witness :
  exists c action resource id now es1 s2 row,
    answer (ServeHTTP main_deps signed_request) (demo 1000) = Some c /\
    (rq_Method signed_request, rq_Path signed_request, action, resource) ∈ writes /\
    run (persist_entry true (audit_entry id now action resource c)) [] paid = Some (tt, es1, s2) /\
    recorded id now action resource c row /\ tables s2 = apply_write (WAuditLog row) (tables paid).
Proof.
  destruct (run_answered (ServeHTTP main_deps signed_request) (demo 1000) (fun c => (Status c, c_MerchantID c, ClientIP c))
              (201, Some (m_ID demo_merchant), "10.0.0.1")) as (c & Hr & [= Ha Hm Hip]); [evaluate|].
  assert (Hroute : is_Some (route main_deps (rq_Method signed_request) (rq_Path signed_request))) by (eexists; reflexivity).
  destruct Hroute as [hs Hroute].
  destruct (writes_audited main_deps signed_request (demo 1000) c _ _ hs (demo_ready _ _) (demo_idle _ _) eq_refl Hroute
              ltac:(discriminate) Hr ltac:(rewrite Ha; lia))
    as (action & resource & before & id & now & Hw & _ & _ & _ & Hstored).
  destruct (Hstored paid eq_refl) as (es1 & s2 & row & H1 & H2 & H3).
  - exact (request_ready main_deps signed_request (demo 1000) c _ _ (demo_ready _ _) Hr).
  - exact (request_idle main_deps signed_request (demo 1000) c _ _ (demo_ready _ _) (demo_idle _ _) Hr).
  - exact (run_reliable _ _ _ _ _ _ (demo_reliable _) Hr).
  - exact (paid_admits id c Hm).
  - rewrite Hip. evaluate.
  - exists c, action, resource, id, now, es1, s2, row.
    split; [unfold answer; rewrite Hr; reflexivity|]. split; [exact Hw|]. split; [exact H1|]. split; [exact H2|exact H3].
Defined.

(** ** Money over HTTP *)

(** More than the wallet holds. *)
Definition too_much : Request := demo_signed "/api/v1/payments" (payment_body "ORD-1" 1001) "n-1".

(** The payment is returned. *)
Definition refund_request : Request :=
  demo_signed "/api/v1/payments/refund"
    (json_print (JObj [("original_reference_id", JStr "ORD-1"); ("reason", JStr "broken")])) "n-2".

Lemma http_paid_ready : ready paid.
Proof.
  destruct (run_some (ServeHTTP main_deps signed_request) (demo 1000)) as [c Hr]; [evaluate|].
  exact (request_ready main_deps signed_request (demo 1000) c _ _ (demo_ready _ _) Hr).
Qed.

Lemma money_answered_witness :
  (exists c m txn, answer (ServeHTTP main_deps signed_request) (demo 1000) = Some c /\ transaction_answer txn c /\
     movement_step m txn (demo_tables 1000) (tables paid)) /\
  (exists c, answer (ServeHTTP main_deps refund_request) paid = Some c /\ Status c = StatusCreated) /\
  exists c, answer (ServeHTTP main_deps too_much) (demo 1000) = Some c /\ 400 <= Status c.
Proof.
  split; [|split].
  - destruct (run_answered (ServeHTTP main_deps signed_request) (demo 1000) Status StatusCreated) as (c & Hr & Hst); [evaluate|].
    pose proof (money_answered main_deps RPayment signed_request (demo 1000) c _ _ (demo_ready _ _) eq_refl eq_refl Hr) as H.
    rewrite Hst in H. destruct H as (mid & c0 & m & txn & _ & _ & Hans & [Hstep|(key & _ & [row Hrow] & _)]).
    + exists c, m, txn. split; [unfold answer; rewrite Hr; reflexivity|]. split; [exact Hans|exact Hstep].
    + exfalso. destruct Hrow as [(k & _ & Hl) _].
      change (tables (demo 1000)) with (demo_tables 1000) in Hl. rewrite demo_no_log, lookup_empty in Hl. discriminate Hl.
  - destruct (run_answered (ServeHTTP main_deps refund_request) paid Status StatusCreated) as (c & Hr & Hst); [evaluate|].
    pose proof (money_answered main_deps RRefund refund_request paid c _ _ http_paid_ready eq_refl eq_refl Hr) as H.
    exists c. split; [unfold answer; rewrite Hr; reflexivity|exact Hst].
  - destruct (run_answered (ServeHTTP main_deps too_much) (demo 1000) Status 402) as (c & Hr & Hst); [evaluate|].
    pose proof (money_answered main_deps RPayment too_much (demo 1000) c _ _ (demo_ready _ _) eq_refl eq_refl Hr) as H.
    rewrite Hst in H. destruct H as [Hge _]. exists c. split; [unfold answer; rewrite Hr; reflexivity|]. rewrite Hst. exact Hge.
Defined.

(** Without a token, the top-up is turned away for that reason. *)
Definition bare_topup : Request := demo_http "POST" "/api/v1/wallets/topup" "" [].

Lemma money_decided_witness :
  exists c es s', run (ServeHTTP main_deps bare_topup) [] (demo 1000) = Some (c, es, s') /\
    verdict false main_deps RTopup bare_topup (view (demo 1000)) (v_clock (view s')) c (tables s') es /\ Status c = 401.
Proof.
  destruct (money_decided main_deps RTopup bare_topup (demo 1000) (demo_ready _ _) (demo_idle _ _) (demo_reliable _) eq_refl eq_refl)
    as (c & es & s' & Hrun & Hv & _).
  destruct (run_answered (ServeHTTP main_deps bare_topup) (demo 1000) Status 401) as (c2 & Hr & Hst); [evaluate|].
  destruct (run_same _ _ _ _ _ _ _ _ _ Hrun Hr) as (-> & -> & ->). exists c2. eexists _, _. split; [exact Hrun|]. split; [exact Hv|exact Hst].
Defined.

(** The merchant signed the request, and the second it takes is in time. *)
Lemma signed_request_by : signed_by (demo_tables 1000) (entry signed_request) demo_merchant 1700000000 (payment_body "ORD-1" 250).
Proof.
  split; [exists (uuid_n 1); apply lookup_insert_eq|evaluate|evaluate|evaluate|evaluate|].
  exists "s3cret". split; evaluate.
Qed.

Lemma nonempty_headers c names :
  forallb (fun name => negb (GetHeader c name =? "")%string) names = true -> forall name, name ∈ names -> GetHeader c name <> "".
Proof. rewrite forallb_forall. intros Hall name Hin%list_elem_of_In%Hall He. by rewrite He in Hin. Qed.

Lemma in_time now : 1700000000 * Second <= now <= 1700000001 * Second -> drifted now 1700000000 = false.
Proof.
  intros Hn. pose proof (Unix_bounds now) as Hu. unfold Second in *.
  apply drifted_spec; [lia|unfold in_int64, min_int64, max_int64; lia|lia].
Qed.

(** The payment leaves the merchant its webhook. *)
Lemma paid_webhook txn :
  tx_MerchantID txn = uuid_n 1 -> webhook_of (tables paid) txn = Some ("http://shop.example/hook", demo_merchant).
Proof.
  intros Ht. transitivity (webhook_of (tables paid) demo_txn); [|evaluate]. unfold webhook_of. by rewrite Ht.
Qed.

Lemma payment_accepted_witness :
  exists c es s' txn, run (ServeHTTP main_deps signed_request) [] (demo 1000) = Some (c, es, s') /\ transaction_answer txn c /\
    payment_step (mkPaymentRequest (uuid_n 1) "ORD-1" 250 "VND" "" "10.0.0.1" None) txn (demo_tables 1000) (tables s') /\
    exists currency now, delivery_of true txn "http://shop.example/hook" "s3cret" currency now ∈ es.
Proof.
  destruct (payment_accepted main_deps signed_request (demo 1000) demo_merchant 1700000000 (payment_body "ORD-1" 250)
              (mkPaymentBody "ORD-1" 250 "VND" None) (demo_wallet 1000) 1000
              (demo_ready _ _) (demo_idle _ _) (demo_reliable _) eq_refl eq_refl) as (c & es & s' & Hrun & Hacc).
  - intros rule wid s e n _ Hrow. simpl in Hrow. rewrite lookup_empty in Hrow. discriminate Hrow.
  - evaluate.
  - apply lookup_empty.
  - split; [apply lookup_insert_eq|]. split; [evaluate|]. apply demo_only_wallet. evaluate.
  - evaluate.
  - destruct (run_answered (ServeHTTP main_deps signed_request) (demo 1000) Status StatusCreated) as (c2 & Hr & Hst); [evaluate|].
    destruct (run_same _ _ _ _ _ _ _ _ _ Hrun Hr) as (-> & -> & ->). destruct Hacc as [(txn & Hans & Hstep & Hno)|(e & txn & Hans & He & _)].
    + split; [exact signed_request_by| | |].
      * apply nonempty_headers. evaluate.
      * apply lookup_empty.
      * intros now Hn. apply in_time. assert (Hlate : (v_clock (view paid) <=? 1700000001 * Second) = true) by evaluate.
        apply Z.leb_le in Hlate. change (v_clock (view (demo 1000))) with (1700000000 * Second) in Hn. lia.
    + split; try (split_and!; [evaluate|evaluate|simpl; lia]); [exists demo_merchant; apply lookup_insert_eq|done|simpl; lia].
    + exists c2. eexists _, _. exists txn. split; [exact Hrun|]. split; [exact Hans|]. split; [exact Hstep|].
      apply (Hno eq_refl eq_refl "http://shop.example/hook" demo_merchant "s3cret"); [|evaluate].
      destruct Hstep as [(id & wid & enc & now & _ & ->) _]. by apply paid_webhook.
    + exfalso. apply (refusal_not_created c2); [|exact Hst]. exact (answers_refusal e c2 (registered_refusal e He) Hans).
Defined.
