(* ===== verification/ServiceWitnesses.v ===== *)
(** The theorems on deliveries, reports, the abstract bank and the codecs at concrete inputs, on
    the world of [Demo]. *)

From S2P Require Import Demo Delivery Reports Bank Codecs PaymentWitnesses.

(** ** Deliveries *)

Definition demo_payload : WebhookPayload := signed_payload demo_txn "s3cret" "VND" (1700000000 * Second).

(** The merchant's server is down, then overloaded, then accepts. *)
Definition flaky : @St _ ServerBackend :=
  mkServer (mkEnv (fun _ => 1000000) (fun n => uuid_n (10 + Z.of_nat n)) (fun n k => byte_of (Z.of_nat (n + k)))
              no_faults (fun _ => O) 1
              (fun n => if (n <? 6)%nat then inr "connection refused" else if (n <? 9)%nat then inl 503 else inl 204))
    0 (mkView (demo_tables 1000) ∅ ∅ ∅ (1700000000 * Second)).
Local Abbreviation delivery := (deliverWithRetries true "http://shop.example/hook" demo_payload (tx_ID demo_txn) (m_ID demo_merchant)).
Local Abbreviation demo_url := "http://shop.example/hook".

Lemma flaky_ready : ready flaky.
Proof.
  split_and!.
  - by apply locks_ok_idle.
  - apply demo_wf.
  - intros k s e H. simpl in H. by rewrite lookup_empty in H.
Qed.

Lemma delivery_plan_witness :
  ends delivery flaky = true /\
  exists id rs, trace delivery flaky = Drew id :: delivery_trace demo_url (json_print (payload_json demo_payload)) 0 rs /\
                conclusive 6 rs.
Proof.
  split; [evaluate|].
  destruct (run_some delivery flaky) as [[] Hr]; [evaluate|].
  exact (delivery_plan true demo_url demo_payload (tx_ID demo_txn) (m_ID demo_merchant) flaky _ _ flaky_ready eq_refl Hr).
Defined.

Lemma delivery_recorded_witness :
  exists id rs s', run delivery [] flaky = Some (tt, Drew id :: delivery_trace demo_url (json_print (payload_json demo_payload)) 0 rs, s') /\
                   conclusive 6 rs.
Proof.
  destruct (delivery_recorded demo_url demo_payload (tx_ID demo_txn) (m_ID demo_merchant) flaky flaky_ready (idleb_idle flaky eq_refl)) as (id & rs & s' & H1 & H2 & _).
  - intros n _. reflexivity.
  - reflexivity.
  - exists id, rs, s'. split; [exact H1|exact H2].
Defined.

Lemma demo_webhook : webhook_of (tables (demo 1000)) demo_txn = Some (demo_url, demo_merchant).
Proof. evaluate. Qed.

Lemma webhook_enqueued_witness :
  exists payload s',
    run (EnqueueWebhook true demo_txn) [] (demo 1000) =
      Some (Ok tt, [Spawned (deliverWithRetries true demo_url payload (tx_ID demo_txn) (m_ID demo_merchant))], s') /\
    tables s' = demo_tables 1000 /\
    Verify "s3cret" (json_print (data_json (pl_Data payload))) (pl_Signature payload) = true.
Proof.
  destruct (run_ok (EnqueueWebhook true demo_txn) (demo 1000)) as [[] Hr]; [evaluate|].
  destruct (webhook_enqueued true demo_txn (demo 1000) _ _ (demo_ready _ _) Hr) as [HT Hw].
  rewrite demo_webhook in Hw. destruct Hw as (key & payload & Hes & Hk & Hv & _).
  assert (Hk' : Decrypt (m_SecretKeyEnc demo_merchant) = Ok "s3cret") by evaluate.
  rewrite Hk' in Hk. injection Hk as <-. exists payload. eexists. split; [|split; [exact HT|exact Hv]].
  rewrite Hr, Hes. reflexivity.
Defined.

(** ** Reports *)

Lemma balance_reported_witness :
  exists es s', run (GetWalletBalance (m_ID demo_merchant)) [] (demo 1000) = Some (Ok (1000, "VND"), es, s') /\ tables s' = demo_tables 1000.
Proof.
  apply (balance_reported (m_ID demo_merchant) (demo 1000) (w_ID (demo_wallet 1000)) (demo_wallet 1000) 1000 (demo_ready _ _) (demo_idle _ _) (demo_reliable _)).
  - apply lookup_insert_eq.
  - evaluate.
  - intros id' w' Hw' _. destruct (demo_row_wallet 1000 _ _ Hw') as [-> _]. reflexivity.
  - evaluate.
Defined.

(** The first page of successful payments, one to a page. *)
Definition demo_page : TransactionListParams :=
  mkTransactionListParams (uuid_n 1) (Some TransactionStatusSuccess) (Some TransactionTypePayment) None None 1 1.

Local Abbreviation paid := (after (ProcessPayment (demo_payment "ORD-1" 250)) (demo 1000)).

(** All since the year 300000, which the database's calendar does not reach. *)
Definition late_page : TransactionListParams :=
  mkTransactionListParams (uuid_n 1) None None (Some 9404813318400) None 1 20.

Lemma list_exact_witness :
  (exists r es s', run (ListTransactions demo_page) [] paid = Some (r, es, s') /\ tables s' = tables paid /\
                   list_answer demo_page (tables paid) r /\ filters_read demo_page && (0 <=? page_start demo_page) = true) /\
  (exists e es s', run (ListTransactions late_page) [] paid = Some (Err (InternalError e), es, s') /\ tables s' = tables paid).
Proof.
  split.
  - destruct (list_exact demo_page paid (proj1 paid_ready) ltac:(apply idleb_idle; evaluate) paid_reliable ltac:(simpl; lia))
      as (r & es & s' & Hr & HT & Hl).
    exists r, es, s'. split; [exact Hr|]. split; [exact HT|]. split; [exact Hl|reflexivity].
  - destruct (list_exact late_page paid (proj1 paid_ready) ltac:(apply idleb_idle; evaluate) paid_reliable ltac:(simpl; lia))
      as (r & es & s' & Hr & HT & [e He]).
    exists e, es, s'. rewrite He in Hr. exact (conj Hr HT).
Defined.

Lemma stats_exact_witness :
  exists r es s' now,
    run (GetDashboardStats (m_ID demo_merchant) "day") [] paid = Some (r, es, s') /\ tables s' = tables paid /\
    stats_answer (m_ID demo_merchant) (Some (Unix (now - 24 * Hour))) (tables paid) r.
Proof.
  destruct (stats_exact (m_ID demo_merchant) "day" paid (proj1 paid_ready) ltac:(apply idleb_idle; evaluate) paid_reliable)
    as (r & es & s' & now & H1 & H2 & _ & H3).
  exists r, es, s', now. split; [exact H1|]. split; [exact H2|exact H3].
Defined.

(** ** The bank *)

Lemma gateway_refines_bank_witness : rtc bank_step (bank_of (demo_tables 1000)) (bank_of (tables crowded)).
Proof. exact (gateway_refines_bank (demo 1000) crowded (demo_ready _ _) (demo_ok _) crowded_reachable). Defined.

(** ** Codecs *)

Definition answer_json : string := match Marshal_Transaction demo_txn with Ok data => data | Err _ => "" end.

Lemma cached_answer_roundtrip_witness :
  exists data kept, Marshal_Transaction demo_txn = Ok data /\ jsonb_col data = Ok kept /\
                    unmarshalCachedTransaction kept = Ok (visible demo_txn).
Proof.
  assert (Hm : Marshal_Transaction demo_txn = Ok answer_json) by evaluate.
  assert (Hj : jsonb_col answer_json = Ok answer_json) by evaluate.
  assert (Hs : store_transaction demo_txn = Ok demo_txn) by evaluate.
  exists answer_json, answer_json. split; [exact Hm|]. split; [exact Hj|].
  exact (proj2 (proj2 (cached_answer_roundtrip demo_txn demo_txn answer_json answer_json
           ltac:(unfold in_int64, min_int64, max_int64; simpl; lia) Hs Hm Hj))).
Defined.

Definition zero_key : string := string_of (repeat 48 64).

Lemma encryption_roundtrip_witness :
  exists cipher, answer (aes_Encrypt demo_key "attack at dawn") (demo 1000) = Some (Ok cipher) /\
                 aes_Decrypt demo_key cipher = Ok "attack at dawn".
Proof.
  assert (Hk : NewAESEncryptionService zero_key = Ok demo_key) by evaluate.
  destruct (run_ok (aes_Encrypt demo_key "attack at dawn") (demo 1000)) as [cipher Hr]; [evaluate|].
  destruct (encryption_roundtrip zero_key demo_key "attack at dawn" (demo 1000) (Ok cipher) _ _ Hk
              (ready_locked _ (demo_ready _ _)) Hr) as (_ & Hd & _).
  exists cipher. split; [unfold answer; rewrite Hr; reflexivity|exact Hd].
Defined.

Lemma canonical_injective_witness :
  hmac_BuildCanonicalString "POST" "/api/v1/payments" 7 "n-1" "{}" <> hmac_BuildCanonicalString "POST" "/api/v1/payments" 7 "n-2" "{}".
Proof.
  intros H.
  destruct (canonical_injective "POST" "/api/v1/payments" 7 "n-1" "{}" "POST" "/api/v1/payments" 7 "n-2" "{}"
              eq_refl eq_refl eq_refl eq_refl eq_refl eq_refl
              ltac:(unfold in_int64, min_int64, max_int64; lia) ltac:(unfold in_int64, min_int64, max_int64; lia) H)
    as (_ & _ & _ & [=] & _).
Defined.

Lemma idempotency_keys_distinct_witness :
  BuildIdempotencyKey (m_ID demo_merchant) "ORD-1" <> BuildRefundIdempotencyKey (m_ID demo_merchant) "ORD-1".
Proof.
  assert (Hb : ShouldBindJSON (mkReader (payment_body "ORD-1" 250) None) = Ok (mkPaymentBody "ORD-1" 250 "VND" None)) by evaluate.
  exact (proj1 (idempotency_keys_distinct _ _ (m_ID demo_merchant) (m_ID demo_merchant) "ORD-1" Hb)).
Defined.
