(* ===== verification/StartupWitnesses.v ===== *)
(** Configuration and startup at a concrete environment: no file, the keys and the database's
    host in variables. *)

From S2P Require Import Demo StartupTheorems ServiceWitnesses.
From Stdlib Require Import Ascii.

Definition environment (name : string) : string :=
  headers [("SPG_AES_KEY", zero_key); ("SPG_JWT_SECRET", "jwt secret"); ("SPG_DATABASE_HOST", "db.internal")] name.

(** Durations of whole minutes or hours. *)
Definition parse_duration (s : string) : res duration :=
  let n := (String.length s - 1)%nat in
  let! z := ParseInt (str_take n s) in
  if (str_drop n s =? "m")%string then Ok (z * Minute)
  else if (str_drop n s =? "h")%string then Ok (z * Hour)
  else Err (ErrLeaf "time: unknown unit").

#[export] Instance EnvViper : ViperLib := {
  ReadInConfig _ := inr ConfigFileNotFoundError;
  Getenv := environment;
  decode_string x := match x with SStr s => Ok s | SInt z => Ok (FormatInt z) | SBool b => Ok (if b then "1" else "0") end;
  decode_int x := match x with SStr s => ParseInt s | SInt z => Ok z | SBool b => Ok (if b then 1 else 0) end;
  decode_int32 x := match x with SStr s => ParseInt s | SInt z => Ok z | SBool b => Ok (if b then 1 else 0) end;
  decode_bool x := match x with SStr s => Ok (s =? "true")%string | SInt z => Ok (negb (z =? 0)) | SBool b => Ok b end;
  decode_duration x := match x with SStr s => parse_duration s | SInt z => Ok z | SBool _ => Err (ErrLeaf "not a duration") end;
  Get v key :=
    let env := environment (env_name v key) in
    if negb (env =? "")%string then Some (SStr env) else
    match lookup_key key (vp_config v) with Some x => Some x | None => lookup_key key (vp_defaults v) end
}.

#[export] Instance EnvViperLaws : ViperLaws.
Proof. by split. Qed.

#[export] Instance LocalPool : PgxPool := {
  ParseConfig s := Ok (mkPoolConfig s 4 0 Hour);
  NewWithConfig _ := Ok tt
}.

Definition demo_config : Config :=
  mkConfig (mkServerConfig "0.0.0.0" 8080 "debug")
    (mkDatabaseConfig "db.internal" 5432 "postgres" "postgres" "payment_gateway" "disable" 20 5 (30 * Minute))
    (mkRedisConfig "localhost" 6379 "" 0) (mkJWTConfig "jwt secret" (24 * Hour) "secure-payment-gateway")
    (mkAESConfig zero_key) (mkLogConfig "info" false).

Lemma demo_Load : Load "" = Ok demo_config.
Proof. evaluate. Qed.


Lemma server_serves_witness :
  exists app s' cs s2, answer (main (Err (ErrLeaf "no such file")) "") (demo 1000) = Some (inl app) /\
    app_Addr app = "0.0.0.0:8080" /\
    serve_all (app_ServeHTTP app) [demo_http "GET" "/health" "" []; demo_http "GET" "/api/v1/wallets/balance" "" []] s' = Some (cs, s2) /\
    length cs = 2%nat.
Proof.
  destruct (server_serves (Err (ErrLeaf "no such file")) "" (demo 1000) (demo_ready _ _) (demo_idle _ _) (demo_reliable _))
    as (r & es & s' & Hrun & _ & Hst & Hserve).
  unfold started in Hst. rewrite demo_Load in Hst.
  assert (Hp : pool_ok (c_Database demo_config) = true) by evaluate.
  assert (Hk : key_ok (ae_Key (c_AES demo_config)) = true) by evaluate.
  rewrite Hp, Hk in Hst. destruct Hst as (app & -> & Haddr & _).
  destruct (Hserve app [demo_http "GET" "/health" "" []; demo_http "GET" "/api/v1/wallets/balance" "" []] eq_refl) as (cs & s2 & H1 & H2 & _).
  exists app, s', cs, s2. split; [unfold answer; rewrite Hrun; reflexivity|]. split; [rewrite Haddr; evaluate|]. split; [exact H1|exact H2].
Defined.
